(** * Document completion state machine of documenso

    A shallow embedding of [sendDocument]
    (packages/lib/server-only/document/send-document.ts) and of
    [completeDocumentWithToken] (same file, second module), over an
    explicit model of the relational store, of the job / mail / webhook
    collaborators and of failing [await]s.

    Then the other programs of the sources, over a second monad whose
    awaited calls fail on a schedule: the job script
    (packages/prisma/jobs-cli.ts), [compressPdf] (same file, last
    module) and the two versions of [replaceTemplatePdf]
    (packages/lib/server-only/template/replace-template-pdf.ts and
    unnamed/part_000).

    Layout: enumerations and rows, the store, the effect monad, the
    store operations, the two programs, sample data and the vocabulary
    of the statements, the other programs with theirs; then the lemmas
    and the theorems. *)

From Stdlib Require Import ZArith List String Bool Lia Arith.
From Stdlib Require Import RelationClasses.
Import ListNotations.
Local Open Scope string_scope.
Local Open Scope Z_scope.

Set Implicit Arguments.

(* ================================================================= *)
(** ** Enumerations (the [@prisma/client] enums the code mentions)     *)
(* ================================================================= *)

(** Modelled from the spec: the Prisma enum declarations are not among
    the sources; §3 gives the three envelope states. *)
Inductive DocumentStatus := DRAFT | PENDING | COMPLETED.

Inductive DocumentSigningOrder := PARALLEL | SEQUENTIAL.

Inductive EnvelopeType := DOCUMENT | TEMPLATE.

(** Modelled from the spec: §3 "role (SIGNER | CC | ...)"; the code only
    ever tests a role against [CC]. *)
Inductive RecipientRole := CC | SIGNER | VIEWER | APPROVER | ASSISTANT.

Inductive SigningStatus := NOT_SIGNED | SIGNED | REJECTED.

Inductive SendStatus := NOT_SENT | SENT.

(** The code tests a field type against ['SIGNATURE'] and
    ['FREE_SIGNATURE'] only. *)
Inductive FieldType :=
  SIGNATURE | FREE_SIGNATURE | INITIALS | NAME | EMAIL | DATE | TEXT
| NUMBER | RADIO | CHECKBOX | DROPDOWN.

Inductive DocumentAuth :=
  ACCOUNT | PASSKEY | TWO_FACTOR_AUTH | PASSWORD | EXPLICIT_NONE.

Scheme Equality for DocumentStatus.
Scheme Equality for DocumentSigningOrder.
Scheme Equality for EnvelopeType.
Scheme Equality for RecipientRole.
Scheme Equality for SigningStatus.
Scheme Equality for SendStatus.
Scheme Equality for FieldType.
Scheme Equality for DocumentAuth.

(** [DOCUMENT_AUDIT_LOG_TYPE] and [RECIPIENT_DIFF_TYPE], as far as used. *)
Inductive AuditLogType :=
  DOCUMENT_SENT
| DOCUMENT_FIELD_INSERTED
| DOCUMENT_RECIPIENT_COMPLETED
| DOCUMENT_ACCESS_AUTH_2FA_FAILED
| DOCUMENT_ACCESS_AUTH_2FA_VALIDATED
| RECIPIENT_UPDATED.

Inductive RecipientDiffType := DIFF_NAME | DIFF_EMAIL.

Inductive WebhookTriggerEvents := WH_DOCUMENT_SENT | WH_DOCUMENT_SIGNED.

Inductive AppErrorCode := UNKNOWN_ERROR | UNAUTHORIZED | TWO_FACTOR_AUTH_FAILED.

(** JSON columns the code hands on without looking inside. *)
Definition Json := string.

(** JavaScript [a || b] on strings: the empty string is falsy. *)
Definition str_or (a b : string) : string :=
  if String.eqb a "" then b else a.

(* ================================================================= *)
(** ** Rows                                                            *)
(* ================================================================= *)

Record RequestMetadata := {
  ipAddress : option string;
  userAgent : option string }.

Record AuditUser := {
  au_id : option Z;
  au_email : string;
  au_name : string }.

(** [ApiRequestMetadata] of [sendDocument]. *)
Record ApiRequestMetadata := {
  api_requestMetadata : RequestMetadata;
  api_source : string;
  api_auth : option string;
  api_auditUser : option AuditUser }.

Module DocumentMeta.
Record t := {
  signingOrder : DocumentSigningOrder;
  allowDictateNextSigner : bool;
  emailSettings : Json }.
End DocumentMeta.

Module Envelope.
Record t := {
  id : string;
  secondaryId : string;
  type : EnvelopeType;
  status : DocumentStatus;
  userId : Z;
  teamId : option Z;
  title : string;
  formValues : option Json;
  authOptions : Json;
  documentMeta : option DocumentMeta.t }.

Definition with_status (s : DocumentStatus) (e : t) : t :=
  {| id := id e; secondaryId := secondaryId e; type := type e;
     status := s; userId := userId e; teamId := teamId e;
     title := title e; formValues := formValues e;
     authOptions := authOptions e; documentMeta := documentMeta e |}.
End Envelope.

Module EnvelopeItem.
Record t := {
  id : string;
  envelopeId : string;
  documentDataId : string }.

Definition with_documentDataId (d : string) (i : t) : t :=
  {| id := id i; envelopeId := envelopeId i; documentDataId := d |}.
End EnvelopeItem.

Module Recipient.
Record t := {
  id : Z;
  envelopeId : string;
  token : string;
  name : string;
  email : string;
  role : RecipientRole;
  signingOrder : option Z;
  signingStatus : SigningStatus;
  sendStatus : SendStatus;
  signedAt : option Z;
  authOptions : Json }.

(** [data: { signingStatus: SIGNED, signedAt: new Date() }] *)
Definition mark_signed (at_ : Z) (r : t) : t :=
  {| id := id r; envelopeId := envelopeId r; token := token r;
     name := name r; email := email r; role := role r;
     signingOrder := signingOrder r; signingStatus := SIGNED;
     sendStatus := sendStatus r; signedAt := Some at_;
     authOptions := authOptions r |}.

(** [data: { sendStatus: SENT, ...(dictated ? { name, email } : {}) }] *)
Definition mark_sent (rename : option (string * string)) (r : t) : t :=
  {| id := id r; envelopeId := envelopeId r; token := token r;
     name := match rename with Some (n, _) => n | None => name r end;
     email := match rename with Some (_, e) => e | None => email r end;
     role := role r;
     signingOrder := signingOrder r; signingStatus := signingStatus r;
     sendStatus := SENT; signedAt := signedAt r;
     authOptions := authOptions r |}.
End Recipient.

Module Field.
Record t := {
  id : Z;
  secondaryId : string;
  envelopeId : string;
  recipientId : Z;
  type : FieldType;
  inserted : bool;
  autosign : bool;
  fieldMeta : Json }.

(** [data: { inserted: true }] *)
Definition mark_inserted (f : t) : t :=
  {| id := id f; secondaryId := secondaryId f; envelopeId := envelopeId f;
     recipientId := recipientId f; type := type f; inserted := true;
     autosign := autosign f; fieldMeta := fieldMeta f |}.
End Field.

Module Signature.
Record t := {
  fieldId : Z;
  recipientId : Z;
  typedSignature : string }.
End Signature.

(** The [data] member of an audit entry, one shape per entry kind. *)
Inductive AuditLogData :=
| DataNone
| DataFieldInserted (recipientEmail : string) (recipientId : Z)
    (recipientName : string) (recipientRole : RecipientRole)
    (fieldId : string) (fieldType : FieldType) (fieldData : string)
| DataRecipientCompleted (recipientEmail recipientName : string)
    (recipientId : Z) (recipientRole : RecipientRole)
    (actionAuth : list DocumentAuth)
| DataAccessAuth (recipientId : Z) (recipientName recipientEmail : string)
| DataRecipientUpdated (recipientEmail recipientName : string)
    (recipientId : Z) (recipientRole : RecipientRole)
    (changes : list (RecipientDiffType * string * string)).

Module AuditLog.
Record t := {
  type : AuditLogType;
  envelopeId : string;
  userId : option Z;
  email : option string;
  name : option string;
  userAgent : option string;
  ipAddress : option string;
  data : AuditLogData }.
End AuditLog.

(** The object literal given as [metadata] to [createDocumentAuditLogData].
    Its declared type is [ApiRequestMetadata]; in
    [completeDocumentWithToken] it is built by spreading a plain
    [RequestMetadata], which leaves that object's [ipAddress] and
    [userAgent] as undeclared top-level members ([md_stray]). *)
Record MetadataArg := {
  md_requestMetadata : RequestMetadata;
  md_source : option string;
  md_auth : option string;
  md_auditUser : option AuditUser;
  md_stray : option RequestMetadata }.

Record CreateDocumentAuditLogDataOptions := {
  o_type : AuditLogType;
  o_envelopeId : string;
  o_user : option AuditUser;
  o_requestMetadata : option RequestMetadata;
  o_metadata : option MetadataArg;
  o_data : AuditLogData }.

Definition nonempty (s : string) : option string :=
  if String.eqb s "" then None else Some s.

Definition orElse {A} (a b : option A) : option A :=
  match a with Some _ => a | None => b end.

(** Modelled from the spec: [createDocumentAuditLogData]
    (lib/utils/document-audit-logs) is not among the sources. Following
    §4.2, §4.4 and §9 the stored entry carries the IP address and user
    agent of the call's [metadata.requestMetadata], else those of its
    [requestMetadata] argument, else none; the acting user is the [user]
    argument, else [metadata.auditUser]; kind, envelope and data are
    stored as passed. Members of [metadata] outside its declared type are
    not read. *)
Definition createDocumentAuditLogData
    (o : CreateDocumentAuditLogDataOptions) : AuditLog.t :=
  let user := orElse (o_user o)
                (match o_metadata o with
                 | Some m => md_auditUser m | None => None end) in
  let viaMeta (p : RequestMetadata -> option string) :=
    match o_metadata o with
    | Some m => p (md_requestMetadata m) | None => None end in
  let viaArg (p : RequestMetadata -> option string) :=
    match o_requestMetadata o with Some rm => p rm | None => None end in
  {| AuditLog.type := o_type o;
     AuditLog.envelopeId := o_envelopeId o;
     AuditLog.userId := match user with Some u => au_id u | None => None end;
     AuditLog.email :=
       match user with Some u => nonempty (au_email u) | None => None end;
     AuditLog.name :=
       match user with Some u => nonempty (au_name u) | None => None end;
     AuditLog.userAgent := orElse (viaMeta userAgent) (viaArg userAgent);
     AuditLog.ipAddress := orElse (viaMeta ipAddress) (viaArg ipAddress);
     AuditLog.data := o_data o |}.

(* ================================================================= *)
(** ** The store                                                       *)
(* ================================================================= *)

(** One list of rows per table; rows carry their keys. *)
Record Db := {
  envelopes : list Envelope.t;
  envelopeItems : list EnvelopeItem.t;
  recipients : list Recipient.t;
  fields : list Field.t;
  signatures : list Signature.t;
  documentAuditLogs : list AuditLog.t }.

Definition set_envelopes (x : list Envelope.t) (d : Db) : Db :=
  {| envelopes := x; envelopeItems := envelopeItems d;
     recipients := recipients d; fields := fields d;
     signatures := signatures d; documentAuditLogs := documentAuditLogs d |}.

Definition set_envelopeItems (x : list EnvelopeItem.t) (d : Db) : Db :=
  {| envelopes := envelopes d; envelopeItems := x;
     recipients := recipients d; fields := fields d;
     signatures := signatures d; documentAuditLogs := documentAuditLogs d |}.

Definition set_recipients (x : list Recipient.t) (d : Db) : Db :=
  {| envelopes := envelopes d; envelopeItems := envelopeItems d;
     recipients := x; fields := fields d;
     signatures := signatures d; documentAuditLogs := documentAuditLogs d |}.

Definition set_fields (x : list Field.t) (d : Db) : Db :=
  {| envelopes := envelopes d; envelopeItems := envelopeItems d;
     recipients := recipients d; fields := x;
     signatures := signatures d; documentAuditLogs := documentAuditLogs d |}.

Definition set_signatures (x : list Signature.t) (d : Db) : Db :=
  {| envelopes := envelopes d; envelopeItems := envelopeItems d;
     recipients := recipients d; fields := fields d;
     signatures := x; documentAuditLogs := documentAuditLogs d |}.

Definition set_documentAuditLogs (x : list AuditLog.t) (d : Db) : Db :=
  {| envelopes := envelopes d; envelopeItems := envelopeItems d;
     recipients := recipients d; fields := fields d;
     signatures := signatures d; documentAuditLogs := x |}.

(** [update({ where: { id }, data })]: the row of that key is rewritten. *)
Definition update_where {A} (p : A -> bool) (f : A -> A) (l : list A)
  : list A :=
  map (fun x => if p x then f x else x) l.

(** Relations of an envelope. *)
Definition recipientsOf (d : Db) (envelopeId : string) : list Recipient.t :=
  filter (fun r => String.eqb (Recipient.envelopeId r) envelopeId)
         (recipients d).

Definition fieldsOf (d : Db) (envelopeId : string) : list Field.t :=
  filter (fun f => String.eqb (Field.envelopeId f) envelopeId) (fields d).

Definition itemsOf (d : Db) (envelopeId : string) : list EnvelopeItem.t :=
  filter (fun i => String.eqb (EnvelopeItem.envelopeId i) envelopeId)
         (envelopeItems d).

(** [orderBy: [{ signingOrder: { sort: 'asc', nulls: 'last' } },
               { id: 'asc' }]] *)
Definition recipient_leb (a b : Recipient.t) : bool :=
  match Recipient.signingOrder a, Recipient.signingOrder b with
  | Some x, Some y =>
      (x <? y) || ((x =? y) && (Recipient.id a <=? Recipient.id b))
  | Some _, None => true
  | None, Some _ => false
  | None, None => Recipient.id a <=? Recipient.id b
  end.

Fixpoint insert_by {A} (leb : A -> A -> bool) (x : A) (l : list A) : list A :=
  match l with
  | [] => [x]
  | y :: l' => if leb x y then x :: l else y :: insert_by leb x l'
  end.

Definition sort_by {A} (leb : A -> A -> bool) (l : list A) : list A :=
  fold_right (insert_by leb) [] l.

Definition orderBySigningOrderThenId := sort_by recipient_leb.

(* ================================================================= *)
(** ** Collaborators, effects and failures                             *)
(* ================================================================= *)

(** [EnvelopeIdOptions]: an envelope id or a legacy document id. *)
Inductive EnvelopeIdOptions :=
| ByEnvelopeId (id : string)
| ByDocumentId (id : Z).

Record DerivedAuth := {
  derivedRecipientAccessAuth : list DocumentAuth;
  derivedRecipientActionAuth : list DocumentAuth }.

(** Helpers of the repository that the two programs import and whose
    sources are not at hand; the programs are verified for every choice
    of them. *)
Class Collaborators := {
  (** the [where] clause built by [unsafeBuildEnvelopeIdQuery(id, type)] *)
  unsafeBuildEnvelopeIdQuery :
    EnvelopeIdOptions -> EnvelopeType -> Envelope.t -> bool;
  (** the [envelopeWhereInput] of [getEnvelopeWhereInput] *)
  getEnvelopeWhereInput :
    EnvelopeIdOptions -> EnvelopeType -> Z -> Z -> Envelope.t -> bool;
  mapSecondaryIdToDocumentId : string -> Z;
  extractDocumentAuthMethods : Json -> Json -> DerivedAuth;
  (** [isRecipientAuthorized({ type: 'ACCESS_2FA', ... })] *)
  isRecipientAuthorized :
    Db -> Json -> Recipient.t -> option Z -> Json -> bool;
  (** [extractDerivedDocumentEmailSettings(meta).recipientSigningRequest] *)
  recipientSigningRequest : option DocumentMeta.t -> bool;
  (** required-ness of a field, derived from its type and meta *)
  isRequiredField : Field.t -> bool;
  (** id of the document data stored by [putPdfFileServerSide] *)
  putPdfFileServerSide : Envelope.t -> EnvelopeItem.t -> string }.

Inductive JobName :=
| internal_seal_document
| send_signing_requested_email
| send_recipient_signed_email.

Record JobPayload := {
  jp_userId : option Z;
  jp_documentId : Z;
  jp_recipientId : option Z;
  jp_requestMetadata : option RequestMetadata }.

(** What leaves the process: jobs, the pending mail and webhooks, in the
    order requested. *)
Inductive Effect :=
| TriggerJob (name : JobName) (payload : JobPayload)
| SendPendingEmail (id : EnvelopeIdOptions) (recipientId : Z)
| TriggerWebhook (event : WebhookTriggerEvents)
    (envelope : Envelope.t) (recipients : list Recipient.t)
    (userId : Z) (teamId : option Z).

(** The messages of the [new Error(...)] thrown by the two programs. *)
Inductive ErrorMessage :=
| Document_not_found
| Document_has_no_recipients
| Can_not_send_completed_document
| Missing_envelope_items
| Document_must_be_pending (envelopeId : string)
| Document_has_no_recipient_with_token (envelopeId token : string)
| Recipient_has_already_signed (recipientId : Z)
| Recipient_before_their_turn (recipientId : Z)
| Recipient_has_unsigned_fields (recipientId : Z).

Inductive Exn :=
| Error (message : ErrorMessage)
| AppError (code : AppErrorCode) (message : string) (statusCode : option Z)
| NotFoundError                 (* Prisma: no row for [...OrThrow] / [update] *)
| Rejected.                     (* an awaited collaborator failed *)

Inductive Result (A : Type) :=
| Ok (a : A)
| Throw (e : Exn).
Arguments Ok {A} a.
Arguments Throw {A} e.

(** The world a request runs in. [faultIn = Some k] makes the awaited
    collaborator call number [k] (from 0) fail; [None] lets all succeed.
    [now] is what [new Date()] reads. *)
Record World := {
  db : Db;
  outbox : list Effect;
  now : Z;
  faultIn : option nat }.

Definition set_db (d : Db) (w : World) : World :=
  {| db := d; outbox := outbox w; now := now w; faultIn := faultIn w |}.

Definition set_outbox (o : list Effect) (w : World) : World :=
  {| db := db w; outbox := o; now := now w; faultIn := faultIn w |}.

Definition set_faultIn (k : option nat) (w : World) : World :=
  {| db := db w; outbox := outbox w; now := now w; faultIn := k |}.

(** State and exceptions; a throw keeps the world reached so far. *)
Definition M (A : Type) : Type := World -> Result A * World.

Definition ret {A} (a : A) : M A := fun w => (Ok a, w).

Definition throw {A} (e : Exn) : M A := fun w => (Throw e, w).

Definition bind {A B} (m : M A) (f : A -> M B) : M B :=
  fun w => match m w with
           | (Ok a, w') => f a w'
           | (Throw e, w') => (Throw e, w')
           end.

Notation "x <- m ;; k" := (bind m (fun x => k))
  (at level 61, m at next level, right associativity).
Notation "' pat <- m ;; k" := (bind m (fun x => match x with pat => k end))
  (at level 61, pat pattern, m at next level, right associativity).
Notation "m ;; k" := (bind m (fun _ => k))
  (at level 61, right associativity).

(** [if (c) { throw e }] *)
Definition throwIf (c : bool) (e : Exn) : M unit :=
  if c then throw e else ret tt.

(** [if (c) { m }] *)
Definition when (c : bool) (m : M unit) : M unit :=
  if c then m else ret tt.

(** Every [await] of a collaborator may reject. *)
Definition await : M unit :=
  fun w => match faultIn w with
           | None => (Ok tt, w)
           | Some O => (Throw Rejected, w)
           | Some (S k) => (Ok tt, set_faultIn (Some k) w)
           end.

Definition getDb : M Db := fun w => (Ok (db w), w).

Definition modifyDb (f : Db -> Db) : M unit :=
  fun w => (Ok tt, set_db (f (db w)) w).

Definition emit (e : Effect) : M unit :=
  fun w => (Ok tt, set_outbox (outbox w ++ [e]) w).

(** [new Date()] *)
Definition newDate : M Z := fun w => (Ok (now w), w).

(** [prisma.$transaction(async (tx) => body)]: the store is restored when
    the body throws or the commit fails; what left the process stays. *)
Definition transaction {A} (body : M A) : M A :=
  fun w => match body w with
           | (Ok a, w1) =>
               match await w1 with
               | (Ok _, w2) => (Ok a, w2)
               | (Throw e, w2) => (Throw e, set_db (db w) w2)
               end
           | (Throw e, w1) => (Throw e, set_db (db w) w1)
           end.

(** [for (const x of l) { body }] *)
Fixpoint forEach {A} (l : list A) (body : A -> M unit) : M unit :=
  match l with
  | [] => ret tt
  | x :: l' => body x ;; forEach l' body
  end.

(** A loop that carries a local variable. *)
Fixpoint foldM {A S} (body : S -> A -> M S) (l : list A) (s : S) : M S :=
  match l with
  | [] => ret s
  | x :: l' => s' <- body s x ;; foldM body l' s'
  end.

(** [Set<number>.add]: iteration follows insertion order. *)
Definition set_add (x : Z) (s : list Z) : list Z :=
  if existsb (Z.eqb x) s then s else s ++ [x].

(* ----------------------------------------------------------------- *)
(** *** Store operations                                               *)
(* ----------------------------------------------------------------- *)

Definition envelope_findFirst {I}
    (where_ : Db -> Envelope.t -> bool) (include : Db -> Envelope.t -> I)
  : M (option (Envelope.t * I)) :=
  await ;;
  d <- getDb ;;
  ret (match find (where_ d) (envelopes d) with
       | Some e => Some (e, include d e)
       | None => None
       end).

Definition envelope_findFirstOrThrow {I}
    (where_ : Db -> Envelope.t -> bool) (include : Db -> Envelope.t -> I)
  : M (Envelope.t * I) :=
  r <- envelope_findFirst where_ include ;;
  match r with
  | Some x => ret x
  | None => throw NotFoundError
  end.

Definition recipient_findMany (where_ : Recipient.t -> bool)
  : M (list Recipient.t) :=
  await ;; d <- getDb ;; ret (filter where_ (recipients d)).

Definition recipient_findUnique (id : Z) : M (option Recipient.t) :=
  await ;; d <- getDb ;;
  ret (find (fun r => Recipient.id r =? id) (recipients d)).

Definition field_findMany (where_ : Field.t -> bool) : M (list Field.t) :=
  await ;; d <- getDb ;; ret (filter where_ (fields d)).

(** [findMany({ where, include: { recipient: true } })]: the relation is
    required, so a row comes with the recipient it points to. *)
Definition field_findMany_recipient (where_ : Field.t -> bool)
  : M (list (Field.t * Recipient.t)) :=
  await ;; d <- getDb ;;
  ret (flat_map
         (fun f =>
            match find (fun r => Recipient.id r =? Field.recipientId f)
                       (recipients d) with
            | Some r => [(f, r)]
            | None => []
            end)
         (filter where_ (fields d))).

(** [update] rejects when no row has the key. *)
Definition recipient_update (id : Z) (f : Recipient.t -> Recipient.t)
  : M unit :=
  await ;; d <- getDb ;;
  if existsb (fun r => Recipient.id r =? id) (recipients d)
  then modifyDb (fun d =>
         set_recipients
           (update_where (fun r => Recipient.id r =? id) f (recipients d)) d)
  else throw NotFoundError.

Definition field_update (id : Z) (f : Field.t -> Field.t) : M unit :=
  await ;; d <- getDb ;;
  if existsb (fun x => Field.id x =? id) (fields d)
  then modifyDb (fun d =>
         set_fields
           (update_where (fun x => Field.id x =? id) f (fields d)) d)
  else throw NotFoundError.

Definition envelope_update (id : string) (f : Envelope.t -> Envelope.t)
  : M unit :=
  await ;; d <- getDb ;;
  if existsb (fun e => String.eqb (Envelope.id e) id) (envelopes d)
  then modifyDb (fun d =>
         set_envelopes
           (update_where (fun e => String.eqb (Envelope.id e) id) f
                         (envelopes d)) d)
  else throw NotFoundError.

Definition envelopeItem_update (id : string)
    (f : EnvelopeItem.t -> EnvelopeItem.t) : M unit :=
  await ;; d <- getDb ;;
  if existsb (fun i => String.eqb (EnvelopeItem.id i) id) (envelopeItems d)
  then modifyDb (fun d =>
         set_envelopeItems
           (update_where (fun i => String.eqb (EnvelopeItem.id i) id) f
                         (envelopeItems d)) d)
  else throw NotFoundError.

Definition signature_create (s : Signature.t) : M unit :=
  await ;;
  modifyDb (fun d => set_signatures (signatures d ++ [s]) d).

Definition documentAuditLog_create (a : AuditLog.t) : M unit :=
  await ;;
  modifyDb (fun d => set_documentAuditLogs (documentAuditLogs d ++ [a]) d).

(** [jobs.triggerJob({ name, payload })] *)
Definition triggerJob (name : JobName) (payload : JobPayload) : M unit :=
  await ;; emit (TriggerJob name payload).

Definition envelope_update_returning {I} (id : string)
    (f : Envelope.t -> Envelope.t) (include : Db -> Envelope.t -> I)
  : M (Envelope.t * I) :=
  envelope_update id f ;;
  d <- getDb ;;
  match find (fun e => String.eqb (Envelope.id e) id) (envelopes d) with
  | Some e => ret (e, include d e)
  | None => throw NotFoundError
  end.

(** [sendPendingEmail({ id, recipientId })] *)
Definition sendPendingEmail (id : EnvelopeIdOptions) (recipientId : Z)
  : M unit :=
  await ;; emit (SendPendingEmail id recipientId).

(** [triggerWebhook({ event, data, userId, teamId })] *)
Definition triggerWebhook (event : WebhookTriggerEvents)
    (envelope : Envelope.t) (recipients : list Recipient.t)
    (userId : Z) (teamId : option Z) : M unit :=
  await ;; emit (TriggerWebhook event envelope recipients userId teamId).

(* ================================================================= *)
(** ** The programs                                                    *)
(* ================================================================= *)

Module SendDocumentOptions.
Record t := {
  id : EnvelopeIdOptions;
  userId : Z;
  teamId : Z;
  sendEmail : option bool;
  requestMetadata : ApiRequestMetadata }.
End SendDocumentOptions.

Record NextSigner := {
  ns_email : string;
  ns_name : string }.

Module CompleteDocumentWithTokenOptions.
Record t := {
  token : string;
  id : EnvelopeIdOptions;
  userId : option Z;
  accessAuthOptions : option Json;
  requestMetadata : option RequestMetadata;
  nextSigner : option NextSigner }.
End CompleteDocumentWithTokenOptions.

Module SO := SendDocumentOptions.
Module CO := CompleteDocumentWithTokenOptions.

Definition is_signed (r : Recipient.t) : bool :=
  SigningStatus_beq (Recipient.signingStatus r) SIGNED.

Definition is_cc (r : Recipient.t) : bool :=
  RecipientRole_beq (Recipient.role r) CC.

Definition is_signature_type (t : FieldType) : bool :=
  FieldType_beq t SIGNATURE || FieldType_beq t FREE_SIGNATURE.

Definition signingOrderOf (e : Envelope.t) : option DocumentSigningOrder :=
  option_map DocumentMeta.signingOrder (Envelope.documentMeta e).

Definition is_sequential (o : option DocumentSigningOrder) : bool :=
  match o with Some SEQUENTIAL => true | _ => false end.

Definition recipientUser (r : Recipient.t) : AuditUser :=
  {| au_id := None; au_email := Recipient.email r;
     au_name := Recipient.name r |}.

(** [{ ...requestMetadata,
       requestMetadata: { ...requestMetadata.requestMetadata,
                          ipAddress: undefined } }] in [sendDocument]. *)
Definition autoSignMetadata_send (rm : ApiRequestMetadata) : MetadataArg :=
  {| md_requestMetadata :=
       {| ipAddress := None;
          userAgent := userAgent (api_requestMetadata rm) |};
     md_source := Some (api_source rm);
     md_auth := api_auth rm;
     md_auditUser := api_auditUser rm;
     md_stray := None |}.

(** The same literal in [completeDocumentWithToken], where
    [requestMetadata] is an optional plain [RequestMetadata]: it has no
    member [requestMetadata], so the inner spread adds nothing. *)
Definition autoSignMetadata_complete (rm : option RequestMetadata)
  : MetadataArg :=
  {| md_requestMetadata := {| ipAddress := None; userAgent := None |};
     md_source := None;
     md_auth := None;
     md_auditUser := None;
     md_stray := rm |}.

Section Programs.
Context `{Collab : Collaborators}.

(** Modelled from the spec: [fieldsContainUnsignedRequiredField]
    (lib/utils/advanced-fields-helpers) is not among the sources. §4.1:
    true iff some field of the input is required and not inserted. *)
Definition fieldsContainUnsignedRequiredField (fs : list Field.t) : bool :=
  existsb (fun f => isRequiredField f && negb (Field.inserted f)) fs.

(** Modelled from the spec: §4.3 [activeRecipient]: the recipients that
    are NOT_SIGNED and not CC, ordered by signing order (nulls last)
    then id; the first of them, if any. *)
Definition activeRecipient (rs : list Recipient.t) : option Recipient.t :=
  hd_error
    (orderBySigningOrderThenId
       (filter (fun r =>
                  SigningStatus_beq (Recipient.signingStatus r) NOT_SIGNED
                  && negb (is_cc r)) rs)).

(** Modelled from the spec: [getIsRecipientsTurnToSign]
    (server-only/recipient/get-is-recipient-turn) is not among the
    sources. §4.3 [isRecipientsTurn]: true iff the recipient identified
    by the token is the active recipient of their envelope. *)
Definition isRecipientsTurn (d : Db) (token : string) : bool :=
  match find (fun r => String.eqb (Recipient.token r) token)
             (recipients d) with
  | Some r =>
      match activeRecipient (recipientsOf d (Recipient.envelopeId r)) with
      | Some a => Recipient.id a =? Recipient.id r
      | None => false
      end
  | None => false
  end.

Definition getIsRecipientsTurnToSign (token : string) : M bool :=
  await ;; d <- getDb ;; ret (isRecipientsTurn d token).

(** Modelled from the spec: [isDocumentCompleted] (utils/document) is
    not among the sources. §3: an envelope cannot be re-sent once
    COMPLETED. *)
Definition isDocumentCompleted (s : DocumentStatus) : bool :=
  DocumentStatus_beq s COMPLETED.

(* --------------------------------------------------------------- *)
(** *** Auto-signing, the part both programs share                   *)
(* --------------------------------------------------------------- *)

(** [where: { envelopeId, autosign: true, inserted: false }] *)
Definition autoSignWhere (envelopeId : string) (f : Field.t) : bool :=
  String.eqb (Field.envelopeId f) envelopeId
  && Field.autosign f && negb (Field.inserted f).

Definition recipientFieldsWhere (envelopeId : string) (recipientId : Z)
    (f : Field.t) : bool :=
  String.eqb (Field.envelopeId f) envelopeId
  && (Field.recipientId f =? recipientId).

Definition fieldInsertedLog (envelopeId : string) (metadata : MetadataArg)
    (field : Field.t) (recipient : Recipient.t) : AuditLog.t :=
  createDocumentAuditLogData
    {| o_type := DOCUMENT_FIELD_INSERTED;
       o_envelopeId := envelopeId;
       o_user := None;
       o_requestMetadata := None;
       o_metadata := Some metadata;
       o_data :=
         DataFieldInserted
           (Recipient.email recipient) (Field.recipientId field)
           (str_or (Recipient.name recipient) "")
           (Recipient.role recipient) (Field.secondaryId field)
           (Field.type field)
           (str_or (Recipient.name recipient) (Recipient.email recipient))
    |}.

(** Entry written when auto-signing completes a recipient:
    [actionAuth: []]. *)
Definition autoCompletedLog (envelopeId : string) (metadata : MetadataArg)
    (recipient : Recipient.t) : AuditLog.t :=
  createDocumentAuditLogData
    {| o_type := DOCUMENT_RECIPIENT_COMPLETED;
       o_envelopeId := envelopeId;
       o_user := Some (recipientUser recipient);
       o_requestMetadata := None;
       o_metadata := Some metadata;
       o_data :=
         DataRecipientCompleted
           (Recipient.email recipient) (Recipient.name recipient)
           (Recipient.id recipient) (Recipient.role recipient) [] |}.

Definition autoSignature (field : Field.t) (recipient : Recipient.t)
  : Signature.t :=
  {| Signature.fieldId := Field.id field;
     Signature.recipientId := Field.recipientId field;
     Signature.typedSignature :=
       str_or (Recipient.name recipient) (Recipient.email recipient) |}.

(** Body of [for (const field of autoSignFields)]; the carried value is
    [recipientsWithAutoSignedFields]. *)
Definition autoSignField (envelopeId : string) (metadata : MetadataArg)
    (seen : list Z) (fr : Field.t * Recipient.t) : M (list Z) :=
  let (field, recipient) := fr in
  let seen := set_add (Field.recipientId field) seen in
  when (is_signature_type (Field.type field))
       (signature_create (autoSignature field recipient)) ;;
  field_update (Field.id field) Field.mark_inserted ;;
  documentAuditLog_create
    (fieldInsertedLog envelopeId metadata field recipient) ;;
  ret seen.

Definition markSigned (recipientId : Z) : M unit :=
  at_ <- newDate ;;
  recipient_update recipientId (Recipient.mark_signed at_).

(* --------------------------------------------------------------- *)
(** *** sendDocument                                                 *)
(* --------------------------------------------------------------- *)

(** Body of [for (const recipientId of recipientsWithAutoSignedFields)]
    in [sendDocument]; [snapshot] is [envelope.recipients] as read
    before the transaction. *)
Definition completeAutoSigned_send (envelopeId : string)
    (metadata : MetadataArg) (snapshot : list Recipient.t)
    (recipientId : Z) : M unit :=
  match find (fun r => Recipient.id r =? recipientId) snapshot with
  | None => ret tt
  | Some recipient =>
      recipientFields <-
        field_findMany (recipientFieldsWhere envelopeId recipientId) ;;
      let hasUnsignedRequiredFields :=
        fieldsContainUnsignedRequiredField recipientFields in
      when (negb hasUnsignedRequiredFields && negb (is_signed recipient))
           (markSigned recipientId ;;
            documentAuditLog_create
              (autoCompletedLog envelopeId metadata recipient))
  end.

(** Lines 170-286: auto-sign resolution inside the send transaction. *)
Definition resolveAutoSign_send (envelopeId : string)
    (rm : ApiRequestMetadata) (snapshot : list Recipient.t) : M unit :=
  autoSignFields <- field_findMany_recipient (autoSignWhere envelopeId) ;;
  when (0 <? Z.of_nat (List.length autoSignFields))
       (recipientsWithAutoSignedFields <-
          foldM (autoSignField envelopeId (autoSignMetadata_send rm))
                autoSignFields [] ;;
        forEach recipientsWithAutoSignedFields
                (completeAutoSigned_send envelopeId
                   (autoSignMetadata_send rm) snapshot)).

(** Lines 95-104. The result of the second [filter] is dropped. *)
Definition recipientsToNotify_of (signingOrder : DocumentSigningOrder)
    (recipients : list Recipient.t) : list Recipient.t :=
  match signingOrder with
  | SEQUENTIAL =>
      let recipientsToNotify :=
        firstn 1
          (filter (fun r =>
                     SigningStatus_beq (Recipient.signingStatus r)
                                       NOT_SIGNED
                     && negb (is_cc r)) recipients) in
      let _ :=
        filter (fun r => negb (SendStatus_beq (Recipient.sendStatus r) SENT))
               recipientsToNotify in
      recipientsToNotify
  | PARALLEL => recipients
  end.

Definition injectFormValuesIntoDocument (envelope : Envelope.t)
    (envelopeItem : EnvelopeItem.t) : M unit :=
  await ;;                                   (* getFileServerSide *)
  await ;;                                   (* insertFormValuesInPdf *)
  await ;;                                   (* putPdfFileServerSide *)
  envelopeItem_update (EnvelopeItem.id envelopeItem)
    (EnvelopeItem.with_documentDataId
       (putPdfFileServerSide envelope envelopeItem)).

Definition sealJob (legacyDocumentId : Z) (rm : option RequestMetadata)
  : M unit :=
  triggerJob internal_seal_document
    {| jp_userId := None; jp_documentId := legacyDocumentId;
       jp_recipientId := None; jp_requestMetadata := rm |}.

Definition sendTransaction (envelope : Envelope.t)
    (snapshot : list Recipient.t) (rm : ApiRequestMetadata)
  : M (Envelope.t * list Recipient.t) :=
  resolveAutoSign_send (Envelope.id envelope) rm snapshot ;;
  when (DocumentStatus_beq (Envelope.status envelope) DRAFT)
       (documentAuditLog_create
          (createDocumentAuditLogData
             {| o_type := DOCUMENT_SENT;
                o_envelopeId := Envelope.id envelope;
                o_user := None;
                o_requestMetadata := None;
                o_metadata :=
                  Some {| md_requestMetadata := api_requestMetadata rm;
                          md_source := Some (api_source rm);
                          md_auth := api_auth rm;
                          md_auditUser := api_auditUser rm;
                          md_stray := None |};
                o_data := DataNone |})) ;;
  envelope_update_returning (Envelope.id envelope)
    (Envelope.with_status PENDING)
    (fun d e => recipientsOf d (Envelope.id e)).

(** Lines 320-338; the calls of [Promise.all] are taken in list order. *)
Definition notifyRecipients (o : SO.t) (legacyDocumentId : Z)
    (recipientsToNotify : list Recipient.t) : M unit :=
  forEach recipientsToNotify
    (fun recipient =>
       if SendStatus_beq (Recipient.sendStatus recipient) SENT
          || is_cc recipient
       then ret tt
       else triggerJob send_signing_requested_email
              {| jp_userId := Some (SO.userId o);
                 jp_documentId := legacyDocumentId;
                 jp_recipientId := Some (Recipient.id recipient);
                 jp_requestMetadata :=
                   Some (api_requestMetadata (SO.requestMetadata o)) |}).

(** The [envelopeWhereInput] of lines 47-52. *)
Definition envelopeWhereInput (o : SO.t) (e : Envelope.t) : bool :=
  getEnvelopeWhereInput (SO.id o) DOCUMENT (SO.userId o) (SO.teamId o) e.

Definition hasId (id : string) (e : Envelope.t) : bool :=
  String.eqb (Envelope.id e) id.

(** Lines 81-347: what [sendDocument] does with the envelope it found;
    the block of lines 95-104 is a parameter. *)
Definition sendDocumentFor
    (block : DocumentSigningOrder -> list Recipient.t -> list Recipient.t)
    (o : SO.t) (envelope : Envelope.t) (recipients : list Recipient.t)
    (envelopeItems : list EnvelopeItem.t)
  : M (Envelope.t * list Recipient.t) :=
  throwIf (Nat.eqb (List.length recipients) 0)
          (Error Document_has_no_recipients) ;;
  throwIf (isDocumentCompleted (Envelope.status envelope))
          (Error Can_not_send_completed_document) ;;
  let legacyDocumentId :=
    mapSecondaryIdToDocumentId (Envelope.secondaryId envelope) in
  let signingOrder :=
    match signingOrderOf envelope with
    | Some s => s | None => PARALLEL end in
  let recipientsToNotify := block signingOrder recipients in
  throwIf (Nat.eqb (List.length envelopeItems) 0)
          (Error Missing_envelope_items) ;;
  when (match Envelope.formValues envelope with
        | Some _ => true | None => false end)
       (forEach envelopeItems (injectFormValuesIntoDocument envelope)) ;;
  let allRecipientsHaveNoActionToTake :=
    forallb (fun recipient => is_cc recipient || is_signed recipient)
            recipients in
  if allRecipientsHaveNoActionToTake
  then
    sealJob legacyDocumentId
            (Some (api_requestMetadata (SO.requestMetadata o))) ;;
    envelope_findFirstOrThrow
      (fun _ => hasId (Envelope.id envelope))
      (fun d e => recipientsOf d (Envelope.id e))
  else
    updatedEnvelope <-
      transaction
        (sendTransaction envelope recipients (SO.requestMetadata o)) ;;
    let isRecipientSigningRequestEmailEnabled :=
      recipientSigningRequest (Envelope.documentMeta envelope) in
    when (match SO.sendEmail o with
          | Some b => b
          | None => isRecipientSigningRequestEmailEnabled
          end)
         (notifyRecipients o legacyDocumentId recipientsToNotify) ;;
    triggerWebhook WH_DOCUMENT_SENT
      (fst updatedEnvelope) (snd updatedEnvelope)
      (SO.userId o) (Some (SO.teamId o)) ;;
    ret updatedEnvelope.

(** Lines 47-79: [include: { recipients: { orderBy }, envelopeItems }]. *)
Definition sendInclude (d : Db) (e : Envelope.t)
  : list Recipient.t * list EnvelopeItem.t :=
  (orderBySigningOrderThenId (recipientsOf d (Envelope.id e)),
   itemsOf d (Envelope.id e)).

Definition sendDocumentWith
    (block : DocumentSigningOrder -> list Recipient.t -> list Recipient.t)
    (o : SO.t) : M (Envelope.t * list Recipient.t) :=
  await ;;                                   (* getEnvelopeWhereInput *)
  found <- envelope_findFirst (fun _ => envelopeWhereInput o) sendInclude ;;
  match found with
  | None => throw (Error Document_not_found)
  | Some (envelope, (recipients, envelopeItems)) =>
      sendDocumentFor block o envelope recipients envelopeItems
  end.

Definition sendDocument : SO.t -> M (Envelope.t * list Recipient.t) :=
  sendDocumentWith recipientsToNotify_of.
End Programs.

Section Completion.
Context `{Collab : Collaborators}.

(* --------------------------------------------------------------- *)
(** *** completeDocumentWithToken                                    *)
(* --------------------------------------------------------------- *)

Definition hasToken (token : string) (r : Recipient.t) : bool :=
  String.eqb (Recipient.token r) token.

(** [where: { ...unsafeBuildEnvelopeIdQuery(id, DOCUMENT),
              recipients: { some: { token } } }] *)
Definition envelopeByToken (o : CO.t) (d : Db) (e : Envelope.t) : bool :=
  unsafeBuildEnvelopeIdQuery (CO.id o) DOCUMENT e
  && existsb (hasToken (CO.token o)) (recipientsOf d (Envelope.id e)).

(** [include: { recipients: { where: { token } } }] *)
Definition recipientsByToken (o : CO.t) (d : Db) (e : Envelope.t)
  : list Recipient.t :=
  filter (hasToken (CO.token o)) (recipientsOf d (Envelope.id e)).

(** Lines 460-500: the guards before anything is written. *)
Definition checkPreconditions (o : CO.t) (envelope : Envelope.t)
    (recipients : list Recipient.t) : M Recipient.t :=
  throwIf (negb (DocumentStatus_beq (Envelope.status envelope) PENDING))
          (Error (Document_must_be_pending (Envelope.id envelope))) ;;
  match recipients with
  | [] =>
      throw (Error (Document_has_no_recipient_with_token
                      (Envelope.id envelope) (CO.token o)))
  | recipient :: _ =>
      throwIf (is_signed recipient)
              (Error (Recipient_has_already_signed
                        (Recipient.id recipient))) ;;
      throwIf (SigningStatus_beq (Recipient.signingStatus recipient)
                                 REJECTED)
              (AppError UNKNOWN_ERROR
                 "Recipient has already rejected the document"
                 (Some 400)) ;;
      when (is_sequential (signingOrderOf envelope))
           (isRecipientsTurn <-
              getIsRecipientsTurnToSign (Recipient.token recipient) ;;
            throwIf (negb isRecipientsTurn)
                    (Error (Recipient_before_their_turn
                              (Recipient.id recipient)))) ;;
      fields <- field_findMany
                  (recipientFieldsWhere (Envelope.id envelope)
                                        (Recipient.id recipient)) ;;
      throwIf (fieldsContainUnsignedRequiredField fields)
              (Error (Recipient_has_unsigned_fields
                        (Recipient.id recipient))) ;;
      ret recipient
  end.

Definition accessAuthLog (type : AuditLogType) (envelope : Envelope.t)
    (recipient : Recipient.t) : AuditLog.t :=
  createDocumentAuditLogData
    {| o_type := type;
       o_envelopeId := Envelope.id envelope;
       o_user := None;
       o_requestMetadata := None;
       o_metadata := None;
       o_data := DataAccessAuth (Recipient.id recipient)
                   (Recipient.name recipient) (Recipient.email recipient) |}.

(** Lines 502-552: the access-authentication step. *)
Definition checkAccessAuth (o : CO.t) (envelope : Envelope.t)
    (recipient : Recipient.t) : M unit :=
  let derived :=
    extractDocumentAuthMethods (Envelope.authOptions envelope)
                               (Recipient.authOptions recipient) in
  when (existsb (DocumentAuth_beq TWO_FACTOR_AUTH)
                (derivedRecipientAccessAuth derived))
       (match CO.accessAuthOptions o with
        | None =>
            throw (AppError UNAUTHORIZED
                     "Access authentication required" None)
        | Some accessAuthOptions =>
            await ;;
            d <- getDb ;;
            let isValid :=
              isRecipientAuthorized d (Envelope.authOptions envelope)
                recipient (CO.userId o) accessAuthOptions in
            if negb isValid
            then
              documentAuditLog_create
                (accessAuthLog DOCUMENT_ACCESS_AUTH_2FA_FAILED
                               envelope recipient) ;;
              throw (AppError TWO_FACTOR_AUTH_FAILED
                       "Invalid 2FA authentication" None)
            else
              documentAuditLog_create
                (accessAuthLog DOCUMENT_ACCESS_AUTH_2FA_VALIDATED
                               envelope recipient)
        end).

(** Entry written for the recipient who completes by hand. *)
Definition recipientCompletedLog (o : CO.t) (envelope : Envelope.t)
    (recipient : Recipient.t) : AuditLog.t :=
  createDocumentAuditLogData
    {| o_type := DOCUMENT_RECIPIENT_COMPLETED;
       o_envelopeId := Envelope.id envelope;
       o_user := Some (recipientUser recipient);
       o_requestMetadata := CO.requestMetadata o;
       o_metadata := None;
       o_data :=
         DataRecipientCompleted
           (Recipient.email recipient) (Recipient.name recipient)
           (Recipient.id recipient) (Recipient.role recipient)
           (derivedRecipientActionAuth
              (extractDocumentAuthMethods
                 (Envelope.authOptions envelope)
                 (Recipient.authOptions recipient))) |}.

(** Body of [for (const recipientId of recipientsWithAutoSignedFields)]
    in [completeDocumentWithToken]. *)
Definition completeAutoSigned_complete (envelopeId : string)
    (metadata : MetadataArg) (recipientId : Z) : M unit :=
  recipientToCheck <- recipient_findUnique recipientId ;;
  match recipientToCheck with
  | None => ret tt
  | Some recipientToCheck =>
      if is_signed recipientToCheck then ret tt
      else
        recipientFields <-
          field_findMany (recipientFieldsWhere envelopeId recipientId) ;;
        let hasUnsignedRequiredFields :=
          fieldsContainUnsignedRequiredField recipientFields in
        when (negb hasUnsignedRequiredFields)
             (markSigned recipientId ;;
              documentAuditLog_create
                (autoCompletedLog envelopeId metadata recipientToCheck))
  end.

(** Lines 589-734: auto-sign resolution inside the completion
    transaction ([console.log] calls left out). *)
Definition resolveAutoSign_complete (envelopeId : string)
    (rm : option RequestMetadata) : M unit :=
  allFields <-
    field_findMany (fun f => String.eqb (Field.envelopeId f) envelopeId) ;;
  let nonAutoSignFields :=
    filter (fun f => negb (Field.autosign f)) allFields in
  let allNonAutoSignFieldsComplete :=
    negb (fieldsContainUnsignedRequiredField nonAutoSignFields) in
  when allNonAutoSignFieldsComplete
       (autoSignFields <-
          field_findMany_recipient (autoSignWhere envelopeId) ;;
        recipientsWithAutoSignedFields <-
          foldM (autoSignField envelopeId (autoSignMetadata_complete rm))
                autoSignFields [] ;;
        forEach recipientsWithAutoSignedFields
                (completeAutoSigned_complete envelopeId
                   (autoSignMetadata_complete rm))).

(** Lines 554-735: body of the first transaction. *)
Definition completionTransaction (o : CO.t) (envelope : Envelope.t)
    (recipient : Recipient.t) : M unit :=
  markSigned (Recipient.id recipient) ;;
  documentAuditLog_create (recipientCompletedLog o envelope recipient) ;;
  resolveAutoSign_complete (Envelope.id envelope) (CO.requestMetadata o).

(** [where: { envelopeId, signingStatus: { not: SIGNED },
              role: { not: CC } }] *)
Definition pendingWhere (envelopeId : string) (r : Recipient.t) : bool :=
  String.eqb (Recipient.envelopeId r) envelopeId
  && negb (is_signed r) && negb (is_cc r).

Definition dictatedSigner (o : CO.t) (envelope : Envelope.t)
  : option NextSigner :=
  match CO.nextSigner o, Envelope.documentMeta envelope with
  | Some nextSigner, Some meta =>
      if DocumentMeta.allowDictateNextSigner meta
      then Some nextSigner else None
  | _, _ => None
  end.

Definition recipientUpdatedLog (o : CO.t) (envelope : Envelope.t)
    (recipient nextRecipient : Recipient.t) (nextSigner : NextSigner)
  : AuditLog.t :=
  createDocumentAuditLogData
    {| o_type := RECIPIENT_UPDATED;
       o_envelopeId := Envelope.id envelope;
       o_user := Some (recipientUser recipient);
       o_requestMetadata := CO.requestMetadata o;
       o_metadata := None;
       o_data :=
         DataRecipientUpdated
           (Recipient.email nextRecipient) (Recipient.name nextRecipient)
           (Recipient.id nextRecipient) (Recipient.role nextRecipient)
           [ (DIFF_NAME, Recipient.name nextRecipient, ns_name nextSigner);
             (DIFF_EMAIL, Recipient.email nextRecipient,
              ns_email nextSigner) ] |}.

(** Lines 773-828: body of the second transaction. *)
Definition advanceTransaction (o : CO.t) (envelope : Envelope.t)
    (legacyDocumentId : Z) (recipient nextRecipient : Recipient.t)
  : M unit :=
  match dictatedSigner o envelope with
  | Some nextSigner =>
      documentAuditLog_create
        (recipientUpdatedLog o envelope recipient nextRecipient nextSigner)
  | None => ret tt
  end ;;
  recipient_update (Recipient.id nextRecipient)
    (Recipient.mark_sent
       (option_map (fun s => (ns_name s, ns_email s))
                   (dictatedSigner o envelope))) ;;
  triggerJob send_signing_requested_email
    {| jp_userId := Some (Envelope.userId envelope);
       jp_documentId := legacyDocumentId;
       jp_recipientId := Some (Recipient.id nextRecipient);
       jp_requestMetadata := CO.requestMetadata o |}.

(** Lines 745-830. *)
Definition advance (o : CO.t) (envelope : Envelope.t)
    (legacyDocumentId : Z) (recipient : Recipient.t) : M unit :=
  found <- recipient_findMany (pendingWhere (Envelope.id envelope)) ;;
  let pendingRecipients := orderBySigningOrderThenId found in
  match pendingRecipients with
  | [] => ret tt
  | nextRecipient :: _ =>
      sendPendingEmail (CO.id o) (Recipient.id recipient) ;;
      when (is_sequential (signingOrderOf envelope))
           (transaction
              (advanceTransaction o envelope legacyDocumentId
                                  recipient nextRecipient))
  end.

(** [recipients: { every: { OR: [{ signingStatus: SIGNED },
                                 { role: CC }] } }] *)
Definition allSignedOrCc (rs : list Recipient.t) : bool :=
  forallb (fun r => is_signed r || is_cc r) rs.

(** Lines 832-851. *)
Definition sealIfAllSigned (o : CO.t) (envelope : Envelope.t)
    (legacyDocumentId : Z) : M unit :=
  haveAllRecipientsSigned <-
    envelope_findFirst
      (fun d e => String.eqb (Envelope.id e) (Envelope.id envelope)
                  && allSignedOrCc (recipientsOf d (Envelope.id e)))
      (fun _ _ => tt) ;;
  match haveAllRecipientsSigned with
  | Some _ => sealJob legacyDocumentId (CO.requestMetadata o)
  | None => ret tt
  end.

(** Lines 853-869. *)
Definition signedWebhook (envelope : Envelope.t) : M unit :=
  '(updatedDocument, rs) <-
    envelope_findFirstOrThrow
      (fun _ e => String.eqb (Envelope.id e) (Envelope.id envelope)
                  && EnvelopeType_beq (Envelope.type e) DOCUMENT)
      (fun d e => recipientsOf d (Envelope.id e)) ;;
  triggerWebhook WH_DOCUMENT_SIGNED updatedDocument rs
    (Envelope.userId updatedDocument) (Envelope.teamId updatedDocument).

(** What follows the guards, for the envelope and recipient found. *)
Definition completeFor (o : CO.t) (envelope : Envelope.t)
    (recipient : Recipient.t) : M unit :=
  let legacyDocumentId :=
    mapSecondaryIdToDocumentId (Envelope.secondaryId envelope) in
  checkAccessAuth o envelope recipient ;;
  transaction (completionTransaction o envelope recipient) ;;
  triggerJob send_recipient_signed_email
    {| jp_userId := None; jp_documentId := legacyDocumentId;
       jp_recipientId := Some (Recipient.id recipient);
       jp_requestMetadata := None |} ;;
  advance o envelope legacyDocumentId recipient ;;
  sealIfAllSigned o envelope legacyDocumentId ;;
  signedWebhook envelope.

Definition completeDocumentWithToken (o : CO.t) : M unit :=
  '(envelope, recipients) <-
    envelope_findFirstOrThrow (envelopeByToken o) (recipientsByToken o) ;;
  recipient <- checkPreconditions o envelope recipients ;;
  completeFor o envelope recipient.
End Completion.

(* ================================================================= *)
(** ** Sample data                                                     *)
(* ================================================================= *)

Module Sample.

(** Collaborators of the sample runs: envelopes are addressed by id,
    nobody asks for a second factor, a field is required when its meta
    says so. *)
Definition collaborators : Collaborators :=
  {| unsafeBuildEnvelopeIdQuery :=
       fun i t e =>
         match i with
         | ByEnvelopeId s => String.eqb (Envelope.id e) s
         | ByDocumentId _ => false
         end && EnvelopeType_beq (Envelope.type e) t;
     getEnvelopeWhereInput :=
       fun i t _ _ e =>
         match i with
         | ByEnvelopeId s => String.eqb (Envelope.id e) s
         | ByDocumentId _ => false
         end && EnvelopeType_beq (Envelope.type e) t;
     mapSecondaryIdToDocumentId := fun _ => 7;
     extractDocumentAuthMethods :=
       fun _ _ => {| derivedRecipientAccessAuth := [];
                     derivedRecipientActionAuth := [] |};
     isRecipientAuthorized := fun _ _ _ _ _ => true;
     recipientSigningRequest := fun _ => true;
     isRequiredField := fun f => String.eqb (Field.fieldMeta f) "required";
     putPdfFileServerSide := fun _ _ => "data_new" |}.

Definition meta (s : DocumentSigningOrder) : DocumentMeta.t :=
  {| DocumentMeta.signingOrder := s;
     DocumentMeta.allowDictateNextSigner := false;
     DocumentMeta.emailSettings := "" |}.

Definition envelope (st : DocumentStatus) (s : DocumentSigningOrder)
  : Envelope.t :=
  {| Envelope.id := "env_1"; Envelope.secondaryId := "document_7";
     Envelope.type := DOCUMENT; Envelope.status := st;
     Envelope.userId := 1; Envelope.teamId := Some 1;
     Envelope.title := "contract"; Envelope.formValues := None;
     Envelope.authOptions := ""; Envelope.documentMeta := Some (meta s) |}.

Definition item : EnvelopeItem.t :=
  {| EnvelopeItem.id := "item_1"; EnvelopeItem.envelopeId := "env_1";
     EnvelopeItem.documentDataId := "data_1" |}.

Definition recipient (id : Z) (token : string) (role : RecipientRole)
    (order : Z) (signing : SigningStatus) (send : SendStatus)
  : Recipient.t :=
  {| Recipient.id := id; Recipient.envelopeId := "env_1";
     Recipient.token := token; Recipient.name := token;
     Recipient.email := token ++ "@example.com";
     Recipient.role := role; Recipient.signingOrder := Some order;
     Recipient.signingStatus := signing; Recipient.sendStatus := send;
     Recipient.signedAt := None; Recipient.authOptions := "" |}.

Definition field (id recipientId : Z) (type : FieldType)
    (inserted autosign : bool) (meta : Json) : Field.t :=
  {| Field.id := id; Field.secondaryId := "field";
     Field.envelopeId := "env_1"; Field.recipientId := recipientId;
     Field.type := type; Field.inserted := inserted;
     Field.autosign := autosign; Field.fieldMeta := meta |}.

Definition store (e : Envelope.t) (rs : list Recipient.t)
    (fs : list Field.t) : Db :=
  {| envelopes := [e]; envelopeItems := [item]; recipients := rs;
     fields := fs; signatures := []; documentAuditLogs := [] |}.

Definition world (d : Db) (fault : option nat) : World :=
  {| db := d; outbox := []; now := 1000; faultIn := fault |}.

Definition request : RequestMetadata :=
  {| ipAddress := Some "203.0.113.9"; userAgent := Some "browser" |}.

Definition complete (token : string) : CO.t :=
  {| CO.token := token; CO.id := ByEnvelopeId "env_1";
     CO.userId := None; CO.accessAuthOptions := None;
     CO.requestMetadata := Some request; CO.nextSigner := None |}.

(** The same request, arriving without request metadata. *)
Definition complete_without_metadata (token : string) : CO.t :=
  {| CO.token := token; CO.id := ByEnvelopeId "env_1";
     CO.userId := None; CO.accessAuthOptions := None;
     CO.requestMetadata := None; CO.nextSigner := None |}.

Definition send : SO.t :=
  {| SO.id := ByEnvelopeId "env_1"; SO.userId := 1; SO.teamId := 1;
     SO.sendEmail := None;
     SO.requestMetadata :=
       {| api_requestMetadata := request; api_source := "app";
          api_auth := Some "session"; api_auditUser := None |} |}.

End Sample.

(* ================================================================= *)
(** ** Vocabulary of the statements                                    *)
(* ================================================================= *)

Section Vocabulary.
Context `{Collab : Collaborators}.

(** Only the fault budget separates two worlds. *)
Definition same_store (w w' : World) : Prop :=
  db w' = db w /\ outbox w' = outbox w /\ now w' = now w.

Definition framed (Rd : Db -> Db -> Prop)
    (Ro : list Effect -> list Effect -> Prop) (w w' : World) : Prop :=
  Rd (db w) (db w') /\ Ro (outbox w) (outbox w').

(** Whatever the run does, and wherever it stops, start and end are
    related. *)
Definition respects (Rd : Db -> Db -> Prop)
    (Ro : list Effect -> list Effect -> Prop) {A} (m : M A) : Prop :=
  forall w r w', m w = (r, w') -> framed Rd Ro w w'.

(** No constraint. *)
Definition any {A} : A -> A -> Prop := fun _ _ => True.

(** Rows were only appended, and each appended row satisfies [P]. *)
Definition appends {A} (P : A -> Prop) : list A -> list A -> Prop :=
  fun l l' => exists added, l' = (l ++ added)%list /\ Forall P added.

(** A relation on stores, table by table. *)
Definition on_db
    (Re : list Envelope.t -> list Envelope.t -> Prop)
    (Ri : list EnvelopeItem.t -> list EnvelopeItem.t -> Prop)
    (Rr : list Recipient.t -> list Recipient.t -> Prop)
    (Rf : list Field.t -> list Field.t -> Prop)
    (Rs : list Signature.t -> list Signature.t -> Prop)
    (Rl : list AuditLog.t -> list AuditLog.t -> Prop)
    (d d' : Db) : Prop :=
  Re (envelopes d) (envelopes d') /\
  Ri (envelopeItems d) (envelopeItems d') /\
  Rr (recipients d) (recipients d') /\
  Rf (fields d) (fields d') /\
  Rs (signatures d) (signatures d') /\
  Rl (documentAuditLogs d) (documentAuditLogs d').

Definition envelope_tables_kept : Db -> Db -> Prop :=
  on_db eq eq any any any any.

(** Lines 95-104 with the statement
    [recipientsToNotify.filter((r) => r.sendStatus !== SendStatus.SENT)]
    taken out. *)
Definition recipientsToNotify_filter_removed
    (signingOrder : DocumentSigningOrder) (recipients : list Recipient.t)
  : list Recipient.t :=
  match signingOrder with
  | SEQUENTIAL =>
      firstn 1
        (filter (fun r =>
                   SigningStatus_beq (Recipient.signingStatus r) NOT_SIGNED
                   && negb (is_cc r)) recipients)
  | PARALLEL => recipients
  end.

(** Lines 95-104 as the comment above the filter intends them: the
    filtered list is assigned. *)
Definition recipientsToNotify_filter_assigned
    (signingOrder : DocumentSigningOrder) (recipients : list Recipient.t)
  : list Recipient.t :=
  match signingOrder with
  | SEQUENTIAL =>
      filter (fun r => negb (SendStatus_beq (Recipient.sendStatus r) SENT))
        (firstn 1
           (filter (fun r =>
                      SigningStatus_beq (Recipient.signingStatus r) NOT_SIGNED
                      && negb (is_cc r)) recipients))
  | PARALLEL => recipients
  end.

Definition sendDocument_filter_removed
  : SO.t -> M (Envelope.t * list Recipient.t) :=
  sendDocumentWith recipientsToNotify_filter_removed.

Definition sendDocument_filter_assigned
  : SO.t -> M (Envelope.t * list Recipient.t) :=
  sendDocumentWith recipientsToNotify_filter_assigned.

Definition with_sendStatus (s : SendStatus) (r : Recipient.t) : Recipient.t :=
  {| Recipient.id := Recipient.id r;
     Recipient.envelopeId := Recipient.envelopeId r;
     Recipient.token := Recipient.token r;
     Recipient.name := Recipient.name r;
     Recipient.email := Recipient.email r;
     Recipient.role := Recipient.role r;
     Recipient.signingOrder := Recipient.signingOrder r;
     Recipient.signingStatus := Recipient.signingStatus r;
     Recipient.sendStatus := s;
     Recipient.signedAt := Recipient.signedAt r;
     Recipient.authOptions := Recipient.authOptions r |}.

(** The recipient whose turn it is in the ordered list of an envelope. *)
Definition firstUnsigned (recipients : list Recipient.t)
  : option Recipient.t :=
  find (fun r => SigningStatus_beq (Recipient.signingStatus r) NOT_SIGNED
                 && negb (is_cc r)) recipients.

(** Keys of the items table. *)
Definition itemIds (d : Db) : list string :=
  map EnvelopeItem.id (envelopeItems d).

Definition sealJobOf (o : SO.t) (e : Envelope.t) : Effect :=
  TriggerJob internal_seal_document
    {| jp_userId := None;
       jp_documentId := mapSecondaryIdToDocumentId (Envelope.secondaryId e);
       jp_recipientId := None;
       jp_requestMetadata :=
         Some (api_requestMetadata (SO.requestMetadata o)) |}.

(** Nothing but requests of the seal-document job. *)
Definition seal_request_only (eff : Effect) : Prop :=
  match eff with
  | TriggerJob internal_seal_document _ => True
  | _ => False
  end.

(** A step that reads only: nothing but the fault budget may move, and
    without a budget nothing moves at all. *)
Definition quiet (w w' : World) : Prop :=
  same_store w w' /\ (faultIn w = None -> w' = w).

(** The ways a completion request can be inadmissible, each with the
    error value the code raises for it. *)
Inductive precondition_failure (o : CO.t) (d : Db) : Exn -> Prop :=
| pf_no_recipient :
  find (envelopeByToken o d) (envelopes d) = None ->
  precondition_failure o d NotFoundError
| pf_not_pending e :
  find (envelopeByToken o d) (envelopes d) = Some e ->
  Envelope.status e <> PENDING ->
  precondition_failure o d
    (Error (Document_must_be_pending (Envelope.id e)))
| pf_signed e r rs :
  find (envelopeByToken o d) (envelopes d) = Some e ->
  recipientsByToken o d e = r :: rs ->
  Recipient.signingStatus r = SIGNED ->
  precondition_failure o d
    (Error (Recipient_has_already_signed (Recipient.id r)))
| pf_rejected e r rs :
  find (envelopeByToken o d) (envelopes d) = Some e ->
  recipientsByToken o d e = r :: rs ->
  Recipient.signingStatus r = REJECTED ->
  precondition_failure o d
    (AppError UNKNOWN_ERROR "Recipient has already rejected the document"
              (Some 400))
| pf_not_turn e r rs :
  find (envelopeByToken o d) (envelopes d) = Some e ->
  recipientsByToken o d e = r :: rs ->
  signingOrderOf e = Some SEQUENTIAL ->
  isRecipientsTurn d (Recipient.token r) = false ->
  precondition_failure o d
    (Error (Recipient_before_their_turn (Recipient.id r)))
| pf_unsigned e r rs :
  find (envelopeByToken o d) (envelopes d) = Some e ->
  recipientsByToken o d e = r :: rs ->
  fieldsContainUnsignedRequiredField
    (filter (recipientFieldsWhere (Envelope.id e) (Recipient.id r))
            (fields d)) = true ->
  precondition_failure o d
    (Error (Recipient_has_unsigned_fields (Recipient.id r))).

(** What the guards have established when they let a request through. *)
Definition admissible (o : CO.t) (d : Db) (e : Envelope.t)
    (r : Recipient.t) : Prop :=
  find (envelopeByToken o d) (envelopes d) = Some e /\
  Envelope.status e = PENDING /\
  (exists rs, recipientsByToken o d e = r :: rs) /\
  Recipient.signingStatus r = NOT_SIGNED /\
  (signingOrderOf e = Some SEQUENTIAL ->
   isRecipientsTurn d (Recipient.token r) = true) /\
  fieldsContainUnsignedRequiredField
    (filter (recipientFieldsWhere (Envelope.id e) (Recipient.id r))
            (fields d)) = false.

(** The only ways a recipient row moves: its signing status becomes
    SIGNED and its send status SENT (name, e-mail and the signing date
    are free to change). *)
Definition RecipientStep (r r' : Recipient.t) : Prop :=
  Recipient.id r' = Recipient.id r /\
  Recipient.envelopeId r' = Recipient.envelopeId r /\
  Recipient.token r' = Recipient.token r /\
  Recipient.role r' = Recipient.role r /\
  Recipient.signingOrder r' = Recipient.signingOrder r /\
  (Recipient.signingStatus r' = Recipient.signingStatus r \/
   Recipient.signingStatus r' = SIGNED) /\
  (Recipient.sendStatus r' = Recipient.sendStatus r \/
   Recipient.sendStatus r' = SENT).

(** The only way a field row moves: it becomes inserted. *)
Definition FieldStep (f f' : Field.t) : Prop :=
  f' = f \/ f' = Field.mark_inserted f.

Definition monotone : Db -> Db -> Prop :=
  on_db any any (Forall2 RecipientStep) (Forall2 FieldStep) any any.



(** The action-auth claims an entry carries. *)
Definition actionAuthOf (a : AuditLog.t) : list DocumentAuth :=
  match AuditLog.data a with
  | DataRecipientCompleted _ _ _ _ actionAuth => actionAuth
  | _ => []
  end.

(** An entry as auto-signing writes it: a field insertion or a recipient
    completion, with no IP address and no action-auth claim. *)
Definition system_entry (a : AuditLog.t) : Prop :=
  (AuditLog.type a = DOCUMENT_FIELD_INSERTED \/
   AuditLog.type a = DOCUMENT_RECIPIENT_COMPLETED) /\
  AuditLog.ipAddress a = None /\
  actionAuthOf a = [].

Definition logs_system_entries : Db -> Db -> Prop :=
  on_db any any any any any (appends system_entry).

(** The IP address and user agent of the request, when it has any. *)
Definition requestIp (o : CO.t) : option string :=
  match CO.requestMetadata o with Some rm => ipAddress rm | None => None end.

Definition requestUserAgent (o : CO.t) : option string :=
  match CO.requestMetadata o with Some rm => userAgent rm | None => None end.

(** A signing-requested job goes to a recipient of [rs] that is neither
    SENT nor CC; other effects are not constrained. *)
Definition asks_unsent_of (rs : list Recipient.t) (eff : Effect) : Prop :=
  match eff with
  | TriggerJob send_signing_requested_email p =>
      exists rcp, In rcp rs /\
                  jp_recipientId p = Some (Recipient.id rcp) /\
                  Recipient.sendStatus rcp <> SENT /\
                  Recipient.role rcp <> CC
  | _ => True
  end.

(** The job that asks [next] to sign after a completion. *)
Definition signingRequestedJob (o : CO.t) (e : Envelope.t)
    (legacyDocumentId : Z) (next : Recipient.t) : Effect :=
  TriggerJob send_signing_requested_email
    {| jp_userId := Some (Envelope.userId e);
       jp_documentId := legacyDocumentId;
       jp_recipientId := Some (Recipient.id next);
       jp_requestMetadata := CO.requestMetadata o |}.

(** The recipients still to act after a completion, in signing order. *)
Definition pendingRecipients (d : Db) (envelopeId : string)
  : list Recipient.t :=
  orderBySigningOrderThenId (filter (pendingWhere envelopeId) (recipients d)).

(** An entry of the access-authentication step. *)
Definition access_auth_entry (a : AuditLog.t) : Prop :=
  AuditLog.type a = DOCUMENT_ACCESS_AUTH_2FA_FAILED \/
  AuditLog.type a = DOCUMENT_ACCESS_AUTH_2FA_VALIDATED.

(** Nothing of the completion is in the store: all tables are as they
    were, but for entries of the access-authentication step. *)
Definition untouched : Db -> Db -> Prop :=
  on_db eq eq eq eq eq (appends access_auth_entry).

Definition is_seal_request (eff : Effect) : bool :=
  match eff with
  | TriggerJob internal_seal_document _ => true
  | _ => false
  end.

(** Number of seal-document jobs requested in an outbox. *)
Definition sealRequests (ob : list Effect) : nat :=
  List.length (filter is_seal_request ob).

Definition not_seal_request (eff : Effect) : Prop :=
  is_seal_request eff = false.

(** Everything of a completion before the seal decision: it requests no
    seal job and moves recipients by the permitted steps, leaving the
    envelope table alone. *)
Definition before_seal (o : CO.t) (e : Envelope.t) (rcp : Recipient.t)
  : M unit :=
  checkAccessAuth o e rcp ;;
  transaction (completionTransaction o e rcp) ;;
  triggerJob send_recipient_signed_email
    {| jp_userId := None;
       jp_documentId := mapSecondaryIdToDocumentId (Envelope.secondaryId e);
       jp_recipientId := Some (Recipient.id rcp);
       jp_requestMetadata := None |} ;;
  advance o e (mapSecondaryIdToDocumentId (Envelope.secondaryId e)) rcp.

Definition sealJobFor (o : CO.t) (e : Envelope.t) : Effect :=
  TriggerJob internal_seal_document
    {| jp_userId := None;
       jp_documentId := mapSecondaryIdToDocumentId (Envelope.secondaryId e);
       jp_recipientId := None;
       jp_requestMetadata := CO.requestMetadata o |}.

(** After the first transaction has committed, every row with the id of
    the completing recipient is SIGNED. *)
Definition signed_by_id (id : Z) (d : Db) : Prop :=
  forall r, In r (recipients d) -> Recipient.id r = id ->
            Recipient.signingStatus r = SIGNED.

Definition keeps (Inv : Db -> Prop) {A} (m : M A) (Q : A -> Prop) : Prop :=
  forall w r w',
    Inv (db w) -> m w = (r, w') ->
    Inv (db w') /\ (forall a, r = Ok a -> Q a).

Definition anything {A} : A -> Prop := fun _ => True.

(** A field of the store that lines 171-176 / 607-612 select. *)
Definition pending_autosign (envelopeId : string) (d : Db) (f : Field.t)
  : Prop :=
  In f (fields d) /\ autoSignWhere envelopeId f = true.

(** A recipient row is left alone, or marked SIGNED when it was not. *)
Definition SignStep (r r' : Recipient.t) : Prop :=
  r' = r \/
  (Recipient.signingStatus r <> SIGNED /\
   exists t, r' = Recipient.mark_signed t r).

(** Fields, signatures and field entries of a resolution started in
    [d0]: only selected fields are signed and logged. *)
Definition field_footprint (envelopeId : string) (md : MetadataArg)
    (d0 d : Db) : Prop :=
  Forall2 FieldStep (fields d0) (fields d) /\
  appends (fun s => exists f rc, pending_autosign envelopeId d0 f /\
                                 s = autoSignature f rc)
          (signatures d0) (signatures d) /\
  appends (fun a => AuditLog.type a = DOCUMENT_FIELD_INSERTED ->
                    exists f rc, pending_autosign envelopeId d0 f /\
                                 a = fieldInsertedLog envelopeId md f rc)
          (documentAuditLogs d0) (documentAuditLogs d).

(** Recipients and completion entries of a resolution started in [d0]:
    only recipients that were not SIGNED are marked and logged. *)
Definition recipient_footprint (envelopeId : string) (md : MetadataArg)
    (d0 d : Db) : Prop :=
  Forall2 SignStep (recipients d0) (recipients d) /\
  appends (fun a => AuditLog.type a = DOCUMENT_RECIPIENT_COMPLETED ->
                    exists rc, In rc (recipients d0) /\
                               Recipient.signingStatus rc <> SIGNED /\
                               a = autoCompletedLog envelopeId md rc)
          (documentAuditLogs d0) (documentAuditLogs d).

(** What the auto-sign query returns in store [d]. *)
Definition autoSignQuery (envelopeId : string) (d : Db)
  : list (Field.t * Recipient.t) :=
  flat_map
    (fun f =>
       match find (fun r => Recipient.id r =? Field.recipientId f)
                  (recipients d) with
       | Some r => [(f, r)]
       | None => []
       end)
    (filter (autoSignWhere envelopeId) (fields d)).

(** No field is left for auto-signing. *)
Definition settled (envelopeId : string) (d : Db) : Prop :=
  autoSignQuery envelopeId d = [].

(** The marking loops leave the fields alone and keep the keys of the
    recipients. *)
Definition marks_only : Db -> Db -> Prop :=
  on_db any any (Forall2 RecipientStep) eq any any.

(** Keys, as the schema has them: recipient ids and field ids are
    primary keys, and a field points to a recipient of its own
    envelope. *)
Definition well_keyed (d : Db) : Prop :=
  NoDup (map Recipient.id (recipients d)) /\
  NoDup (map Field.id (fields d)) /\
  (forall f r, In f (fields d) -> In r (recipients d) ->
               Recipient.id r = Field.recipientId f ->
               Recipient.envelopeId r = Field.envelopeId f).

Definition KeyedRecipient (envelopeId : string) (r r' : Recipient.t) : Prop :=
  Recipient.id r' = Recipient.id r /\
  Recipient.envelopeId r' = Recipient.envelopeId r /\
  (Recipient.envelopeId r <> envelopeId -> r' = r).

Definition KeyedField (envelopeId : string) (f f' : Field.t) : Prop :=
  Field.id f' = Field.id f /\
  Field.envelopeId f' = Field.envelopeId f /\
  Field.recipientId f' = Field.recipientId f /\
  (Field.envelopeId f <> envelopeId -> f' = f).

(** The store [d] differs from [d0] in records of the envelope only:
    rows of other envelopes are as they were, new signatures are for
    fields of the envelope, new audit entries are about the envelope. *)
Definition confined (envelopeId : string) (d0 d : Db) : Prop :=
  Forall2 (KeyedRecipient envelopeId) (recipients d0) (recipients d) /\
  Forall2 (KeyedField envelopeId) (fields d0) (fields d) /\
  appends (fun s => exists f, In f (fields d0) /\
                              Field.envelopeId f = envelopeId /\
                              Signature.fieldId s = Field.id f)
          (signatures d0) (signatures d) /\
  appends (fun a => AuditLog.envelopeId a = envelopeId)
          (documentAuditLogs d0) (documentAuditLogs d).

(** A key that, in [d0], belongs to the envelope. *)
Definition recipient_key_of_envelope (E : string) (d0 : Db) (k : Z) : Prop :=
  forall x0, In x0 (recipients d0) -> Recipient.id x0 = k ->
             Recipient.envelopeId x0 = E.

Definition field_key_of_envelope (E : string) (d0 : Db) (k : Z) : Prop :=
  forall x0, In x0 (fields d0) -> Field.id x0 = k ->
             Field.envelopeId x0 = E.

(** Recipient ids gathered by the field loop belong to fields of the
    envelope. *)
Definition from_envelope_fields (E : string) (d0 : Db) (seen : list Z) : Prop :=
  forall rid, In rid seen ->
              exists f0, In f0 (fields d0) /\ Field.envelopeId f0 = E /\
                         Field.recipientId f0 = rid.

End Vocabulary.

(* ================================================================= *)
(** ** Sample worlds                                                   *)
(* ================================================================= *)

(** One signer, who has signed, and one CC: nobody has anything left to
    do. *)
Definition sample_all_done : World :=
  Sample.world
    (Sample.store (Sample.envelope PENDING PARALLEL)
       [Sample.recipient 1 "a" SIGNER 1 SIGNED SENT;
        Sample.recipient 2 "b" CC 2 NOT_SIGNED NOT_SENT] [])
    None.

(** Three signers in sequence, nobody has signed, the first was notified. *)
Definition sample_sequence (fault : option nat) : World :=
  Sample.world
    (Sample.store (Sample.envelope PENDING SEQUENTIAL)
       [Sample.recipient 1 "a" SIGNER 1 NOT_SIGNED SENT;
        Sample.recipient 2 "b" SIGNER 2 NOT_SIGNED NOT_SENT;
        Sample.recipient 3 "c" SIGNER 3 NOT_SIGNED NOT_SENT] [])
    fault.

(** Signer [a] has not signed; [b] has, and owns an optional auto-sign
    signature field that is still empty. *)
Definition sample_presigned : World :=
  Sample.world
    (Sample.store (Sample.envelope PENDING PARALLEL)
       [Sample.recipient 1 "a" SIGNER 1 NOT_SIGNED SENT;
        Sample.recipient 2 "b" SIGNER 2 SIGNED SENT]
       [Sample.field 10 2 SIGNATURE false true ""])
    None.


(** Nobody has signed; [b] owns an optional auto-sign signature field
    that is still empty. *)
Definition sample_autosign_pending : World :=
  Sample.world
    (Sample.store (Sample.envelope PENDING PARALLEL)
       [Sample.recipient 1 "a" SIGNER 1 NOT_SIGNED SENT;
        Sample.recipient 2 "b" SIGNER 2 NOT_SIGNED SENT]
       [Sample.field 10 2 SIGNATURE false true ""])
    None.

(** Sequential order, and both signers have been sent the document. *)
Definition sample_both_sent : World :=
  Sample.world
    (Sample.store (Sample.envelope PENDING SEQUENTIAL)
       [Sample.recipient 1 "a" SIGNER 1 NOT_SIGNED SENT;
        Sample.recipient 2 "b" SIGNER 2 NOT_SIGNED SENT] [])
    None.

(** [sample_sequence] with the awaited call 11 of the run failing: in a
    completion of [a] that is the update marking [b] SENT. *)
Definition sample_interrupted : World := sample_sequence (Some 11%nat).

(** Parallel order, one signer and one CC. *)
Definition sample_signer_and_cc : World :=
  Sample.world
    (Sample.store (Sample.envelope PENDING PARALLEL)
       [Sample.recipient 1 "a" SIGNER 1 NOT_SIGNED SENT;
        Sample.recipient 2 "b" CC 2 NOT_SIGNED NOT_SENT] [])
    None.

(** The world after the signer has completed. *)
Definition sample_fully_signed : World :=
  snd (@completeDocumentWithToken Sample.collaborators
         (Sample.complete "a") sample_signer_and_cc).

(** The world after a resolution in [sample_presigned]: the optional
    auto-sign field of [b] has been signed. *)
Definition sample_resolved : World :=
  snd (@resolveAutoSign_complete Sample.collaborators "env_1"
         (Some Sample.request) sample_presigned).

(* ================================================================= *)
(** ** Further vocabulary of the statements                            *)
(* ================================================================= *)










(* ================================================================= *)
(** ** Vocabulary of further statements on [send-document.ts]         *)
(* ================================================================= *)

Section SendVocabulary.
Context `{Collab : Collaborators}.

(** The ways [sendDocument] refuses a request before it writes, each
    with the message of its error, in the order of the checks of lines
    77-108. *)
Inductive send_refusal (o : SO.t) (d : Db) : ErrorMessage -> Prop :=
| sr_not_found :
    find (envelopeWhereInput o) (envelopes d) = None ->
    send_refusal o d Document_not_found
| sr_no_recipients e :
    find (envelopeWhereInput o) (envelopes d) = Some e ->
    recipientsOf d (Envelope.id e) = [] ->
    send_refusal o d Document_has_no_recipients
| sr_completed e :
    find (envelopeWhereInput o) (envelopes d) = Some e ->
    recipientsOf d (Envelope.id e) <> [] ->
    Envelope.status e = COMPLETED ->
    send_refusal o d Can_not_send_completed_document
| sr_no_items e :
    find (envelopeWhereInput o) (envelopes d) = Some e ->
    recipientsOf d (Envelope.id e) <> [] ->
    Envelope.status e <> COMPLETED ->
    itemsOf d (Envelope.id e) = [] ->
    send_refusal o d Missing_envelope_items.

(** [envelope.documentMeta?.signingOrder || PARALLEL] (line 91). *)
Definition signingOrderOrParallel (e : Envelope.t) : DocumentSigningOrder :=
  match signingOrderOf e with Some s => s | None => PARALLEL end.

(** The condition of line 318: [sendEmail], and the e-mail setting of the
    envelope when [sendEmail] is undefined. *)
Definition sendEmailEnabled (o : SO.t) (e : Envelope.t) : bool :=
  match SO.sendEmail o with
  | Some b => b
  | None => recipientSigningRequest (Envelope.documentMeta e)
  end.

(** The job of lines 325-333 for one recipient. *)
Definition signingRequestedBySend (o : SO.t) (e : Envelope.t)
    (r : Recipient.t) : Effect :=
  TriggerJob send_signing_requested_email
    {| jp_userId := Some (SO.userId o);
       jp_documentId := mapSecondaryIdToDocumentId (Envelope.secondaryId e);
       jp_recipientId := Some (Recipient.id r);
       jp_requestMetadata :=
         Some (api_requestMetadata (SO.requestMetadata o)) |}.

(** The recipients a send asks to sign: those to notify that are neither
    SENT nor CC, when e-mails are enabled. *)
Definition askedToSign (o : SO.t) (e : Envelope.t)
    (rs : list Recipient.t) : list Recipient.t :=
  if sendEmailEnabled o e
  then filter (fun r => negb (SendStatus_beq (Recipient.sendStatus r) SENT
                                || is_cc r))
              (recipientsToNotify_of (signingOrderOrParallel e) rs)
  else [].

(** The DOCUMENT_SENT entry of lines 288-297. *)
Definition documentSentLog (e : Envelope.t) (rm : ApiRequestMetadata)
  : AuditLog.t :=
  createDocumentAuditLogData
    {| o_type := DOCUMENT_SENT;
       o_envelopeId := Envelope.id e;
       o_user := None;
       o_requestMetadata := None;
       o_metadata :=
         Some {| md_requestMetadata := api_requestMetadata rm;
                 md_source := Some (api_source rm);
                 md_auth := api_auth rm;
                 md_auditUser := api_auditUser rm;
                 md_stray := None |};
       o_data := DataNone |}.

End SendVocabulary.

(** A draft in parallel order: [a] has not been sent the document, [b]
    has, and [c] only receives a copy. *)
Definition sample_draft : World :=
  Sample.world
    (Sample.store (Sample.envelope DRAFT PARALLEL)
       [Sample.recipient 1 "a" SIGNER 1 NOT_SIGNED NOT_SENT;
        Sample.recipient 2 "b" SIGNER 2 NOT_SIGNED SENT;
        Sample.recipient 3 "c" CC 3 NOT_SIGNED NOT_SENT] [])
    None.

(** Collaborators for an envelope whose recipients must pass a second
    factor: the code [123456] is the valid one. *)
Definition guarded_collaborators : Collaborators :=
  {| unsafeBuildEnvelopeIdQuery :=
       @unsafeBuildEnvelopeIdQuery Sample.collaborators;
     getEnvelopeWhereInput := @getEnvelopeWhereInput Sample.collaborators;
     mapSecondaryIdToDocumentId :=
       @mapSecondaryIdToDocumentId Sample.collaborators;
     extractDocumentAuthMethods :=
       fun _ _ => {| derivedRecipientAccessAuth := [TWO_FACTOR_AUTH];
                     derivedRecipientActionAuth := [] |};
     isRecipientAuthorized := fun _ _ _ _ code => String.eqb code "123456";
     recipientSigningRequest :=
       @recipientSigningRequest Sample.collaborators;
     isRequiredField := @isRequiredField Sample.collaborators;
     putPdfFileServerSide := @putPdfFileServerSide Sample.collaborators |}.

(** A completion request that carries a code for the second factor. *)
Definition complete_with_code (token code : string) : CO.t :=
  {| CO.token := token; CO.id := ByEnvelopeId "env_1";
     CO.userId := None; CO.accessAuthOptions := Some code;
     CO.requestMetadata := Some Sample.request; CO.nextSigner := None |}.

(** A completion request that names the next signer. *)
Definition complete_dictating (token name email : string) : CO.t :=
  {| CO.token := token; CO.id := ByEnvelopeId "env_1";
     CO.userId := None; CO.accessAuthOptions := None;
     CO.requestMetadata := Some Sample.request;
     CO.nextSigner := Some {| ns_name := name; ns_email := email |} |}.

(** Nobody has signed; [a] owns nothing, [b] owns a required manual
    field that is empty and an auto-sign field. *)
Definition sample_manual_open : World :=
  Sample.world
    (Sample.store (Sample.envelope PENDING PARALLEL)
       [Sample.recipient 1 "a" SIGNER 1 NOT_SIGNED SENT;
        Sample.recipient 2 "b" SIGNER 2 NOT_SIGNED SENT]
       [Sample.field 10 2 SIGNATURE false false "required";
        Sample.field 11 2 SIGNATURE false true ""])
    None.

(** [sample_sequence] without faults; its envelope does not allow
    dictating the next signer. *)
Definition sample_sequence_undictated : World := sample_sequence None.

(* ================================================================= *)
(** ** Vocabulary of further statements on the completion              *)
(* ================================================================= *)

Section CompletionVocabulary.
Context `{Collab : Collaborators}.

(** The test of line 508: the derived access auth of the recipient asks
    for a second factor. *)
Definition requiresAccess2FA (e : Envelope.t) (rcp : Recipient.t) : bool :=
  existsb (DocumentAuth_beq TWO_FACTOR_AUTH)
    (derivedRecipientAccessAuth
       (extractDocumentAuthMethods (Envelope.authOptions e)
                                   (Recipient.authOptions rcp))).

(** A request that the access-authentication step turns away: a second
    factor is asked for, and none is supplied or the one supplied is
    not valid. *)
Definition fails_access_auth (o : CO.t) (d : Db) (e : Envelope.t)
    (rcp : Recipient.t) : Prop :=
  requiresAccess2FA e rcp = true /\
  match CO.accessAuthOptions o with
  | None => True
  | Some accessAuthOptions =>
      isRecipientAuthorized d (Envelope.authOptions e) rcp (CO.userId o)
                            accessAuthOptions = false
  end.

(** The error of that step, lines 509-513 and 537-539. *)
Definition access_auth_error (o : CO.t) : Exn :=
  match CO.accessAuthOptions o with
  | None => AppError UNAUTHORIZED "Access authentication required" None
  | Some _ => AppError TWO_FACTOR_AUTH_FAILED "Invalid 2FA authentication" None
  end.

(** What the step leaves in the audit log when it turns a request away. *)
Definition access_auth_failure_log (o : CO.t) (e : Envelope.t)
    (rcp : Recipient.t) : list AuditLog.t :=
  match CO.accessAuthOptions o with
  | None => []
  | Some _ => [accessAuthLog DOCUMENT_ACCESS_AUTH_2FA_FAILED e rcp]
  end.

(** The job of lines 737-743. *)
Definition recipientSignedJob (e : Envelope.t) (rcp : Recipient.t) : Effect :=
  TriggerJob send_recipient_signed_email
    {| jp_userId := None;
       jp_documentId := mapSecondaryIdToDocumentId (Envelope.secondaryId e);
       jp_recipientId := Some (Recipient.id rcp);
       jp_requestMetadata := None |}.

(** The webhook of lines 853-869, for the envelope as the store has it. *)
Definition signedWebhookOf (d : Db) (e : Envelope.t) : list Effect :=
  match find (fun e' => String.eqb (Envelope.id e') (Envelope.id e)
                        && EnvelopeType_beq (Envelope.type e') DOCUMENT)
             (envelopes d) with
  | Some env =>
      [TriggerWebhook WH_DOCUMENT_SIGNED env
         (recipientsOf d (Envelope.id env))
         (Envelope.userId env) (Envelope.teamId env)]
  | None => []
  end.

(** What a completion dispatches after its first transaction, read off
    the store [d]: the recipient-signed job; when recipients are still
    pending the pending e-mail and, under SEQUENTIAL order, the
    signing-requested job of the first of them; the seal-document job
    when all are SIGNED or CC; the DOCUMENT_SIGNED webhook. *)
Definition completionDispatch (o : CO.t) (e : Envelope.t)
    (rcp : Recipient.t) (d : Db) : list Effect :=
  (recipientSignedJob e rcp
   :: match pendingRecipients d (Envelope.id e) with
      | [] => []
      | next :: _ =>
          SendPendingEmail (CO.id o) (Recipient.id rcp)
          :: if is_sequential (signingOrderOf e)
             then [signingRequestedJob o e
                     (mapSecondaryIdToDocumentId (Envelope.secondaryId e))
                     next]
             else []
      end)
  ++ (if allSignedOrCc (recipientsOf d (Envelope.id e))
      then [sealJobFor o e] else [])
  ++ signedWebhookOf d e.

(** The entries a completion adds to the audit log besides those of
    auto-signing: the validation of the second factor when one is asked
    for, the completion of the recipient, and the rewriting of the next
    recipient when the next signer is dictated. *)
Definition validatedLog (e : Envelope.t) (rcp : Recipient.t)
  : list AuditLog.t :=
  if requiresAccess2FA e rcp
  then [accessAuthLog DOCUMENT_ACCESS_AUTH_2FA_VALIDATED e rcp] else [].

Definition is_pending_email (eff : Effect) : bool :=
  match eff with
  | SendPendingEmail _ _ => true
  | _ => false
  end.

(** Number of pending e-mails sent in an outbox. *)
Definition pendingEmails (ob : list Effect) : nat :=
  List.length (filter is_pending_email ob).

(** The gate of lines 596-597: some field of the envelope that is not
    auto-signed is required and not inserted. *)
Definition manualFieldsOpen (envelopeId : string) (d : Db) : bool :=
  fieldsContainUnsignedRequiredField
    (filter (fun f => negb (Field.autosign f))
            (filter (fun f => String.eqb (Field.envelopeId f) envelopeId)
                    (fields d))).

(** A recipient row whose send status has not moved. *)
Definition KeepsSendStatus (r r' : Recipient.t) : Prop :=
  Recipient.id r' = Recipient.id r /\
  Recipient.sendStatus r' = Recipient.sendStatus r.

(** A recipient row whose name and e-mail have not moved. *)
Definition KeepsNameEmail (r r' : Recipient.t) : Prop :=
  Recipient.id r' = Recipient.id r /\
  Recipient.name r' = Recipient.name r /\
  Recipient.email r' = Recipient.email r.

Definition not_signing_request (eff : Effect) : Prop :=
  match eff with
  | TriggerJob send_signing_requested_email _ => False
  | _ => True
  end.

Definition not_recipient_updated (a : AuditLog.t) : Prop :=
  AuditLog.type a <> RECIPIENT_UPDATED.

End CompletionVocabulary.

(* ================================================================= *)
(** ** The other programs of the sources: a monad for their runs       *)
(* ================================================================= *)

(** How a run of a script or of a server function ends: with a value,
    or with a failure of kind [E]. *)
Inductive Outcome (E A : Type) :=
| Done (a : A)
| Failed (e : E).
Arguments Done {E A} a.
Arguments Failed {E A} e.

(** The machine such a run works on: what it can read and write, and
    the faults that await it. Awaited calls of collaborators are counted
    from 0 by [clock]; call number [k] rejects when [faulty k]. *)
Record Machine (T : Type) := {
  mem : T;
  clock : nat;
  faulty : nat -> bool }.
Arguments mem {T} _.
Arguments clock {T} _.
Arguments faulty {T} _.

Definition set_mem {T} (t : T) (m : Machine T) : Machine T :=
  {| mem := t; clock := clock m; faulty := faulty m |}.

(** A machine on which no call fails. *)
Definition sound {T} (t : T) : Machine T :=
  {| mem := t; clock := 0; faulty := fun _ => false |}.

(** A machine whose calls all succeed from now on. *)
Definition calm {T} (m : Machine T) : Prop :=
  forall k, (clock m <= k)%nat -> faulty m k = false.

Definition Proc (E T A : Type) : Type :=
  Machine T -> Outcome E A * Machine T.

Definition pret {E T A} (a : A) : Proc E T A := fun m => (Done a, m).

Definition pfail {E T A} (e : E) : Proc E T A := fun m => (Failed e, m).

Definition pbind {E T A B} (p : Proc E T A) (f : A -> Proc E T B)
  : Proc E T B :=
  fun m => match p m with
           | (Done a, m') => f a m'
           | (Failed e, m') => (Failed e, m')
           end.

Declare Scope proc_scope.
Delimit Scope proc_scope with proc.
Notation "x <- m ;; k" := (pbind m (fun x => k))
  (at level 61, m at next level, right associativity) : proc_scope.
Notation "m ;; k" := (pbind m (fun _ => k))
  (at level 61, right associativity) : proc_scope.

(** An awaited call of a collaborator: it rejects with [e] when its turn
    is a faulty one. *)
Definition pawait {E T} (e : E) : Proc E T unit :=
  fun m =>
    let m' := {| mem := mem m; clock := S (clock m); faulty := faulty m |} in
    if faulty m (clock m) then (Failed e, m') else (Done tt, m').

Definition pget {E T} : Proc E T T := fun m => (Done (mem m), m).

Definition pmodify {E T} (f : T -> T) : Proc E T unit :=
  fun m => (Done tt, set_mem (f (mem m)) m).

(** [try { body } catch (error) { handler(error) }], for the failures
    [catches] says a [catch] sees. *)
Definition ptry {E T A} (catches : E -> bool) (body : Proc E T A)
    (handler : E -> Proc E T A) : Proc E T A :=
  fun m => match body m with
           | (Failed e, m') =>
               if catches e then handler e m' else (Failed e, m')
           | r => r
           end.

(** [try { body } finally { cleanup }], for the failures a [finally]
    still runs after: the outcome of [body] stands unless [cleanup]
    fails. *)
Definition pfinally {E T A} (runs : E -> bool) (body : Proc E T A)
    (cleanup : Proc E T unit) : Proc E T A :=
  fun m => match body m with
           | (Done a, m') =>
               match cleanup m' with
               | (Done _, m'') => (Done a, m'')
               | (Failed e, m'') => (Failed e, m'')
               end
           | (Failed e, m') =>
               if runs e
               then match cleanup m' with
                    | (Done _, m'') => (Failed e, m'')
                    | (Failed e', m'') => (Failed e', m'')
                    end
               else (Failed e, m')
           end.

Fixpoint pforEach {E T A} (l : list A) (body : A -> Proc E T unit)
  : Proc E T unit :=
  match l with
  | [] => pret tt
  | x :: l' => pbind (body x) (fun _ => pforEach l' body)
  end.

(* ================================================================= *)
(** ** packages/prisma/jobs-cli.ts                                     *)
(* ================================================================= *)

Module JobsCli.
Local Open Scope proc_scope.

(** Rows of [BackgroundJob] and [BackgroundJobTask], with the columns
    the script reads or writes; the enum columns hold the names of their
    values, as Prisma hands them to JavaScript. *)
Module BackgroundJob.
Record t := {
  id : string;
  jobId : string;
  name : string;
  status : string;
  retried : Z;
  maxRetries : Z;
  submittedAt : Z;
  lastRetriedAt : option Z;
  completedAt : option Z }.

(** [data: { status: PENDING, retried: 0, lastRetriedAt: null,
             completedAt: null }] *)
Definition reset (j : t) : t :=
  {| id := id j; jobId := jobId j; name := name j;
     status := "PENDING"; retried := 0; maxRetries := maxRetries j;
     submittedAt := submittedAt j;
     lastRetriedAt := None; completedAt := None |}.
End BackgroundJob.

Module BackgroundJobTask.
Record t := {
  id : string;
  jobId : string;
  name : string;
  status : string;
  retried : Z }.

(** [data: { status: 'PENDING', retried: 0 }] *)
Definition reset (t0 : t) : t :=
  {| id := id t0; jobId := jobId t0; name := name t0;
     status := "PENDING"; retried := 0 |}.
End BackgroundJobTask.

(** What the script prints, line by line: the call, and the values put
    into its template. *)
Inductive Line :=
| Error_job_not_found (jobId : string)
| Error_not_failed (status : string)
| Error_only_failed_can_be_retried
| Log_retrying_job (id : string)
| Log_type (jobId : string)
| Log_name (name : string)
| Log_reset_to_pending (jobId : string)
| Log_note_picked_up
| Log_may_need_trigger
| Log_to_trigger_via_curl
| Log_resubmit_to (jobId id : string)
| Log_no_failed_jobs
| Log_found_failed (n : nat)
| Log_job (id jobId name : string)
| Log_resetting
| Log_reset_count (n : nat)
| Log_note_resubmit.

Record Cli := {
  backgroundJobs : list BackgroundJob.t;
  backgroundJobTasks : list BackgroundJobTask.t;
  console : list Line }.

(** How a run stops short: [process.exit(code)], a rejected call of the
    database, or an [update] that finds no row. *)
Inductive Stop :=
| Exit (code : Z)
| Rejected
| RecordNotFound.

Definition Script := Proc Stop Cli.

Definition print (l : Line) : Script unit :=
  pmodify (fun c => {| backgroundJobs := backgroundJobs c;
                       backgroundJobTasks := backgroundJobTasks c;
                       console := console c ++ [l] |}).

(** [process.exit(code)]: nothing of the script runs after it. *)
Definition exit {A} (code : Z) : Script A := pfail (Exit code).

(* --------------------------------------------------------------- *)
(** *** parseArgs (lines 28-53)                                      *)
(* --------------------------------------------------------------- *)

Fixpoint drop (n : nat) (s : string) : string :=
  match n, s with
  | O, _ => s
  | S n', String _ s' => drop n' s'
  | S _, EmptyString => EmptyString
  end.

(** [s.replace(search, '')]: the first occurrence of [search] goes. *)
Fixpoint remove_first (search s : string) : string :=
  if String.prefix search s then drop (String.length search) s
  else match s with
       | EmptyString => EmptyString
       | String c s' => String c (remove_first search s')
       end.

Record ParsedArgs := {
  command : string;
  jobId : option string;
  status : option string;
  type : option string;
  (** [limit?: number]: absent, or what [parseInt] gave, [None] for
      [NaN] *)
  limit : option (option Z) }.

Definition with_status (v : string) (a : ParsedArgs) : ParsedArgs :=
  {| command := command a; jobId := jobId a; status := Some v;
     type := type a; limit := limit a |}.

Definition with_type (v : string) (a : ParsedArgs) : ParsedArgs :=
  {| command := command a; jobId := jobId a; status := status a;
     type := Some v; limit := limit a |}.

Definition with_limit (v : option Z) (a : ParsedArgs) : ParsedArgs :=
  {| command := command a; jobId := jobId a; status := status a;
     type := type a; limit := Some v |}.

Definition with_jobId (v : string) (a : ParsedArgs) : ParsedArgs :=
  {| command := command a; jobId := Some v; status := status a;
     type := type a; limit := limit a |}.

Section ParseArgs.
(** [parseInt(s, 10)], with [None] for [NaN]. *)
Variable parseInt : string -> option Z.

(** Body of the loop of lines 38-50. *)
Definition parseArg (result : ParsedArgs) (arg : string) : ParsedArgs :=
  if String.prefix "--status=" arg
  then with_status (remove_first "--status=" arg) result
  else if String.prefix "--type=" arg
  then with_type (remove_first "--type=" arg) result
  else if String.prefix "--limit=" arg
  then with_limit (parseInt (remove_first "--limit=" arg)) result
  else if negb (String.prefix "-" arg)
  then with_jobId arg result
  else result.

(** [args] is [process.argv.slice(2)]. *)
Definition parseArgs (args : list string) : ParsedArgs :=
  match args with
  | [] =>
      {| command := "help"; jobId := None; status := None; type := None;
         limit := None |}
  | first :: rest =>
      if String.eqb first "help" || String.eqb first "--help"
         || String.eqb first "-h"
      then {| command := "help"; jobId := None; status := None;
              type := None; limit := None |}
      else fold_left parseArg rest
             {| command := first; jobId := None; status := None;
                type := None; limit := Some (Some 50) |}
  end.
End ParseArgs.

(* --------------------------------------------------------------- *)
(** *** The queries of the script                                    *)
(* --------------------------------------------------------------- *)

Definition set_tables (js : list BackgroundJob.t)
    (ts : list BackgroundJobTask.t) (c : Cli) : Cli :=
  {| backgroundJobs := js; backgroundJobTasks := ts; console := console c |}.

Definition backgroundJob_findUnique (id : string)
  : Script (option BackgroundJob.t) :=
  pawait Rejected ;;
  c <- pget ;;
  pret (find (fun j => String.eqb (BackgroundJob.id j) id)
             (backgroundJobs c)).

Definition backgroundJob_findMany (where_ : BackgroundJob.t -> bool)
  : Script (list BackgroundJob.t) :=
  pawait Rejected ;;
  c <- pget ;;
  pret (filter where_ (backgroundJobs c)).

(** [where: { jobId: { contains: needle } }] *)
Fixpoint contains (needle hay : string) : bool :=
  String.prefix needle hay
  || match hay with
     | EmptyString => false
     | String _ hay' => contains needle hay'
     end.

(** [where: { id: { in: ids } }] *)
Definition id_in (ids : list string) (id : string) : bool :=
  existsb (String.eqb id) ids.

(** The open tasks of the jobs [which] selects:
    [where: { jobId: ..., status: { not: 'COMPLETED' } }] *)
Definition openTaskOf (which : string -> bool) (t : BackgroundJobTask.t)
  : bool :=
  which (BackgroundJobTask.jobId t)
  && negb (String.eqb (BackgroundJobTask.status t) "COMPLETED").

(* --------------------------------------------------------------- *)
(** *** retryJob (lines 143-195)                                     *)
(* --------------------------------------------------------------- *)

(** [prisma.$transaction([update, updateMany])] of lines 164-186: the
    two writes are applied together or not at all; [update] rejects the
    batch when no row has the id. *)
Definition resetJob (jobId : string) : Script unit :=
  pawait Rejected ;;
  c <- pget ;;
  if existsb (fun j => String.eqb (BackgroundJob.id j) jobId)
             (backgroundJobs c)
  then pmodify
         (set_tables
            (update_where (fun j => String.eqb (BackgroundJob.id j) jobId)
                          BackgroundJob.reset (backgroundJobs c))
            (update_where (openTaskOf (String.eqb jobId))
                          BackgroundJobTask.reset (backgroundJobTasks c)))
  else pfail RecordNotFound.

Definition retryJob (jobId : string) : Script unit :=
  job <- backgroundJob_findUnique jobId ;;
  match job with
  | None =>
      print (Error_job_not_found jobId) ;;
      exit 1
  | Some job =>
      if negb (String.eqb (BackgroundJob.status job) "FAILED")
      then
        print (Error_not_failed (BackgroundJob.status job)) ;;
        print Error_only_failed_can_be_retried ;;
        exit 1
      else
        print (Log_retrying_job (BackgroundJob.id job)) ;;
        print (Log_type (BackgroundJob.jobId job)) ;;
        print (Log_name (BackgroundJob.name job)) ;;
        resetJob jobId ;;
        print (Log_reset_to_pending jobId) ;;
        print Log_note_picked_up ;;
        print Log_may_need_trigger ;;
        print Log_to_trigger_via_curl ;;
        print (Log_resubmit_to (BackgroundJob.jobId job)
                               (BackgroundJob.id job))
  end.

(* --------------------------------------------------------------- *)
(** *** retryAllJobs (lines 197-250)                                 *)
(* --------------------------------------------------------------- *)

(** [where: { status: FAILED, jobId?: { contains: args.type } }]; an
    empty [args.type] is falsy and adds no condition. *)
Definition failedWhere (args : ParsedArgs) (j : BackgroundJob.t) : bool :=
  String.eqb (BackgroundJob.status j) "FAILED"
  && match type args with
     | Some t => if String.eqb t "" then true
                 else contains t (BackgroundJob.jobId j)
     | None => true
     end.

(** [prisma.$transaction([updateMany, updateMany])] of lines 226-246. *)
Definition resetJobs (jobIds : list string) : Script unit :=
  pawait Rejected ;;
  pmodify
    (fun c =>
       set_tables
         (update_where (fun j => id_in jobIds (BackgroundJob.id j))
                       BackgroundJob.reset (backgroundJobs c))
         (update_where (openTaskOf (id_in jobIds))
                       BackgroundJobTask.reset (backgroundJobTasks c))
         c).

Definition retryAllJobs (args : ParsedArgs) : Script unit :=
  failedJobs <- backgroundJob_findMany (failedWhere args) ;;
  match failedJobs with
  | [] => print Log_no_failed_jobs
  | _ :: _ =>
      print (Log_found_failed (List.length failedJobs)) ;;
      pforEach failedJobs
        (fun job => print (Log_job (BackgroundJob.id job)
                                   (BackgroundJob.jobId job)
                                   (BackgroundJob.name job))) ;;
      print Log_resetting ;;
      resetJobs (map BackgroundJob.id failedJobs) ;;
      print (Log_reset_count (List.length failedJobs)) ;;
      print Log_note_resubmit
  end.

(* --------------------------------------------------------------- *)
(** *** Vocabulary of the statements on the script                   *)
(* --------------------------------------------------------------- *)

(** The two tables are what they were. *)
Definition tables_kept (c c' : Cli) : Prop :=
  backgroundJobs c' = backgroundJobs c /\
  backgroundJobTasks c' = backgroundJobTasks c.

(** The row [retryJob] finds for an id. *)
Definition jobOf (jobId : string) (c : Cli) : option BackgroundJob.t :=
  find (fun j => String.eqb (BackgroundJob.id j) jobId) (backgroundJobs c).

(** The lines [retryJob] prints before it gives up. *)
Definition refusal (jobId : string) (c : Cli) : list Line :=
  match jobOf jobId c with
  | None => [Error_job_not_found jobId]
  | Some j => [Error_not_failed (BackgroundJob.status j);
               Error_only_failed_can_be_retried]
  end.

(** The ids of the jobs [retryAllJobs] selects. *)
Definition failedIds (args : ParsedArgs) (c : Cli) : list string :=
  map BackgroundJob.id (filter (failedWhere args) (backgroundJobs c)).

End JobsCli.

(** A job table for the statements on the script: one FAILED job with a
    FAILED and a COMPLETED task, one COMPLETED job, one more FAILED job
    of another type. *)
Definition sample_job_a : JobsCli.BackgroundJob.t :=
  {| JobsCli.BackgroundJob.id := "job_a";
     JobsCli.BackgroundJob.jobId := "internal.seal-document";
     JobsCli.BackgroundJob.name := "Seal Document";
     JobsCli.BackgroundJob.status := "FAILED";
     JobsCli.BackgroundJob.retried := 3;
     JobsCli.BackgroundJob.maxRetries := 3;
     JobsCli.BackgroundJob.submittedAt := 100;
     JobsCli.BackgroundJob.lastRetriedAt := Some 130;
     JobsCli.BackgroundJob.completedAt := None |}.

Definition sample_cli : JobsCli.Cli :=
  {| JobsCli.backgroundJobs :=
       [ sample_job_a;
         {| JobsCli.BackgroundJob.id := "job_b";
            JobsCli.BackgroundJob.jobId := "send.signing.requested.email";
            JobsCli.BackgroundJob.name := "Send Signing Email";
            JobsCli.BackgroundJob.status := "COMPLETED";
            JobsCli.BackgroundJob.retried := 0;
            JobsCli.BackgroundJob.maxRetries := 3;
            JobsCli.BackgroundJob.submittedAt := 110;
            JobsCli.BackgroundJob.lastRetriedAt := None;
            JobsCli.BackgroundJob.completedAt := Some 111 |};
         {| JobsCli.BackgroundJob.id := "job_c";
            JobsCli.BackgroundJob.jobId := "send.signing.requested.email";
            JobsCli.BackgroundJob.name := "Send Signing Email";
            JobsCli.BackgroundJob.status := "FAILED";
            JobsCli.BackgroundJob.retried := 3;
            JobsCli.BackgroundJob.maxRetries := 3;
            JobsCli.BackgroundJob.submittedAt := 120;
            JobsCli.BackgroundJob.lastRetriedAt := Some 125;
            JobsCli.BackgroundJob.completedAt := None |} ];
     JobsCli.backgroundJobTasks :=
       [ {| JobsCli.BackgroundJobTask.id := "task_1";
            JobsCli.BackgroundJobTask.jobId := "job_a";
            JobsCli.BackgroundJobTask.name := "decorate";
            JobsCli.BackgroundJobTask.status := "COMPLETED";
            JobsCli.BackgroundJobTask.retried := 0 |};
         {| JobsCli.BackgroundJobTask.id := "task_2";
            JobsCli.BackgroundJobTask.jobId := "job_a";
            JobsCli.BackgroundJobTask.name := "seal";
            JobsCli.BackgroundJobTask.status := "FAILED";
            JobsCli.BackgroundJobTask.retried := 3 |};
         {| JobsCli.BackgroundJobTask.id := "task_3";
            JobsCli.BackgroundJobTask.jobId := "job_c";
            JobsCli.BackgroundJobTask.name := "send";
            JobsCli.BackgroundJobTask.status := "FAILED";
            JobsCli.BackgroundJobTask.retried := 3 |} ];
     JobsCli.console := [] |}.

(** [jobs:retry-all -- --type=seal] *)
Definition sample_retry_seal : JobsCli.ParsedArgs :=
  {| JobsCli.command := "retry-all"; JobsCli.jobId := None;
     JobsCli.status := None; JobsCli.type := Some "seal";
     JobsCli.limit := Some (Some 50) |}.

(* ================================================================= *)
(** ** compressPdf (packages/prisma/jobs-cli.ts, lines 598-733)        *)
(* ================================================================= *)

(** A [Buffer]: its bytes, one character each. *)
Definition Buffer := string.

Module PdfCompression.
Local Open Scope proc_scope.

(** The file system: the content of each path that exists. *)
Definition Files := list (string * Buffer).

Definition readAt (path : string) (fs : Files) : option Buffer :=
  option_map snd (find (fun e => String.eqb (fst e) path) fs).

Definition removeAt (path : string) (fs : Files) : Files :=
  filter (fun e => negb (String.eqb (fst e) path)) fs.

Definition writeAt (path : string) (data : Buffer) (fs : Files) : Files :=
  (path, data) :: removeAt path fs.

(** Why a call of [fs.promises] or of [execAsync] rejects. *)
Inductive Failure :=
| ENOENT (path : string)        (* no such file *)
| ExecFailed                    (* the command fails or is timed out *)
| Rejected.                     (* anything else: disk, time-out, ... *)

Definition Task := Proc Failure Files.

(** [fs.promises.writeFile(path, data)] *)
Definition writeFile (path : string) (data : Buffer) : Task unit :=
  pawait Rejected ;;
  pmodify (writeAt path data).

(** [fs.promises.readFile(path)] *)
Definition readFile (path : string) : Task Buffer :=
  pawait Rejected ;;
  fs <- pget ;;
  match readAt path fs with
  | Some data => pret data
  | None => pfail (ENOENT path)
  end.

(** [fs.promises.unlink(path)] *)
Definition unlink (path : string) : Task unit :=
  pawait Rejected ;;
  fs <- pget ;;
  match readAt path fs with
  | Some _ => pmodify (removeAt path)
  | None => pfail (ENOENT path)
  end.

(** [p.catch(() => {})] *)
Definition swallow (p : Task unit) : Task unit :=
  ptry (fun _ => true) p (fun _ => pret tt).

(** [process.env], the three variables the module reads. *)
Record Env := {
  NEXT_PRIVATE_PDF_COMPRESSION_ENABLED : option string;
  NEXT_PRIVATE_PDF_COMPRESSION_QUALITY : option string;
  NEXT_PRIVATE_PDF_COMPRESSION_THRESHOLD : option string }.

Record CompressPdfOptions := {
  pdf : Buffer;
  quality : option string;
  force : option bool }.

Definition length (b : Buffer) : Z := Z.of_nat (String.length b).

Section CompressPdf.

(** [parseInt(s, 10)]; [None] is [NaN]. *)
Variable parseInt : string -> option Z.

(** What the shell makes of a command line on the files it finds:
    whether the command ends with status 0 within the time-out, and the
    files it leaves - whatever the command line turns out to do. *)
Variable shell : string -> Files -> bool * Files.

Variable env : Env.

(** The two paths the call draws in [os.tmpdir()] from the time and a
    random number. *)
Variable inputPath outputPath : string.

Definition DEFAULT_SIZE_THRESHOLD : Z := 5 * 1024 * 1024.

Definition PDF_COMPRESSION_ENABLED : bool :=
  negb match NEXT_PRIVATE_PDF_COMPRESSION_ENABLED env with
       | Some v => String.eqb v "false"
       | None => false
       end.

Definition PDF_COMPRESSION_QUALITY : string :=
  match NEXT_PRIVATE_PDF_COMPRESSION_QUALITY env with
  | Some v => str_or v "ebook"
  | None => "ebook"
  end.

(** [String(DEFAULT_SIZE_THRESHOLD)] is ["5242880"]. *)
Definition PDF_COMPRESSION_THRESHOLD : option Z :=
  parseInt match NEXT_PRIVATE_PDF_COMPRESSION_THRESHOLD env with
           | Some v => str_or v "5242880"
           | None => "5242880"
           end.

(** [pdf.length < PDF_COMPRESSION_THRESHOLD]; no number is below
    [NaN]. *)
Definition belowThreshold (b : Buffer) : bool :=
  match PDF_COMPRESSION_THRESHOLD with
  | Some t => length b <? t
  | None => false
  end.

(** Lines 689-702: the pieces of the command line, joined by spaces;
    quality and paths are pasted in as they are. *)
Definition gsCommand (quality : string) : string :=
  String.concat " "
    [ "gs";
      "-sDEVICE=pdfwrite";
      "-dCompatibilityLevel=1.4";
      "-dPDFSETTINGS=/" ++ quality;
      "-dNOPAUSE";
      "-dQUIET";
      "-dBATCH";
      "-dColorImageDownsampleType=/Bicubic";
      "-dGrayImageDownsampleType=/Bicubic";
      "-dMonoImageDownsampleType=/Bicubic";
      "-sOutputFile=" ++ outputPath;
      inputPath ].

(** [execAsync(gsCommand, { timeout: 120000 })]: the call may fail to
    start the command; a command that was started leaves its files
    whether it succeeds or not. *)
Definition execGs (quality : string) : Task unit :=
  pawait Rejected ;;
  fs <- pget ;;
  let ran := shell (gsCommand quality) fs in
  pmodify (fun _ => snd ran) ;;
  if fst ran then pret tt else pfail ExecFailed.

(** Lines 665-733. The lines written to the console are left out. *)
Definition compressPdf (o : CompressPdfOptions) : Task Buffer :=
  let pdf := pdf o in
  let quality := match quality o with
                 | Some q => q
                 | None => PDF_COMPRESSION_QUALITY
                 end in
  let force := match force o with Some f => f | None => false end in
  if negb PDF_COMPRESSION_ENABLED then pret pdf
  else if negb force && belowThreshold pdf then pret pdf
  else
    pfinally (fun _ => true)
      (ptry (fun _ => true)
         (writeFile inputPath pdf ;;
          execGs quality ;;
          compressedPdf <- readFile outputPath ;;
          if length compressedPdf <? length pdf
          then pret compressedPdf
          else pret pdf)
         (fun _ => pret pdf))
      (ptry (fun _ => true)
         (swallow (unlink inputPath) ;;
          swallow (unlink outputPath))
         (fun _ => pret tt)).

(* --------------------------------------------------------------- *)
(** *** Vocabulary of the statements on compressPdf                  *)
(* --------------------------------------------------------------- *)

(** The call goes on to the command: compression is enabled, and the
    PDF is at the threshold or the caller forces it. *)
Definition attempts (o : CompressPdfOptions) : bool :=
  PDF_COMPRESSION_ENABLED
  && (match force o with Some f => f | None => false end
      || negb (belowThreshold (pdf o))).

(** The quality pasted into the command line. *)
Definition qualityOf (o : CompressPdfOptions) : string :=
  match quality o with
  | Some q => q
  | None => PDF_COMPRESSION_QUALITY
  end.

(** Every path but the two temp paths holds what it held. *)
Definition elsewhere_kept (fs fs' : Files) : Prop :=
  forall path, path <> inputPath -> path <> outputPath ->
               readAt path fs' = readAt path fs.

(** The run of the command line of the call on the files [fs], once
    the PDF is written to the input path. *)
Definition gsRun (o : CompressPdfOptions) (fs : Files) : bool * Files :=
  shell (gsCommand (qualityOf o)) (writeAt inputPath (pdf o) fs).

(** What a successful run of the command leaves at the output path. *)
Definition gsOutput (o : CompressPdfOptions) (fs : Files)
  : option Buffer :=
  if fst (gsRun o fs) then readAt outputPath (snd (gsRun o fs)) else None.

(** What the call returns when no call of the file system or of the
    shell is disturbed: the output of the command when it is strictly
    shorter than the PDF, the PDF otherwise. *)
Definition compressed (o : CompressPdfOptions) (fs : Files) : Buffer :=
  match gsOutput o fs with
  | Some output => if length output <? length (pdf o) then output else pdf o
  | None => pdf o
  end.

End CompressPdf.

End PdfCompression.

(** Files, an environment that sets nothing, and two calls for the
    statements on compressPdf: one below the threshold, one forced. The
    stand-in for the shell runs a Ghostscript that keeps the first
    eight bytes of its input; it fails when there is no input. *)
Definition sample_files : PdfCompression.Files :=
  [("/tmp/input-1.pdf", "left over"); ("/tmp/report.txt", "kept")].

Definition sample_env : PdfCompression.Env :=
  {| PdfCompression.NEXT_PRIVATE_PDF_COMPRESSION_ENABLED := None;
     PdfCompression.NEXT_PRIVATE_PDF_COMPRESSION_QUALITY := None;
     PdfCompression.NEXT_PRIVATE_PDF_COMPRESSION_THRESHOLD := None |}.

Definition sample_parseInt (s : string) : option Z :=
  if String.eqb s "5242880" then Some 5242880 else None.

Definition sample_shell (command : string) (fs : PdfCompression.Files)
  : bool * PdfCompression.Files :=
  match PdfCompression.readAt "/tmp/input-1.pdf" fs with
  | Some input =>
      (true,
       PdfCompression.writeAt "/tmp/output-2.pdf"
         (String.substring 0 8 input) fs)
  | None => (false, fs)
  end.

Definition sample_small_pdf : PdfCompression.CompressPdfOptions :=
  {| PdfCompression.pdf := "%PDF-1.4 sample";
     PdfCompression.quality := None;
     PdfCompression.force := None |}.

Definition sample_forced_pdf : PdfCompression.CompressPdfOptions :=
  {| PdfCompression.pdf := "%PDF-1.4 sample";
     PdfCompression.quality := Some "screen";
     PdfCompression.force := Some true |}.

(** The second call, which starts the command, fails. *)
Definition sample_exec_fails : Machine PdfCompression.Files :=
  {| mem := sample_files; clock := 0; faulty := Nat.eqb 1 |}.

(* ================================================================= *)
(** ** replaceTemplatePdf                                              *)
(**    packages/lib/server-only/template/replace-template-pdf.ts and   *)
(**    the version of the same file in unnamed/part_000                *)
(* ================================================================= *)

(** [Promise.all([p, q])]: both calls are made; the result is theirs
    when both succeed, and the failure of [p], else of [q], when not. *)
Definition pall {E T A B} (p : Proc E T A) (q : Proc E T B)
  : Proc E T (A * B) :=
  fun m => match p m with
           | (Done a, m1) =>
               match q m1 with
               | (Done b, m2) => (Done (a, b), m2)
               | (Failed e, m2) => (Failed e, m2)
               end
           | (Failed e, m1) => (Failed e, snd (q m1))
           end.

Module TemplatePdf.
Local Open Scope proc_scope.

Module DocumentData.
Record t := {
  id : string;
  type : string;
  data : string }.
End DocumentData.

(** The columns of [Field] the function reads. *)
Module Field.
Record t := {
  id : Z;
  envelopeId : string;
  page : Z;
  type : FieldType }.
End Field.

Record Store := {
  documentData : list DocumentData.t;
  envelopeItems : list EnvelopeItem.t;
  fields : list Field.t }.

Definition set_envelopeItems (x : list EnvelopeItem.t) (s : Store) : Store :=
  {| documentData := documentData s; envelopeItems := x;
     fields := fields s |}.

Definition set_fields (x : list Field.t) (s : Store) : Store :=
  {| documentData := documentData s; envelopeItems := envelopeItems s;
     fields := x |}.

(** What [getTemplateById] returns, as far as the function looks into
    it; [etc] stands for the members it hands on. *)
Record TemplateDocumentData := {
  id : string;
  type : string;
  data : string;
  envelopeItemId : string }.

Record Template := {
  envelopeId : string;
  templateDocumentData : TemplateDocumentData;
  etc : Json }.

Record ReplaceTemplatePdfOptions := {
  o_id : EnvelopeIdOptions;
  userId : Z;
  teamId : Z;
  newDocumentDataId : string;
  requestMetadata : ApiRequestMetadata }.

Record ReplaceTemplatePdfResult := {
  template : Template;
  oldPageCount : Z;
  newPageCount : Z;
  deletedFieldsCount : Z }.

Inductive AppErrorCode := NOT_FOUND | INVALID_REQUEST.

Inductive Message :=
| New_document_data_not_found
| Failed_to_load_old_PDF
| Failed_to_load_new_PDF
| Page_count_mismatch (oldPageCount newPageCount : Z).

Inductive Failure :=
| AppError (code : AppErrorCode) (message : Message)
| TemplateError                 (* what [getTemplateById] throws *)
| RecordNotFound                (* Prisma: no row for [update] *)
| Rejected.                     (* an awaited call failed *)

Definition Op := Proc Failure Store.

(** A step that only reads: the store and the faults stay, the clock
    moves on. *)
Definition reads (m m' : Machine Store) : Prop :=
  mem m' = mem m /\ faulty m' = faulty m /\ (clock m <= clock m')%nat.

Section ReplaceTemplatePdf.

(** Helpers of the repository whose sources are not at hand; the
    function is verified for every choice of them. *)

(** [getTemplateById({ id, userId, teamId })] on a store; [None] when it
    throws. *)
Variable getTemplateById :
  EnvelopeIdOptions -> Z -> Z -> Store -> option Template.

(** [getFileServerSide({ type, data })]; [None] when it rejects. *)
Variable getFileServerSide : string -> string -> option Buffer.

(** [(await PDFDocument.load(buffer)).getPageCount()]; [None] when the
    load rejects. *)
Variable getPageCount : Buffer -> option Z.

(** When both loads reject, [Promise.all] rejects with the one that
    rejected first. *)
Variable newLoadRejectsFirst : bool.

Definition template_get (o : ReplaceTemplatePdfOptions) : Op Template :=
  pawait Rejected ;;
  s <- pget ;;
  match getTemplateById (o_id o) (userId o) (teamId o) s with
  | Some t => pret t
  | None => pfail TemplateError
  end.

(** [prisma.documentData.findUnique({ where: { id } })] *)
Definition documentData_findUnique (id : string)
  : Op (option DocumentData.t) :=
  pawait Rejected ;;
  s <- pget ;;
  pret (find (fun d => String.eqb (DocumentData.id d) id) (documentData s)).

(** Lines 106-112. *)
Definition getDocumentDataBuffer (type data : string) : Op Buffer :=
  pawait Rejected ;;
  match getFileServerSide type data with
  | Some fileData => pret fileData
  | None => pfail Rejected
  end.

(** The second [Promise.all]: each load with its [catch]. *)
Definition loadBoth (oldPdfBuffer newPdfBuffer : Buffer) : Op (Z * Z) :=
  match getPageCount oldPdfBuffer, getPageCount newPdfBuffer with
  | Some oldPageCount, Some newPageCount =>
      pret (oldPageCount, newPageCount)
  | None, Some _ => pfail (AppError INVALID_REQUEST Failed_to_load_old_PDF)
  | Some _, None => pfail (AppError INVALID_REQUEST Failed_to_load_new_PDF)
  | None, None =>
      pfail (AppError INVALID_REQUEST
               (if newLoadRejectsFirst then Failed_to_load_new_PDF
                else Failed_to_load_old_PDF))
  end.

(** [prisma.envelopeItem.update({ where: { id }, data })] *)
Definition envelopeItem_update (id : string)
    (f : EnvelopeItem.t -> EnvelopeItem.t) : Op unit :=
  pawait Rejected ;;
  s <- pget ;;
  if existsb (fun i => String.eqb (EnvelopeItem.id i) id) (envelopeItems s)
  then pmodify
         (set_envelopeItems
            (update_where (fun i => String.eqb (EnvelopeItem.id i) id) f
                          (envelopeItems s)))
  else pfail RecordNotFound.

(** [prisma.field.findMany({ where })] *)
Definition field_findMany (where_ : Field.t -> bool) : Op (list Field.t) :=
  pawait Rejected ;;
  s <- pget ;;
  pret (filter where_ (fields s)).

(** [prisma.field.deleteMany({ where })]; it yields [count]. *)
Definition field_deleteMany (where_ : Field.t -> bool) : Op Z :=
  pawait Rejected ;;
  s <- pget ;;
  pmodify (set_fields (filter (fun f => negb (where_ f)) (fields s))) ;;
  pret (Z.of_nat (List.length (filter where_ (fields s)))).

(** [where: { id: { in: ids } }] *)
Definition id_in (ids : list Z) (id : Z) : bool :=
  existsb (Z.eqb id) ids.

(** Lines 33-77 of replace-template-pdf.ts, which are lines 43-87 of
    part_000: the template, the new document data and the page counts
    of the two PDFs. The lines written to the console are left out. *)
Definition loadPageCounts (o : ReplaceTemplatePdfOptions)
  : Op (Template * (Z * Z)) :=
  template <- template_get o ;;
  newDocumentData <- documentData_findUnique (newDocumentDataId o) ;;
  match newDocumentData with
  | None => pfail (AppError NOT_FOUND New_document_data_not_found)
  | Some newDocumentData =>
      let oldDocumentData := templateDocumentData template in
      buffers <- pall (getDocumentDataBuffer (type oldDocumentData)
                                             (data oldDocumentData))
                      (getDocumentDataBuffer
                         (DocumentData.type newDocumentData)
                         (DocumentData.data newDocumentData)) ;;
      counts <- loadBoth (fst buffers) (snd buffers) ;;
      pret (template, counts)
  end.

(** Lines 85-100 of replace-template-pdf.ts, lines 124-139 of
    part_000. *)
Definition repoint (o : ReplaceTemplatePdfOptions) (template : Template)
  : Op Template :=
  envelopeItem_update (envelopeItemId (templateDocumentData template))
    (EnvelopeItem.with_documentDataId (newDocumentDataId o)) ;;
  template_get o.

(** replace-template-pdf.ts, lines 25-101. *)
Definition replaceTemplatePdf (o : ReplaceTemplatePdfOptions) : Op Template :=
  loaded <- loadPageCounts o ;;
  let template := fst loaded in
  let oldPageCount := fst (snd loaded) in
  let newPageCount := snd (snd loaded) in
  if negb (oldPageCount =? newPageCount)
  then pfail (AppError INVALID_REQUEST
                (Page_count_mismatch oldPageCount newPageCount))
  else repoint o template.

(** [where: { envelopeId, page: { gt: newPageCount } }] *)
Definition onRemovedPage (envelopeId : string) (newPageCount : Z)
    (f : Field.t) : bool :=
  String.eqb (Field.envelopeId f) envelopeId && (Field.page f >? newPageCount).

(** part_000, lines 35-147. *)
Definition replaceTemplatePdf_part_000 (o : ReplaceTemplatePdfOptions)
  : Op ReplaceTemplatePdfResult :=
  loaded <- loadPageCounts o ;;
  let template := fst loaded in
  let oldPageCount := fst (snd loaded) in
  let newPageCount := snd (snd loaded) in
  deletedFieldsCount <-
    (if newPageCount <? oldPageCount
     then
       fieldsToDelete <-
         field_findMany (onRemovedPage (envelopeId template) newPageCount) ;;
       if 0 <? Z.of_nat (List.length fieldsToDelete)
       then field_deleteMany
              (fun f => id_in (map Field.id fieldsToDelete) (Field.id f))
       else pret 0
     else pret 0) ;;
  updatedTemplate <- repoint o template ;;
  pret {| template := updatedTemplate;
          oldPageCount := oldPageCount;
          newPageCount := newPageCount;
          deletedFieldsCount := deletedFieldsCount |}.

(* --------------------------------------------------------------- *)
(** *** Vocabulary of the statements on replaceTemplatePdf           *)
(* --------------------------------------------------------------- *)

(** What [loadPageCounts] finds on a store when no call is disturbed,
    [None] when it throws. *)
Definition pageCountsOn (o : ReplaceTemplatePdfOptions) (s : Store)
  : option (Template * (Z * Z)) :=
  match getTemplateById (o_id o) (userId o) (teamId o) s with
  | None => None
  | Some template =>
      match find (fun d => String.eqb (DocumentData.id d)
                                      (newDocumentDataId o))
                 (documentData s) with
      | None => None
      | Some newDocumentData =>
          match getFileServerSide
                  (type (templateDocumentData template))
                  (data (templateDocumentData template)),
                getFileServerSide
                  (DocumentData.type newDocumentData)
                  (DocumentData.data newDocumentData) with
          | Some oldPdfBuffer, Some newPdfBuffer =>
              match getPageCount oldPdfBuffer, getPageCount newPdfBuffer with
              | Some oldPageCount, Some newPageCount =>
                  Some (template, (oldPageCount, newPageCount))
              | _, _ => None
              end
          | _, _ => None
          end
      end
  end.

(** The requests [replaceTemplatePdf] of replace-template-pdf.ts turns
    down, with what it throws. *)
Inductive refusal (o : ReplaceTemplatePdfOptions) (s : Store)
  : Failure -> Prop :=
| refuses_missing_data template :
    getTemplateById (o_id o) (userId o) (teamId o) s = Some template ->
    find (fun d => String.eqb (DocumentData.id d) (newDocumentDataId o))
         (documentData s) = None ->
    refusal o s (AppError NOT_FOUND New_document_data_not_found)
| refuses_page_count template oldPageCount newPageCount :
    pageCountsOn o s = Some (template, (oldPageCount, newPageCount)) ->
    oldPageCount <> newPageCount ->
    refusal o s (AppError INVALID_REQUEST
                   (Page_count_mismatch oldPageCount newPageCount)).

(** The envelope items with the template's item pointing at the new
    document data. *)
Definition repointed (o : ReplaceTemplatePdfOptions) (template : Template)
    (s : Store) : list EnvelopeItem.t :=
  update_where
    (fun i => String.eqb (EnvelopeItem.id i)
                         (envelopeItemId (templateDocumentData template)))
    (EnvelopeItem.with_documentDataId (newDocumentDataId o))
    (envelopeItems s).

(** The fields that stay when the template goes from [oldPageCount] to
    [newPageCount] pages: with fewer pages, all but those of the
    envelope on a page beyond the new count. *)
Definition pruned (envelopeId : string) (oldPageCount newPageCount : Z)
    (s : Store) : list Field.t :=
  if newPageCount <? oldPageCount
  then filter (fun f => negb (onRemovedPage envelopeId newPageCount f))
              (fields s)
  else fields s.

(** The store once the PDF of [template] is replaced. *)
Definition replaced (o : ReplaceTemplatePdfOptions) (template : Template)
    (oldPageCount newPageCount : Z) (s : Store) : Store :=
  {| documentData := documentData s;
     envelopeItems := repointed o template s;
     fields := pruned (envelopeId template) oldPageCount newPageCount s |}.

(** The envelope item of the template is there. *)
Definition itemExists (template : Template) (s : Store) : bool :=
  existsb (fun i => String.eqb (EnvelopeItem.id i)
                               (envelopeItemId (templateDocumentData template)))
          (envelopeItems s).

(** Every field of the envelope lies on one of the first [pages]
    pages. *)
Definition fieldsWithin (envelopeId : string) (pages : Z) (s : Store)
  : Prop :=
  forall f, In f (fields s) ->
            Field.envelopeId f = envelopeId -> Field.page f <= pages.

End ReplaceTemplatePdf.

End TemplatePdf.

(** A template store for the statements on replaceTemplatePdf. The
    stand-ins: a PDF has as many pages as its data has characters, its
    file is its data, and the template is read off the item [item_1]. *)
Definition sample_getTemplateById (id : EnvelopeIdOptions) (userId teamId : Z)
    (s : TemplatePdf.Store) : option TemplatePdf.Template :=
  match find (fun i => String.eqb (EnvelopeItem.id i) "item_1")
             (TemplatePdf.envelopeItems s) with
  | None => None
  | Some i =>
      match find (fun d => String.eqb (TemplatePdf.DocumentData.id d)
                                      (EnvelopeItem.documentDataId i))
                 (TemplatePdf.documentData s) with
      | None => None
      | Some d =>
          Some {| TemplatePdf.envelopeId := EnvelopeItem.envelopeId i;
                  TemplatePdf.templateDocumentData :=
                    {| TemplatePdf.id := TemplatePdf.DocumentData.id d;
                       TemplatePdf.type := TemplatePdf.DocumentData.type d;
                       TemplatePdf.data := TemplatePdf.DocumentData.data d;
                       TemplatePdf.envelopeItemId := EnvelopeItem.id i |};
                  TemplatePdf.etc := "" |}
      end
  end.

Definition sample_getFileServerSide (type data : string) : option Buffer :=
  Some data.

Definition sample_getPageCount (b : Buffer) : option Z :=
  if String.eqb b "" then None else Some (Z.of_nat (String.length b)).

Definition sample_template_store : TemplatePdf.Store :=
  {| TemplatePdf.documentData :=
       [ {| TemplatePdf.DocumentData.id := "data_old";
            TemplatePdf.DocumentData.type := "BYTES_64";
            TemplatePdf.DocumentData.data := "abc" |};
         {| TemplatePdf.DocumentData.id := "data_two_pages";
            TemplatePdf.DocumentData.type := "BYTES_64";
            TemplatePdf.DocumentData.data := "de" |};
         {| TemplatePdf.DocumentData.id := "data_three_pages";
            TemplatePdf.DocumentData.type := "BYTES_64";
            TemplatePdf.DocumentData.data := "fgh" |} ];
     TemplatePdf.envelopeItems :=
       [ {| EnvelopeItem.id := "item_1";
            EnvelopeItem.envelopeId := "envelope_1";
            EnvelopeItem.documentDataId := "data_old" |} ];
     TemplatePdf.fields :=
       [ {| TemplatePdf.Field.id := 1;
            TemplatePdf.Field.envelopeId := "envelope_1";
            TemplatePdf.Field.page := 1;
            TemplatePdf.Field.type := SIGNATURE |};
         {| TemplatePdf.Field.id := 2;
            TemplatePdf.Field.envelopeId := "envelope_1";
            TemplatePdf.Field.page := 3;
            TemplatePdf.Field.type := DATE |};
         {| TemplatePdf.Field.id := 3;
            TemplatePdf.Field.envelopeId := "envelope_2";
            TemplatePdf.Field.page := 3;
            TemplatePdf.Field.type := NAME |} ] |}.

Definition sample_replace (newDocumentDataId : string)
  : TemplatePdf.ReplaceTemplatePdfOptions :=
  {| TemplatePdf.o_id := ByEnvelopeId "envelope_1";
     TemplatePdf.userId := 7;
     TemplatePdf.teamId := 1;
     TemplatePdf.newDocumentDataId := newDocumentDataId;
     TemplatePdf.requestMetadata :=
       {| api_requestMetadata := {| ipAddress := None; userAgent := None |};
          api_source := "app";
          api_auth := None;
          api_auditUser := None |} |}.

(** The template as [sample_getTemplateById] gives it once its item
    points at the document data [id] with content [data]. *)
Definition sample_template (id data : string) : TemplatePdf.Template :=
  {| TemplatePdf.envelopeId := "envelope_1";
     TemplatePdf.templateDocumentData :=
       {| TemplatePdf.id := id;
          TemplatePdf.type := "BYTES_64";
          TemplatePdf.data := data;
          TemplatePdf.envelopeItemId := "item_1" |};
     TemplatePdf.etc := "" |}.

(** The two versions on the sample store. *)
Definition sample_replaceTemplatePdf (newDocumentDataId : string)
  : TemplatePdf.Op TemplatePdf.Template :=
  TemplatePdf.replaceTemplatePdf sample_getTemplateById
    sample_getFileServerSide sample_getPageCount false
    (sample_replace newDocumentDataId).

Definition sample_replaceTemplatePdf_part_000 (newDocumentDataId : string)
  : TemplatePdf.Op TemplatePdf.ReplaceTemplatePdfResult :=
  TemplatePdf.replaceTemplatePdf_part_000 sample_getTemplateById
    sample_getFileServerSide sample_getPageCount false
    (sample_replace newDocumentDataId).


(* ================================================================= *)
(** ** Reasoning about runs                                            *)
(* ================================================================= *)

Lemma bind_inv {A B} (m : M A) (f : A -> M B) w r w' :
  bind m f w = (r, w') ->
  (exists a w1, m w = (Ok a, w1) /\ f a w1 = (r, w')) \/
  (exists e, m w = (Throw e, w') /\ r = Throw e).
Proof.
  unfold bind. destruct (m w) as [[a|e] w1]; intros H.
  - left. eauto.
  - right. inversion H; subst. eauto.
Qed.

Lemma bind_ok {A B} (m : M A) (f : A -> M B) w a w1 :
  m w = (Ok a, w1) -> bind m f w = f a w1.
Proof. unfold bind. intros ->. reflexivity. Qed.


Lemma bind_ext {A B} (m : M A) (f g : A -> M B) w :
  (forall a w1, f a w1 = g a w1) -> bind m f w = bind m g w.
Proof.
  intros H. unfold bind. destruct (m w) as [[a|e] w1]; auto.
Qed.

Lemma same_store_refl w : same_store w w.
Proof. repeat split. Qed.

Lemma same_store_trans w1 w2 w3 :
  same_store w1 w2 -> same_store w2 w3 -> same_store w1 w3.
Proof. unfold same_store. intuition congruence. Qed.

Lemma world_eq w w' :
  same_store w w' -> faultIn w' = faultIn w -> w' = w.
Proof.
  destruct w, w'; unfold same_store; simpl.
  intros (-> & -> & ->) ->. reflexivity.
Qed.

Lemma await_inv w r w' :
  await w = (r, w') ->
  same_store w w' /\
  (r = Ok tt \/ r = Throw Rejected /\ faultIn w = Some O) /\
  (faultIn w = None -> r = Ok tt /\ w' = w).
Proof.
  unfold await. destruct w as [d o n [[|k]|]]; simpl; intros H;
    inversion H; subst; clear H; unfold same_store; simpl;
    repeat split; auto; try discriminate.
Qed.

Lemma await_nofault w : faultIn w = None -> await w = (Ok tt, w).
Proof. unfold await. intros ->. reflexivity. Qed.

(** *** Running a program forwards *)

Lemma bind_assoc {A B C} (m : M A) (f : A -> M B) (g : B -> M C) w :
  bind (bind m f) g w = bind m (fun a => bind (f a) g) w.
Proof. unfold bind. destruct (m w) as [[a|e] w1]; reflexivity. Qed.

Lemma bind_ret {A B} (a : A) (f : A -> M B) w : bind (ret a) f w = f a w.
Proof. reflexivity. Qed.

Lemma bind_throw_now {A B} e (f : A -> M B) w :
  bind (throw e) f w = (Throw e, w).
Proof. reflexivity. Qed.

Lemma bind_getDb {B} (f : Db -> M B) w : bind getDb f w = f (db w) w.
Proof. reflexivity. Qed.

Lemma bind_newDate {B} (f : Z -> M B) w : bind newDate f w = f (now w) w.
Proof. reflexivity. Qed.

Lemma bind_modifyDb {B} g (f : unit -> M B) w :
  bind (modifyDb g) f w = f tt (set_db (g (db w)) w).
Proof. reflexivity. Qed.

Lemma bind_emit {B} e (f : unit -> M B) w :
  bind (emit e) f w = f tt (set_outbox (outbox w ++ [e]) w).
Proof. reflexivity. Qed.

Lemma bind_await {B} (f : unit -> M B) w :
  faultIn w = None -> bind await f w = f tt w.
Proof. intros H. unfold bind. now rewrite await_nofault. Qed.

Lemma bind_throwIf_false {B} e (f : unit -> M B) w :
  bind (throwIf false e) f w = f tt w.
Proof. reflexivity. Qed.

Lemma bind_when_false {B} m (f : unit -> M B) w :
  bind (when false m) f w = f tt w.
Proof. reflexivity. Qed.

(** Push a fault-free run through the steps that cannot branch. *)
Ltac run :=
  repeat first
    [ rewrite bind_assoc
    | rewrite bind_ret
    | rewrite bind_getDb
    | rewrite bind_newDate
    | rewrite bind_modifyDb
    | rewrite bind_emit
    | rewrite bind_throwIf_false
    | rewrite bind_when_false
    | rewrite bind_throw_now
    | rewrite bind_await by (simpl; assumption) ].

(** *** Relations every step of a run keeps *)

Section Frame.
Variable Rd : Db -> Db -> Prop.
Variable Ro : list Effect -> list Effect -> Prop.
Context {Rd_pre : PreOrder Rd} {Ro_pre : PreOrder Ro}.

Lemma framed_refl w : framed Rd Ro w w.
Proof. split; reflexivity. Qed.

Lemma framed_trans w1 w2 w3 : framed Rd Ro w1 w2 -> framed Rd Ro w2 w3 -> framed Rd Ro w1 w3.
Proof. intros [? ?] [? ?]; split; etransitivity; eauto. Qed.

Lemma framed_same_store w w' : same_store w w' -> framed Rd Ro w w'.
Proof. intros (Hd & Ho & _). unfold framed. rewrite Hd, Ho. apply framed_refl. Qed.

Lemma respects_ret {A} (a : A) : respects Rd Ro (ret a).
Proof. intros w r w' H. inversion H; subst. apply framed_refl. Qed.

Lemma respects_throw {A} e : respects Rd Ro (@throw A e).
Proof. intros w r w' H. inversion H; subst. apply framed_refl. Qed.

Lemma respects_bind {A B} (m : M A) (f : A -> M B) :
  respects Rd Ro m -> (forall a, respects Rd Ro (f a)) -> respects Rd Ro (bind m f).
Proof.
  intros Hm Hf w r w' H.
  apply bind_inv in H as [(a & w1 & H1 & H2) | (e & H1 & _)].
  - eapply framed_trans; [eapply Hm | eapply Hf]; eauto.
  - eapply Hm; eauto.
Qed.

Lemma respects_await : respects Rd Ro await.
Proof.
  intros w r w' H. apply await_inv in H as (H & _).
  now apply framed_same_store.
Qed.

Lemma respects_getDb : respects Rd Ro getDb.
Proof. intros w r w' H. inversion H; subst. apply framed_refl. Qed.

Lemma respects_newDate : respects Rd Ro newDate.
Proof. intros w r w' H. inversion H; subst. apply framed_refl. Qed.

Lemma respects_throwIf c e : respects Rd Ro (throwIf c e).
Proof. destruct c; simpl; [apply respects_throw | apply respects_ret]. Qed.

Lemma respects_when c m : respects Rd Ro m -> respects Rd Ro (when c m).
Proof. intros Hm. destruct c; simpl; auto using respects_ret. Qed.

Lemma respects_modifyDb f :
  (forall d, Rd d (f d)) -> respects Rd Ro (modifyDb f).
Proof.
  intros Hf w r w' H. inversion H; subst. split; simpl; auto. reflexivity.
Qed.

Lemma respects_emit e :
  (forall o, Ro o (o ++ [e])) -> respects Rd Ro (emit e).
Proof.
  intros He w r w' H. inversion H; subst. split; simpl; auto. reflexivity.
Qed.

(** A rolled-back transaction still counts: the store is the old one,
    and what was sent stays sent. *)
Lemma respects_transaction {A} (body : M A) :
  respects Rd Ro body -> respects Rd Ro (transaction body).
Proof.
  intros Hb w r w' H. unfold transaction in H.
  destruct (body w) as [[a|e] w1] eqn:E.
  - apply Hb in E. destruct (await w1) as [[u|e] w2] eqn:E2;
      apply await_inv in E2 as ((Hd & Ho & _) & _);
      inversion H; subst; clear H; destruct E as [E1 E2]; split; simpl.
    + rewrite Hd; auto.
    + rewrite Ho; auto.
    + reflexivity.
    + rewrite Ho; auto.
  - apply Hb in E. inversion H; subst; clear H. destruct E. split; simpl.
    + reflexivity.
    + auto.
Qed.

Lemma respects_forEach {A} (l : list A) (body : A -> M unit) :
  (forall x, In x l -> respects Rd Ro (body x)) -> respects Rd Ro (forEach l body).
Proof.
  induction l as [|x l IH]; simpl; intros Hb.
  - apply respects_ret.
  - apply respects_bind; auto.
Qed.

Lemma respects_foldM {A S} (body : S -> A -> M S) (l : list A) (s : S) :
  (forall s x, In x l -> respects Rd Ro (body s x)) -> respects Rd Ro (foldM body l s).
Proof.
  revert s. induction l as [|x l IH]; simpl; intros s Hb.
  - apply respects_ret.
  - apply respects_bind; auto.
Qed.

(** Reads. *)
Lemma respects_envelope_findFirst {I} wh (inc : Db -> Envelope.t -> I) :
  respects Rd Ro (envelope_findFirst wh inc).
Proof.
  unfold envelope_findFirst.
  repeat (apply respects_bind; intros);
    auto using respects_await, respects_getDb, respects_ret.
Qed.

Lemma respects_envelope_findFirstOrThrow {I} wh
    (inc : Db -> Envelope.t -> I) :
  respects Rd Ro (envelope_findFirstOrThrow wh inc).
Proof.
  unfold envelope_findFirstOrThrow.
  apply respects_bind; [apply respects_envelope_findFirst|].
  intros [x|]; auto using respects_ret, respects_throw.
Qed.

Lemma respects_recipient_findMany wh : respects Rd Ro (recipient_findMany wh).
Proof.
  unfold recipient_findMany.
  repeat (apply respects_bind; intros);
    auto using respects_await, respects_getDb, respects_ret.
Qed.

Lemma respects_recipient_findUnique id : respects Rd Ro (recipient_findUnique id).
Proof.
  unfold recipient_findUnique.
  repeat (apply respects_bind; intros);
    auto using respects_await, respects_getDb, respects_ret.
Qed.

Lemma respects_field_findMany wh : respects Rd Ro (field_findMany wh).
Proof.
  unfold field_findMany.
  repeat (apply respects_bind; intros);
    auto using respects_await, respects_getDb, respects_ret.
Qed.

Lemma respects_field_findMany_recipient wh :
  respects Rd Ro (field_findMany_recipient wh).
Proof.
  unfold field_findMany_recipient.
  repeat (apply respects_bind; intros);
    auto using respects_await, respects_getDb, respects_ret.
Qed.

(** Writes, each under the condition that the relation admits it. *)
Lemma respects_recipient_update id f :
  (forall d, Rd d (set_recipients
                     (update_where (fun r => Recipient.id r =? id) f
                                   (recipients d)) d)) ->
  respects Rd Ro (recipient_update id f).
Proof.
  intros Hf. unfold recipient_update.
  apply respects_bind; [apply respects_await|intros _].
  apply respects_bind; [apply respects_getDb|intros d].
  destruct (existsb _ _);
    auto using respects_modifyDb, respects_throw.
Qed.

Lemma respects_field_update id f :
  (forall d, Rd d (set_fields
                     (update_where (fun x => Field.id x =? id) f
                                   (fields d)) d)) ->
  respects Rd Ro (field_update id f).
Proof.
  intros Hf. unfold field_update.
  apply respects_bind; [apply respects_await|intros _].
  apply respects_bind; [apply respects_getDb|intros d].
  destruct (existsb _ _);
    auto using respects_modifyDb, respects_throw.
Qed.

Lemma respects_envelope_update id f :
  (forall d, Rd d (set_envelopes
                     (update_where
                        (fun e => String.eqb (Envelope.id e) id) f
                        (envelopes d)) d)) ->
  respects Rd Ro (envelope_update id f).
Proof.
  intros Hf. unfold envelope_update.
  apply respects_bind; [apply respects_await|intros _].
  apply respects_bind; [apply respects_getDb|intros d].
  destruct (existsb _ _);
    auto using respects_modifyDb, respects_throw.
Qed.

Lemma respects_envelopeItem_update id f :
  (forall d, Rd d (set_envelopeItems
                     (update_where
                        (fun i => String.eqb (EnvelopeItem.id i) id) f
                        (envelopeItems d)) d)) ->
  respects Rd Ro (envelopeItem_update id f).
Proof.
  intros Hf. unfold envelopeItem_update.
  apply respects_bind; [apply respects_await|intros _].
  apply respects_bind; [apply respects_getDb|intros d].
  destruct (existsb _ _);
    auto using respects_modifyDb, respects_throw.
Qed.

Lemma respects_signature_create s :
  (forall d, Rd d (set_signatures (signatures d ++ [s]) d)) ->
  respects Rd Ro (signature_create s).
Proof.
  intros Hf. unfold signature_create.
  apply respects_bind; [apply respects_await|intros _].
  now apply respects_modifyDb.
Qed.

Lemma respects_documentAuditLog_create a :
  (forall d, Rd d (set_documentAuditLogs (documentAuditLogs d ++ [a]) d)) ->
  respects Rd Ro (documentAuditLog_create a).
Proof.
  intros Hf. unfold documentAuditLog_create.
  apply respects_bind; [apply respects_await|intros _].
  now apply respects_modifyDb.
Qed.

Lemma respects_triggerJob name payload :
  (forall o, Ro o (o ++ [TriggerJob name payload])) ->
  respects Rd Ro (triggerJob name payload).
Proof.
  intros Hf. unfold triggerJob.
  apply respects_bind; [apply respects_await|intros _].
  now apply respects_emit.
Qed.

Lemma respects_sendPendingEmail id recipientId :
  (forall o, Ro o (o ++ [SendPendingEmail id recipientId])) ->
  respects Rd Ro (sendPendingEmail id recipientId).
Proof.
  intros Hf. unfold sendPendingEmail.
  apply respects_bind; [apply respects_await|intros _].
  now apply respects_emit.
Qed.

Lemma respects_triggerWebhook ev e rs u t :
  (forall o, Ro o (o ++ [TriggerWebhook ev e rs u t])) ->
  respects Rd Ro (triggerWebhook ev e rs u t).
Proof.
  intros Hf. unfold triggerWebhook.
  apply respects_bind; [apply respects_await|intros _].
  now apply respects_emit.
Qed.
End Frame.

(** *** Relations on tables                                            *)

#[export] Instance any_PreOrder {A} : PreOrder (@any A).
Proof. split; red; unfold any; auto. Qed.

#[export] Instance appends_PreOrder {A} (P : A -> Prop) : PreOrder (appends P).
Proof.
  split.
  - intros l. exists []. now rewrite app_nil_r.
  - intros l1 l2 l3 (a & -> & Ha) (b & -> & Hb).
    exists (a ++ b)%list. rewrite app_assoc. split; auto.
    apply Forall_app; auto.
Qed.

#[export] Instance Forall2_PreOrder {A} (R : A -> A -> Prop) `{PreOrder A R} :
  PreOrder (Forall2 R).
Proof.
  split.
  - intros l. induction l; constructor; auto. reflexivity.
  - intros l1 l2 l3 H12. revert l3.
    induction H12; intros l3 H23; inversion H23; subst; constructor.
    + etransitivity; eauto.
    + auto.
Qed.

Lemma appends_one {A} (P : A -> Prop) l x :
  P x -> appends P l (l ++ [x])%list.
Proof. intros Hx. exists [x]. split; auto. Qed.

Lemma Forall2_update_where {A} (R : A -> A -> Prop) `{Reflexive A R}
    (p : A -> bool) (f : A -> A) (l : list A) :
  (forall x, In x l -> p x = true -> R x (f x)) ->
  Forall2 R l (update_where p f l).
Proof.
  unfold update_where. induction l as [|x l IH]; simpl; intros Hf.
  - constructor.
  - constructor; [|apply IH; auto].
    destruct (p x) eqn:E; [apply Hf; auto | reflexivity].
Qed.

#[export] Instance on_db_PreOrder Re Ri Rr Rf Rs Rl
    `{PreOrder _ Re} `{PreOrder _ Ri} `{PreOrder _ Rr}
    `{PreOrder _ Rf} `{PreOrder _ Rs} `{PreOrder _ Rl} :
  PreOrder (on_db Re Ri Rr Rf Rs Rl).
Proof.
  split.
  - intros d. repeat split; reflexivity.
  - intros d1 d2 d3 (?&?&?&?&?&?) (?&?&?&?&?&?).
    repeat split; etransitivity; eauto.
Qed.

Create HintDb programs.
#[export] Hint Unfold
  sendDocument sendDocumentWith sendDocumentFor sendTransaction
  notifyRecipients sealJob
  injectFormValuesIntoDocument resolveAutoSign_send completeAutoSigned_send
  autoSignField markSigned
  completeDocumentWithToken completeFor checkPreconditions checkAccessAuth
  completionTransaction resolveAutoSign_complete completeAutoSigned_complete
  advance advanceTransaction sealIfAllSigned signedWebhook
  getIsRecipientsTurnToSign envelope_update_returning : programs.

Ltac fapply L :=
  apply L;
  try (lazymatch goal with |- PreOrder _ => typeclasses eauto end).

(** One structural step of a [respects] goal. *)
Ltac frame_step :=
  lazymatch goal with
  | |- respects _ _ (bind _ _) => fapply respects_bind; [|intros]
  | |- respects _ _ (ret _) => fapply respects_ret
  | |- respects _ _ (throw _) => fapply respects_throw
  | |- respects _ _ (throwIf _ _) => fapply respects_throwIf
  | |- respects _ _ (when _ _) => fapply respects_when
  | |- respects _ _ await => fapply respects_await
  | |- respects _ _ getDb => fapply respects_getDb
  | |- respects _ _ newDate => fapply respects_newDate
  | |- respects _ _ (transaction _) => fapply respects_transaction
  | |- respects _ _ (forEach _ _) => fapply respects_forEach; intros
  | |- respects _ _ (foldM _ _ _) => fapply respects_foldM; intros
  | |- respects _ _ (envelope_findFirst _ _) =>
      fapply respects_envelope_findFirst
  | |- respects _ _ (envelope_findFirstOrThrow _ _) =>
      fapply respects_envelope_findFirstOrThrow
  | |- respects _ _ (recipient_findMany _) => fapply respects_recipient_findMany
  | |- respects _ _ (recipient_findUnique _) =>
      fapply respects_recipient_findUnique
  | |- respects _ _ (field_findMany _) => fapply respects_field_findMany
  | |- respects _ _ (field_findMany_recipient _) =>
      fapply respects_field_findMany_recipient
  | |- respects _ _ (recipient_update _ _) =>
      fapply respects_recipient_update; intros
  | |- respects _ _ (field_update _ _) => fapply respects_field_update; intros
  | |- respects _ _ (envelope_update _ _) =>
      fapply respects_envelope_update; intros
  | |- respects _ _ (envelopeItem_update _ _) =>
      fapply respects_envelopeItem_update; intros
  | |- respects _ _ (signature_create _) =>
      fapply respects_signature_create; intros
  | |- respects _ _ (documentAuditLog_create _) =>
      fapply respects_documentAuditLog_create; intros
  | |- respects _ _ (triggerJob _ _) => fapply respects_triggerJob; intros
  | |- respects _ _ (sendPendingEmail _ _) =>
      fapply respects_sendPendingEmail; intros
  | |- respects _ _ (triggerWebhook _ _ _ _ _) =>
      fapply respects_triggerWebhook; intros
  | |- respects _ _ (match ?x with _ => _ end) => destruct x eqn:?
  | |- respects _ _ _ => progress autounfold with programs
  end.

Ltac frame_walk := repeat frame_step.

(** Obligations of the writes, for a relation built with [on_db]. *)
Ltac db_obligation :=
  lazymatch goal with
  | |- on_db _ _ _ _ _ _ _ _ =>
      unfold on_db; simpl; repeat split; try reflexivity
  | |- any _ _ => exact I
  | _ => idtac
  end.

(* ================================================================= *)
(** ** Frame of [completeDocumentWithToken]: the envelope tables        *)
(* ================================================================= *)

Section EnvelopeFrame.
Context `{Collab : Collaborators}.

Lemma complete_keeps_envelope_tables o :
  respects envelope_tables_kept any (completeDocumentWithToken o).
Proof.
  unfold envelope_tables_kept.
  frame_walk; db_obligation; exact I.
Qed.
End EnvelopeFrame.

(* ================================================================= *)
(** ** The discarded filter of [sendDocument] (lines 95-104)           *)
(* ================================================================= *)

Lemma firstn_1_filter {A} (p : A -> bool) (l : list A) :
  firstn 1 (filter p l) =
  match find p l with Some x => [x] | None => [] end.
Proof.
  induction l as [|x l IH]; simpl; auto.
  destruct (p x); simpl; auto.
Qed.

(** C9. Under SEQUENTIAL order the second [filter] of [sendDocument] is
    computed and dropped: [sendDocument] is the very function obtained by
    deleting that statement, on every input and world; the list to notify
    after the block is the first NOT_SIGNED, non-CC recipient of the
    ordered recipients alone (empty when there is none), and rewriting
    the send statuses of the recipients changes nothing else in it. *)
Theorem sendDocument_secondary_filter_is_discarded `{Collaborators} :
  (forall o w, sendDocument o w = sendDocument_filter_removed o w) /\
  (forall recipients,
      recipientsToNotify_of SEQUENTIAL recipients =
      match firstUnsigned recipients with Some r => [r] | None => [] end) /\
  (forall (s : Recipient.t -> SendStatus) recipients,
      let resend := fun r => with_sendStatus (s r) r in
      recipientsToNotify_of SEQUENTIAL (map resend recipients) =
      map resend (recipientsToNotify_of SEQUENTIAL recipients)).
Proof.
  split; [|split].
  - intros o w. reflexivity.
  - intros rs. unfold recipientsToNotify_of, firstUnsigned.
    apply firstn_1_filter.
  - intros s rs resend. unfold recipientsToNotify_of.
    rewrite !firstn_1_filter.
    induction rs as [|r rs IH]; simpl; auto.
    unfold is_cc at 1. simpl.
    fold (is_cc r).
    destruct (SigningStatus_beq (Recipient.signingStatus r) NOT_SIGNED
              && negb (is_cc r)); simpl; auto.
Qed.

(** The filter would be redundant even if its result were kept: the
    dispatch of lines 320-338 passes over SENT recipients itself. *)
Lemma notifyRecipients_filter_unsent `{Collaborators} o legacyDocumentId l w :
  notifyRecipients o legacyDocumentId
    (filter (fun r => negb (SendStatus_beq (Recipient.sendStatus r) SENT)) l)
    w
  = notifyRecipients o legacyDocumentId l w.
Proof.
  unfold notifyRecipients. revert w.
  induction l as [|r l IH]; intros w; simpl; auto.
  destruct (SendStatus_beq (Recipient.sendStatus r) SENT) eqn:Es; simpl.
  - rewrite IH. reflexivity.
  - rewrite Es. simpl. apply bind_ext. intros _ w1. apply IH.
Qed.

Lemma sendDocument_filter_assigned_same `{Collaborators} o w :
  sendDocument_filter_assigned o w = sendDocument o w.
Proof.
  unfold sendDocument_filter_assigned, sendDocument, sendDocumentWith.
  apply bind_ext. intros _ w1. apply bind_ext. intros [[e [rs items]]|] w2;
    [|reflexivity].
  unfold sendDocumentFor.
  repeat (apply bind_ext; intros ? ?).
  destruct (forallb _ rs); [reflexivity|].
  apply bind_ext. intros updated w6.
  assert (E : forall w,
             notifyRecipients o
               (mapSecondaryIdToDocumentId (Envelope.secondaryId e))
               (recipientsToNotify_filter_assigned
                  match signingOrderOf e with
                  | Some s => s | None => PARALLEL end rs) w
             = notifyRecipients o
                 (mapSecondaryIdToDocumentId (Envelope.secondaryId e))
                 (recipientsToNotify_of
                    match signingOrderOf e with
                    | Some s => s | None => PARALLEL end rs) w).
  { intros w'. destruct (signingOrderOf e) as [[|]|]; try reflexivity.
    apply notifyRecipients_filter_unsent. }
  unfold when.
  destruct (match SO.sendEmail o with Some b => b | None => _ end);
    [|reflexivity].
  unfold bind at 1 3. rewrite E. reflexivity.
Qed.

(* ================================================================= *)
(** ** [sendDocument] when nobody has anything left to do              *)
(* ================================================================= *)

Lemma forallb_insert_by {A} (leb : A -> A -> bool) p x l :
  forallb p (insert_by leb x l) = p x && forallb p l.
Proof.
  induction l as [|y l IH]; simpl; auto.
  destruct (leb x y); simpl; auto.
  rewrite IH. destruct (p x), (p y); auto.
Qed.

Lemma forallb_sort_by {A} (leb : A -> A -> bool) p l :
  forallb p (sort_by leb l) = forallb p l.
Proof.
  unfold sort_by. induction l as [|x l IH]; simpl; auto.
  now rewrite forallb_insert_by, IH.
Qed.

Lemma length_insert_by {A} (leb : A -> A -> bool) x l :
  List.length (insert_by leb x l) = S (List.length l).
Proof.
  induction l as [|y l IH]; simpl; auto.
  destruct (leb x y); simpl; auto.
Qed.

Lemma length_sort_by {A} (leb : A -> A -> bool) l :
  List.length (sort_by leb l) = List.length l.
Proof.
  unfold sort_by. induction l as [|x l IH]; simpl; auto.
  now rewrite length_insert_by, IH.
Qed.

Lemma length_eqb_0 {A} (l : list A) :
  l <> [] -> Nat.eqb (List.length l) 0 = false.
Proof. destruct l; simpl; congruence. Qed.

Lemma existsb_update_where {A} (p q : A -> bool) (f : A -> A) l :
  (forall x, q (f x) = q x) ->
  existsb q (update_where p f l) = existsb q l.
Proof.
  intros Hq. unfold update_where. induction l as [|x l IH]; simpl; auto.
  rewrite IH. destruct (p x); now rewrite ?Hq.
Qed.

Lemma map_id_update_where {A K} (key : A -> K) (p : A -> bool)
    (f : A -> A) l :
  (forall x, key (f x) = key x) ->
  map key (update_where p f l) = map key l.
Proof.
  intros Hk. unfold update_where. rewrite map_map.
  apply map_ext. intros x. destruct (p x); auto.
Qed.

Section SendAllDone.
Context `{Collab : Collaborators}.

(** Without faults the injection of form values runs through and touches
    the document data of the items only. *)
Lemma injectFormValues_runs (e : Envelope.t) (l : list EnvelopeItem.t) :
  forall w,
    faultIn w = None ->
    (forall i, In i l -> In (EnvelopeItem.id i) (itemIds (db w))) ->
    exists w',
      forEach l (injectFormValuesIntoDocument e) w = (Ok tt, w') /\
      faultIn w' = None /\ outbox w' = outbox w /\ now w' = now w /\
      on_db eq (fun a b => map EnvelopeItem.id b = map EnvelopeItem.id a)
            eq eq eq eq (db w) (db w').
Proof.
  induction l as [|i l IH]; intros w Hn Hin.
  - exists w. simpl. repeat split; auto.
  - assert (Hi : existsb
                   (fun x => String.eqb (EnvelopeItem.id x) (EnvelopeItem.id i))
                   (envelopeItems (db w)) = true).
    { apply existsb_exists.
      specialize (Hin i (or_introl eq_refl)).
      unfold itemIds in Hin. apply in_map_iff in Hin as (x & Hx & Hx').
      exists x. split; auto. rewrite Hx. apply String.eqb_refl. }
    cbn [forEach]. unfold injectFormValuesIntoDocument at 1.
    unfold envelopeItem_update. run. rewrite Hi. cbv beta iota. run.
    match goal with
    | |- exists w', forEach l _ ?w1 = _ /\ _ =>
        destruct (IH w1) as (w' & Hrun & Hf' & Ho' & Hn' & Hd')
    end.
    + simpl. assumption.
    + intros j Hj. unfold itemIds. simpl.
      rewrite map_id_update_where by reflexivity.
      apply Hin. now right.
    + exists w'. split; [exact Hrun|]. simpl in *.
      repeat split; auto; destruct Hd' as (?&Hit&?&?&?&?); simpl in *; auto.
      rewrite Hit. apply map_id_update_where. reflexivity.
Qed.

Lemma sendDocumentFor_seal_only block o e rs items :
  forallb (fun r => is_cc r || is_signed r) rs = true ->
  respects any (appends seal_request_only)
           (sendDocumentFor block o e rs items).
Proof.
  intros Ha.
  frame_walk; try exact I; try congruence.
  apply appends_one. exact I.
Qed.

Lemma sendDocument_runs_when_no_action_left (o : SO.t) (w : World)
    (e : Envelope.t) :
  faultIn w = None ->
  find (envelopeWhereInput o) (envelopes (db w)) = Some e ->
  recipientsOf (db w) (Envelope.id e) <> [] ->
  Envelope.status e <> COMPLETED ->
  itemsOf (db w) (Envelope.id e) <> [] ->
  forallb (fun r => is_cc r || is_signed r)
          (recipientsOf (db w) (Envelope.id e)) = true ->
  exists r w',
    sendDocument o w = (Ok r, w') /\
    outbox w' = (outbox w ++ [sealJobOf o e])%list /\
    on_db eq any eq eq eq eq (db w) (db w').
Proof.
  intros Hn Hf Hr Hs Hi Ha.
  assert (Hc : isDocumentCompleted (Envelope.status e) = false)
    by (destruct (Envelope.status e); simpl; congruence).
  unfold sendDocument, sendDocumentWith, envelope_findFirst. run.
  rewrite Hf. unfold sendInclude. cbv beta iota. unfold sendDocumentFor.
  unfold orderBySigningOrderThenId.
  rewrite length_sort_by, forallb_sort_by, Ha, Hc.
  rewrite !length_eqb_0 by assumption. run.
  destruct (when (match Envelope.formValues e with
                  | Some _ => true | None => false end)
                 (forEach (itemsOf (db w) (Envelope.id e))
                          (injectFormValuesIntoDocument e)) w)
    as [r1 w1] eqn:Hrun.
  assert (Hinj : r1 = Ok tt /\ faultIn w1 = None /\ outbox w1 = outbox w /\
                 on_db eq (fun a b => map EnvelopeItem.id b
                                      = map EnvelopeItem.id a)
                       eq eq eq eq (db w) (db w1)).
  { destruct (Envelope.formValues e); simpl in Hrun.
    - destruct (injectFormValues_runs e (itemsOf (db w) (Envelope.id e)) w)
        as (w' & Hrun' & ? & ? & ? & ?); auto.
      + intros i Hin. unfold itemsOf in Hin.
        apply filter_In in Hin as [Hin _].
        unfold itemIds. now apply in_map.
      + rewrite Hrun' in Hrun. inversion Hrun; subst. auto.
    - inversion Hrun; subst. repeat split; auto. }
  destruct Hinj as (-> & Hf1 & Ho1 & He1 & Hi1 & Hr1 & Hfi1 & Hs1 & Hl1).
  erewrite bind_ok by exact Hrun. cbv beta iota.
  unfold sealJob, triggerJob, envelope_findFirstOrThrow, envelope_findFirst.
  run. cbn [db outbox set_outbox]. rewrite <- He1.
  assert (Hfind : exists e', find (hasId (Envelope.id e)) (envelopes (db w))
                             = Some e').
  { destruct (find (hasId (Envelope.id e)) (envelopes (db w))) eqn:E; eauto.
    apply find_some in Hf as [Hin _].
    eapply find_none in E; eauto.
    unfold hasId in E. now rewrite String.eqb_refl in E. }
  destruct Hfind as (e' & ->).
  eexists; eexists. split; [reflexivity|]. simpl.
  split; [now rewrite Ho1|].
  unfold on_db. repeat split; auto.
Qed.

(** C7. When every recipient of the envelope found is CC or already
    SIGNED, [sendDocument] requests no notification job on any run:
    whatever it adds to the outbox is a request of the seal-document
    job. And a send that passes its guards (at least one recipient, not
    completed, at least one item) and whose collaborators do not fail
    requests that job, once, and returns, with no audit entry written
    and no recipient, field or envelope changed. *)
Theorem sendDocument_seals_when_no_action_left (o : SO.t) (w : World)
    (e : Envelope.t) :
  find (envelopeWhereInput o) (envelopes (db w)) = Some e ->
  forallb (fun r => is_cc r || is_signed r)
          (recipientsOf (db w) (Envelope.id e)) = true ->
  (forall r w',
      sendDocument o w = (r, w') ->
      appends seal_request_only (outbox w) (outbox w')) /\
  (faultIn w = None ->
   recipientsOf (db w) (Envelope.id e) <> [] ->
   Envelope.status e <> COMPLETED ->
   itemsOf (db w) (Envelope.id e) <> [] ->
   exists r w',
     sendDocument o w = (Ok r, w') /\
     outbox w' = (outbox w ++ [sealJobOf o e])%list /\
     on_db eq any eq eq eq eq (db w) (db w')).
Proof.
  intros Hf Ha. split.
  - intros r w' H. unfold sendDocument, sendDocumentWith in H.
    apply bind_inv in H as [(u & w1 & H1 & H2) | (ex & H1 & ->)].
    2:{ apply await_inv in H1 as ((_ & -> & _) & _). reflexivity. }
    apply await_inv in H1 as ((Hd1 & Ho1 & _) & _).
    apply bind_inv in H2 as [(found & w2 & H3 & H4) | (ex & H3 & ->)].
    + apply bind_inv in H3 as [(u3 & w3 & G1 & G2) | (ex & _ & ?)];
        [|discriminate].
      apply await_inv in G1 as ((Hd3 & Ho3 & _) & _).
      rewrite bind_getDb in G2. inversion G2; subst; clear G2.
      rewrite Hd3, Hd1, Hf in H4. unfold sendInclude in H4.
      apply sendDocumentFor_seal_only in H4 as [_ Hout].
      * rewrite Ho3, Ho1 in Hout. exact Hout.
      * unfold orderBySigningOrderThenId. now rewrite forallb_sort_by.
    + apply bind_inv in H3 as [(u3 & w3 & G1 & G2) | (ex' & G1 & E)].
      * rewrite bind_getDb in G2. discriminate.
      * apply await_inv in G1 as ((_ & Ho3 & _) & _).
        rewrite Ho3, Ho1. reflexivity.
  - intros. now apply sendDocument_runs_when_no_action_left.
Qed.
End SendAllDone.

Lemma sendDocument_seals_when_no_action_left_witness :
  (forall r w',
      @sendDocument Sample.collaborators Sample.send sample_all_done
      = (r, w') ->
      appends seal_request_only (outbox sample_all_done) (outbox w')) /\
  exists r w',
    @sendDocument Sample.collaborators Sample.send sample_all_done
    = (Ok r, w') /\
    outbox w' =
    [@sealJobOf Sample.collaborators Sample.send
       (Sample.envelope PENDING PARALLEL)] /\
    on_db eq any eq eq eq eq (db sample_all_done) (db w').
Proof.
  destruct (@sendDocument_seals_when_no_action_left Sample.collaborators
              Sample.send sample_all_done (Sample.envelope PENDING PARALLEL))
    as [Hany Hrun]; try reflexivity.
  split; [exact Hany|].
  apply Hrun; try reflexivity; simpl; discriminate.
Defined.

(* ================================================================= *)
(** ** The guards of [completeDocumentWithToken]                       *)
(* ================================================================= *)

Lemma quiet_refl w : quiet w w.
Proof. split; auto using same_store_refl. Qed.

Lemma quiet_trans w1 w2 w3 : quiet w1 w2 -> quiet w2 w3 -> quiet w1 w3.
Proof.
  intros [S1 E1] [S2 E2]. split.
  - eapply same_store_trans; eauto.
  - intros H. specialize (E1 H). subst w2. auto.
Qed.

Lemma await_quiet w r w' :
  await w = (r, w') ->
  quiet w w' /\ (r = Ok tt \/ r = Throw Rejected /\ faultIn w <> None).
Proof.
  intros H. apply await_inv in H as (S & [->|[-> F]] & N).
  - split; [split; auto; intros F; now apply N|auto].
  - split; [split; auto; intros F'; now apply N|].
    right. split; auto. congruence.
Qed.

(** Every query has the shape [await ;; d <- getDb ;; ret (g d)]. *)
Lemma read_inv {A} (g : Db -> A) w r w' :
  (await ;; d <- getDb ;; ret (g d)) w = (r, w') ->
  quiet w w' /\
  (r = Ok (g (db w)) \/ r = Throw Rejected /\ faultIn w <> None).
Proof.
  intros H. apply bind_inv in H as [(a & w1 & H1 & H2) | (e & H1 & ->)].
  - apply await_quiet in H1 as [Q _].
    rewrite bind_getDb in H2. inversion H2; subst; clear H2.
    split; auto. left. destruct Q as [(-> & _) _]. reflexivity.
  - apply await_quiet in H1 as [Q [H1|[H1 F]]]; [discriminate|].
    inversion H1; subst. auto.
Qed.

Lemma read_ok {A} (g : Db -> A) w a w' :
  (await ;; d <- getDb ;; ret (g d)) w = (Ok a, w') ->
  quiet w w' /\ a = g (db w).
Proof.
  intros H. apply read_inv in H as [Q [E|[E _]]]; inversion E; auto.
Qed.

Lemma read_throw {A} (g : Db -> A) w e w' :
  (await ;; d <- getDb ;; ret (g d)) w = (Throw e, w') ->
  quiet w w' /\ e = Rejected /\ faultIn w <> None.
Proof.
  intros H. apply read_inv in H as [Q [E|[E F]]]; inversion E; auto.
Qed.

Section Guards.
Context `{Collab : Collaborators}.

Lemma admissible_no_failure o d e r ex :
  admissible o d e r -> precondition_failure o d ex -> False.
Proof.
  intros (Hf & Hs & (rs & Hr) & Hn & Ht & Hu) H.
  inversion H; subst; clear H;
    repeat match goal with
           | H1 : ?x = _, H2 : ?x = _ |- _ =>
               rewrite H1 in H2; inversion H2; subst; clear H2
           end; try congruence.
  specialize (Ht ltac:(assumption)). congruence.
Qed.

Lemma is_sequential_spec e :
  is_sequential (signingOrderOf e) = true <->
  signingOrderOf e = Some SEQUENTIAL.
Proof.
  destruct (signingOrderOf e) as [[|]|]; simpl; split;
    congruence.
Qed.

Lemma DocumentStatus_beq_eq a b : DocumentStatus_beq a b = true <-> a = b.
Proof. destruct a, b; simpl; split; congruence. Qed.

Lemma SigningStatus_beq_eq a b : SigningStatus_beq a b = true <-> a = b.
Proof. destruct a, b; simpl; split; congruence. Qed.

(** The guards read only, and their verdict is the one of
    [precondition_failure]. *)
Lemma checkPreconditions_inv o e rs w r w' :
  find (envelopeByToken o (db w)) (envelopes (db w)) = Some e ->
  recipientsByToken o (db w) e = rs ->
  checkPreconditions o e rs w = (r, w') ->
  quiet w w' /\
  match r with
  | Ok rcp => admissible o (db w) e rcp
  | Throw ex =>
      ex = Rejected /\ faultIn w <> None \/ precondition_failure o (db w) ex
  end.
Proof.
  intros Hf Hrs H. unfold checkPreconditions in H.
  destruct (DocumentStatus_beq (Envelope.status e) PENDING) eqn:Es; simpl in H.
  2:{ inversion H; subst. split; [apply quiet_refl|]. right.
      eapply pf_not_pending; eauto.
      intros E. apply DocumentStatus_beq_eq in E. congruence. }
  apply DocumentStatus_beq_eq in Es.
  rewrite bind_ret in H.
  destruct rs as [|rcp rs'].
  { (* the query guarantees a recipient with the token *)
    exfalso. apply find_some in Hf as [_ Hf]. unfold envelopeByToken in Hf.
    apply andb_true_iff in Hf as [_ Hf]. apply existsb_exists in Hf
      as (x & Hx & Hx').
    unfold recipientsByToken in Hrs.
    assert (In x []) by (rewrite <- Hrs; apply filter_In; auto).
    contradiction. }
  unfold is_signed in H.
  destruct (SigningStatus_beq (Recipient.signingStatus rcp) SIGNED) eqn:E1;
    simpl in H.
  { inversion H; subst. split; [apply quiet_refl|]. right.
    apply SigningStatus_beq_eq in E1. eapply pf_signed; eauto. }
  rewrite bind_ret in H.
  destruct (SigningStatus_beq (Recipient.signingStatus rcp) REJECTED) eqn:E2;
    simpl in H.
  { inversion H; subst. split; [apply quiet_refl|]. right.
    apply SigningStatus_beq_eq in E2. eapply pf_rejected; eauto. }
  rewrite bind_ret in H.
  assert (Hns : Recipient.signingStatus rcp = NOT_SIGNED).
  { destruct (Recipient.signingStatus rcp); simpl in *; congruence. }
  apply bind_inv in H as [(u & w1 & H1 & H2) | (ex & H1 & ->)].
  - assert (Q1 : quiet w w1 /\
                 (signingOrderOf e = Some SEQUENTIAL ->
                  isRecipientsTurn (db w) (Recipient.token rcp) = true)).
    { destruct (is_sequential (signingOrderOf e)) eqn:Eq; simpl in H1.
      - unfold getIsRecipientsTurnToSign in H1. rewrite bind_assoc in H1.
        apply bind_inv in H1 as [(a & w2 & H3 & H4) | (ex & H3 & ?)];
          [|discriminate].
        rewrite bind_assoc in H4. rewrite bind_getDb, bind_ret in H4.
        apply await_quiet in H3 as [Q _].
        assert (db w2 = db w) by apply Q.
        destruct (isRecipientsTurn (db w2) (Recipient.token rcp)) eqn:Et;
          simpl in H4; inversion H4; subst.
        split; auto. intros _. congruence.
      - inversion H1; subst. split; [apply quiet_refl|].
        intros E. apply is_sequential_spec in E. congruence. }
    destruct Q1 as [Q1 Ht].
    apply bind_inv in H2 as [(fs & w2 & H3 & H4) | (ex & H3 & ->)].
    + unfold field_findMany in H3. apply read_ok in H3 as [Q2 ->].
      assert (Hd : db w1 = db w) by apply Q1. rewrite Hd in H4.
      destruct (fieldsContainUnsignedRequiredField _) eqn:Eu; simpl in H4;
        inversion H4; subst.
      * split; [eapply quiet_trans; eauto|]. right.
        eapply pf_unsigned; eauto.
      * split; [eapply quiet_trans; eauto|].
        repeat split; eauto.
    + unfold field_findMany in H3. apply read_throw in H3 as (Q2 & -> & F).
      split; [eapply quiet_trans; eauto|]. left. split; auto.
      intros F'. apply F. destruct Q1 as [_ Q1]. rewrite (Q1 F'). exact F'.
  - destruct (is_sequential (signingOrderOf e)) eqn:Eq; simpl in H1;
      [|discriminate].
    unfold getIsRecipientsTurnToSign in H1. rewrite bind_assoc in H1.
    apply bind_inv in H1 as [(a & w2 & H3 & H4) | (ex' & H3 & E)].
    + rewrite bind_assoc in H4. rewrite bind_getDb, bind_ret in H4.
      apply await_quiet in H3 as [Q _].
      assert (Hd : db w2 = db w) by apply Q. rewrite Hd in H4.
      destruct (isRecipientsTurn (db w) (Recipient.token rcp)) eqn:Et;
        simpl in H4; inversion H4; subst.
      split; auto. right. eapply pf_not_turn; eauto.
      now apply is_sequential_spec.
    + inversion E; subst. apply await_quiet in H3 as [Q [?|[E' F]]];
        [discriminate|]. inversion E'; subst. split; auto.
Qed.

(** Lookup and guards together. *)
Lemma guards_inv o w r w' :
  ('(envelope, recipients) <-
     envelope_findFirstOrThrow (envelopeByToken o) (recipientsByToken o) ;;
   recipient <- checkPreconditions o envelope recipients ;;
   ret (envelope, recipient)) w = (r, w') ->
  quiet w w' /\
  match r with
  | Ok (e, rcp) => admissible o (db w) e rcp
  | Throw ex =>
      ex = Rejected /\ faultIn w <> None \/ precondition_failure o (db w) ex
  end.
Proof.
  intros H.
  apply bind_inv in H as [([e rs] & w1 & H1 & H2) | (ex & H1 & ->)].
  - unfold envelope_findFirstOrThrow, envelope_findFirst in H1.
    apply bind_inv in H1 as [(x & w2 & H3 & H4) | (ex & H3 & ?)];
      [|discriminate].
    apply read_ok in H3 as [Q ->].
    destruct (find _ _) eqn:Ef; inversion H4; subst; clear H4.
    assert (Hd : db w1 = db w) by apply Q.
    apply bind_inv in H2 as [(rcp & w3 & H5 & H6) | (ex & H5 & ->)].
    + inversion H6; subst; clear H6.
      eapply checkPreconditions_inv in H5 as [Q2 A];
        rewrite ?Hd; eauto.
      rewrite Hd in A. split; auto. eapply quiet_trans; eauto.
    + eapply checkPreconditions_inv in H5 as [Q2 A];
        rewrite ?Hd; eauto.
      rewrite Hd in A. split; [eapply quiet_trans; eauto|].
      destruct A as [[-> F]|A]; auto. left. split; auto.
      intros F'. apply F. destruct Q as [_ Q]. now rewrite (Q F').
  - unfold envelope_findFirstOrThrow, envelope_findFirst in H1.
    apply bind_inv in H1 as [(x & w2 & H3 & H4) | (ex' & H3 & E)].
    + apply read_ok in H3 as [Q ->].
      destruct (find _ _) eqn:Ef; inversion H4; subst; clear H4.
      split; auto. right. now apply pf_no_recipient.
    + inversion E; subst. apply read_throw in H3 as (Q & -> & F). auto.
Qed.

Lemma complete_as_guards_then_body o w :
  completeDocumentWithToken o w =
  (x <- ('(envelope, recipients) <-
           envelope_findFirstOrThrow (envelopeByToken o)
                                     (recipientsByToken o) ;;
         recipient <- checkPreconditions o envelope recipients ;;
         ret (envelope, recipient)) ;;
   completeFor o (fst x) (snd x)) w.
Proof.
  unfold completeDocumentWithToken. rewrite bind_assoc.
  unfold bind at 1 3.
  destruct (envelope_findFirstOrThrow _ _ w) as [[[e rs]|ex] w1]; auto.
  rewrite bind_assoc. unfold bind.
  destruct (checkPreconditions o e rs w1) as [[rcp|ex] w2]; auto.
Qed.

End Guards.



(* ================================================================= *)
(** ** What the operations may do to recipients and fields             *)
(* ================================================================= *)

#[export] Instance RecipientStep_PreOrder : PreOrder RecipientStep.
Proof.
  split.
  - intros r. unfold RecipientStep. intuition.
  - intros a b c (?&?&?&?&?&Hs&Hn) (?&?&?&?&?&Hs'&Hn').
    unfold RecipientStep. repeat split; try congruence.
    + destruct Hs' as [Hs'|Hs']; [rewrite Hs'; exact Hs | now right].
    + destruct Hn' as [Hn'|Hn']; [rewrite Hn'; exact Hn | now right].
Qed.

#[export] Instance FieldStep_PreOrder : PreOrder FieldStep.
Proof.
  split.
  - intros f. now left.
  - intros a b c [ -> | -> ] [ -> | -> ]; unfold FieldStep; auto.
Qed.

Lemma RecipientStep_mark_signed t r : RecipientStep r (Recipient.mark_signed t r).
Proof. unfold RecipientStep; simpl; intuition. Qed.

Lemma RecipientStep_mark_sent n r : RecipientStep r (Recipient.mark_sent n r).
Proof. unfold RecipientStep; simpl; intuition. Qed.

Lemma FieldStep_mark_inserted f : FieldStep f (Field.mark_inserted f).
Proof. now right. Qed.

Ltac monotone_obligation :=
  unfold monotone, on_db; simpl; repeat split;
  try reflexivity; try exact I;
  try (apply Forall2_update_where;
       [typeclasses eauto
       | intros;
         auto using RecipientStep_mark_signed, RecipientStep_mark_sent,
                    FieldStep_mark_inserted ]).

Section Monotone.
Context `{Collab : Collaborators}.





Lemma completeDocumentWithToken_monotone o :
  respects monotone any (completeDocumentWithToken o).
Proof. frame_walk; monotone_obligation. Qed.
End Monotone.

(** A SIGNED row stays SIGNED. *)
Lemma RecipientStep_signed r r' :
  RecipientStep r r' ->
  Recipient.signingStatus r = SIGNED -> Recipient.signingStatus r' = SIGNED.
Proof. intros (_&_&_&_&_&[H|H]&_) E; congruence. Qed.

(* ================================================================= *)
(** ** Audit entries of auto-signing and of a human completion         *)
(* ================================================================= *)

Ltac system_entry_obligation :=
  unfold logs_system_entries, on_db; simpl; repeat split;
  try reflexivity; try exact I;
  try (apply appends_one; unfold system_entry; simpl; auto).

Section AuditTrail.
Context `{Collab : Collaborators}.

Lemma resolveAutoSign_send_logs envelopeId rm snapshot :
  respects logs_system_entries any
           (resolveAutoSign_send envelopeId rm snapshot).
Proof. frame_walk; system_entry_obligation. Qed.

Lemma resolveAutoSign_complete_logs envelopeId rm :
  respects logs_system_entries any
           (resolveAutoSign_complete envelopeId rm).
Proof. frame_walk; system_entry_obligation. Qed.

Lemma markSigned_keeps_logs id :
  respects (on_db any any any any any eq) any (markSigned id).
Proof. frame_walk; db_obligation. Qed.

(** C8, as the code has it. Every entry that auto-sign resolution
    appends to the audit log, in [sendDocument] as in
    [completeDocumentWithToken], is a FIELD_INSERTED or
    RECIPIENT_COMPLETED entry without IP address and without action-auth
    claims. The entry of a human completion carries the IP address and
    the user agent of the request and the derived action auth of the
    recipient, and a committed completion appends exactly that entry
    followed by system entries; it differs from every system entry
    whenever the request has an IP address or the recipient an action
    auth. *)
Theorem auto_sign_entries_carry_no_ip_nor_auth :
  (forall envelopeId rm snapshot w r w',
      resolveAutoSign_send envelopeId rm snapshot w = (r, w') ->
      appends system_entry (documentAuditLogs (db w))
                           (documentAuditLogs (db w'))) /\
  (forall envelopeId rm w r w',
      resolveAutoSign_complete envelopeId rm w = (r, w') ->
      appends system_entry (documentAuditLogs (db w))
                           (documentAuditLogs (db w'))) /\
  (forall o e rcp,
      let human := recipientCompletedLog o e rcp in
      AuditLog.type human = DOCUMENT_RECIPIENT_COMPLETED /\
      AuditLog.ipAddress human = requestIp o /\
      AuditLog.userAgent human = requestUserAgent o /\
      actionAuthOf human =
        derivedRecipientActionAuth
          (extractDocumentAuthMethods (Envelope.authOptions e)
                                      (Recipient.authOptions rcp)) /\
      (requestIp o <> None \/ actionAuthOf human <> [] ->
       ~ system_entry human)) /\
  (forall o e rcp w w',
      completionTransaction o e rcp w = (Ok tt, w') ->
      exists system,
        documentAuditLogs (db w') =
        (documentAuditLogs (db w)
           ++ recipientCompletedLog o e rcp :: system)%list /\
        Forall system_entry system).
Proof.
  split; [|split; [|split]].
  - intros * H. eapply resolveAutoSign_send_logs in H. apply H.
  - intros * H. eapply resolveAutoSign_complete_logs in H. apply H.
  - intros o e rcp human. subst human.
    unfold recipientCompletedLog, createDocumentAuditLogData, requestIp,
      requestUserAgent, actionAuthOf; simpl.
    repeat split.
    intros [Hip|Ha] (_ & Hip' & Ha'); unfold actionAuthOf in *;
      simpl in *; contradiction.
  - intros o e rcp w w' H. unfold completionTransaction in H.
    apply bind_inv in H as [(u & w1 & H1 & H2) | (ex & _ & ?)];
      [|discriminate].
    apply bind_inv in H2 as [(u2 & w2 & H3 & H4) | (ex & _ & ?)];
      [|discriminate].
    apply markSigned_keeps_logs in H1 as [(_&_&_&_&_&L1) _].
    apply resolveAutoSign_complete_logs in H4
        as [(_&_&_&_&_&(system & L3 & Hs)) _].
    unfold documentAuditLog_create in H3.
    apply bind_inv in H3 as [(u3 & w3 & H5 & H6) | (ex & _ & ?)];
      [|discriminate].
    apply await_inv in H5 as ((Hd & _) & _).
    inversion H6; subst; clear H6. simpl in L3.
    exists system. split; auto.
    rewrite L3, Hd, <- L1, <- app_assoc. reflexivity.
Qed.
End AuditTrail.

(** C8 as stated fails: a completion whose request has no metadata, by
    a recipient without action auth, writes for [a] the very entry that
    auto-signing would write for [a]; the trail of the run holds it next
    to the entry of [b], whom auto-signing completed, and neither has an
    IP address, a user agent or an action-auth claim. *)
Lemma human_entry_without_metadata_is_a_system_entry :
  fst (@completeDocumentWithToken Sample.collaborators
         (Sample.complete_without_metadata "a") sample_autosign_pending)
  = Ok tt /\
  documentAuditLogs
    (db (snd (@completeDocumentWithToken Sample.collaborators
                (Sample.complete_without_metadata "a")
                sample_autosign_pending)))
  = [ @recipientCompletedLog Sample.collaborators
        (Sample.complete_without_metadata "a")
        (Sample.envelope PENDING PARALLEL)
        (Sample.recipient 1 "a" SIGNER 1 NOT_SIGNED SENT);
      fieldInsertedLog "env_1" (autoSignMetadata_complete None)
        (Sample.field 10 2 SIGNATURE false true "")
        (Sample.recipient 2 "b" SIGNER 2 NOT_SIGNED SENT);
      autoCompletedLog "env_1" (autoSignMetadata_complete None)
        (Sample.recipient 2 "b" SIGNER 2 NOT_SIGNED SENT) ] /\
  @recipientCompletedLog Sample.collaborators
    (Sample.complete_without_metadata "a")
    (Sample.envelope PENDING PARALLEL)
    (Sample.recipient 1 "a" SIGNER 1 NOT_SIGNED SENT)
  = autoCompletedLog "env_1" (autoSignMetadata_complete None)
      (Sample.recipient 1 "a" SIGNER 1 NOT_SIGNED SENT) /\
  system_entry
    (@recipientCompletedLog Sample.collaborators
       (Sample.complete_without_metadata "a")
       (Sample.envelope PENDING PARALLEL)
       (Sample.recipient 1 "a" SIGNER 1 NOT_SIGNED SENT)).
Proof.
  repeat split; vm_compute; auto.
Qed.

Lemma auto_sign_entries_carry_no_ip_nor_auth_witness :
  exists system,
    documentAuditLogs
      (db (snd (@completionTransaction Sample.collaborators
                  (Sample.complete "a")
                  (Sample.envelope PENDING PARALLEL)
                  (Sample.recipient 1 "a" SIGNER 1 NOT_SIGNED SENT)
                  sample_presigned))) =
    (documentAuditLogs (db sample_presigned)
       ++ @recipientCompletedLog Sample.collaborators
            (Sample.complete "a") (Sample.envelope PENDING PARALLEL)
            (Sample.recipient 1 "a" SIGNER 1 NOT_SIGNED SENT) :: system)%list
    /\ Forall system_entry system.
Proof.
  apply (proj2 (proj2 (proj2
           (@auto_sign_entries_carry_no_ip_nor_auth Sample.collaborators)))).
  vm_compute. reflexivity.
Defined.

(* ================================================================= *)
(** ** Who is asked to sign                                            *)
(* ================================================================= *)

Lemma In_insert_by {A} (leb : A -> A -> bool) x y l :
  In x (insert_by leb y l) <-> x = y \/ In x l.
Proof.
  induction l as [|z l IH]; simpl.
  - intuition.
  - destruct (leb y z); simpl; [intuition|]. rewrite IH. intuition.
Qed.

Lemma In_sort_by {A} (leb : A -> A -> bool) x l :
  In x (sort_by leb l) <-> In x l.
Proof.
  unfold sort_by. induction l as [|y l IH]; simpl; [tauto|].
  rewrite In_insert_by, IH. intuition.
Qed.

Lemma In_firstn_in {A} n (l : list A) x : In x (firstn n l) -> In x l.
Proof.
  revert l. induction n as [|n IH]; intros [|y l]; simpl; try tauto.
  intros [->|H]; auto.
Qed.

Lemma In_recipientsToNotify_of s rs x :
  In x (recipientsToNotify_of s rs) -> In x rs.
Proof.
  destruct s; auto. unfold recipientsToNotify_of.
  intros H. apply In_firstn_in in H.
  apply filter_In in H. tauto.
Qed.

Lemma SendStatus_beq_eq a b : SendStatus_beq a b = true <-> a = b.
Proof. destruct a, b; simpl; split; congruence. Qed.

Lemma RecipientRole_beq_eq a b : RecipientRole_beq a b = true <-> a = b.
Proof. destruct a, b; simpl; split; congruence. Qed.

Lemma transaction_commits {A} (body : M A) w a w1 :
  body w = (Ok a, w1) -> faultIn w1 = None ->
  transaction body w = (Ok a, w1).
Proof.
  intros Hb Hf. unfold transaction. rewrite Hb.
  now rewrite await_nofault.
Qed.

Section Notification.
Context `{Collab : Collaborators}.

Lemma sendDocumentFor_asks_unsent o e rs items :
  respects any (appends (asks_unsent_of rs))
           (sendDocumentFor recipientsToNotify_of o e rs items).
Proof.
  frame_walk; try exact I;
    try (apply appends_one; simpl; exact I).
  apply appends_one. simpl.
  match goal with
  | H : In ?x (recipientsToNotify_of _ _),
    E : (SendStatus_beq _ _ || is_cc _) = false |- _ =>
      exists x; apply In_recipientsToNotify_of in H;
      apply orb_false_iff in E as [E1 E2]
  end.
  repeat split; auto.
  - intros E. apply SendStatus_beq_eq in E. congruence.
  - intros E. apply RecipientRole_beq_eq in E. unfold is_cc in *. congruence.
Qed.

(** Without faults the sequential advancement goes through for the first
    pending recipient, whatever its send status. *)
Lemma advance_runs o e legacyDocumentId rcp w next rest :
  faultIn w = None ->
  is_sequential (signingOrderOf e) = true ->
  pendingRecipients (db w) (Envelope.id e) = next :: rest ->
  exists w',
    advance o e legacyDocumentId rcp w = (Ok tt, w') /\
    outbox w' =
      (outbox w ++ [SendPendingEmail (CO.id o) (Recipient.id rcp);
                    signingRequestedJob o e legacyDocumentId next])%list /\
    recipients (db w') =
      update_where (fun r => Recipient.id r =? Recipient.id next)
        (Recipient.mark_sent
           (option_map (fun s => (ns_name s, ns_email s))
                       (dictatedSigner o e)))
        (recipients (db w)).
Proof.
  intros Hn Hseq Hp.
  assert (Hex : existsb (fun r => Recipient.id r =? Recipient.id next)
                        (recipients (db w)) = true).
  { apply existsb_exists. exists next. split; [|apply Z.eqb_refl].
    assert (Hin : In next (pendingRecipients (db w) (Envelope.id e)))
      by (rewrite Hp; now left).
    unfold pendingRecipients, orderBySigningOrderThenId in Hin.
    apply In_sort_by, filter_In in Hin. tauto. }
  unfold advance, recipient_findMany. run.
  fold (pendingRecipients (db w) (Envelope.id e)). rewrite Hp.
  unfold sendPendingEmail. run. rewrite Hseq. unfold when.
  match goal with
  | |- exists w', transaction _ ?x = _ /\ _ => set (w2 := x)
  end.
  assert (Hbody : exists w3,
             advanceTransaction o e legacyDocumentId rcp next w2
             = (Ok tt, w3) /\ faultIn w3 = None /\
             outbox w3 =
               (outbox w2 ++ [signingRequestedJob o e legacyDocumentId next])
               %list /\
             recipients (db w3) =
               update_where (fun r => Recipient.id r =? Recipient.id next)
                 (Recipient.mark_sent
                    (option_map (fun s => (ns_name s, ns_email s))
                                (dictatedSigner o e)))
                 (recipients (db w))).
  { unfold advanceTransaction, recipient_update, triggerJob,
      documentAuditLog_create.
    assert (Hn2 : faultIn w2 = None) by (subst w2; simpl; assumption).
    destruct (dictatedSigner o e) as [s|]; run;
      cbn [db set_db recipients set_documentAuditLogs];
      replace (recipients (db w2)) with (recipients (db w))
        by (subst w2; reflexivity);
      rewrite Hex; cbv beta iota; run;
      (eexists; split; [reflexivity|]); simpl; auto. }
  destruct Hbody as (w3 & Hb & Hf3 & Ho3 & Hr3).
  exists w3. split; [now apply transaction_commits|].
  split; auto. rewrite Ho3. subst w2. simpl.
  now rewrite <- app_assoc.
Qed.

(** C6, as the code has it. [sendDocument] never requests the
    signing-requested job for a recipient that was already SENT (nor for
    a CC): every such job it requests names a recipient of the store, as
    found at the start, that is neither. The sequential advancement after
    a completion has no such check: it marks the first pending recipient
    SENT and requests its job, whatever its send status was. *)
Theorem sendDocument_skips_sent_and_advance_does_not :
  (forall o w r w',
      sendDocument o w = (r, w') ->
      appends (asks_unsent_of (recipients (db w))) (outbox w) (outbox w')) /\
  (forall o e legacyDocumentId rcp w next rest,
      faultIn w = None ->
      signingOrderOf e = Some SEQUENTIAL ->
      pendingRecipients (db w) (Envelope.id e) = next :: rest ->
      exists w',
        advance o e legacyDocumentId rcp w = (Ok tt, w') /\
        outbox w' =
          (outbox w ++ [SendPendingEmail (CO.id o) (Recipient.id rcp);
                        signingRequestedJob o e legacyDocumentId next])%list /\
        recipients (db w') =
          update_where (fun r => Recipient.id r =? Recipient.id next)
            (Recipient.mark_sent
               (option_map (fun s => (ns_name s, ns_email s))
                           (dictatedSigner o e)))
            (recipients (db w))).
Proof.
  split.
  - intros o w r w' H. unfold sendDocument, sendDocumentWith in H.
    apply bind_inv in H as [(u & w1 & H1 & H2) | (ex & H1 & ->)].
    2:{ apply await_inv in H1 as ((_ & -> & _) & _). reflexivity. }
    apply await_inv in H1 as ((Hd1 & Ho1 & _) & _).
    apply bind_inv in H2 as [(found & w2 & H3 & H4) | (ex & H3 & ->)].
    2:{ unfold envelope_findFirst in H3.
        apply read_throw in H3 as (((_ & -> & _) & _) & _).
        rewrite Ho1. reflexivity. }
    unfold envelope_findFirst in H3.
    apply read_ok in H3 as (((Hd2 & Ho2 & _) & _) & ->).
    destruct (find _ _) as [e|] eqn:Ef.
    2:{ inversion H4; subst. rewrite Ho2, Ho1. reflexivity. }
    unfold sendInclude in H4.
    apply sendDocumentFor_asks_unsent in H4 as [_ (added & Ha & Hf)].
    exists added. split; [congruence|].
    eapply Forall_impl; [|exact Hf].
    intros [[]| |]; simpl; auto.
    intros (x & Hin & ?). exists x. split; auto.
    unfold orderBySigningOrderThenId in Hin.
    apply In_sort_by in Hin. unfold recipientsOf in Hin.
    apply filter_In in Hin. rewrite <- Hd1. tauto.
  - intros * Hn Hs Hp. eapply advance_runs; eauto.
    now apply is_sequential_spec.
Qed.
End Notification.

(** C6 as stated fails for the advancement: [b] is SENT before [a]
    completes, and completing [a] requests the signing-requested job for
    [b] all the same. *)
Lemma advancement_notifies_sent_recipient :
  map (fun r => (Recipient.id r, Recipient.sendStatus r))
      (recipients (db sample_both_sent)) = [(1, SENT); (2, SENT)] /\
  fst (@completeDocumentWithToken Sample.collaborators
         (Sample.complete "a") sample_both_sent) = Ok tt /\
  In (@signingRequestedJob (Sample.complete "a")
        (Sample.envelope PENDING SEQUENTIAL) 7
        (Sample.recipient 2 "b" SIGNER 2 NOT_SIGNED SENT))
     (outbox (snd (@completeDocumentWithToken Sample.collaborators
                     (Sample.complete "a") sample_both_sent))).
Proof.
  vm_compute. repeat split. right. right. left. reflexivity.
Qed.

Lemma sendDocument_skips_sent_and_advance_does_not_witness :
  exists w',
    advance (Sample.complete "a")
      (Sample.envelope PENDING SEQUENTIAL) 7
      (Sample.recipient 1 "a" SIGNER 1 NOT_SIGNED SENT)
      (Sample.world
         (Sample.store (Sample.envelope PENDING SEQUENTIAL)
            [Sample.recipient 1 "a" SIGNER 1 SIGNED SENT;
             Sample.recipient 2 "b" SIGNER 2 NOT_SIGNED SENT] []) None)
    = (Ok tt, w') /\
    outbox w' =
      ([] ++ [SendPendingEmail (ByEnvelopeId "env_1") 1;
              @signingRequestedJob (Sample.complete "a")
                (Sample.envelope PENDING SEQUENTIAL) 7
                (Sample.recipient 2 "b" SIGNER 2 NOT_SIGNED SENT)])%list /\
    recipients (db w') =
      update_where (fun r => Recipient.id r =? 2)
        (Recipient.mark_sent None)
        [Sample.recipient 1 "a" SIGNER 1 SIGNED SENT;
         Sample.recipient 2 "b" SIGNER 2 NOT_SIGNED SENT].
Proof.
  apply (proj2 (@sendDocument_skips_sent_and_advance_does_not
                  Sample.collaborators)
           (Sample.complete "a") (Sample.envelope PENDING SEQUENTIAL) 7
           (Sample.recipient 1 "a" SIGNER 1 NOT_SIGNED SENT)
           (Sample.world
              (Sample.store (Sample.envelope PENDING SEQUENTIAL)
                 [Sample.recipient 1 "a" SIGNER 1 SIGNED SENT;
                  Sample.recipient 2 "b" SIGNER 2 NOT_SIGNED SENT] []) None)
           (Sample.recipient 2 "b" SIGNER 2 NOT_SIGNED SENT) []);
    reflexivity.
Defined.

(* ================================================================= *)
(** ** The two transactions of a completion                            *)
(* ================================================================= *)

Lemma transaction_inv {A} (body : M A) w r w' :
  transaction body w = (r, w') ->
  (exists ex, r = Throw ex /\ db w' = db w) \/
  (exists a, r = Ok a).
Proof.
  unfold transaction. destruct (body w) as [[a|ex] w1].
  - destruct (await w1) as [[u|ex] w2]; intros H; inversion H; subst;
      simpl; eauto.
  - intros H; inversion H; subst; simpl; eauto.
Qed.

Lemma untouched_of_eq d d' : d' = d -> untouched d d'.
Proof. intros ->. reflexivity. Qed.

Section TwoTransactions.
Context `{Collab : Collaborators}.

Lemma checkAccessAuth_untouched o e rcp :
  respects untouched any (checkAccessAuth o e rcp).
Proof.
  unfold untouched. frame_walk; db_obligation; try exact I;
    apply appends_one; unfold access_auth_entry; simpl; auto.
Qed.

Lemma signedEmail_keeps_db legacyDocumentId rcp :
  respects eq any
    (triggerJob send_recipient_signed_email
       {| jp_userId := None; jp_documentId := legacyDocumentId;
          jp_recipientId := Some (Recipient.id rcp);
          jp_requestMetadata := None |}).
Proof. frame_walk; exact I. Qed.

Lemma sealIfAllSigned_keeps_db o e legacyDocumentId :
  respects eq any (sealIfAllSigned o e legacyDocumentId).
Proof. frame_walk; exact I. Qed.

Lemma signedWebhook_keeps_db e : respects eq any (signedWebhook e).
Proof. frame_walk; exact I. Qed.

Lemma sendPendingEmail_keeps_db id rid :
  respects eq any (sendPendingEmail id rid).
Proof. frame_walk; exact I. Qed.

(** The advancement either leaves the store alone or, under SEQUENTIAL
    order, commits its transaction for the first pending recipient. *)
Lemma advance_inv o e legacyDocumentId rcp w r w' :
  advance o e legacyDocumentId rcp w = (r, w') ->
  db w' = db w \/
  exists next w2,
    signingOrderOf e = Some SEQUENTIAL /\
    hd_error (pendingRecipients (db w) (Envelope.id e)) = Some next /\
    db w2 = db w /\
    transaction (advanceTransaction o e legacyDocumentId rcp next) w2
    = (Ok tt, w') /\ r = Ok tt.
Proof.
  intros H. unfold advance in H.
  apply bind_inv in H as [(found & w1 & H1 & H2) | (ex & H1 & ->)].
  2:{ left. unfold recipient_findMany in H1.
      apply read_throw in H1 as (Q & _). apply Q. }
  unfold recipient_findMany in H1. apply read_ok in H1 as (Q1 & ->).
  assert (Hd1 : db w1 = db w) by apply Q1.
  fold (pendingRecipients (db w) (Envelope.id e)) in H2.
  destruct (pendingRecipients (db w) (Envelope.id e)) as [|next rest] eqn:Hp.
  { inversion H2; subst. now left. }
  apply bind_inv in H2 as [(u & w2 & H3 & H4) | (ex & H3 & ->)].
  2:{ left. apply sendPendingEmail_keeps_db in H3 as [E _]. congruence. }
  apply sendPendingEmail_keeps_db in H3 as [E _].
  destruct (is_sequential (signingOrderOf e)) eqn:Hs; simpl in H4.
  - destruct (transaction_inv _ _ H4) as [(ex & -> & Hd)|([] & ->)].
    + left. congruence.
    + right. exists next, w2. apply is_sequential_spec in Hs.
      split; [exact Hs|]. split; [reflexivity|]. split; [congruence|auto].
  - inversion H4; subst. left. congruence.
Qed.

(** Nothing leaves the process before the first transaction has
    committed. *)
Lemma checkAccessAuth_requests_nothing o e rcp :
  respects untouched eq (checkAccessAuth o e rcp).
Proof.
  unfold untouched. frame_walk; db_obligation; try exact I;
    apply appends_one; unfold access_auth_entry; simpl; auto.
Qed.

Lemma completionTransaction_silent o e rcp :
  respects (on_db eq eq any any any any) eq (completionTransaction o e rcp).
Proof. frame_walk; db_obligation; exact I. Qed.

(** A rollback restores the store and nothing else: what the body of a
    transaction has requested stays requested. *)
Lemma transaction_keeps_requests {A} (body : M A) w :
  outbox (snd (transaction body w)) = outbox (snd (body w)).
Proof.
  unfold transaction. destruct (body w) as [[a|ex] w1]; [|reflexivity].
  destruct (await w1) as [[u|ex] w2] eqn:Ha;
    apply await_inv in Ha as ((_ & Ho & _) & _); simpl; auto.
Qed.

(** The body of the second transaction requests the job last. *)
Lemma advanceTransaction_requests o e legacyDocumentId rcp next w wb :
  advanceTransaction o e legacyDocumentId rcp next w = (Ok tt, wb) ->
  outbox wb
  = (outbox w ++ [signingRequestedJob o e legacyDocumentId next])%list.
Proof.
  unfold advanceTransaction. intros H.
  apply bind_inv in H as [([] & w1 & H1 & H) | (ex & _ & ?)]; [|discriminate].
  apply bind_inv in H as [([] & w2 & H2 & H) | (ex & _ & ?)]; [|discriminate].
  assert (O1 : outbox w1 = outbox w).
  { assert (R : respects any eq
                  (match dictatedSigner o e with
                   | Some nextSigner =>
                       documentAuditLog_create
                         (recipientUpdatedLog o e rcp next nextSigner)
                   | None => ret tt
                   end))
      by (destruct (dictatedSigner o e); frame_walk; exact I).
    apply R in H1 as [_ ->]. reflexivity. }
  assert (O2 : outbox w2 = outbox w1).
  { assert (R : respects any eq
                  (recipient_update (Recipient.id next)
                     (Recipient.mark_sent
                        (option_map (fun s => (ns_name s, ns_email s))
                                    (dictatedSigner o e)))))
      by (frame_walk; exact I).
    apply R in H2 as [_ ->]. reflexivity. }
  unfold triggerJob in H.
  apply bind_inv in H as [([] & w3 & H3 & H) | (ex & _ & ?)]; [|discriminate].
  apply await_inv in H3 as ((_ & O3 & _) & _).
  inversion H; subst; simpl. unfold signingRequestedJob. congruence.
Qed.

(** C3, as the code has it. The first transaction groups marking the
    recipient SIGNED, its RECIPIENT_COMPLETED entry and the auto-sign
    resolution; advancing the next recipient in the store is a second
    transaction, run under SEQUENTIAL order for the first pending
    recipient after the first has committed. So wherever a run of
    [completeDocumentWithToken] stops, its store is one of three: the
    one it started from (but for access-authentication entries), the one
    committed by the first transaction, or the one committed by the
    second transaction after the first. Job requests are not part of
    either transaction. None is made while the store is still the one
    the run started from; and once the body of the second transaction
    has requested the signing-requested job of the next recipient, the
    job stays requested whether that transaction commits or is rolled
    back. *)
Theorem completion_commits_in_two_transactions (o : CO.t) (w : World)
    (r : Result unit) (w' : World) :
  completeDocumentWithToken o w = (r, w') ->
  ((untouched (db w) (db w') /\ outbox w' = outbox w /\
    exists ex, r = Throw ex) \/
   exists e rcp w0 w1,
     admissible o (db w) e rcp /\
     untouched (db w) (db w0) /\
     transaction (completionTransaction o e rcp) w0 = (Ok tt, w1) /\
     (db w' = db w1 \/
      exists next w2 w3,
        signingOrderOf e = Some SEQUENTIAL /\
        hd_error (pendingRecipients (db w1) (Envelope.id e)) = Some next /\
        db w2 = db w1 /\
        transaction
          (advanceTransaction o e
             (mapSecondaryIdToDocumentId (Envelope.secondaryId e)) rcp next)
          w2 = (Ok tt, w3) /\
        db w' = db w3)) /\
  (forall e legacyDocumentId rcp next w2 wb,
      advanceTransaction o e legacyDocumentId rcp next w2 = (Ok tt, wb) ->
      outbox (snd (transaction
                     (advanceTransaction o e legacyDocumentId rcp next) w2))
      = (outbox w2 ++ [signingRequestedJob o e legacyDocumentId next])%list).
Proof.
  intros H. split.
  2:{ intros e lid rcp next w2 wb Hb.
      rewrite transaction_keeps_requests, Hb. simpl.
      eapply advanceTransaction_requests; eauto. }
  rewrite complete_as_guards_then_body in H.
  apply bind_inv in H as [([e rcp] & w1 & H1 & H2) | (ex & H1 & ->)].
  2:{ left. apply guards_inv in H1 as [Q _].
      split; [apply untouched_of_eq, Q|]. split; [apply Q|eauto]. }
  apply guards_inv in H1 as [Q1 Hadm]. simpl in H2.
  assert (Hd1 : db w1 = db w) by apply Q1.
  assert (Ho1 : outbox w1 = outbox w) by apply Q1.
  unfold completeFor in H2.
  apply bind_inv in H2 as [(u & w2 & H3 & H4) | (ex & H3 & ->)].
  2:{ left. apply checkAccessAuth_requests_nothing in H3 as [U O].
      rewrite Hd1 in U. rewrite Ho1 in O. eauto. }
  apply checkAccessAuth_requests_nothing in H3 as [U O2].
  rewrite Hd1 in U. rewrite Ho1 in O2.
  apply bind_inv in H4 as [([] & w3 & H5 & H6) | (ex & H5 & ->)].
  2:{ left.
      pose proof (respects_transaction (completionTransaction_silent o e rcp)
                    _ H5) as [_ O3].
      destruct (transaction_inv _ _ H5) as [(ex' & _ & Hd)|(a & ?)];
        [|discriminate].
      rewrite Hd. split; [exact U|]. split; [congruence|eauto]. }
  right. exists e, rcp, w2, w3.
  split; [exact Hadm|]. split; [exact U|]. split; [exact H5|].
  apply bind_inv in H6 as [(u4 & w4 & H7 & H8) | (ex & H7 & ->)].
  2:{ left. apply signedEmail_keeps_db in H7 as [E _]. congruence. }
  apply signedEmail_keeps_db in H7 as [E4 _].
  apply bind_inv in H8 as [(u5 & w5 & H9 & H10) | (ex & H9 & ->)].
  - assert (Hrest : db w' = db w5).
    { apply bind_inv in H10 as [(u6 & w6 & H11 & H12) | (ex & H11 & ->)].
      - apply sealIfAllSigned_keeps_db in H11 as [E6 _].
        apply signedWebhook_keeps_db in H12 as [E7 _]. congruence.
      - apply sealIfAllSigned_keeps_db in H11 as [E6 _]. congruence. }
    apply advance_inv in H9 as [E5|(next & w2' & Hs & Hn & E5 & Htx & _)].
    + left. congruence.
    + right. exists next, w2', w5. rewrite <- E4 in Hn.
      split; [exact Hs|]. split; [exact Hn|]. split; [congruence|].
      split; [exact Htx|exact Hrest].
  - apply advance_inv in H9 as [E5|(next & w2' & _ & _ & E5 & Htx & ?)];
      [|discriminate].
    left. congruence.
Qed.
End TwoTransactions.

(** C3 as stated fails. With the call that marks the next recipient SENT
    failing (call 11 of the run), the request fails, the second
    transaction is rolled back, and the first stays committed: [a] is
    SIGNED and logged, [b] has not been advanced. With the commit of the
    second transaction failing (call 13), the request fails in the same
    store - [b] is not marked SENT - and yet the signing-requested job
    of [b] has been requested: a partial advancement. *)
Lemma completion_fails_after_first_commit :
  (map (fun r => (Recipient.id r, Recipient.signingStatus r,
                  Recipient.sendStatus r))
       (recipients (db (sample_sequence (Some 11%nat))))
   = [(1, NOT_SIGNED, SENT); (2, NOT_SIGNED, NOT_SENT);
      (3, NOT_SIGNED, NOT_SENT)] /\
   fst (@completeDocumentWithToken Sample.collaborators
          (Sample.complete "a") (sample_sequence (Some 11%nat)))
   = Throw Rejected /\
   map (fun r => (Recipient.id r, Recipient.signingStatus r,
                  Recipient.sendStatus r))
       (recipients
          (db (snd (@completeDocumentWithToken Sample.collaborators
                      (Sample.complete "a")
                      (sample_sequence (Some 11%nat))))))
   = [(1, SIGNED, SENT); (2, NOT_SIGNED, NOT_SENT);
      (3, NOT_SIGNED, NOT_SENT)] /\
   map AuditLog.type
       (documentAuditLogs
          (db (snd (@completeDocumentWithToken Sample.collaborators
                      (Sample.complete "a")
                      (sample_sequence (Some 11%nat))))))
   = [DOCUMENT_RECIPIENT_COMPLETED]) /\
  (fst (@completeDocumentWithToken Sample.collaborators
          (Sample.complete "a") (sample_sequence (Some 13%nat)))
   = Throw Rejected /\
   map (fun r => (Recipient.id r, Recipient.signingStatus r,
                  Recipient.sendStatus r))
       (recipients
          (db (snd (@completeDocumentWithToken Sample.collaborators
                      (Sample.complete "a")
                      (sample_sequence (Some 13%nat))))))
   = [(1, SIGNED, SENT); (2, NOT_SIGNED, NOT_SENT);
      (3, NOT_SIGNED, NOT_SENT)] /\
   In (@signingRequestedJob (Sample.complete "a")
         (Sample.envelope PENDING SEQUENTIAL) 7
         (Sample.recipient 2 "b" SIGNER 2 NOT_SIGNED NOT_SENT))
      (outbox (snd (@completeDocumentWithToken Sample.collaborators
                      (Sample.complete "a")
                      (sample_sequence (Some 13%nat)))))).
Proof.
  split; [vm_compute; repeat split|].
  split; [vm_compute; reflexivity|].
  split; [vm_compute; reflexivity|].
  vm_compute. auto.
Qed.

Lemma completion_commits_in_two_transactions_witness :
  (untouched (db sample_interrupted)
     (db (snd (@completeDocumentWithToken Sample.collaborators
                 (Sample.complete "a") sample_interrupted))) /\
   outbox (snd (@completeDocumentWithToken Sample.collaborators
                  (Sample.complete "a") sample_interrupted))
   = outbox sample_interrupted /\
   exists ex,
     fst (@completeDocumentWithToken Sample.collaborators
            (Sample.complete "a") sample_interrupted) = Throw ex) \/
  exists e rcp w0 w1,
    @admissible Sample.collaborators (Sample.complete "a")
      (db sample_interrupted) e rcp /\
    untouched (db sample_interrupted) (db w0) /\
    transaction (@completionTransaction Sample.collaborators
                   (Sample.complete "a") e rcp) w0 = (Ok tt, w1) /\
    (db (snd (@completeDocumentWithToken Sample.collaborators
                (Sample.complete "a") sample_interrupted)) = db w1 \/
     exists next w2 w3,
       signingOrderOf e = Some SEQUENTIAL /\
       hd_error (pendingRecipients (db w1) (Envelope.id e)) = Some next /\
       db w2 = db w1 /\
       transaction
         (advanceTransaction (Sample.complete "a") e
            (@mapSecondaryIdToDocumentId Sample.collaborators
               (Envelope.secondaryId e)) rcp next)
         w2 = (Ok tt, w3) /\
       db (snd (@completeDocumentWithToken Sample.collaborators
                  (Sample.complete "a") sample_interrupted)) = db w3).
Proof.
  apply (proj1 (@completion_commits_in_two_transactions Sample.collaborators
                  (Sample.complete "a") sample_interrupted
                  (fst (@completeDocumentWithToken Sample.collaborators
                          (Sample.complete "a") sample_interrupted))
                  (snd (@completeDocumentWithToken Sample.collaborators
                          (Sample.complete "a") sample_interrupted))
                  (surjective_pairing _))).
Defined.

(* ================================================================= *)
(** ** Requests of the seal-document job                               *)
(* ================================================================= *)

Lemma sealRequests_app a b :
  sealRequests (a ++ b) = (sealRequests a + sealRequests b)%nat.
Proof. unfold sealRequests. now rewrite filter_app, length_app. Qed.

Lemma sealRequests_none l : Forall not_seal_request l -> sealRequests l = 0%nat.
Proof.
  unfold sealRequests. induction 1 as [|x l Hx _ IH]; simpl; auto.
  unfold not_seal_request in Hx. now rewrite Hx.
Qed.

Lemma find_ext {A} (p q : A -> bool) l :
  (forall x, In x l -> p x = q x) -> find p l = find q l.
Proof.
  induction l as [|x l IH]; simpl; intros H; auto.
  rewrite (H x (or_introl eq_refl)). destruct (q x); auto.
Qed.

Lemma filter_ext_Forall2 {A} (R : A -> A -> Prop) (p : A -> bool) l l' :
  Forall2 R l l' ->
  (forall x y, R x y -> p y = p x) ->
  Forall2 R (filter p l) (filter p l').
Proof.
  intros H Hp. induction H as [|x y l l' Hxy H IH]; simpl; auto.
  rewrite (Hp _ _ Hxy). destruct (p x); auto.
Qed.

Lemma existsb_ext_Forall2 {A} (R : A -> A -> Prop) (p : A -> bool) l l' :
  Forall2 R l l' ->
  (forall x y, R x y -> p y = p x) ->
  existsb p l' = existsb p l.
Proof.
  intros H Hp. induction H as [|x y l l' Hxy H IH]; simpl; auto.
  now rewrite (Hp _ _ Hxy), IH.
Qed.

Lemma Forall2_In_r {A} (R : A -> A -> Prop) l l' y :
  Forall2 R l l' -> In y l' -> exists x, In x l /\ R x y.
Proof.
  induction 1 as [|a b l l' Hab H IH]; simpl; [tauto|].
  intros [->|Hin]; [eauto|]. destruct (IH Hin) as (x & ? & ?). eauto.
Qed.

Section Sealing.
Context `{Collab : Collaborators}.

Lemma completeFor_split o e rcp w :
  completeFor o e rcp w =
  (before_seal o e rcp ;;
   sealIfAllSigned o e (mapSecondaryIdToDocumentId (Envelope.secondaryId e)) ;;
   signedWebhook e) w.
Proof.
  unfold completeFor, before_seal.
  rewrite bind_assoc. apply bind_ext. intros _ w1.
  rewrite bind_assoc. apply bind_ext. intros _ w2.
  rewrite bind_assoc. reflexivity.
Qed.

Lemma before_seal_frame o e rcp :
  respects (on_db eq any (Forall2 RecipientStep) any any any)
           (appends not_seal_request) (before_seal o e rcp).
Proof.
  unfold before_seal.
  frame_walk; db_obligation; try exact I;
    try (apply appends_one; reflexivity);
    apply Forall2_update_where;
    solve [ typeclasses eauto
          | intros; auto using RecipientStep_mark_signed,
                               RecipientStep_mark_sent ].
Qed.

Lemma signedWebhook_frame e :
  respects eq (appends not_seal_request) (signedWebhook e).
Proof. frame_walk. apply appends_one. reflexivity. Qed.

Lemma sealIfAllSigned_ok o e w w' :
  In e (envelopes (db w)) ->
  sealIfAllSigned o e (mapSecondaryIdToDocumentId (Envelope.secondaryId e)) w
  = (Ok tt, w') ->
  db w' = db w /\
  outbox w' =
    (outbox w ++
     if allSignedOrCc (recipientsOf (db w) (Envelope.id e))
     then [sealJobFor o e] else [])%list.
Proof.
  intros Hin H. unfold sealIfAllSigned in H.
  apply bind_inv in H as [(found & w1 & H1 & H2) | (ex & _ & ?)];
    [|discriminate].
  unfold envelope_findFirst in H1. apply read_ok in H1 as (Q & ->).
  destruct Q as [(Hd & Ho & _) _].
  destruct (allSignedOrCc (recipientsOf (db w) (Envelope.id e))) eqn:Ea.
  - destruct (find _ _) eqn:Ef.
    + unfold sealJob, triggerJob in H2.
      apply bind_inv in H2 as [(u & w2 & H3 & H4) | (ex & _ & ?)];
        [|discriminate].
      apply await_inv in H3 as ((Hd2 & Ho2 & _) & _).
      inversion H4; subst; simpl. split; [congruence|].
      unfold sealJobFor. congruence.
    + exfalso. eapply find_none in Ef; eauto.
      rewrite String.eqb_refl, Ea in Ef. discriminate.
  - destruct (find _ _) eqn:Ef.
    + exfalso. apply find_some in Ef as [_ Ef].
      apply andb_true_iff in Ef as [E1 E2].
      apply String.eqb_eq in E1. rewrite E1 in E2. congruence.
    + inversion H2; subst. rewrite app_nil_r. auto.
Qed.

Lemma signed_by_id_monotone id d d' :
  Forall2 RecipientStep (recipients d) (recipients d') ->
  signed_by_id id d -> signed_by_id id d'.
Proof.
  intros H P r' Hin Hid.
  destruct (@Forall2_In_r _ _ _ _ _ H Hin) as (r & Hr & Hs).
  eapply RecipientStep_signed; eauto. apply P; auto.
  destruct Hs as (E & _). congruence.
Qed.

Lemma markSigned_signs id w w' :
  markSigned id w = (Ok tt, w') -> signed_by_id id (db w').
Proof.
  unfold markSigned, recipient_update. rewrite bind_newDate.
  intros H.
  apply bind_inv in H as [(u & w1 & H1 & H2) | (ex & _ & ?)]; [|discriminate].
  rewrite bind_getDb in H2.
  destruct (existsb _ _); inversion H2; subst; clear H2. simpl.
  intros r Hin Hid. unfold update_where in Hin.
  apply in_map_iff in Hin as (x & <- & Hx).
  destruct (Recipient.id x =? id) eqn:E; simpl; auto.
  simpl in Hid. apply Z.eqb_neq in E. congruence.
Qed.

Lemma completionTransaction_signs o e rcp w w' :
  transaction (completionTransaction o e rcp) w = (Ok tt, w') ->
  signed_by_id (Recipient.id rcp) (db w').
Proof.
  unfold transaction. destruct (completionTransaction o e rcp w)
    as [[[]|ex] w1] eqn:Hb; [|discriminate].
  destruct (await w1) as [[u|ex] w2] eqn:Ha; intros H; inversion H; subst.
  apply await_inv in Ha as ((Hd & _) & _). rewrite Hd.
  unfold completionTransaction in Hb.
  apply bind_inv in Hb as [([] & w3 & H1 & H2) | (ex & _ & ?)];
    [|discriminate].
  apply markSigned_signs in H1.
  assert (Hm : respects monotone any
                 (documentAuditLog_create (recipientCompletedLog o e rcp) ;;
                  resolveAutoSign_complete (Envelope.id e)
                                           (CO.requestMetadata o))).
  { frame_walk; monotone_obligation. }
  apply Hm in H2 as [(_ & _ & Hr & _) _].
  eapply signed_by_id_monotone; eauto.
Qed.

Lemma allSignedOrCc_monotone rs rs' :
  Forall2 RecipientStep rs rs' ->
  allSignedOrCc rs = true -> allSignedOrCc rs' = true.
Proof.
  unfold allSignedOrCc.
  induction 1 as [|x y l l' Hxy _ IH]; simpl; auto.
  intros H. apply andb_true_iff in H as [Hx Hl].
  rewrite (IH Hl), andb_true_r.
  destruct Hxy as (_ & _ & _ & Hrole & _ & Hs & _).
  apply orb_true_iff in Hx as [Hx|Hx]; apply orb_true_iff.
  - left. unfold is_signed in *. apply SigningStatus_beq_eq in Hx.
    apply SigningStatus_beq_eq. destruct Hs; congruence.
  - right. unfold is_cc in *. now rewrite Hrole.
Qed.

(** What a completion that returns has requested of the seal job. *)
Lemma completion_seal_count o w w' :
  completeDocumentWithToken o w = (Ok tt, w') ->
  exists e added,
    find (envelopeByToken o (db w)) (envelopes (db w)) = Some e /\
    outbox w' = (outbox w ++ added)%list /\
    sealRequests added =
      if allSignedOrCc (recipientsOf (db w') (Envelope.id e))
      then 1%nat else 0%nat.
Proof.
  intros H.
  rewrite complete_as_guards_then_body in H.
  apply bind_inv in H as [([e rcp] & w1 & H1 & H2) | (ex & _ & ?)];
    [|discriminate].
  apply guards_inv in H1 as [Q1 Hadm]. simpl in H2.
  destruct Q1 as [(Hd1 & Ho1 & _) _].
  destruct Hadm as (Hfind & _).
  rewrite completeFor_split in H2.
  apply bind_inv in H2 as [([] & w2 & H3 & H4) | (ex & _ & ?)];
    [|discriminate].
  pose proof (before_seal_frame _ _ _ _ H3)
    as [(He2 & _ & Hr2 & _) (a1 & Ho2 & Ha1)].
  apply bind_inv in H4 as [([] & w3 & H5 & H6) | (ex & _ & ?)];
    [|discriminate].
  assert (Hin : In e (envelopes (db w2))).
  { rewrite <- He2, Hd1. now apply find_some in Hfind. }
  apply sealIfAllSigned_ok in H5 as [Hd3 Ho3]; auto.
  apply signedWebhook_frame in H6 as [Hd4 (a3 & Ho4 & Ha3)].
  exists e. eexists. split; [exact Hfind|].
  split.
  - rewrite Ho4, Ho3, Ho2, Ho1, <- !app_assoc. reflexivity.
  - rewrite !sealRequests_app, (sealRequests_none Ha1),
      (sealRequests_none Ha3).
    rewrite <- Hd4, Hd3.
    destruct (allSignedOrCc _); reflexivity.
Qed.

(** C4, as the code has it. A call of [completeDocumentWithToken] that
    returns has requested the seal-document job exactly once if every
    recipient of the envelope is then SIGNED or CC, and not at all
    otherwise. A repeated call with the same options fails at the
    guards, whatever happens to its collaborators, and requests nothing.
    But no record of the request is kept or consulted: every later
    completion that returns, whatever its options, on an envelope whose
    recipients are all SIGNED or CC requests the seal job once more. *)
Theorem completion_seals_once_and_retry_requests_nothing (o : CO.t)
    (w w' : World) :
  completeDocumentWithToken o w = (Ok tt, w') ->
  (exists e added,
      find (envelopeByToken o (db w)) (envelopes (db w)) = Some e /\
      outbox w' = (outbox w ++ added)%list /\
      sealRequests added =
        if allSignedOrCc (recipientsOf (db w') (Envelope.id e))
        then 1%nat else 0%nat) /\
  (forall k r2 w2,
      completeDocumentWithToken o (set_faultIn k w') = (r2, w2) ->
      (exists ex, r2 = Throw ex) /\
      db w2 = db w' /\ outbox w2 = outbox w') /\
  (forall o2 k e2 w2,
      completeDocumentWithToken o2 (set_faultIn k w') = (Ok tt, w2) ->
      find (envelopeByToken o2 (db w')) (envelopes (db w')) = Some e2 ->
      allSignedOrCc (recipientsOf (db w') (Envelope.id e2)) = true ->
      sealRequests (outbox w2) = S (sealRequests (outbox w'))).
Proof.
  intros H. split; [now apply completion_seal_count|]. split.
  2:{ intros o2 k e2 w2 H2 Hf2 Hall.
      pose proof (completeDocumentWithToken_monotone _ _ H2)
        as [(_ & _ & Hrec & _) _].
      apply completion_seal_count in H2 as (e' & added & Hf' & Ho & Hn).
      simpl in Hf', Ho, Hrec. rewrite Hf2 in Hf'. inversion Hf'; subst e'.
      assert (Hall' : allSignedOrCc (recipientsOf (db w2) (Envelope.id e2))
                      = true).
      { eapply allSignedOrCc_monotone; [|exact Hall].
        unfold recipientsOf. apply filter_ext_Forall2; auto.
        intros x y (_ & -> & _). reflexivity. }
      rewrite Hall' in Hn. rewrite Ho, sealRequests_app, Hn. lia. }
  pose proof (completeDocumentWithToken_monotone _ _ H) as [Hmono _].
  rewrite complete_as_guards_then_body in H.
  apply bind_inv in H as [([e rcp] & w1 & H1 & H2) | (ex & _ & ?)];
    [|discriminate].
  apply guards_inv in H1 as [Q1 Hadm]. simpl in H2.
  destruct Q1 as [(Hd1 & Ho1 & _) _].
  destruct Hadm as (Hfind & Hst & (rs & Hrs) & Hns & _).
  rewrite completeFor_split in H2.
  apply bind_inv in H2 as [([] & w2 & H3 & H4) | (ex & _ & ?)];
    [|discriminate].
  pose proof (before_seal_frame _ _ _ _ H3)
    as [(He2 & _ & Hr2 & _) (a1 & Ho2 & Ha1)].
  apply bind_inv in H4 as [([] & w3 & H5 & H6) | (ex & _ & ?)];
    [|discriminate].
  assert (Hin : In e (envelopes (db w2))).
  { rewrite <- He2, Hd1. now apply find_some in Hfind. }
  apply sealIfAllSigned_ok in H5 as [Hd3 Ho3]; auto.
  apply signedWebhook_frame in H6 as [Hd4 (a3 & Ho4 & Ha3)].
  (* the retry *)
  assert (Hsigned : signed_by_id (Recipient.id rcp) (db w')).
  { rewrite <- Hd4, Hd3. unfold before_seal in H3.
    apply bind_inv in H3 as [([] & v1 & G1 & G2) | (ex & _ & ?)];
      [|discriminate].
    apply bind_inv in G2 as [([] & v2 & G3 & G4) | (ex & _ & ?)];
      [|discriminate].
    apply completionTransaction_signs in G3.
    assert (Hm : respects monotone any
              (triggerJob send_recipient_signed_email
                 {| jp_userId := None;
                    jp_documentId :=
                      mapSecondaryIdToDocumentId (Envelope.secondaryId e);
                    jp_recipientId := Some (Recipient.id rcp);
                    jp_requestMetadata := None |} ;;
               advance o e
                 (mapSecondaryIdToDocumentId (Envelope.secondaryId e))
                 rcp)).
    { frame_walk; monotone_obligation. }
    apply Hm in G4 as [(_ & _ & Hr & _) _].
    eapply signed_by_id_monotone; [exact Hr | exact G3]. }
  destruct Hmono as (_ & _ & Hrec & _).
  assert (Henv : envelopes (db w') = envelopes (db w)).
  { rewrite <- Hd4, Hd3, <- He2, Hd1. reflexivity. }
  assert (Hrof : forall E,
             Forall2 RecipientStep (recipientsOf (db w) E)
                                   (recipientsOf (db w') E)).
  { intros E. unfold recipientsOf. apply filter_ext_Forall2; auto.
    intros x y (_ & -> & _). reflexivity. }
  assert (Hby : forall e0,
             Forall2 RecipientStep (recipientsByToken o (db w) e0)
                                   (recipientsByToken o (db w') e0)).
  { intros e0. unfold recipientsByToken. apply filter_ext_Forall2; auto.
    intros x y (_ & _ & Ht & _). unfold hasToken. now rewrite Ht. }
  assert (Hfind' : find (envelopeByToken o (db w')) (envelopes (db w'))
                   = Some e).
  { rewrite Henv, <- Hfind. apply find_ext. intros x _.
    unfold envelopeByToken. f_equal.
    eapply existsb_ext_Forall2; [apply Hrof|].
    intros a b (_ & _ & Ht & _). unfold hasToken. now rewrite Ht. }
  specialize (Hby e). rewrite Hrs in Hby.
  inversion Hby as [|? rcp' ? rs' Hstep _ E1 E2]; subst.
  assert (Hpf : precondition_failure o (db w')
                  (Error (Recipient_has_already_signed
                            (Recipient.id rcp')))).
  { eapply pf_signed; eauto. apply Hsigned.
    - assert (In rcp' (recipientsByToken o (db w') e))
        by (rewrite <- E2; now left).
      unfold recipientsByToken, recipientsOf in H.
      apply filter_In in H as [H _]. apply filter_In in H. tauto.
    - apply Hstep. }
  intros k r2 w2' Hretry.
  rewrite complete_as_guards_then_body in Hretry.
  apply bind_inv in Hretry as [([e2 rcp2] & v & G1 & G2) | (ex & G1 & ->)].
  + exfalso. apply guards_inv in G1 as [_ Hadm2].
    eapply admissible_no_failure; eauto.
  + apply guards_inv in G1 as [[(Hdb & Hob & _) _] _].
    split; [eauto|]. simpl in *. auto.
Qed.
End Sealing.

(** C4 as stated fails, for a re-send and for a repeated completion
    attempt alike. The completion of the signer requests the seal job
    and leaves the envelope PENDING. A re-send of it then requests the
    seal job a second time; and so does a completion with the token of
    the CC recipient, which the guards let through since they never test
    the role. *)
Lemma seal_job_requested_again :
  sealRequests (outbox sample_fully_signed) = 1%nat /\
  allSignedOrCc (recipients (db sample_fully_signed)) = true /\
  map Envelope.status (envelopes (db sample_fully_signed)) = [PENDING] /\
  (exists r, fst (@sendDocument Sample.collaborators Sample.send
                    sample_fully_signed) = Ok r) /\
  sealRequests
    (outbox (snd (@sendDocument Sample.collaborators Sample.send
                    sample_fully_signed))) = 2%nat /\
  map (fun r => (Recipient.token r, Recipient.role r))
      (recipients (db sample_fully_signed)) = [("a", SIGNER); ("b", CC)] /\
  fst (@completeDocumentWithToken Sample.collaborators
         (Sample.complete "b") sample_fully_signed) = Ok tt /\
  sealRequests
    (outbox (snd (@completeDocumentWithToken Sample.collaborators
                    (Sample.complete "b") sample_fully_signed))) = 2%nat.
Proof.
  vm_compute. repeat split. eexists. reflexivity.
Qed.

Lemma completion_seals_once_and_retry_requests_nothing_witness :
  (exists e added,
      find (@envelopeByToken Sample.collaborators (Sample.complete "a")
              (db sample_signer_and_cc))
           (envelopes (db sample_signer_and_cc)) = Some e /\
      outbox sample_fully_signed
        = (outbox sample_signer_and_cc ++ added)%list /\
      sealRequests added =
        if allSignedOrCc (recipientsOf (db sample_fully_signed)
                                       (Envelope.id e))
        then 1%nat else 0%nat) /\
  (forall k r2 w2,
      @completeDocumentWithToken Sample.collaborators (Sample.complete "a")
        (set_faultIn k sample_fully_signed) = (r2, w2) ->
      (exists ex, r2 = Throw ex) /\
      db w2 = db sample_fully_signed /\
      outbox w2 = outbox sample_fully_signed) /\
  sealRequests
    (outbox (snd (@completeDocumentWithToken Sample.collaborators
                    (Sample.complete "b") sample_fully_signed)))
  = S (sealRequests (outbox sample_fully_signed)).
Proof.
  destruct (@completion_seals_once_and_retry_requests_nothing
              Sample.collaborators (Sample.complete "a")
              sample_signer_and_cc sample_fully_signed)
    as (H1 & H2 & H3).
  - vm_compute. reflexivity.
  - split; [exact H1|]. split; [exact H2|].
    apply (H3 (Sample.complete "b") None
              (Sample.envelope PENDING PARALLEL)).
    + vm_compute. reflexivity.
    + vm_compute. reflexivity.
    + vm_compute. reflexivity.
Defined.

(* ================================================================= *)
(** ** Invariants of the store along a run                             *)
(* ================================================================= *)

(** *** A small program logic: [Inv] holds of the store before, so it
    holds after, wherever the run stops; and a returned value satisfies
    [Q]. *)

Section Keeps.
Variable Inv : Db -> Prop.

Lemma keeps_weaken {A} (m : M A) (Q Q' : A -> Prop) :
  keeps Inv m Q -> (forall a, Q a -> Q' a) -> keeps Inv m Q'.
Proof.
  intros H HQ w r w' Hi Hr. destruct (H _ _ _ Hi Hr). split; auto.
Qed.

Lemma keeps_ret {A} (a : A) (Q : A -> Prop) : Q a -> keeps Inv (ret a) Q.
Proof.
  intros Ha w r w' Hi H. inversion H; subst. split; auto.
  intros b E. inversion E; subst. exact Ha.
Qed.

Lemma keeps_throw {A} e (Q : A -> Prop) : keeps Inv (@throw A e) Q.
Proof.
  intros w r w' Hi H. inversion H; subst. split; auto. discriminate.
Qed.

Lemma keeps_bind {A B} (m : M A) (f : A -> M B) Q1 Q :
  keeps Inv m Q1 -> (forall a, Q1 a -> keeps Inv (f a) Q) -> keeps Inv (bind m f) Q.
Proof.
  intros Hm Hf w r w' Hi H.
  apply bind_inv in H as [(a & w1 & H1 & H2) | (e & H1 & ->)].
  - destruct (Hm _ _ _ Hi H1) as [Hi1 Ha].
    eapply Hf; eauto.
  - destruct (Hm _ _ _ Hi H1) as [Hi1 _]. split; auto. discriminate.
Qed.

Lemma keeps_seq {A B} (m : M A) (f : A -> M B) Q :
  keeps Inv m anything -> (forall a, keeps Inv (f a) Q) -> keeps Inv (bind m f) Q.
Proof. intros Hm Hf. eapply keeps_bind; eauto. Qed.

Lemma keeps_same_store {A} (m : M A) :
  (forall w r w', m w = (r, w') -> db w' = db w) -> keeps Inv m anything.
Proof.
  intros H w r w' Hi Hr. rewrite (H _ _ _ Hr). split; auto.
  intros; exact I.
Qed.

Lemma keeps_await : keeps Inv await anything.
Proof.
  apply keeps_same_store. intros w r w' H.
  apply await_inv in H. apply H.
Qed.

Lemma keeps_getDb : keeps Inv getDb anything.
Proof. apply keeps_same_store. intros w r w' H. now inversion H. Qed.

Lemma keeps_newDate : keeps Inv newDate anything.
Proof. apply keeps_same_store. intros w r w' H. now inversion H. Qed.

Lemma keeps_emit e : keeps Inv (emit e) anything.
Proof. apply keeps_same_store. intros w r w' H. now inversion H. Qed.

(** What a query returns was computed from a store satisfying [Inv]. *)
Lemma keeps_read {A} (g : Db -> A) :
  keeps Inv (await ;; d <- getDb ;; ret (g d))
        (fun a => exists d, Inv d /\ a = g d).
Proof.
  intros w r w' Hi H. apply read_inv in H as [Q [->|[-> _]]].
  - destruct Q as [(Hd & _) _]. rewrite Hd. split; auto.
    intros a E. inversion E; subst. exists (db w). auto.
  - destruct Q as [(Hd & _) _]. rewrite Hd. split; auto. discriminate.
Qed.

Lemma keeps_modifyDb f :
  (forall d, Inv d -> Inv (f d)) -> keeps Inv (modifyDb f) anything.
Proof.
  intros Hf w r w' Hi H. inversion H; subst. simpl. split; auto.
  intros; exact I.
Qed.

Lemma keeps_throwIf c e : keeps Inv (throwIf c e) anything.
Proof.
  destruct c; simpl; [apply keeps_throw | now apply keeps_ret].
Qed.

Lemma keeps_when c m :
  (c = true -> keeps Inv m anything) -> keeps Inv (when c m) anything.
Proof. intros H. destruct c; simpl; auto. now apply keeps_ret. Qed.

Lemma keeps_transaction {A} (body : M A) Q :
  keeps Inv body Q -> keeps Inv (transaction body) Q.
Proof.
  intros Hb w r w' Hi H. unfold transaction in H.
  destruct (body w) as [[a|e] w1] eqn:E.
  - destruct (Hb _ _ _ Hi E) as [Hi1 Ha].
    destruct (await w1) as [[u|e] w2] eqn:E2;
      apply await_inv in E2 as ((Hd & _) & _);
      inversion H; subst; clear H; simpl.
    + rewrite Hd. auto.
    + split; auto. discriminate.
  - inversion H; subst; clear H. simpl. split; auto. discriminate.
Qed.

Lemma keeps_forEach {A} (l : list A) (body : A -> M unit) :
  (forall x, In x l -> keeps Inv (body x) anything) ->
  keeps Inv (forEach l body) anything.
Proof.
  induction l as [|x l IH]; simpl; intros Hb.
  - now apply keeps_ret.
  - apply keeps_seq; auto.
Qed.

(** A loop with a carried value: [Qs] holds of it throughout. *)
Lemma keeps_foldM {A S} (body : S -> A -> M S) (l : list A) (s : S)
    (Qs : S -> Prop) :
  Qs s ->
  (forall s x, Qs s -> In x l -> keeps Inv (body s x) Qs) ->
  keeps Inv (foldM body l s) Qs.
Proof.
  revert s. induction l as [|x l IH]; simpl; intros s Hs Hb.
  - now apply keeps_ret.
  - eapply keeps_bind; [apply Hb; auto|]. intros s' Hs'. apply IH; auto.
Qed.

Lemma keeps_envelope_findFirst {I} wh (inc : Db -> Envelope.t -> I) :
  keeps Inv (envelope_findFirst wh inc)
        (fun a => exists d, Inv d /\
           a = match find (wh d) (envelopes d) with
               | Some e => Some (e, inc d e) | None => None end).
Proof. apply keeps_read. Qed.

Lemma keeps_recipient_findMany wh :
  keeps Inv (recipient_findMany wh)
        (fun a => exists d, Inv d /\ a = filter wh (recipients d)).
Proof. apply keeps_read. Qed.

Lemma keeps_recipient_findUnique id :
  keeps Inv (recipient_findUnique id)
        (fun a => exists d, Inv d /\
           a = find (fun r => Recipient.id r =? id) (recipients d)).
Proof. apply keeps_read. Qed.

Lemma keeps_field_findMany wh :
  keeps Inv (field_findMany wh)
        (fun a => exists d, Inv d /\ a = filter wh (fields d)).
Proof. apply keeps_read. Qed.

Lemma keeps_field_findMany_recipient wh :
  keeps Inv (field_findMany_recipient wh)
        (fun a => exists d, Inv d /\
           a = flat_map
                 (fun f =>
                    match find (fun r => Recipient.id r =? Field.recipientId f)
                               (recipients d) with
                    | Some r => [(f, r)]
                    | None => []
                    end)
                 (filter wh (fields d))).
Proof. apply keeps_read. Qed.

Lemma keeps_recipient_update id f :
  (forall d, Inv d ->
             Inv (set_recipients
                    (update_where (fun r => Recipient.id r =? id) f
                                  (recipients d)) d)) ->
  keeps Inv (recipient_update id f) anything.
Proof.
  intros Hf. unfold recipient_update.
  apply keeps_seq; [apply keeps_await|intros _].
  intros w r w' Hi H. rewrite bind_getDb in H.
  destruct (existsb _ _); revert w r w' Hi H.
  - now apply keeps_modifyDb.
  - apply keeps_throw.
Qed.

Lemma keeps_field_update id f :
  (forall d, Inv d ->
             Inv (set_fields
                    (update_where (fun x => Field.id x =? id) f
                                  (fields d)) d)) ->
  keeps Inv (field_update id f) anything.
Proof.
  intros Hf. unfold field_update.
  apply keeps_seq; [apply keeps_await|intros _].
  intros w r w' Hi H. rewrite bind_getDb in H.
  destruct (existsb _ _); revert w r w' Hi H.
  - now apply keeps_modifyDb.
  - apply keeps_throw.
Qed.

Lemma keeps_signature_create s :
  (forall d, Inv d -> Inv (set_signatures (signatures d ++ [s]) d)) ->
  keeps Inv (signature_create s) anything.
Proof.
  intros Hf. unfold signature_create.
  apply keeps_seq; [apply keeps_await|intros _].
  now apply keeps_modifyDb.
Qed.

Lemma keeps_documentAuditLog_create a :
  (forall d, Inv d ->
             Inv (set_documentAuditLogs (documentAuditLogs d ++ [a]) d)) ->
  keeps Inv (documentAuditLog_create a) anything.
Proof.
  intros Hf. unfold documentAuditLog_create.
  apply keeps_seq; [apply keeps_await|intros _].
  now apply keeps_modifyDb.
Qed.

Lemma keeps_triggerJob name payload :
  keeps Inv (triggerJob name payload) anything.
Proof.
  unfold triggerJob.
  apply keeps_seq; [apply keeps_await|intros _]. apply keeps_emit.
Qed.

Lemma keeps_sendPendingEmail id rid :
  keeps Inv (sendPendingEmail id rid) anything.
Proof.
  unfold sendPendingEmail.
  apply keeps_seq; [apply keeps_await|intros _]. apply keeps_emit.
Qed.

Lemma keeps_triggerWebhook ev e rs u t :
  keeps Inv (triggerWebhook ev e rs u t) anything.
Proof.
  unfold triggerWebhook.
  apply keeps_seq; [apply keeps_await|intros _]. apply keeps_emit.
Qed.
End Keeps.

(** One structural step of a [keeps] goal whose postcondition is
    [anything]; a query leaves what it returned, and the store it was
    computed from, in the context. *)
Ltac keeps_read_bind L :=
  eapply keeps_bind; [apply L | intros ? (? & ? & ->)].

Ltac keeps_step :=
  lazymatch goal with
  | |- keeps _ (bind (envelope_findFirst _ _) _) _ =>
      keeps_read_bind keeps_envelope_findFirst
  | |- keeps _ (bind (recipient_findMany _) _) _ =>
      keeps_read_bind keeps_recipient_findMany
  | |- keeps _ (bind (recipient_findUnique _) _) _ =>
      keeps_read_bind keeps_recipient_findUnique
  | |- keeps _ (bind (field_findMany _) _) _ =>
      keeps_read_bind keeps_field_findMany
  | |- keeps _ (bind (field_findMany_recipient _) _) _ =>
      keeps_read_bind keeps_field_findMany_recipient
  | |- keeps _ (bind (foldM _ _ _) _) _ =>
      eapply keeps_bind;
      [ apply keeps_foldM with (Qs := anything); [exact I | intros ? ? _ ?]
      | intros ? _ ]
  | |- keeps _ (bind newDate _) _ =>
      apply keeps_seq; [apply keeps_newDate | intros ?]
  | |- keeps _ (bind _ _) _ => apply keeps_seq; [|intros ?]
  | |- keeps _ (ret _) _ => apply keeps_ret; try exact I
  | |- keeps _ (throw _) _ => apply keeps_throw
  | |- keeps _ (throwIf _ _) _ => apply keeps_throwIf
  | |- keeps _ (when _ _) _ => apply keeps_when; intros ?
  | |- keeps _ await _ => apply keeps_await
  | |- keeps _ getDb _ => apply keeps_getDb
  | |- keeps _ (transaction _) _ => apply keeps_transaction
  | |- keeps _ (forEach _ _) _ => apply keeps_forEach; intros ? ?
  | |- keeps _ (recipient_update _ _) _ =>
      apply keeps_recipient_update; intros ? ?
  | |- keeps _ (field_update _ _) _ => apply keeps_field_update; intros ? ?
  | |- keeps _ (signature_create _) _ =>
      apply keeps_signature_create; intros ? ?
  | |- keeps _ (documentAuditLog_create _) _ =>
      apply keeps_documentAuditLog_create; intros ? ?
  | |- keeps _ (triggerJob _ _) _ => apply keeps_triggerJob
  | |- keeps _ (sendPendingEmail _ _) _ => apply keeps_sendPendingEmail
  | |- keeps _ (triggerWebhook _ _ _ _ _) _ => apply keeps_triggerWebhook
  | |- keeps _ (match ?x with _ => _ end) _ => destruct x eqn:?
  end.

(* ================================================================= *)
(** ** Auto-sign resolution: what it touches                           *)
(* ================================================================= *)

Lemma FieldStep_not_inserted f0 f :
  FieldStep f0 f -> Field.inserted f = false -> f = f0.
Proof. intros [->| ->]; auto. simpl. discriminate. Qed.

Lemma FieldStep_inserted f0 f :
  FieldStep f0 f -> Field.inserted f0 = true -> f = f0.
Proof. intros [->| ->] H; auto. destruct f0; simpl in *. now subst. Qed.

Lemma autoSignWhere_spec envelopeId f :
  autoSignWhere envelopeId f = true ->
  Field.envelopeId f = envelopeId /\ Field.autosign f = true /\
  Field.inserted f = false.
Proof.
  unfold autoSignWhere. intros H.
  apply andb_true_iff in H as [H H3]. apply andb_true_iff in H as [H1 H2].
  apply String.eqb_eq in H1. apply negb_true_iff in H3. auto.
Qed.

(** A row returned by the auto-sign query of a store reached from [d0]
    is a selected field of [d0] itself. *)
Lemma selected_is_pending envelopeId md d0 d f rc :
  field_footprint envelopeId md d0 d ->
  In (f, rc)
     (flat_map
        (fun f =>
           match find (fun r => Recipient.id r =? Field.recipientId f)
                      (recipients d) with
           | Some r => [(f, r)]
           | None => []
           end)
        (filter (autoSignWhere envelopeId) (fields d))) ->
  pending_autosign envelopeId d0 f.
Proof.
  intros (Hf & _) Hin. apply in_flat_map in Hin as (x & Hx & Hin).
  destruct (find _ _); simpl in Hin; [|contradiction].
  destruct Hin as [E|[]]. inversion E; subst.
  apply filter_In in Hx as [Hx Hw]. split; auto.
  destruct (@Forall2_In_r _ _ _ _ _ Hf Hx) as (f0 & Hf0 & Hs).
  apply autoSignWhere_spec in Hw as (_ & _ & Hi).
  now rewrite (FieldStep_not_inserted Hs Hi).
Qed.

(** Extending a table relation that holds so far by one write. *)
Ltac extend_table :=
  lazymatch goal with
  | |- Forall2 FieldStep _ (update_where _ _ _) =>
      etransitivity; [eassumption|];
      apply Forall2_update_where; [typeclasses eauto|];
      intros; apply FieldStep_mark_inserted
  | |- appends _ _ (_ ++ [_])%list =>
      etransitivity; [eassumption|]; apply appends_one;
      first [ solve [eauto 6]
            | intros ?; simpl in *; discriminate
            | intros ?; solve [eauto 8] ]
  | _ => idtac
  end.

Ltac field_footprint_obligation :=
  lazymatch goal with
  | H : field_footprint _ _ _ _ |- field_footprint _ _ _ _ =>
      let Hf := fresh in let Hs := fresh in let Hl := fresh in
      destruct H as (Hf & Hs & Hl);
      unfold field_footprint; simpl; repeat split; auto; extend_table
  | _ => idtac
  end.

Section AutoSignFootprint.
Context `{Collab : Collaborators}.

Lemma field_footprint_refl envelopeId md d : field_footprint envelopeId md d d.
Proof. repeat split; reflexivity. Qed.

Lemma autoSignField_field_footprint envelopeId md d0 d seen f rc :
  field_footprint envelopeId md d0 d ->
  In (f, rc)
     (flat_map
        (fun f =>
           match find (fun r => Recipient.id r =? Field.recipientId f)
                      (recipients d) with
           | Some r => [(f, r)]
           | None => []
           end)
        (filter (autoSignWhere envelopeId) (fields d))) ->
  keeps (field_footprint envelopeId md d0)
        (autoSignField envelopeId md seen (f, rc)) anything.
Proof.
  intros Hd Hin. pose proof (selected_is_pending _ _ Hd Hin) as Hp.
  unfold autoSignField.
  repeat keeps_step; field_footprint_obligation.
Qed.

Ltac autoSignField_step :=
  lazymatch goal with
  | H : In ?x _ |- keeps _ (autoSignField _ _ _ ?x) _ =>
      destruct x; eapply autoSignField_field_footprint; eassumption
  end.

Lemma resolveAutoSign_complete_field_footprint envelopeId rm d0 :
  keeps (field_footprint envelopeId (autoSignMetadata_complete rm) d0)
        (resolveAutoSign_complete envelopeId rm) anything.
Proof.
  unfold resolveAutoSign_complete, completeAutoSigned_complete, markSigned.
  repeat first [autoSignField_step | keeps_step];
    field_footprint_obligation.
Qed.

Lemma resolveAutoSign_send_field_footprint envelopeId rm snapshot d0 :
  keeps (field_footprint envelopeId (autoSignMetadata_send rm) d0)
        (resolveAutoSign_send envelopeId rm snapshot) anything.
Proof.
  unfold resolveAutoSign_send, completeAutoSigned_send, markSigned.
  repeat first [autoSignField_step | keeps_step];
    field_footprint_obligation.
Qed.
End AutoSignFootprint.

Lemma SignStep_id r r' : SignStep r r' -> Recipient.id r' = Recipient.id r.
Proof. intros [->|(_ & t & ->)]; reflexivity. Qed.

#[export] Instance SignStep_PreOrder : PreOrder SignStep.
Proof.
  split.
  - intros r. now left.
  - intros a b c [->|(Ha & t & ->)] [->|(Hb & t' & ->)].
    + now left.
    + right. eauto.
    + right. eauto.
    + simpl in Hb. congruence.
Qed.

Lemma NoDup_key_unique {A} (key : A -> Z) l a b :
  NoDup (map key l) -> In a l -> In b l -> key a = key b -> a = b.
Proof.
  induction l as [|x l IH]; simpl; [tauto|].
  intros Hnd [->|Ha] [->|Hb] E; auto; inversion Hnd as [|? ? Hx Hl]; subst.
  - exfalso. apply Hx. rewrite E. now apply in_map.
  - exfalso. apply Hx. rewrite <- E. now apply in_map.
  - auto.
Qed.

Lemma mark_signed_twice t t' r :
  Recipient.mark_signed t (Recipient.mark_signed t' r)
  = Recipient.mark_signed t r.
Proof. reflexivity. Qed.

Lemma SignStep_mark_all l0 l rid t :
  (forall x0, In x0 l0 -> Recipient.id x0 = rid ->
              Recipient.signingStatus x0 <> SIGNED) ->
  Forall2 SignStep l0 l ->
  Forall2 SignStep l0
    (update_where (fun r => Recipient.id r =? rid) (Recipient.mark_signed t) l).
Proof.
  intros Hns H. unfold update_where.
  induction H as [|x0 x l0 l Hx H IH]; simpl; constructor.
  - destruct (Recipient.id x =? rid) eqn:E; auto.
    apply Z.eqb_eq in E. rewrite (SignStep_id Hx) in E.
    assert (Recipient.signingStatus x0 <> SIGNED)
      by (apply Hns; simpl; auto).
    right. split; auto. exists t.
    destruct Hx as [->|(_ & t' & ->)]; reflexivity.
  - apply IH. intros. apply Hns; simpl; auto.
Qed.

Lemma is_signed_false r :
  is_signed r = false <-> Recipient.signingStatus r <> SIGNED.
Proof.
  unfold is_signed. destruct (Recipient.signingStatus r); simpl;
    split; congruence.
Qed.

Section RecipientFootprint.
Context `{Collab : Collaborators}.
Variables (envelopeId : string) (md : MetadataArg) (d0 : Db).
Hypothesis PK : NoDup (map Recipient.id (recipients d0)).

Lemma recipient_footprint_refl : recipient_footprint envelopeId md d0 d0.
Proof. split; reflexivity. Qed.

(** The row found by key in a store reached from [d0], when not SIGNED,
    is the row of [d0] with that key. *)
Lemma found_unsigned d rid rtc :
  recipient_footprint envelopeId md d0 d ->
  find (fun r => Recipient.id r =? rid) (recipients d) = Some rtc ->
  is_signed rtc = false ->
  In rtc (recipients d0) /\ Recipient.id rtc = rid /\
  Recipient.signingStatus rtc <> SIGNED.
Proof.
  intros (Hr & _) Hf Hs. apply find_some in Hf as [Hin Hid].
  apply Z.eqb_eq in Hid. apply is_signed_false in Hs.
  destruct (@Forall2_In_r _ _ _ _ _ Hr Hin) as (x0 & Hx0 & [->|(_ & t & ->)]);
    auto.
  simpl in Hs. congruence.
Qed.

Lemma recipient_footprint_mark rc t d :
  In rc (recipients d0) ->
  Recipient.signingStatus rc <> SIGNED ->
  recipient_footprint envelopeId md d0 d ->
  recipient_footprint envelopeId md d0
    (set_recipients
       (update_where (fun r => Recipient.id r =? Recipient.id rc)
                     (Recipient.mark_signed t) (recipients d)) d).
Proof.
  intros Hin Hns (Hr & Hl). split; simpl; auto.
  apply SignStep_mark_all; auto.
  intros x0 Hx0 Hid.
  now rewrite (NoDup_key_unique Recipient.id _ x0 rc PK Hx0 Hin Hid).
Qed.

Lemma recipient_footprint_log a d :
  (AuditLog.type a = DOCUMENT_RECIPIENT_COMPLETED ->
   exists rc, In rc (recipients d0) /\
              Recipient.signingStatus rc <> SIGNED /\
              a = autoCompletedLog envelopeId md rc) ->
  recipient_footprint envelopeId md d0 d ->
  recipient_footprint envelopeId md d0
    (set_documentAuditLogs (documentAuditLogs d ++ [a]) d).
Proof.
  intros Ha (Hr & Hl). split; simpl; auto.
  etransitivity; [eassumption|]. now apply appends_one.
Qed.

Lemma recipient_footprint_fields fs d :
  recipient_footprint envelopeId md d0 d ->
  recipient_footprint envelopeId md d0 (set_fields fs d).
Proof. intros (Hr & Hl). split; simpl; auto. Qed.

Lemma recipient_footprint_signatures ss d :
  recipient_footprint envelopeId md d0 d ->
  recipient_footprint envelopeId md d0 (set_signatures ss d).
Proof. intros (Hr & Hl). split; simpl; auto. Qed.

Lemma autoSignField_recipient_footprint seen fr :
  keeps (recipient_footprint envelopeId md d0)
        (autoSignField envelopeId md seen fr) anything.
Proof.
  unfold autoSignField. destruct fr as [f rc].
  repeat keeps_step;
    auto using recipient_footprint_fields, recipient_footprint_signatures.
  apply recipient_footprint_log; auto. simpl. discriminate.
Qed.

Lemma completeAutoSigned_complete_recipient_footprint rid :
  keeps (recipient_footprint envelopeId md d0)
        (completeAutoSigned_complete envelopeId md rid) anything.
Proof.
  unfold completeAutoSigned_complete, markSigned.
  repeat keeps_step;
    match goal with
    | Hfp : recipient_footprint _ _ _ ?d1,
      Hfind : find _ (recipients ?d1) = Some ?r,
      Hs : is_signed ?r = false |- _ =>
        destruct (found_unsigned _ Hfp Hfind Hs) as (Hin & <- & Hns)
    end.
  - now apply recipient_footprint_mark.
  - apply recipient_footprint_log; eauto.
Qed.

Lemma completeAutoSigned_send_recipient_footprint snapshot rid :
  incl snapshot (recipients d0) ->
  keeps (recipient_footprint envelopeId md d0)
        (completeAutoSigned_send envelopeId md snapshot rid) anything.
Proof.
  intros Hincl. unfold completeAutoSigned_send, markSigned.
  repeat keeps_step;
    match goal with
    | Hfind : find _ snapshot = Some ?r,
      Hc : (_ && negb (is_signed ?r)) = true |- _ =>
        apply find_some in Hfind as [Hin Hid]; apply Z.eqb_eq in Hid;
        apply andb_true_iff in Hc as [_ Hs];
        apply negb_true_iff, is_signed_false in Hs;
        apply Hincl in Hin; subst rid
    end.
  - now apply recipient_footprint_mark.
  - apply recipient_footprint_log; eauto.
Qed.
End RecipientFootprint.

Section ResolverFootprint.
Context `{Collab : Collaborators}.

Lemma resolveAutoSign_complete_recipient_footprint envelopeId rm d0 :
  NoDup (map Recipient.id (recipients d0)) ->
  keeps (recipient_footprint envelopeId (autoSignMetadata_complete rm) d0)
        (resolveAutoSign_complete envelopeId rm) anything.
Proof.
  intros PK. unfold resolveAutoSign_complete.
  repeat first
    [ now apply autoSignField_recipient_footprint
    | now apply completeAutoSigned_complete_recipient_footprint
    | keeps_step ].
Qed.

Lemma resolveAutoSign_send_recipient_footprint envelopeId rm snapshot d0 :
  NoDup (map Recipient.id (recipients d0)) ->
  incl snapshot (recipients d0) ->
  keeps (recipient_footprint envelopeId (autoSignMetadata_send rm) d0)
        (resolveAutoSign_send envelopeId rm snapshot) anything.
Proof.
  intros PK Hincl. unfold resolveAutoSign_send.
  repeat first
    [ now apply autoSignField_recipient_footprint
    | now apply completeAutoSigned_send_recipient_footprint
    | keeps_step ].
Qed.
End ResolverFootprint.

(* ================================================================= *)
(** ** Auto-sign resolution: running it again                          *)
(* ================================================================= *)

Lemma find_none_Forall2 {A} (R : A -> A -> Prop) (p : A -> bool) l l' :
  Forall2 R l l' -> (forall x y, R x y -> p y = p x) ->
  find p l = None -> find p l' = None.
Proof.
  intros H Hp. induction H as [|x y l l' Hxy H IH]; simpl; auto.
  rewrite (Hp _ _ Hxy). destruct (p x); [discriminate|auto].
Qed.

Lemma flat_map_nil {A B} (g : A -> list B) l :
  (forall x, In x l -> g x = []) -> flat_map g l = [].
Proof.
  induction l as [|x l IH]; simpl; intros H; auto.
  rewrite (H x), IH; auto.
Qed.

Section Rerun.
Context `{Collab : Collaborators}.

Lemma autoSignField_ok envelopeId md seen f rc w seen' w' :
  autoSignField envelopeId md seen (f, rc) w = (Ok seen', w') ->
  fields (db w') =
    update_where (fun x => Field.id x =? Field.id f) Field.mark_inserted
                 (fields (db w)) /\
  recipients (db w') = recipients (db w).
Proof.
  unfold autoSignField. intros H.
  apply bind_inv in H as [(u & w1 & H1 & H2) | (ex & _ & ?)]; [|discriminate].
  assert (Hs : fields (db w1) = fields (db w) /\
               recipients (db w1) = recipients (db w)).
  { destruct (is_signature_type _); simpl in H1.
    - unfold signature_create in H1.
      apply bind_inv in H1 as [(u' & v & G1 & G2) | (ex & _ & ?)];
        [|discriminate].
      apply await_inv in G1 as ((Hd & _) & _).
      inversion G2; subst. simpl. now rewrite Hd.
    - inversion H1; subst. auto. }
  destruct Hs as [Hf1 Hr1].
  apply bind_inv in H2 as [(u2 & w2 & H3 & H4) | (ex & _ & ?)]; [|discriminate].
  unfold field_update in H3.
  apply bind_inv in H3 as [(u3 & v & G1 & G2) | (ex & _ & ?)]; [|discriminate].
  apply await_inv in G1 as ((Hd & _) & _). rewrite bind_getDb in G2.
  destruct (existsb _ _); inversion G2; subst; clear G2.
  apply bind_inv in H4 as [(u4 & w4 & H5 & H6) | (ex & _ & ?)]; [|discriminate].
  unfold documentAuditLog_create in H5.
  apply bind_inv in H5 as [(u5 & v5 & G1 & G2) | (ex & _ & ?)]; [|discriminate].
  apply await_inv in G1 as ((Hd5 & _) & _).
  inversion G2; subst; clear G2. inversion H6; subst; clear H6.
  simpl. rewrite Hd5. simpl. rewrite Hd, Hf1, Hr1. auto.
Qed.

(** After the field loop, a field that is still not inserted was in the
    store before and is none of the fields the loop went through. *)
Lemma foldM_autoSignField_ok envelopeId md L :
  forall seen w seen' w',
    foldM (autoSignField envelopeId md) L seen w = (Ok seen', w') ->
    recipients (db w') = recipients (db w) /\
    forall x, In x (fields (db w')) -> Field.inserted x = false ->
              In x (fields (db w)) /\
              forall fr, In fr L -> Field.id (fst fr) <> Field.id x.
Proof.
  induction L as [|[f rc] L IH]; simpl; intros seen w seen' w' H.
  - inversion H; subst. split; auto.
  - apply bind_inv in H as [(s1 & w1 & H1 & H2) | (ex & _ & ?)];
      [|discriminate].
    apply autoSignField_ok in H1 as [Hf Hr].
    apply IH in H2 as [Hr2 Hx2]. split; [congruence|].
    intros x Hx Hi. destruct (Hx2 x Hx Hi) as [Hin Hne].
    rewrite Hf in Hin. unfold update_where in Hin.
    apply in_map_iff in Hin as (y & Hy & Hyin).
    destruct (Field.id y =? Field.id f) eqn:E.
    + subst x. simpl in Hi. discriminate.
    + subst y. split; auto. intros fr [<-|Hfr]; auto.
      simpl. apply Z.eqb_neq in E. congruence.
Qed.

Lemma completeAutoSigned_complete_marks_only envelopeId md ids :
  respects marks_only any
    (forEach ids (completeAutoSigned_complete envelopeId md)).
Proof.
  unfold marks_only.
  frame_walk; db_obligation; try exact I;
    apply Forall2_update_where; [typeclasses eauto|];
    intros; apply RecipientStep_mark_signed.
Qed.

Lemma completeAutoSigned_send_marks_only envelopeId md snapshot ids :
  respects marks_only any
    (forEach ids (completeAutoSigned_send envelopeId md snapshot)).
Proof.
  unfold marks_only.
  frame_walk; db_obligation; try exact I;
    apply Forall2_update_where; [typeclasses eauto|];
    intros; apply RecipientStep_mark_signed.
Qed.

(** Field loop and marking loop, run to the end from the result of the
    query, leave nothing to auto-sign. *)
Lemma settled_after envelopeId d0 d1 d2 :
  recipients d1 = recipients d0 ->
  (forall x, In x (fields d1) -> Field.inserted x = false ->
             In x (fields d0) /\
             forall fr, In fr (autoSignQuery envelopeId d0) ->
                        Field.id (fst fr) <> Field.id x) ->
  marks_only d1 d2 ->
  settled envelopeId d2.
Proof.
  intros Hr Hx (_ & _ & Hrec & Hf & _).
  unfold settled, autoSignQuery. apply flat_map_nil.
  intros x Hin. apply filter_In in Hin as [Hin Hw].
  rewrite <- Hf in Hin.
  pose proof (autoSignWhere_spec _ _ Hw) as (_ & _ & Hi).
  destruct (Hx x Hin Hi) as [Hin0 Hne].
  assert (Hnone : find (fun r => Recipient.id r =? Field.recipientId x)
                       (recipients d0) = None).
  { destruct (find _ (recipients d0)) as [r|] eqn:E; auto.
    exfalso. apply (Hne (x, r)); auto.
    unfold autoSignQuery. apply in_flat_map. exists x.
    split; [apply filter_In; auto|]. rewrite E. now left. }
  rewrite <- Hr in Hnone.
  erewrite find_none_Forall2; eauto.
  intros a b (E & _). simpl. now rewrite E.
Qed.

(** A resolution that finds nothing to auto-sign only reads. *)
Lemma resolveAutoSign_send_settled envelopeId rm snapshot w r w' :
  settled envelopeId (db w) ->
  resolveAutoSign_send envelopeId rm snapshot w = (r, w') ->
  quiet w w' /\ (faultIn w = None -> r = Ok tt).
Proof.
  intros Hs H. unfold resolveAutoSign_send in H.
  apply bind_inv in H as [(L & w1 & H1 & H2) | (ex & H1 & ->)].
  - unfold field_findMany_recipient in H1. apply read_ok in H1 as [Q ->].
    fold (autoSignQuery envelopeId (db w)) in H2. rewrite Hs in H2.
    inversion H2; subst. auto.
  - unfold field_findMany_recipient in H1.
    apply read_throw in H1 as (Q & _ & F). split; auto.
    intros. contradiction.
Qed.

Lemma resolveAutoSign_complete_settled envelopeId rm w r w' :
  settled envelopeId (db w) \/
  fieldsContainUnsignedRequiredField
    (filter (fun f => negb (Field.autosign f))
            (filter (fun f => String.eqb (Field.envelopeId f) envelopeId)
                    (fields (db w)))) = true ->
  resolveAutoSign_complete envelopeId rm w = (r, w') ->
  quiet w w' /\ (faultIn w = None -> r = Ok tt).
Proof.
  intros Hs H. unfold resolveAutoSign_complete in H.
  apply bind_inv in H as [(fs & w1 & H1 & H2) | (ex & H1 & ->)].
  2:{ unfold field_findMany in H1.
      apply read_throw in H1 as (Q & _ & F). split; auto.
      intros. contradiction. }
  unfold field_findMany in H1. apply read_ok in H1 as [Q1 ->].
  destruct (fieldsContainUnsignedRequiredField _) eqn:Eg; simpl in H2.
  { inversion H2; subst. auto. }
  destruct Hs as [Hs|Hs]; [|congruence].
  assert (Hd : db w1 = db w) by apply Q1.
  apply bind_inv in H2 as [(L & w2 & H3 & H4) | (ex & H3 & ->)].
  - unfold field_findMany_recipient in H3. apply read_ok in H3 as [Q2 ->].
    fold (autoSignQuery envelopeId (db w1)) in H4.
    rewrite Hd, Hs in H4. inversion H4; subst.
    split; [eapply quiet_trans; eauto|auto].
  - unfold field_findMany_recipient in H3.
    apply read_throw in H3 as (Q2 & _ & F).
    split; [eapply quiet_trans; eauto|].
    intros F'. exfalso. apply F. destruct Q1 as [_ Q1].
    now rewrite (Q1 F').
Qed.

(** A resolution that ran to the end leaves a store on which another
    resolution only reads. *)
Lemma resolveAutoSign_send_settles envelopeId rm snapshot w w' :
  resolveAutoSign_send envelopeId rm snapshot w = (Ok tt, w') ->
  settled envelopeId (db w').
Proof.
  intros H. unfold resolveAutoSign_send in H.
  apply bind_inv in H as [(L & w1 & H1 & H2) | (ex & _ & ?)]; [|discriminate].
  unfold field_findMany_recipient in H1. apply read_ok in H1 as [Q ->].
  fold (autoSignQuery envelopeId (db w)) in H2.
  assert (Hd : db w1 = db w) by apply Q.
  destruct (0 <? Z.of_nat (List.length (autoSignQuery envelopeId (db w))))
    eqn:El; simpl in H2.
  - apply bind_inv in H2 as [(ids & w2 & H3 & H4) | (ex & _ & ?)];
      [|discriminate].
    apply foldM_autoSignField_ok in H3 as [Hr Hx].
    apply completeAutoSigned_send_marks_only in H4 as [Hm _].
    rewrite Hd in *. eapply settled_after; eauto.
  - inversion H2; subst. rewrite Hd. unfold settled.
    destruct (autoSignQuery envelopeId (db w)); auto.
    simpl in El. discriminate.
Qed.

Lemma resolveAutoSign_complete_settles envelopeId rm w w' :
  resolveAutoSign_complete envelopeId rm w = (Ok tt, w') ->
  settled envelopeId (db w') \/
  fieldsContainUnsignedRequiredField
    (filter (fun f => negb (Field.autosign f))
            (filter (fun f => String.eqb (Field.envelopeId f) envelopeId)
                    (fields (db w')))) = true.
Proof.
  intros H. unfold resolveAutoSign_complete in H.
  apply bind_inv in H as [(fs & w1 & H1 & H2) | (ex & _ & ?)]; [|discriminate].
  unfold field_findMany in H1. apply read_ok in H1 as [Q1 ->].
  assert (Hd1 : db w1 = db w) by apply Q1.
  destruct (fieldsContainUnsignedRequiredField _) eqn:Eg; simpl in H2.
  { inversion H2; subst. right. now rewrite Hd1. }
  left.
  apply bind_inv in H2 as [(L & w2 & H3 & H4) | (ex & _ & ?)]; [|discriminate].
  unfold field_findMany_recipient in H3. apply read_ok in H3 as [Q2 ->].
  fold (autoSignQuery envelopeId (db w1)) in H4.
  assert (Hd2 : db w2 = db w1) by apply Q2.
  apply bind_inv in H4 as [(ids & w3 & H5 & H6) | (ex & _ & ?)];
    [|discriminate].
  apply foldM_autoSignField_ok in H5 as [Hr Hx].
  apply completeAutoSigned_complete_marks_only in H6 as [Hm _].
  rewrite Hd2 in *. eapply settled_after; eauto.
Qed.
End Rerun.

Section Idempotence.
Context `{Collab : Collaborators}.

Lemma inserted_fields_kept l l' :
  Forall2 FieldStep l l' ->
  Forall2 (fun f f' => Field.inserted f = true -> f' = f) l l'.
Proof.
  induction 1 as [|f f' l l' Hs _ IH]; constructor; auto.
  intros Hi. eapply FieldStep_inserted; eauto.
Qed.

(** C2. Auto-sign resolution, in [completeDocumentWithToken] and in
    [sendDocument], on every run and wherever it stops: it signs and
    logs selected fields only (autosign, not inserted, of the envelope),
    so a field that is inserted stays as it is and gets no signature and
    no FIELD_INSERTED entry; where recipient ids are keys, a recipient
    that is SIGNED stays as it is and every RECIPIENT_COMPLETED entry
    added is for a recipient that was not SIGNED. And when a resolution
    has run to the end, a second one on the store it produced only
    reads: store and outbox stay as they are, whatever happens to its
    collaborators, and without a failing collaborator it returns. *)
Theorem auto_sign_resolution_is_idempotent :
  (forall envelopeId rm w r w',
      resolveAutoSign_complete envelopeId rm w = (r, w') ->
      field_footprint envelopeId (autoSignMetadata_complete rm)
                      (db w) (db w') /\
      Forall2 (fun f f' => Field.inserted f = true -> f' = f)
              (fields (db w)) (fields (db w')) /\
      (NoDup (map Recipient.id (recipients (db w))) ->
       recipient_footprint envelopeId (autoSignMetadata_complete rm)
                           (db w) (db w')) /\
      (r = Ok tt ->
       forall k r2 w2,
         resolveAutoSign_complete envelopeId rm (set_faultIn k w')
         = (r2, w2) ->
         db w2 = db w' /\ outbox w2 = outbox w' /\
         (k = None -> r2 = Ok tt))) /\
  (forall envelopeId rm snapshot w r w',
      resolveAutoSign_send envelopeId rm snapshot w = (r, w') ->
      field_footprint envelopeId (autoSignMetadata_send rm)
                      (db w) (db w') /\
      Forall2 (fun f f' => Field.inserted f = true -> f' = f)
              (fields (db w)) (fields (db w')) /\
      (NoDup (map Recipient.id (recipients (db w))) ->
       incl snapshot (recipients (db w)) ->
       recipient_footprint envelopeId (autoSignMetadata_send rm)
                           (db w) (db w')) /\
      (r = Ok tt ->
       forall snapshot' k r2 w2,
         resolveAutoSign_send envelopeId rm snapshot' (set_faultIn k w')
         = (r2, w2) ->
         db w2 = db w' /\ outbox w2 = outbox w' /\
         (k = None -> r2 = Ok tt))).
Proof.
  split.
  - intros envelopeId rm w r w' H.
    pose proof (@resolveAutoSign_complete_field_footprint _ envelopeId rm
                  (db w)) as K.
    destruct (K w r w' (field_footprint_refl _ _ _) H) as [Hf _].
    split; [exact Hf|]. split; [apply inserted_fields_kept, Hf|]. split.
    + intros PK.
      pose proof (@resolveAutoSign_complete_recipient_footprint _
                    envelopeId rm (db w) PK) as K'.
      now destruct (K' w r w' (recipient_footprint_refl _ _ _) H).
    + intros -> k r2 w2 H2.
      apply resolveAutoSign_complete_settles in H.
      eapply resolveAutoSign_complete_settled in H2; [|exact H].
      destruct H2 as [[(Hd & Ho & _) _] Hk]. simpl in *.
      repeat split; auto.
  - intros envelopeId rm snapshot w r w' H.
    pose proof (@resolveAutoSign_send_field_footprint _ envelopeId rm
                  snapshot (db w)) as K.
    destruct (K w r w' (field_footprint_refl _ _ _) H) as [Hf _].
    split; [exact Hf|]. split; [apply inserted_fields_kept, Hf|]. split.
    + intros PK Hincl.
      pose proof (@resolveAutoSign_send_recipient_footprint _
                    envelopeId rm snapshot (db w) PK Hincl) as K'.
      now destruct (K' w r w' (recipient_footprint_refl _ _ _) H).
    + intros -> snapshot' k r2 w2 H2.
      apply resolveAutoSign_send_settles in H.
      eapply resolveAutoSign_send_settled in H2; [|exact H].
      destruct H2 as [[(Hd & Ho & _) _] Hk]. simpl in *.
      repeat split; auto.
Qed.
End Idempotence.

Lemma auto_sign_resolution_is_idempotent_witness :
  recipient_footprint "env_1"
    (autoSignMetadata_complete (Some Sample.request))
    (db sample_presigned) (db sample_resolved) /\
  forall k r2 w2,
    @resolveAutoSign_complete Sample.collaborators "env_1"
      (Some Sample.request) (set_faultIn k sample_resolved) = (r2, w2) ->
    db w2 = db sample_resolved /\ outbox w2 = outbox sample_resolved /\
    (k = None -> r2 = Ok tt).
Proof.
  destruct (proj1 (@auto_sign_resolution_is_idempotent Sample.collaborators)
              "env_1" (Some Sample.request) sample_presigned (Ok tt)
              sample_resolved)
    as (_ & _ & Hr & Hk).
  - vm_compute. reflexivity.
  - split; [|apply Hk; reflexivity].
    apply Hr. simpl. repeat constructor; simpl; intuition discriminate.
Defined.

(* ================================================================= *)
(** ** Frame of [completeDocumentWithToken]: the records it may touch  *)
(* ================================================================= *)

#[export] Instance KeyedRecipient_PreOrder E : PreOrder (KeyedRecipient E).
Proof.
  split.
  - intros r. unfold KeyedRecipient. auto.
  - intros a b c (I1 & E1 & K1) (I2 & E2 & K2). unfold KeyedRecipient.
    repeat split; try congruence.
    intros Hne. rewrite K2, K1; auto. rewrite K1; auto.
Qed.

#[export] Instance KeyedField_PreOrder E : PreOrder (KeyedField E).
Proof.
  split.
  - intros r. unfold KeyedField. auto.
  - intros a b c (I1 & E1 & R1 & K1) (I2 & E2 & R2 & K2). unfold KeyedField.
    repeat split; try congruence.
    intros Hne. rewrite K2, K1; auto. rewrite K1; auto.
Qed.

Lemma confined_refl E d : confined E d d.
Proof. repeat split; reflexivity. Qed.

Lemma In_set_add x y s : In x (set_add y s) -> x = y \/ In x s.
Proof.
  unfold set_add. destruct (existsb _ _); auto.
  intros H. apply in_app_or in H as [H|[H|[]]]; auto.
Qed.

Lemma Forall2_update_where_keyed {A} (R : A -> A -> Prop) (p : A -> bool)
    (g : A -> A) l0 l :
  Forall2 R l0 l ->
  (forall x0 x, In x0 l0 -> R x0 x -> p x = true -> R x0 (g x)) ->
  Forall2 R l0 (update_where p g l).
Proof.
  unfold update_where.
  induction 1 as [|x0 x l0 l Hx H IH]; simpl; intros Hg; constructor.
  - destruct (p x) eqn:Ep; [apply Hg; simpl; auto | exact Hx].
  - apply IH. intros. apply Hg; simpl; auto.
Qed.

Section Confinement.
Context `{Collab : Collaborators}.
Variables (E : string) (d0 : Db).
Hypothesis WK : well_keyed d0.

Lemma recipient_key_found d rcp :
  confined E d0 d -> In rcp (recipients d) -> Recipient.envelopeId rcp = E ->
  recipient_key_of_envelope E d0 (Recipient.id rcp).
Proof.
  intros (Hr & _) Hin He x0 Hx0 Hid.
  destruct (@Forall2_In_r _ _ _ _ _ Hr Hin) as (y0 & Hy0 & (I1 & E1 & _)).
  destruct WK as (PK & _).
  assert (x0 = y0) by
    (eapply NoDup_key_unique with (key := Recipient.id); eauto; congruence).
  subst. congruence.
Qed.

Lemma field_key_found d f :
  confined E d0 d -> In f (fields d) -> Field.envelopeId f = E ->
  field_key_of_envelope E d0 (Field.id f) /\
  exists f0, In f0 (fields d0) /\ Field.envelopeId f0 = E /\
             Field.id f0 = Field.id f /\
             Field.recipientId f0 = Field.recipientId f.
Proof.
  intros (_ & Hf & _) Hin He.
  destruct (@Forall2_In_r _ _ _ _ _ Hf Hin) as (y0 & Hy0 & (I1 & E1 & R1 & _)).
  split.
  - intros x0 Hx0 Hid. destruct WK as (_ & PK & _).
    assert (x0 = y0) by
      (eapply NoDup_key_unique with (key := Field.id); eauto; congruence).
    subst. congruence.
  - exists y0. repeat split; auto; congruence.
Qed.

(** The recipient a field of the envelope points to is of the envelope. *)
Lemma recipient_key_of_field f0 :
  In f0 (fields d0) -> Field.envelopeId f0 = E ->
  recipient_key_of_envelope E d0 (Field.recipientId f0).
Proof.
  intros Hin He x0 Hx0 Hid. destruct WK as (_ & _ & FK).
  rewrite (FK f0 x0); auto.
Qed.

Lemma confined_update_recipient k g d :
  recipient_key_of_envelope E d0 k ->
  (forall r, Recipient.id (g r) = Recipient.id r /\
             Recipient.envelopeId (g r) = Recipient.envelopeId r) ->
  confined E d0 d ->
  confined E d0
    (set_recipients
       (update_where (fun r => Recipient.id r =? k) g (recipients d)) d).
Proof.
  intros Hk Hg (Hr & Hrest). split; [|exact Hrest]. simpl.
  apply Forall2_update_where_keyed; auto.
  intros x0 x Hx0 (I1 & E1 & K1) Ek.
  apply Z.eqb_eq in Ek. destruct (Hg x) as [G1 G2].
  repeat split; try congruence.
  intros Hne. exfalso. apply Hne. apply Hk; auto. congruence.
Qed.

Lemma confined_update_field k d :
  field_key_of_envelope E d0 k ->
  confined E d0 d ->
  confined E d0
    (set_fields
       (update_where (fun x => Field.id x =? k) Field.mark_inserted
                     (fields d)) d).
Proof.
  intros Hk (Hr & Hf & Hrest). split; [exact Hr|]. split; [|exact Hrest].
  simpl. apply Forall2_update_where_keyed; auto.
  intros x0 x Hx0 (I1 & E1 & R1 & K1) Ek.
  apply Z.eqb_eq in Ek. repeat split; simpl; try congruence.
  intros Hne. exfalso. apply Hne. apply Hk; auto. congruence.
Qed.

Lemma confined_log a d :
  AuditLog.envelopeId a = E ->
  confined E d0 d ->
  confined E d0 (set_documentAuditLogs (documentAuditLogs d ++ [a]) d).
Proof.
  intros Ha (Hr & Hf & Hs & Hl). repeat split; auto. simpl.
  etransitivity; [eassumption|]. now apply appends_one.
Qed.

Lemma confined_signature s d :
  (exists f, In f (fields d0) /\ Field.envelopeId f = E /\
             Signature.fieldId s = Field.id f) ->
  confined E d0 d ->
  confined E d0 (set_signatures (signatures d ++ [s]) d).
Proof.
  intros Ha (Hr & Hf & Hs & Hl). repeat split; auto. simpl.
  etransitivity; [eassumption|]. now apply appends_one.
Qed.

Lemma autoSignField_confined md d seen f rc :
  confined E d0 d ->
  In f (fields d) -> autoSignWhere E f = true ->
  from_envelope_fields E d0 seen ->
  keeps (confined E d0) (autoSignField E md seen (f, rc))
        (from_envelope_fields E d0).
Proof.
  intros Hd Hin Hw Hseen.
  apply autoSignWhere_spec in Hw as (He & _).
  pose proof field_key_found as K. specialize (K _ _ Hd Hin He).
  destruct K as (Hk & f0 & Hf0 & He0 & Hi0 & Hr0).
  unfold autoSignField.
  eapply keeps_bind with (Q1 := anything).
  { apply keeps_when. intros _. apply keeps_signature_create.
    intros d1 Hd1. apply confined_signature; auto.
    exists f0. simpl. auto. }
  intros _ _. eapply keeps_bind with (Q1 := anything).
  { apply keeps_field_update. intros d1 Hd1.
    now apply confined_update_field. }
  intros _ _. eapply keeps_bind with (Q1 := anything).
  { apply keeps_documentAuditLog_create. intros d1 Hd1.
    now apply confined_log. }
  intros _ _. apply keeps_ret.
  intros rid Hrid. apply In_set_add in Hrid as [->|Hrid]; eauto.
Qed.

Lemma markSigned_confined k :
  recipient_key_of_envelope E d0 k ->
  keeps (confined E d0) (markSigned k) anything.
Proof.
  intros Hk. unfold markSigned. repeat keeps_step.
  apply confined_update_recipient; auto.
Qed.

Lemma resolveAutoSign_complete_confined rm :
  keeps (confined E d0) (resolveAutoSign_complete E rm) anything.
Proof.
  unfold resolveAutoSign_complete.
  keeps_step. keeps_step. keeps_step.
  eapply keeps_bind with (Q1 := from_envelope_fields E d0).
  { apply keeps_foldM.
    - intros rid [].
    - intros seen [f rc] Hseen Hin.
      apply in_flat_map in Hin as (f' & Hf' & Hin).
      destruct (find _ _); [|contradiction].
      destruct Hin as [Heq|[]]. inversion Heq; subst.
      apply filter_In in Hf' as [Hf' Hw].
      eapply autoSignField_confined; eauto. }
  intros ids Hids. apply keeps_forEach. intros rid Hrid.
  destruct (Hids rid Hrid) as (f0 & Hf0 & He0 & Hr0).
  pose proof recipient_key_of_field as Hk. specialize (Hk _ Hf0 He0).
  rewrite Hr0 in Hk.
  unfold completeAutoSigned_complete.
  repeat first [ now apply markSigned_confined | keeps_step ].
  now apply confined_log.
Qed.

Lemma completeFor_confined o e rcp :
  Envelope.id e = E ->
  In rcp (recipients d0) -> Recipient.envelopeId rcp = E ->
  keeps (confined E d0) (completeFor o e rcp) anything.
Proof.
  intros He Hin Hre.
  assert (Hk : recipient_key_of_envelope E d0 (Recipient.id rcp))
    by (eapply recipient_key_found; eauto using confined_refl).
  unfold completeFor, checkAccessAuth, completionTransaction, advance,
    advanceTransaction, sealIfAllSigned, signedWebhook, sealJob,
    envelope_findFirstOrThrow.
  rewrite He.
  repeat first
    [ now apply markSigned_confined
    | now apply resolveAutoSign_complete_confined
    | keeps_step ];
    try (apply confined_log; auto; simpl; congruence).
  (* the recipient advanced to *)
  match goal with
  | Hl : orderBySigningOrderThenId (filter _ (recipients ?d1)) = ?n :: _,
    Hc : confined E d0 ?d1 |- _ =>
      assert (Hn : In n (recipients d1) /\ Recipient.envelopeId n = E)
  end.
  { assert (Hn : In t (orderBySigningOrderThenId
                         (filter (pendingWhere E) (recipients x))))
      by (rewrite Heql; now left).
    unfold orderBySigningOrderThenId in Hn.
    apply In_sort_by, filter_In in Hn as [Hn Hp]. split; auto.
    unfold pendingWhere in Hp.
    apply andb_true_iff in Hp as [Hp _].
    apply andb_true_iff in Hp as [Hp _].
    now apply String.eqb_eq in Hp. }
  destruct Hn as [Hn Hne].
  apply confined_update_recipient; auto.
  eapply recipient_key_found; [exact H | exact Hn | exact Hne].
Qed.
End Confinement.

Section EnvelopeUntouched.
Context `{Collab : Collaborators}.

(** C10. [completeDocumentWithToken] never writes an envelope: on every
    run, wherever it stops, the envelope and envelope-item tables are
    what they were, and a completion that returns leaves the envelope it
    was about PENDING, whatever it did to the recipients. In a store
    whose ids are keys, what it writes is confined to that envelope:
    recipients and fields of other envelopes are as they were, new
    signatures belong to fields of the envelope and new audit entries
    carry its id. *)
Theorem completion_never_writes_the_envelope (o : CO.t) (w : World)
    (r : Result unit) (w' : World) :
  completeDocumentWithToken o w = (r, w') ->
  envelopes (db w') = envelopes (db w) /\
  envelopeItems (db w') = envelopeItems (db w) /\
  (r = Ok tt ->
   exists e, find (envelopeByToken o (db w)) (envelopes (db w')) = Some e /\
             Envelope.status e = PENDING) /\
  (well_keyed (db w) ->
   forall e, find (envelopeByToken o (db w)) (envelopes (db w)) = Some e ->
             confined (Envelope.id e) (db w) (db w')).
Proof.
  intros H.
  pose proof (complete_keeps_envelope_tables _ _ H) as [(He & Hi & _) _].
  split; [congruence|]. split; [congruence|].
  rewrite complete_as_guards_then_body in H.
  apply bind_inv in H as [([e rcp] & w1 & H1 & H2) | (ex & H1 & ->)].
  - apply guards_inv in H1 as [Q Hadm]. simpl in H2.
    destruct Hadm as (Hfind & Hst & (rs & Hrs) & _).
    split.
    + intros _. exists e. rewrite <- He. auto.
    + intros WK e' Hfind'. rewrite Hfind in Hfind'.
      inversion Hfind'; subst e'.
      assert (Hin : In rcp (recipientsByToken o (db w) e))
        by (rewrite Hrs; now left).
      unfold recipientsByToken, recipientsOf in Hin.
      apply filter_In in Hin as [Hin _].
      apply filter_In in Hin as [Hin Hre].
      apply String.eqb_eq in Hre.
      assert (Hd : db w1 = db w) by apply Q.
      pose proof (@completeFor_confined _ (Envelope.id e) (db w) WK o e rcp
                    eq_refl Hin Hre) as K.
      apply (K w1 r w'); auto. rewrite Hd. apply confined_refl.
  - apply guards_inv in H1 as [Q _]. split; [discriminate|].
    intros _ e _. destruct Q as [(Hd & _) _]. rewrite Hd.
    apply confined_refl.
Qed.
End EnvelopeUntouched.

Lemma sample_presigned_well_keyed : well_keyed (db sample_presigned).
Proof.
  repeat split.
  - simpl. repeat constructor; simpl; intuition discriminate.
  - simpl. repeat constructor; simpl; intuition.
  - intros f r [<-|[]] [<-|[<-|[]]] _; reflexivity.
Qed.

Lemma completion_never_writes_the_envelope_witness :
  envelopes
    (db (snd (@completeDocumentWithToken Sample.collaborators
                (Sample.complete "a") sample_presigned)))
  = envelopes (db sample_presigned) /\
  envelopeItems
    (db (snd (@completeDocumentWithToken Sample.collaborators
                (Sample.complete "a") sample_presigned)))
  = envelopeItems (db sample_presigned) /\
  (exists e,
     find (@envelopeByToken Sample.collaborators (Sample.complete "a")
             (db sample_presigned))
          (envelopes
             (db (snd (@completeDocumentWithToken Sample.collaborators
                         (Sample.complete "a") sample_presigned))))
     = Some e /\ Envelope.status e = PENDING) /\
  confined "env_1" (db sample_presigned)
    (db (snd (@completeDocumentWithToken Sample.collaborators
                (Sample.complete "a") sample_presigned))).
Proof.
  destruct (@completion_never_writes_the_envelope Sample.collaborators
              (Sample.complete "a") sample_presigned
              (fst (@completeDocumentWithToken Sample.collaborators
                      (Sample.complete "a") sample_presigned))
              (snd (@completeDocumentWithToken Sample.collaborators
                      (Sample.complete "a") sample_presigned)))
    as (He & Hi & Hok & Hconf).
  - apply surjective_pairing.
  - split; [exact He|]. split; [exact Hi|]. split.
    + apply Hok. vm_compute. reflexivity.
    + apply (Hconf sample_presigned_well_keyed
                   (Sample.envelope PENDING PARALLEL)).
      vm_compute. reflexivity.
Defined.

(* ================================================================= *)
(** ** REJECTED recipients                                             *)
(* ================================================================= *)


Section RejectedStays.
Context `{Collab : Collaborators}.
Variable d0 : Db.




















End RejectedStays.

Section RejectedTerminal.
Context `{Collab : Collaborators}.



End RejectedTerminal.




(* ================================================================= *)
(** ** Further properties of [sendDocument]                            *)
(* ================================================================= *)

Section SendGuards.
Context `{Collab : Collaborators}.

Lemma sort_by_nil_iff {A} (leb : A -> A -> bool) l :
  sort_by leb l = [] <-> l = [].
Proof.
  split; [|intros ->; reflexivity].
  intros H. apply (f_equal (@List.length A)) in H.
  rewrite length_sort_by in H. destruct l; [reflexivity|discriminate].
Qed.

Lemma sendDocumentFor_refuses block o e rs items msg w :
  (rs = [] /\ msg = Document_has_no_recipients) \/
  (rs <> [] /\ Envelope.status e = COMPLETED /\
   msg = Can_not_send_completed_document) \/
  (rs <> [] /\ Envelope.status e <> COMPLETED /\ items = [] /\
   msg = Missing_envelope_items) ->
  sendDocumentFor block o e rs items w = (Throw (Error msg), w).
Proof.
  unfold sendDocumentFor.
  intros [(-> & ->) | [(Hr & Hs & ->) | (Hr & Hs & -> & ->)]].
  - reflexivity.
  - destruct rs as [|r rs]; [congruence|]. rewrite Hs. reflexivity.
  - destruct rs as [|r rs]; [congruence|].
    destruct (Envelope.status e); try congruence; reflexivity.
Qed.

(** X1. [sendDocument] refuses an envelope it does not find, one without
    recipients, a COMPLETED one and one without items, in this order,
    each with its own message; whatever happens to its collaborators the
    call then fails and neither the store nor the outbox has changed. *)
Theorem sendDocument_refusals (o : SO.t) (w : World) (msg : ErrorMessage) :
  send_refusal o (db w) msg ->
  exists ex w',
    sendDocument o w = (Throw ex, w') /\
    same_store w w' /\
    (faultIn w = None -> w' = w /\ ex = Error msg).
Proof.
  intros Hr. unfold sendDocument, sendDocumentWith.
  unfold bind at 1. destruct (await w) as [[u|ex] w1] eqn:Ha.
  2:{ apply await_inv in Ha as (Q & [?|[E F]] & N); [discriminate|].
      exists ex, w1. split; [reflexivity|]. split; [exact Q|].
      intros F'. rewrite F' in F. discriminate. }
  apply await_inv in Ha as (Q1 & _ & N1).
  unfold bind at 1.
  destruct (envelope_findFirst _ _ w1) as [[found|ex] w2] eqn:Hf;
    unfold envelope_findFirst in Hf.
  2:{ apply read_throw in Hf as ((Q2 & _) & -> & F).
      exists Rejected, w2. split; [reflexivity|].
      split; [eapply same_store_trans; eauto|].
      intros F'. destruct (N1 F') as [_ ->]. contradiction. }
  apply read_ok in Hf as ((Q2 & N2) & ->).
  assert (Q : same_store w w2) by (eapply same_store_trans; eauto).
  assert (N : faultIn w = None -> w2 = w).
  { intros F. destruct (N1 F) as [_ ->]. auto. }
  assert (Hd : db w1 = db w) by apply Q1. rewrite Hd.
  assert (Hrun :
    match find (envelopeWhereInput o) (envelopes (db w)) with
    | Some e =>
        sendDocumentFor recipientsToNotify_of o e
          (fst (sendInclude (db w) e)) (snd (sendInclude (db w) e)) w2
    | None => throw (Error Document_not_found) w2
    end = (Throw (Error msg), w2)).
  { inversion Hr as [Hn | e Hs Hrs | e Hs Hrs Hst | e Hs Hrs Hst Hit];
      subst; rewrite ?Hn, ?Hs; [reflexivity| | |];
      apply sendDocumentFor_refuses; simpl;
      unfold orderBySigningOrderThenId; rewrite sort_by_nil_iff; auto.
    right. right. auto. }
  exists (Error msg), w2. split.
  - destruct (find _ _) as [e|]; simpl in *; exact Hrun.
  - split; auto.
Qed.
End SendGuards.

Lemma sendDocument_refusals_witness :
  exists ex w',
    @sendDocument Sample.collaborators Sample.send
      (Sample.world
         (Sample.store (Sample.envelope COMPLETED PARALLEL)
            [Sample.recipient 1 "a" SIGNER 1 SIGNED SENT] []) None)
    = (Throw ex, w') /\
    w' = Sample.world
           (Sample.store (Sample.envelope COMPLETED PARALLEL)
              [Sample.recipient 1 "a" SIGNER 1 SIGNED SENT] []) None /\
    ex = Error Can_not_send_completed_document.
Proof.
  destruct (@sendDocument_refusals Sample.collaborators Sample.send
              (Sample.world
                 (Sample.store (Sample.envelope COMPLETED PARALLEL)
                    [Sample.recipient 1 "a" SIGNER 1 SIGNED SENT] []) None)
              Can_not_send_completed_document)
    as (ex & w' & Hrun & _ & Hq).
  - apply (@sr_completed Sample.collaborators _ _
             (Sample.envelope COMPLETED PARALLEL));
      [reflexivity | simpl; discriminate | reflexivity].
  - exists ex, w'. split; [exact Hrun|]. apply Hq. reflexivity.
Defined.

Section SendRuns.
Context `{Collab : Collaborators}.

Lemma transaction_ok_inv {A} (body : M A) w a w' :
  transaction body w = (Ok a, w') ->
  exists w1, body w = (Ok a, w1) /\ same_store w1 w'.
Proof.
  unfold transaction. destruct (body w) as [[x|ex] w1]; [|discriminate].
  destruct (await w1) as [[u|ex] w2] eqn:Ha; [|discriminate].
  intros H. inversion H; subst. exists w1. split; auto.
  now apply await_inv in Ha.
Qed.

Lemma notifyRecipients_ok_inv o legacyDocumentId l :
  forall w w',
    notifyRecipients o legacyDocumentId l w = (Ok tt, w') ->
    db w' = db w /\
    outbox w' =
      (outbox w ++
       map (fun r =>
              TriggerJob send_signing_requested_email
                {| jp_userId := Some (SO.userId o);
                   jp_documentId := legacyDocumentId;
                   jp_recipientId := Some (Recipient.id r);
                   jp_requestMetadata :=
                     Some (api_requestMetadata (SO.requestMetadata o)) |})
           (filter (fun r =>
                      negb (SendStatus_beq (Recipient.sendStatus r) SENT
                            || is_cc r)) l))%list.
Proof.
  unfold notifyRecipients.
  induction l as [|r l IH]; intros w w' H; simpl in *.
  - inversion H; subst. now rewrite app_nil_r.
  - apply bind_inv in H as [([] & w1 & H1 & H2) | (ex & _ & ?)];
      [|discriminate].
    apply IH in H2 as [Hd Ho].
    destruct (SendStatus_beq (Recipient.sendStatus r) SENT || is_cc r);
      simpl.
    + inversion H1; subst. auto.
    + unfold triggerJob in H1.
      apply bind_inv in H1 as [([] & w2 & H3 & H4) | (ex & _ & ?)];
        [|discriminate].
      apply await_inv in H3 as ((Hd2 & Ho2 & _) & _).
      inversion H4; subst; simpl in *.
      split; [congruence|].
      rewrite Ho, Ho2, <- app_assoc. reflexivity.
Qed.

Lemma injectFormValues_frame e items :
  respects (on_db eq any eq eq eq eq) eq
           (forEach items (injectFormValuesIntoDocument e)).
Proof. frame_walk; db_obligation; exact I. Qed.

Lemma sendTransaction_silent e rs rm :
  respects any eq (sendTransaction e rs rm).
Proof. frame_walk; exact I. Qed.

(** A send that returns after notifying: the guards passed, form values
    went into the items, the transaction committed, and the dispatch
    followed. *)
Lemma sendDocumentFor_ok_inv block o e rs items w x w' :
  sendDocumentFor block o e rs items w = (Ok x, w') ->
  forallb (fun r => is_cc r || is_signed r) rs = false ->
  exists w0 w1,
    on_db eq any eq eq eq eq (db w) (db w0) /\ outbox w0 = outbox w /\
    transaction (sendTransaction e rs (SO.requestMetadata o)) w0
    = (Ok x, w1) /\
    db w' = db w1 /\
    outbox w' =
      (outbox w
       ++ map (signingRequestedBySend o e)
              (if sendEmailEnabled o e
               then filter (fun r =>
                              negb (SendStatus_beq (Recipient.sendStatus r)
                                                   SENT || is_cc r))
                           (block (signingOrderOrParallel e) rs)
               else [])
       ++ [TriggerWebhook WH_DOCUMENT_SENT (fst x) (snd x) (SO.userId o)
             (Some (SO.teamId o))])%list.
Proof.
  intros H Hall. unfold sendDocumentFor in H. rewrite Hall in H.
  apply bind_inv in H as [([] & w1 & H1 & H) | (ex & _ & ?)]; [|discriminate].
  assert (w1 = w) as ->.
  { unfold throwIf in H1. destruct (Nat.eqb _ _); inversion H1; auto. }
  apply bind_inv in H as [([] & w1 & H2 & H) | (ex & _ & ?)]; [|discriminate].
  assert (w1 = w) as ->.
  { unfold throwIf in H2. destruct (isDocumentCompleted _); inversion H2; auto. }
  apply bind_inv in H as [([] & w1 & H3 & H) | (ex & _ & ?)]; [|discriminate].
  assert (w1 = w) as ->.
  { unfold throwIf in H3. destruct (Nat.eqb _ _); inversion H3; auto. }
  apply bind_inv in H as [([] & w0 & H4 & H) | (ex & _ & ?)]; [|discriminate].
  assert (F0 : on_db eq any eq eq eq eq (db w) (db w0) /\
               outbox w = outbox w0).
  { unfold when in H4. destruct (Envelope.formValues e).
    - apply injectFormValues_frame in H4. exact H4.
    - inversion H4; subst. split; [db_obligation; exact I | reflexivity]. }
  destruct F0 as [Fd Fo].
  apply bind_inv in H as [(y & w1 & H5 & H) | (ex & _ & ?)]; [|discriminate].
  pose proof (respects_transaction (sendTransaction_silent _ _ _) _ H5)
    as [_ Ho1].
  apply bind_inv in H as [([] & w2 & H6 & H) | (ex & _ & ?)]; [|discriminate].
  apply bind_inv in H as [([] & w3 & H7 & H) | (ex & _ & ?)]; [|discriminate].
  inversion H; subst; clear H.
  unfold triggerWebhook in H7.
  apply bind_inv in H7 as [([] & w4 & H8 & H9) | (ex & _ & ?)];
    [|discriminate].
  apply await_inv in H8 as ((Hd4 & Ho4 & _) & _).
  inversion H9; subst; clear H9. simpl.
  assert (N : db w2 = db w1 /\
              outbox w2 =
              (outbox w1 ++
               map (signingRequestedBySend o e)
                 (if sendEmailEnabled o e
                  then filter (fun r =>
                                 negb (SendStatus_beq
                                         (Recipient.sendStatus r) SENT
                                       || is_cc r))
                              (block (signingOrderOrParallel e) rs)
                  else []))%list).
  { unfold when in H6. unfold sendEmailEnabled.
    destruct (match SO.sendEmail o with Some b => b | None => _ end).
    - apply notifyRecipients_ok_inv in H6. exact H6.
    - inversion H6; subst. simpl. now rewrite app_nil_r. }
  destruct N as [Nd No].
  exists w0, w1.
  split; [exact Fd|]. split; [auto|]. split; [exact H5|].
  split; [simpl; congruence|].
  rewrite Ho4, No, <- Ho1, <- Fo, <- app_assoc. reflexivity.
Qed.

Lemma sendDocument_inv o w r w' :
  sendDocument o w = (r, w') ->
  (same_store w w' /\
   (r = Throw Rejected \/
    r = Throw (Error Document_not_found) /\
    find (envelopeWhereInput o) (envelopes (db w)) = None)) \/
  exists e w0,
    find (envelopeWhereInput o) (envelopes (db w)) = Some e /\
    same_store w w0 /\
    sendDocumentFor recipientsToNotify_of o e
      (orderBySigningOrderThenId (recipientsOf (db w) (Envelope.id e)))
      (itemsOf (db w) (Envelope.id e)) w0 = (r, w').
Proof.
  intros H. unfold sendDocument, sendDocumentWith in H.
  apply bind_inv in H as [([] & w1 & H1 & H) | (ex & H1 & ->)].
  2:{ apply await_quiet in H1 as [[Q _] [?|[E _]]]; [discriminate|].
      inversion E; subst. left. split; auto. }
  apply await_inv in H1 as (Q1 & _).
  apply bind_inv in H as [(found & w2 & H2 & H) | (ex & H2 & ->)];
    unfold envelope_findFirst in H2.
  2:{ apply read_throw in H2 as ((Q2 & _) & -> & _).
      left. split; [eapply same_store_trans; eauto | auto]. }
  apply read_ok in H2 as ((Q2 & _) & ->).
  assert (Q : same_store w w2) by (eapply same_store_trans; eauto).
  assert (Hd : db w1 = db w) by apply Q1. rewrite Hd in H.
  destruct (find _ _) as [e|] eqn:Hf.
  - right. exists e, w2. auto.
  - left. inversion H; subst. auto.
Qed.
End SendRuns.

Section SendEffects.
Context `{Collab : Collaborators}.

Lemma documentAuditLog_create_ok_inv a w w' :
  documentAuditLog_create a w = (Ok tt, w') ->
  db w' = set_documentAuditLogs (documentAuditLogs (db w) ++ [a]) (db w) /\
  outbox w' = outbox w.
Proof.
  unfold documentAuditLog_create. intros H.
  apply bind_inv in H as [([] & w1 & H1 & H2) | (ex & _ & ?)];
    [|discriminate].
  apply await_inv in H1 as ((Hd & Ho & _) & _).
  inversion H2; subst; simpl. now rewrite Hd, Ho.
Qed.

Lemma envelope_update_ok_inv id f w w' :
  envelope_update id f w = (Ok tt, w') ->
  db w' =
    set_envelopes
      (update_where (fun e => String.eqb (Envelope.id e) id) f
                    (envelopes (db w))) (db w) /\
  outbox w' = outbox w.
Proof.
  unfold envelope_update. intros H.
  apply bind_inv in H as [([] & w1 & H1 & H2) | (ex & _ & ?)];
    [|discriminate].
  apply await_inv in H1 as ((Hd & Ho & _) & _).
  rewrite bind_getDb in H2.
  destruct (existsb _ _); [|discriminate].
  inversion H2; subst; simpl. now rewrite Hd, Ho.
Qed.

Lemma resolveAutoSign_send_envelopes envelopeId rm snapshot :
  respects (on_db eq eq any any any (appends system_entry)) any
           (resolveAutoSign_send envelopeId rm snapshot).
Proof.
  frame_walk; db_obligation;
    try exact I; try (apply appends_one; unfold system_entry; simpl; auto).
Qed.

(** What the committed send transaction has written. *)
Lemma sendTransaction_ok_inv e rs rm w x w' :
  sendTransaction e rs rm w = (Ok x, w') ->
  envelopes (db w') =
    update_where (hasId (Envelope.id e)) (Envelope.with_status PENDING)
                 (envelopes (db w)) /\
  envelopeItems (db w') = envelopeItems (db w) /\
  (exists system,
      documentAuditLogs (db w') =
        (documentAuditLogs (db w) ++ system
         ++ if DocumentStatus_beq (Envelope.status e) DRAFT
            then [documentSentLog e rm] else [])%list /\
      Forall system_entry system) /\
  find (hasId (Envelope.id e)) (envelopes (db w')) = Some (fst x) /\
  snd x = recipientsOf (db w') (Envelope.id (fst x)).
Proof.
  intros H. unfold sendTransaction in H.
  apply bind_inv in H as [([] & w1 & H1 & H) | (ex & _ & ?)]; [|discriminate].
  apply resolveAutoSign_send_envelopes in H1
    as [(He1 & Hi1 & _ & _ & _ & (system & Hl1 & Hs1)) _].
  apply bind_inv in H as [([] & w2 & H2 & H) | (ex & _ & ?)]; [|discriminate].
  assert (L2 : envelopes (db w2) = envelopes (db w1) /\
               envelopeItems (db w2) = envelopeItems (db w1) /\
               documentAuditLogs (db w2) =
               (documentAuditLogs (db w1)
                ++ if DocumentStatus_beq (Envelope.status e) DRAFT
                   then [documentSentLog e rm] else [])%list).
  { unfold when in H2. destruct (DocumentStatus_beq _ _).
    - apply documentAuditLog_create_ok_inv in H2 as [-> _]. simpl. auto.
    - inversion H2; subst. now rewrite app_nil_r. }
  destruct L2 as (He2 & Hi2 & Hl2).
  unfold envelope_update_returning in H.
  apply bind_inv in H as [([] & w3 & H3 & H) | (ex & _ & ?)]; [|discriminate].
  apply envelope_update_ok_inv in H3 as [Hd3 _].
  rewrite bind_getDb in H.
  assert (He3 : envelopes (db w3) =
                update_where (hasId (Envelope.id e))
                  (Envelope.with_status PENDING) (envelopes (db w)))
    by (rewrite Hd3; simpl; rewrite He2; unfold hasId; congruence).
  fold (hasId (Envelope.id e)) in H.
  destruct (find (hasId (Envelope.id e)) (envelopes (db w3))) as [e'|] eqn:Hf;
    [|discriminate].
  inversion H; subst; clear H. simpl.
  split; [exact He3|].
  split; [rewrite Hd3; simpl; congruence|].
  split; [|split; auto].
  exists system. split; auto.
  rewrite Hd3; simpl. rewrite Hl2, Hl1, <- app_assoc. reflexivity.
Qed.

Lemma find_update_where_status id (l : list Envelope.t) e' :
  find (hasId id) (update_where (hasId id) (Envelope.with_status PENDING) l)
  = Some e' ->
  Envelope.status e' = PENDING /\ Envelope.id e' = id.
Proof.
  induction l as [|e l IH]; simpl; [discriminate|].
  destruct (hasId id e) eqn:E.
  - unfold hasId in *. simpl. rewrite E. intros H. inversion H; subst.
    simpl. split; auto. now apply String.eqb_eq in E.
  - rewrite E. exact IH.
Qed.

Lemma sendDocumentFor_done_inv block o e rs items w x w' :
  sendDocumentFor block o e rs items w = (Ok x, w') ->
  forallb (fun r => is_cc r || is_signed r) rs = true ->
  on_db eq any eq eq eq eq (db w) (db w') /\
  outbox w' = (outbox w ++ [sealJobOf o e])%list.
Proof.
  intros H Hall. unfold sendDocumentFor in H. rewrite Hall in H.
  apply bind_inv in H as [([] & w1 & H1 & H) | (ex & _ & ?)]; [|discriminate].
  assert (w1 = w) as ->.
  { unfold throwIf in H1. destruct (Nat.eqb _ _); inversion H1; auto. }
  apply bind_inv in H as [([] & w1 & H2 & H) | (ex & _ & ?)]; [|discriminate].
  assert (w1 = w) as ->.
  { unfold throwIf in H2. destruct (isDocumentCompleted _); inversion H2; auto. }
  apply bind_inv in H as [([] & w1 & H3 & H) | (ex & _ & ?)]; [|discriminate].
  assert (w1 = w) as ->.
  { unfold throwIf in H3. destruct (Nat.eqb _ _); inversion H3; auto. }
  apply bind_inv in H as [([] & w1 & H4 & H) | (ex & _ & ?)]; [|discriminate].
  assert (F0 : on_db eq any eq eq eq eq (db w) (db w1) /\
               outbox w = outbox w1).
  { unfold when in H4. destruct (Envelope.formValues e).
    - apply injectFormValues_frame in H4. exact H4.
    - inversion H4; subst. split; [db_obligation; exact I | reflexivity]. }
  destruct F0 as [Fd Fo].
  apply bind_inv in H as [([] & w2 & H5 & H) | (ex & _ & ?)]; [|discriminate].
  unfold sealJob, triggerJob in H5.
  apply bind_inv in H5 as [([] & w3 & H6 & H7) | (ex & _ & ?)];
    [|discriminate].
  apply await_inv in H6 as ((Hd3 & Ho3 & _) & _).
  inversion H7; subst; clear H7.
  apply (respects_envelope_findFirstOrThrow (Rd:=eq) (Ro:=eq)) in H.
  destruct H as [Hd Ho]. simpl in Hd, Ho.
  split.
  - rewrite <- Hd, Hd3. exact Fd.
  - rewrite <- Ho, Ho3, <- Fo. reflexivity.
Qed.

(** X2. What a returning [sendDocument] has dispatched, exactly: when no
    recipient has anything left to do, the seal-document job and nothing
    else; otherwise one signing-requested job for each recipient to
    notify that is neither SENT nor CC, in signing order (none when
    e-mails are disabled), then the DOCUMENT_SENT webhook with the
    envelope returned. Under SEQUENTIAL order that is at most one
    job. *)
Theorem sendDocument_dispatch (o : SO.t) (w : World)
    (x : Envelope.t * list Recipient.t) (w' : World) :
  sendDocument o w = (Ok x, w') ->
  exists e,
    find (envelopeWhereInput o) (envelopes (db w)) = Some e /\
    let rs :=
      orderBySigningOrderThenId (recipientsOf (db w) (Envelope.id e)) in
    outbox w' =
      (outbox w ++
       if forallb (fun r => is_cc r || is_signed r) rs
       then [sealJobOf o e]
       else map (signingRequestedBySend o e) (askedToSign o e rs)
            ++ [TriggerWebhook WH_DOCUMENT_SENT (fst x) (snd x)
                  (SO.userId o) (Some (SO.teamId o))])%list /\
    (signingOrderOf e = Some SEQUENTIAL ->
     (List.length (askedToSign o e rs) <= 1)%nat).
Proof.
  intros H.
  apply sendDocument_inv in H as [(_ & [?|[? _]]) | (e & w0 & Hf & Q & H)];
    try discriminate.
  exists e. split; [exact Hf|]. intros rs. split.
  - destruct (forallb _ rs) eqn:Hall.
    + apply sendDocumentFor_done_inv in H as [_ Ho]; auto.
      rewrite Ho. destruct Q as (_ & -> & _). reflexivity.
    + apply sendDocumentFor_ok_inv in H as (w1 & w2 & _ & _ & _ & _ & Ho);
        auto.
      rewrite Ho. destruct Q as (_ & -> & _). reflexivity.
  - intros Hs. unfold askedToSign, signingOrderOrParallel. rewrite Hs.
    destruct (sendEmailEnabled o e); simpl; [|lia].
    etransitivity; [apply filter_length_le|].
    unfold recipientsToNotify_of. cbv zeta.
    destruct (filter _ rs); simpl; lia.
Qed.
End SendEffects.

Lemma sendDocument_dispatch_witness :
  exists x,
    fst (@sendDocument Sample.collaborators Sample.send sample_draft) = Ok x /\
    exists e,
      find (@envelopeWhereInput Sample.collaborators Sample.send)
           (envelopes (db sample_draft)) = Some e /\
      let rs :=
        orderBySigningOrderThenId
          (recipientsOf (db sample_draft) (Envelope.id e)) in
      outbox (snd (@sendDocument Sample.collaborators Sample.send
                     sample_draft)) =
        (outbox sample_draft ++
         if forallb (fun r => is_cc r || is_signed r) rs
         then [@sealJobOf Sample.collaborators Sample.send e]
         else map (@signingRequestedBySend Sample.collaborators
                     Sample.send e)
                  (@askedToSign Sample.collaborators Sample.send e rs)
              ++ [TriggerWebhook WH_DOCUMENT_SENT (fst x) (snd x)
                    (SO.userId Sample.send)
                    (Some (SO.teamId Sample.send))])%list /\
      (signingOrderOf e = Some SEQUENTIAL ->
       (List.length (@askedToSign Sample.collaborators Sample.send e rs)
        <= 1)%nat).
Proof.
  eexists. split; [vm_compute; reflexivity|].
  apply (@sendDocument_dispatch Sample.collaborators Sample.send
           sample_draft).
  vm_compute. reflexivity.
Defined.

Section SendStore.
Context `{Collab : Collaborators}.

(** X3. A [sendDocument] that returns after notifying has left the
    envelope PENDING - every row with its id, and no other row of the
    table - and returns that envelope; to the audit log it has added the
    entries of auto-signing and then, for a DRAFT only, one
    DOCUMENT_SENT entry: re-sending a PENDING envelope logs no
    DOCUMENT_SENT. *)
Theorem sendDocument_marks_pending (o : SO.t) (w : World)
    (x : Envelope.t * list Recipient.t) (w' : World) (e : Envelope.t) :
  sendDocument o w = (Ok x, w') ->
  find (envelopeWhereInput o) (envelopes (db w)) = Some e ->
  forallb (fun r => is_cc r || is_signed r)
          (recipientsOf (db w) (Envelope.id e)) = false ->
  Envelope.status (fst x) = PENDING /\
  Envelope.id (fst x) = Envelope.id e /\
  envelopes (db w') =
    update_where (hasId (Envelope.id e)) (Envelope.with_status PENDING)
                 (envelopes (db w)) /\
  exists system,
    documentAuditLogs (db w') =
      (documentAuditLogs (db w) ++ system
       ++ if DocumentStatus_beq (Envelope.status e) DRAFT
          then [documentSentLog e (SO.requestMetadata o)] else [])%list /\
    Forall system_entry system.
Proof.
  intros H Hf Hall.
  apply sendDocument_inv in H as [(_ & [?|[? _]]) | (e' & w0 & Hf' & Q & H)];
    try discriminate.
  rewrite Hf in Hf'. inversion Hf'; subst e'; clear Hf'.
  apply sendDocumentFor_ok_inv in H as (w1 & w2 & Fd & _ & Ht & Hd & _).
  2:{ unfold orderBySigningOrderThenId. now rewrite forallb_sort_by. }
  apply transaction_ok_inv in Ht as (w3 & Ht & Q3).
  apply sendTransaction_ok_inv in Ht as (He & _ & (system & Hl & Hs) & Hx & _).
  destruct Q as (Qd & _). destruct Q3 as (Q3d & _).
  destruct Fd as (Fe & _ & _ & _ & _ & Fl). rewrite Qd in Fe, Fl.
  rewrite Hd, Q3d.
  assert (Hx' := Hx). rewrite He in Hx'.
  apply find_update_where_status in Hx' as [Hst Hid].
  repeat split; auto.
  - rewrite He. congruence.
  - exists system. split; auto. rewrite Hl. congruence.
Qed.

Lemma sendDocumentFor_done_frame block o e rs items :
  forallb (fun r => is_cc r || is_signed r) rs = true ->
  respects (on_db eq any eq eq eq eq) any
           (sendDocumentFor block o e rs items).
Proof.
  intros Ha. frame_walk; db_obligation; try exact I; try congruence.
Qed.

Lemma sendDocumentFor_inv block o e rs items w r w' :
  sendDocumentFor block o e rs items w = (r, w') ->
  on_db eq any eq eq eq eq (db w) (db w') \/
  exists w0 x w1,
    on_db eq any eq eq eq eq (db w) (db w0) /\
    transaction (sendTransaction e rs (SO.requestMetadata o)) w0
    = (Ok x, w1) /\
    db w' = db w1.
Proof.
  intros H. destruct (forallb (fun r => is_cc r || is_signed r) rs) eqn:Hall.
  { left. eapply sendDocumentFor_done_frame in H; [apply H | exact Hall]. }
  unfold sendDocumentFor in H. rewrite Hall in H.
  apply bind_inv in H as [([] & w1 & H1 & H) | (ex & H1 & ->)].
  2:{ unfold throwIf in H1. destruct (Nat.eqb _ _); inversion H1; subst.
      left. db_obligation; exact I. }
  assert (w1 = w) as ->.
  { unfold throwIf in H1. destruct (Nat.eqb _ _); inversion H1; auto. }
  apply bind_inv in H as [([] & w1 & H2 & H) | (ex & H2 & ->)].
  2:{ unfold throwIf in H2.
      destruct (isDocumentCompleted _); inversion H2; subst.
      left. db_obligation; exact I. }
  assert (w1 = w) as ->.
  { unfold throwIf in H2. destruct (isDocumentCompleted _); inversion H2; auto. }
  apply bind_inv in H as [([] & w1 & H3 & H) | (ex & H3 & ->)].
  2:{ unfold throwIf in H3. destruct (Nat.eqb _ _); inversion H3; subst.
      left. db_obligation; exact I. }
  assert (w1 = w) as ->.
  { unfold throwIf in H3. destruct (Nat.eqb _ _); inversion H3; auto. }
  assert (Fw : forall r0 w0,
             when match Envelope.formValues e with
                  | Some _ => true | None => false end
                  (forEach items (injectFormValuesIntoDocument e)) w
             = (r0, w0) ->
             on_db eq any eq eq eq eq (db w) (db w0)).
  { intros r0 w0 H4. unfold when in H4. destruct (Envelope.formValues e).
    - apply injectFormValues_frame in H4. apply H4.
    - inversion H4; subst. db_obligation; exact I. }
  apply bind_inv in H as [([] & w0 & H4 & H) | (ex & H4 & ->)].
  2:{ left. eapply Fw; eauto. }
  apply Fw in H4.
  apply bind_inv in H as [(x & w1 & H5 & H) | (ex & H5 & ->)].
  2:{ left. apply transaction_inv in H5 as [(ex' & _ & Hd)|(a & ?)];
        [|discriminate].
      rewrite Hd. exact H4. }
  right. exists w0, x, w1. split; [exact H4|]. split; [exact H5|].
  assert (Hk : respects eq any
                 (when (match SO.sendEmail o with
                        | Some b => b
                        | None => recipientSigningRequest
                                    (Envelope.documentMeta e)
                        end)
                       (notifyRecipients o
                          (mapSecondaryIdToDocumentId (Envelope.secondaryId e))
                          (block match signingOrderOf e with
                                 | Some s => s | None => PARALLEL end rs)) ;;
                  triggerWebhook WH_DOCUMENT_SENT (fst x) (snd x)
                    (SO.userId o) (Some (SO.teamId o)) ;;
                  ret x)).
  { frame_walk; exact I. }
  apply Hk in H as [Hd _]. auto.
Qed.

(** X4. The writes of [sendDocument] are all or nothing: wherever a run
    stops, the store is the one it started from, but for form values
    injected into the items, or the one its transaction committed; a
    failure of the dispatch that follows does not undo the commit. *)
Theorem sendDocument_writes_atomically (o : SO.t) (w : World)
    (r : Result (Envelope.t * list Recipient.t)) (w' : World) :
  sendDocument o w = (r, w') ->
  on_db eq any eq eq eq eq (db w) (db w') \/
  exists e w0 x w1,
    find (envelopeWhereInput o) (envelopes (db w)) = Some e /\
    on_db eq any eq eq eq eq (db w) (db w0) /\
    transaction
      (sendTransaction e
         (orderBySigningOrderThenId (recipientsOf (db w) (Envelope.id e)))
         (SO.requestMetadata o)) w0 = (Ok x, w1) /\
    db w' = db w1.
Proof.
  intros H.
  apply sendDocument_inv in H as [(Q & _) | (e & w0 & Hf & Q & H)].
  - left. destruct Q as (-> & _). db_obligation; exact I.
  - destruct Q as (Qd & _).
    apply sendDocumentFor_inv in H as [H | (w1 & x & w2 & H1 & H2 & H3)].
    + left. now rewrite Qd in H.
    + right. exists e, w1, x, w2. rewrite Qd in H1. auto.
Qed.
End SendStore.

Lemma sendDocument_marks_pending_witness :
  exists x,
    fst (@sendDocument Sample.collaborators Sample.send sample_draft) = Ok x /\
    Envelope.status (fst x) = PENDING /\
    map Envelope.status
        (envelopes
           (db (snd (@sendDocument Sample.collaborators Sample.send
                       sample_draft)))) = [PENDING] /\
    map AuditLog.type
        (documentAuditLogs
           (db (snd (@sendDocument Sample.collaborators Sample.send
                       sample_draft)))) = [DOCUMENT_SENT].
Proof.
  eexists. split; [vm_compute; reflexivity|].
  match goal with
  | |- Envelope.status (fst ?x) = _ /\ _ =>
      destruct (@sendDocument_marks_pending Sample.collaborators Sample.send
                  sample_draft x
                  (snd (@sendDocument Sample.collaborators Sample.send
                          sample_draft))
                  (Sample.envelope DRAFT PARALLEL))
        as (Hs & _ & He & _);
        try (vm_compute; reflexivity)
  end.
  split; [exact Hs|]. rewrite He. split; vm_compute; reflexivity.
Defined.

Lemma sendDocument_writes_atomically_witness :
  on_db eq any eq eq eq eq
    (db (Sample.world (db sample_draft) (Some 4%nat)))
    (db (snd (@sendDocument Sample.collaborators Sample.send
                (Sample.world (db sample_draft) (Some 4%nat))))) \/
  exists e w0 x w1,
    find (@envelopeWhereInput Sample.collaborators Sample.send)
         (envelopes (db (Sample.world (db sample_draft) (Some 4%nat))))
    = Some e /\
    on_db eq any eq eq eq eq
      (db (Sample.world (db sample_draft) (Some 4%nat))) (db w0) /\
    transaction
      (@sendTransaction Sample.collaborators e
         (orderBySigningOrderThenId
            (recipientsOf
               (db (Sample.world (db sample_draft) (Some 4%nat)))
               (Envelope.id e)))
         (SO.requestMetadata Sample.send)) w0 = (Ok x, w1) /\
    db (snd (@sendDocument Sample.collaborators Sample.send
               (Sample.world (db sample_draft) (Some 4%nat)))) = db w1.
Proof.
  apply (@sendDocument_writes_atomically Sample.collaborators Sample.send
           (Sample.world (db sample_draft) (Some 4%nat))
           (fst (@sendDocument Sample.collaborators Sample.send
                   (Sample.world (db sample_draft) (Some 4%nat))))).
  apply surjective_pairing.
Defined.

(* ================================================================= *)
(** ** Further properties of [completeDocumentWithToken]               *)
(* ================================================================= *)

Section CompletionRuns.
Context `{Collab : Collaborators}.

Lemma admissible_unique o d e rcp e' rcp' :
  admissible o d e rcp -> admissible o d e' rcp' -> e' = e /\ rcp' = rcp.
Proof.
  intros (Hf & _ & (rs & Hr) & _) (Hf' & _ & (rs' & Hr') & _).
  rewrite Hf in Hf'. inversion Hf'; subst e'.
  rewrite Hr in Hr'. inversion Hr'; subst. auto.
Qed.

(** A run of [completeDocumentWithToken] on an admissible request is a
    run of the guards, which only read, followed by what follows them. *)
Lemma complete_admissible_inv o w e rcp r w' :
  admissible o (db w) e rcp ->
  completeDocumentWithToken o w = (r, w') ->
  (r = Throw Rejected /\ faultIn w <> None /\ same_store w w') \/
  exists w0, quiet w w0 /\ completeFor o e rcp w0 = (r, w').
Proof.
  intros Ha H. rewrite complete_as_guards_then_body in H.
  apply bind_inv in H as [([e' rcp'] & w0 & H1 & H2) | (ex & H1 & ->)].
  - apply guards_inv in H1 as [Q Ha'].
    destruct (admissible_unique Ha Ha') as [-> ->].
    right. exists w0. auto.
  - apply guards_inv in H1 as [Q [[-> F] | Hp]].
    + left. split; auto. split; auto. apply Q.
    + exfalso. eapply admissible_no_failure; eauto.
Qed.

Lemma checkAccessAuth_ok_inv o e rcp w w' :
  checkAccessAuth o e rcp w = (Ok tt, w') ->
  outbox w' = outbox w /\
  envelopes (db w') = envelopes (db w) /\
  recipients (db w') = recipients (db w) /\
  fields (db w') = fields (db w) /\
  signatures (db w') = signatures (db w) /\
  documentAuditLogs (db w') =
    (documentAuditLogs (db w) ++ validatedLog e rcp)%list.
Proof.
  unfold checkAccessAuth, validatedLog, requiresAccess2FA, when.
  destruct (existsb _ _).
  2:{ intros H. inversion H; subst. now rewrite app_nil_r. }
  destruct (CO.accessAuthOptions o) as [a|]; [|discriminate].
  intros H.
  apply bind_inv in H as [([] & w1 & H1 & H) | (ex & _ & ?)]; [|discriminate].
  apply await_inv in H1 as ((Hd & Ho & _) & _).
  rewrite bind_getDb in H.
  destruct (negb _).
  - apply bind_inv in H as [([] & w2 & _ & H) | (ex & _ & ?)]; discriminate.
  - apply documentAuditLog_create_ok_inv in H as [-> ->].
    simpl. rewrite Hd, Ho. auto 10.
Qed.

Lemma completionTransaction_ok_inv o e rcp w w' :
  transaction (completionTransaction o e rcp) w = (Ok tt, w') ->
  outbox w' = outbox w /\
  envelopes (db w') = envelopes (db w) /\
  exists system,
    documentAuditLogs (db w') =
      (documentAuditLogs (db w) ++ recipientCompletedLog o e rcp :: system)%list
    /\ Forall system_entry system.
Proof.
  intros H.
  pose proof (respects_transaction (completionTransaction_silent o e rcp) _ H)
    as [(He & _) Ho].
  split; [auto|]. split; [auto|].
  apply transaction_ok_inv in H as (w1 & H & (Qd & _)). rewrite Qd.
  unfold completionTransaction in H.
  apply bind_inv in H as [([] & w2 & H1 & H) | (ex & _ & ?)]; [|discriminate].
  apply bind_inv in H as [([] & w3 & H2 & H) | (ex & _ & ?)]; [|discriminate].
  apply markSigned_keeps_logs in H1 as [(_&_&_&_&_&L1) _].
  apply resolveAutoSign_complete_logs in H
    as [(_&_&_&_&_&(system & L3 & Hs)) _].
  apply documentAuditLog_create_ok_inv in H2 as [Hd _].
  exists system. split; auto.
  rewrite L3, Hd. simpl. rewrite <- L1, <- app_assoc. reflexivity.
Qed.

Lemma triggerJob_ok_inv name payload w w' :
  triggerJob name payload w = (Ok tt, w') ->
  db w' = db w /\ outbox w' = (outbox w ++ [TriggerJob name payload])%list.
Proof.
  unfold triggerJob. intros H.
  apply bind_inv in H as [([] & w1 & H1 & H) | (ex & _ & ?)]; [|discriminate].
  apply await_inv in H1 as ((Hd & Ho & _) & _).
  inversion H; subst; simpl. now rewrite Hd, Ho.
Qed.

Lemma recipient_update_ok_inv id f w w' :
  recipient_update id f w = (Ok tt, w') ->
  db w' =
    set_recipients
      (update_where (fun r => Recipient.id r =? id) f (recipients (db w)))
      (db w) /\
  outbox w' = outbox w.
Proof.
  unfold recipient_update. intros H.
  apply bind_inv in H as [([] & w1 & H1 & H2) | (ex & _ & ?)];
    [|discriminate].
  apply await_inv in H1 as ((Hd & Ho & _) & _).
  rewrite bind_getDb in H2.
  destruct (existsb _ _); [|discriminate].
  inversion H2; subst; simpl. now rewrite Hd, Ho.
Qed.

(** The entry of lines 774-802, when the next signer is dictated. *)
Lemma advanceTransaction_ok_inv o e lid rcp next w w' :
  transaction (advanceTransaction o e lid rcp next) w = (Ok tt, w') ->
  outbox w' = (outbox w ++ [signingRequestedJob o e lid next])%list /\
  envelopes (db w') = envelopes (db w) /\
  recipients (db w') =
    update_where (fun r => Recipient.id r =? Recipient.id next)
      (Recipient.mark_sent
         (option_map (fun s => (ns_name s, ns_email s)) (dictatedSigner o e)))
      (recipients (db w)) /\
  documentAuditLogs (db w') =
    (documentAuditLogs (db w)
     ++ match dictatedSigner o e with
        | Some s => [recipientUpdatedLog o e rcp next s]
        | None => []
        end)%list.
Proof.
  intros H. apply transaction_ok_inv in H as (w1 & H & (Qd & Qo & _)).
  rewrite Qd, Qo. unfold advanceTransaction in H.
  apply bind_inv in H as [([] & w2 & H1 & H) | (ex & _ & ?)]; [|discriminate].
  apply bind_inv in H as [([] & w3 & H2 & H) | (ex & _ & ?)]; [|discriminate].
  apply recipient_update_ok_inv in H2 as [Hd3 Ho3].
  apply triggerJob_ok_inv in H as [Hd Ho].
  assert (L : db w2 =
              set_documentAuditLogs
                (documentAuditLogs (db w)
                 ++ match dictatedSigner o e with
                    | Some s => [recipientUpdatedLog o e rcp next s]
                    | None => []
                    end) (db w) /\ outbox w2 = outbox w).
  { destruct (dictatedSigner o e).
    - now apply documentAuditLog_create_ok_inv in H1.
    - inversion H1; subst. rewrite app_nil_r. destruct (db w2); auto. }
  destruct L as [Ld Lo].
  rewrite Hd, Ho, Hd3, Ho3, Ld, Lo. simpl. auto.
Qed.

Lemma advance_ok_inv o e lid rcp w w' :
  advance o e lid rcp w = (Ok tt, w') ->
  envelopes (db w') = envelopes (db w) /\
  match pendingRecipients (db w) (Envelope.id e) with
  | [] => db w' = db w /\ outbox w' = outbox w
  | next :: _ =>
      if is_sequential (signingOrderOf e)
      then
        outbox w' =
          (outbox w ++ [SendPendingEmail (CO.id o) (Recipient.id rcp);
                        signingRequestedJob o e lid next])%list /\
        recipients (db w') =
          update_where (fun r => Recipient.id r =? Recipient.id next)
            (Recipient.mark_sent
               (option_map (fun s => (ns_name s, ns_email s))
                           (dictatedSigner o e)))
            (recipients (db w)) /\
        documentAuditLogs (db w') =
          (documentAuditLogs (db w)
           ++ match dictatedSigner o e with
              | Some s => [recipientUpdatedLog o e rcp next s]
              | None => []
              end)%list
      else
        db w' = db w /\
        outbox w' =
          (outbox w ++ [SendPendingEmail (CO.id o) (Recipient.id rcp)])%list
  end.
Proof.
  intros H. unfold advance in H.
  apply bind_inv in H as [(found & w1 & H1 & H) | (ex & _ & ?)];
    [|discriminate].
  unfold recipient_findMany in H1.
  apply read_ok in H1 as (((Hd1 & Ho1 & _) & _) & ->).
  fold (pendingRecipients (db w) (Envelope.id e)) in H.
  destruct (pendingRecipients (db w) (Envelope.id e)) as [|next rest].
  { inversion H; subst. rewrite Hd1, Ho1. auto. }
  apply bind_inv in H as [([] & w2 & H2 & H) | (ex & _ & ?)]; [|discriminate].
  unfold sendPendingEmail in H2.
  apply bind_inv in H2 as [([] & w3 & H3 & H4) | (ex & _ & ?)];
    [|discriminate].
  apply await_inv in H3 as ((Hd3 & Ho3 & _) & _).
  inversion H4; subst; clear H4. unfold when in H.
  destruct (is_sequential (signingOrderOf e)).
  - apply advanceTransaction_ok_inv in H as (Ho & He & Hr & Hl).
    simpl in *. rewrite He, Ho, Hr, Hl, Hd3, Ho3, Hd1, Ho1, <- app_assoc.
    auto.
  - inversion H; subst; simpl. rewrite Hd3, Ho3, Hd1, Ho1. auto.
Qed.

Lemma signedWebhook_ok_inv e w w' :
  signedWebhook e w = (Ok tt, w') ->
  db w' = db w /\ outbox w' = (outbox w ++ signedWebhookOf (db w) e)%list.
Proof.
  unfold signedWebhook, signedWebhookOf. intros H.
  apply bind_inv in H as [([env rs] & w1 & H1 & H) | (ex & _ & ?)];
    [|discriminate].
  unfold envelope_findFirstOrThrow in H1.
  apply bind_inv in H1 as [(found & w2 & H2 & H3) | (ex & _ & ?)];
    [|discriminate].
  unfold envelope_findFirst in H2.
  apply read_ok in H2 as (((Hd2 & Ho2 & _) & _) & ->).
  destruct (find _ (envelopes (db w))) as [env'|]; [|discriminate].
  inversion H3; subst; clear H3.
  unfold triggerWebhook in H.
  apply bind_inv in H as [([] & w3 & H4 & H5) | (ex & _ & ?)];
    [|discriminate].
  apply await_inv in H4 as ((Hd3 & Ho3 & _) & _).
  inversion H5; subst; simpl. rewrite Hd3, Ho3, Hd2, Ho2. auto.
Qed.

Lemma completeFor_ok_inv o e rcp w w' :
  completeFor o e rcp w = (Ok tt, w') ->
  exists w1 w2 w3 w4 w5,
    checkAccessAuth o e rcp w = (Ok tt, w1) /\
    transaction (completionTransaction o e rcp) w1 = (Ok tt, w2) /\
    triggerJob send_recipient_signed_email
      {| jp_userId := None;
         jp_documentId :=
           mapSecondaryIdToDocumentId (Envelope.secondaryId e);
         jp_recipientId := Some (Recipient.id rcp);
         jp_requestMetadata := None |} w2 = (Ok tt, w3) /\
    advance o e (mapSecondaryIdToDocumentId (Envelope.secondaryId e)) rcp w3
    = (Ok tt, w4) /\
    sealIfAllSigned o e (mapSecondaryIdToDocumentId (Envelope.secondaryId e))
      w4 = (Ok tt, w5) /\
    signedWebhook e w5 = (Ok tt, w').
Proof.
  intros H. unfold completeFor in H.
  apply bind_inv in H as [([] & w1 & H1 & H) | (ex & _ & ?)]; [|discriminate].
  apply bind_inv in H as [([] & w2 & H2 & H) | (ex & _ & ?)]; [|discriminate].
  apply bind_inv in H as [([] & w3 & H3 & H) | (ex & _ & ?)]; [|discriminate].
  apply bind_inv in H as [([] & w4 & H4 & H) | (ex & _ & ?)]; [|discriminate].
  apply bind_inv in H as [([] & w5 & H5 & H) | (ex & _ & ?)]; [|discriminate].
  exists w1, w2, w3, w4, w5. auto 10.
Qed.
End CompletionRuns.

Section CompletionEffects.
Context `{Collab : Collaborators}.

Lemma set_documentAuditLogs_same d :
  set_documentAuditLogs (documentAuditLogs d ++ []) d = d.
Proof. destruct d; simpl. now rewrite app_nil_r. Qed.

Lemma checkAccessAuth_fails o e rcp w r w' :
  fails_access_auth o (db w) e rcp ->
  checkAccessAuth o e rcp w = (r, w') ->
  (exists ex, r = Throw ex) /\
  outbox w' = outbox w /\
  (db w' = db w \/
   db w' =
     set_documentAuditLogs
       (documentAuditLogs (db w) ++ access_auth_failure_log o e rcp) (db w)) /\
  (faultIn w = None ->
   r = Throw (access_auth_error o) /\
   db w' =
     set_documentAuditLogs
       (documentAuditLogs (db w) ++ access_auth_failure_log o e rcp) (db w)).
Proof.
  intros [H2fa Hbad] H.
  unfold checkAccessAuth, when in H. unfold requiresAccess2FA in H2fa.
  rewrite H2fa in H.
  unfold access_auth_error, access_auth_failure_log.
  destruct (CO.accessAuthOptions o) as [a|].
  2:{ inversion H; subst. rewrite set_documentAuditLogs_same. eauto 10. }
  apply bind_inv in H as [([] & w1 & H1 & H) | (ex & H1 & ->)].
  2:{ apply await_inv in H1 as ((Hd & Ho & _) & _ & N).
      split; [eauto|]. split; [auto|]. split; [auto|].
      intros F. destruct (N F). discriminate. }
  apply await_inv in H1 as ((Hd & Ho & _) & _ & N).
  rewrite bind_getDb in H. rewrite Hd, Hbad in H. simpl in H.
  apply bind_inv in H as [([] & w2 & H3 & H) | (ex & H3 & ->)].
  - apply documentAuditLog_create_ok_inv in H3 as [Hd3 Ho3].
    inversion H; subst. rewrite Hd3, Ho3, Hd, Ho.
    split; [eauto|]. auto.
  - unfold documentAuditLog_create in H3.
    apply bind_inv in H3 as [([] & w2 & H4 & H5) | (ex' & H4 & E)];
      [discriminate|].
    apply await_inv in H4 as ((Hd4 & Ho4 & _) & _ & N4).
    split; [eauto|]. split; [congruence|]. split; [left; congruence|].
    intros F. destruct (N F) as [_ ->]. destruct (N4 F). discriminate.
Qed.

(** X5. A completion that asks for a second factor and gets none, or an
    invalid one, fails before anything is signed: whatever happens to
    its collaborators, the outbox and every table but the audit log are
    as they were, and the audit log has at most gained the 2FA_FAILED
    entry; when no collaborator fails, the error is UNAUTHORIZED without
    credentials and TWO_FACTOR_AUTH_FAILED with invalid ones, and only
    in the second case the entry is written - and stays. *)
Theorem completion_stops_at_access_auth (o : CO.t) (w : World)
    (e : Envelope.t) (rcp : Recipient.t) (r : Result unit) (w' : World) :
  admissible o (db w) e rcp ->
  fails_access_auth o (db w) e rcp ->
  completeDocumentWithToken o w = (r, w') ->
  (exists ex, r = Throw ex) /\
  outbox w' = outbox w /\
  on_db eq eq eq eq eq
    (fun l l' =>
       l' = l \/ l' = (l ++ access_auth_failure_log o e rcp)%list)
    (db w) (db w') /\
  (faultIn w = None ->
   r = Throw (access_auth_error o) /\
   documentAuditLogs (db w') =
     (documentAuditLogs (db w) ++ access_auth_failure_log o e rcp)%list).
Proof.
  intros Ha Hf H.
  apply complete_admissible_inv with (e:=e) (rcp:=rcp) in H
    as [(-> & F & (Qd & Qo & _)) | (w0 & [(Qd & Qo & _) N] & H)]; auto.
  { split; [eauto|]. split; [auto|]. rewrite Qd.
    split; [db_obligation; auto|]. intros F'. contradiction. }
  unfold completeFor in H.
  apply bind_inv in H as [([] & w1 & H1 & H) | (ex & H1 & ->)].
  { rewrite <- Qd in Hf.
    eapply checkAccessAuth_fails in H1 as ((ex & ?) & _); [discriminate|exact Hf]. }
  rewrite <- Qd in Hf.
  eapply checkAccessAuth_fails in H1 as (Hex & Ho & Hd & Hn); [|exact Hf].
  split; [auto|]. split; [congruence|]. split.
  - rewrite <- Qd. destruct Hd as [-> | ->]; db_obligation; simpl; auto.
  - intros F. rewrite (N F) in Hn. destruct (Hn F) as [-> ->]. simpl.
    split; auto.
Qed.

Lemma filter_update_where {A} (q p : A -> bool) (f : A -> A) l :
  (forall a, q (f a) = q a) ->
  filter q (update_where p f l) = update_where p f (filter q l).
Proof.
  intros Hq. unfold update_where.
  induction l as [|a l IH]; simpl; auto.
  destruct (p a) eqn:Ep.
  - rewrite Hq. destruct (q a); simpl; rewrite ?Ep, IH; auto.
  - destruct (q a); simpl; rewrite ?Ep, IH; auto.
Qed.

Lemma insert_by_update_where {A} (leb : A -> A -> bool) (g : A -> A) x l :
  (forall a b, leb (g a) (g b) = leb a b) ->
  insert_by leb (g x) (map g l) = map g (insert_by leb x l).
Proof.
  intros Hg. induction l as [|y l IH]; simpl; auto.
  rewrite Hg. destruct (leb x y); simpl; auto. now rewrite IH.
Qed.

Lemma sort_by_map {A} (leb : A -> A -> bool) (g : A -> A) l :
  (forall a b, leb (g a) (g b) = leb a b) ->
  sort_by leb (map g l) = map g (sort_by leb l).
Proof.
  intros Hg. unfold sort_by. induction l as [|x l IH]; simpl; auto.
  rewrite IH. now apply insert_by_update_where.
Qed.

(** Marking a recipient SENT, with or without a new name, keeps the
    list of pending recipients, row for row. *)
Lemma pendingRecipients_mark_sent d d' p n envelopeId :
  recipients d' = update_where p (Recipient.mark_sent n) (recipients d) ->
  pendingRecipients d' envelopeId =
  update_where p (Recipient.mark_sent n) (pendingRecipients d envelopeId).
Proof.
  intros Hr. unfold pendingRecipients, orderBySigningOrderThenId.
  rewrite Hr, filter_update_where by reflexivity.
  unfold update_where. apply sort_by_map.
  intros a b. unfold recipient_leb.
  destruct (p a), (p b); reflexivity.
Qed.

Lemma recipientsOf_mark_sent d d' p n envelopeId :
  recipients d' = update_where p (Recipient.mark_sent n) (recipients d) ->
  allSignedOrCc (recipientsOf d' envelopeId) =
  allSignedOrCc (recipientsOf d envelopeId).
Proof.
  intros Hr. unfold recipientsOf, allSignedOrCc.
  rewrite Hr, filter_update_where by reflexivity.
  unfold update_where.
  induction (filter _ (recipients d)) as [|a l IH]; simpl; auto.
  rewrite IH. destruct (p a); reflexivity.
Qed.

(** Nobody is pending exactly when everybody is SIGNED or CC. *)
Lemma pending_nil_iff d envelopeId :
  pendingRecipients d envelopeId = [] <->
  allSignedOrCc (recipientsOf d envelopeId) = true.
Proof.
  unfold pendingRecipients, orderBySigningOrderThenId, recipientsOf,
    allSignedOrCc, pendingWhere.
  rewrite sort_by_nil_iff.
  induction (recipients d) as [|r l IH]; simpl; [tauto|].
  destruct (String.eqb (Recipient.envelopeId r) envelopeId); simpl; auto.
  destruct (is_signed r), (is_cc r); simpl; auto;
    split; intros; discriminate.
Qed.
End CompletionEffects.

Section CompletionReturns.
Context `{Collab : Collaborators}.

Lemma advance_pending_kept o e lid rcp w w' :
  advance o e lid rcp w = (Ok tt, w') ->
  allSignedOrCc (recipientsOf (db w') (Envelope.id e)) =
  allSignedOrCc (recipientsOf (db w) (Envelope.id e)) /\
  match pendingRecipients (db w) (Envelope.id e) with
  | [] => pendingRecipients (db w') (Envelope.id e) = []
  | next :: _ =>
      exists next' rest',
        pendingRecipients (db w') (Envelope.id e) = next' :: rest' /\
        Recipient.id next' = Recipient.id next
  end.
Proof.
  intros H. apply advance_ok_inv in H as [_ H].
  destruct (pendingRecipients (db w) (Envelope.id e)) as [|next rest] eqn:Hp.
  - destruct H as [-> _]. auto.
  - destruct (is_sequential (signingOrderOf e)).
    + destruct H as (_ & Hr & _). split.
      * eapply recipientsOf_mark_sent; eauto.
      * erewrite pendingRecipients_mark_sent by exact Hr.
        rewrite Hp. unfold update_where. simpl.
        eexists. eexists. split; [reflexivity|].
        destruct (Recipient.id next =? Recipient.id next); reflexivity.
    + destruct H as [-> _]. rewrite Hp. eauto.
Qed.

(** X6. What a returning completion has dispatched, exactly, read off
    the store it leaves: the recipient-signed job; then, when recipients
    are still pending, the pending e-mail and, under SEQUENTIAL order,
    the signing-requested job of the first of them; then the
    seal-document job when every recipient is SIGNED or CC; last the
    DOCUMENT_SIGNED webhook. So it sends the pending e-mail or requests
    the seal job, never both and never neither. *)
Theorem completion_dispatch (o : CO.t) (w : World) (e : Envelope.t)
    (rcp : Recipient.t) (w' : World) :
  admissible o (db w) e rcp ->
  completeDocumentWithToken o w = (Ok tt, w') ->
  exists added,
    outbox w' = (outbox w ++ added)%list /\
    added = completionDispatch o e rcp (db w') /\
    (pendingEmails added + sealRequests added = 1)%nat.
Proof.
  intros Ha H.
  apply complete_admissible_inv with (e:=e) (rcp:=rcp) in H
    as [(? & _) | (w0 & [(Qd & Qo & _) _] & H)]; auto; [discriminate|].
  apply completeFor_ok_inv in H
    as (w1 & w2 & w3 & w4 & w5 & H1 & H2 & H3 & H4 & H5 & H6).
  apply checkAccessAuth_ok_inv in H1 as (Ho1 & He1 & _).
  apply completionTransaction_ok_inv in H2 as (Ho2 & He2 & _).
  apply triggerJob_ok_inv in H3 as (Hd3 & Ho3).
  pose proof (advance_pending_kept _ _ _ _ _ H4) as [Hall Hpend].
  apply advance_ok_inv in H4 as [He4 H4].
  assert (Hin : In e (envelopes (db w4))).
  { rewrite He4, Hd3, He2, He1, Qd.
    destruct Ha as (Hf & _). now apply find_some in Hf. }
  apply sealIfAllSigned_ok in H5 as [Hd5 Ho5]; auto.
  apply signedWebhook_ok_inv in H6 as [Hd6 Ho6].
  assert (Hd : db w' = db w4) by congruence.
  assert (Hout :
    outbox w' = (outbox w ++ completionDispatch o e rcp (db w'))%list).
  { rewrite Ho6, Ho5, Hd5. unfold completionDispatch. rewrite Hd.
    fold (recipientSignedJob e rcp) in Ho3.
    destruct (pendingRecipients (db w3) (Envelope.id e)) as [|next rest].
    - destruct H4 as [_ Ho4]. rewrite Hpend, Ho4, Ho3, Ho2, Ho1, Qo.
      simpl. rewrite <- !app_assoc. reflexivity.
    - destruct Hpend as (next' & rest' & -> & Hid).
      unfold signingRequestedJob. rewrite Hid.
      destruct (is_sequential (signingOrderOf e)).
      + destruct H4 as (Ho4 & _). rewrite Ho4, Ho3, Ho2, Ho1, Qo.
        simpl. rewrite <- !app_assoc. reflexivity.
      + destruct H4 as (_ & Ho4). rewrite Ho4, Ho3, Ho2, Ho1, Qo.
        simpl. rewrite <- !app_assoc. reflexivity. }
  eexists. split; [exact Hout|]. split; [reflexivity|].
  unfold completionDispatch, pendingEmails, sealRequests, signedWebhookOf.
  pose proof (pending_nil_iff (db w') (Envelope.id e)) as Hiff.
  destruct (pendingRecipients (db w') (Envelope.id e)) as [|next rest].
  - rewrite (proj1 Hiff eq_refl).
    destruct (find _ (envelopes (db w'))); reflexivity.
  - destruct (allSignedOrCc (recipientsOf (db w') (Envelope.id e))).
    + destruct Hiff as [_ Hiff]. specialize (Hiff eq_refl). discriminate.
    + destruct (is_sequential (signingOrderOf e)),
        (find _ (envelopes (db w'))); reflexivity.
Qed.

(** X7. The audit trail of a returning completion, in order: the
    2FA_VALIDATED entry when a second factor was asked for; the
    RECIPIENT_COMPLETED entry of the recipient; the entries of
    auto-signing; and at most one RECIPIENT_UPDATED entry, written only
    under SEQUENTIAL order with a next signer dictated and permitted. *)
Theorem completion_audit_trail (o : CO.t) (w : World) (e : Envelope.t)
    (rcp : Recipient.t) (w' : World) :
  admissible o (db w) e rcp ->
  completeDocumentWithToken o w = (Ok tt, w') ->
  exists system renamed,
    documentAuditLogs (db w') =
      (documentAuditLogs (db w) ++ validatedLog e rcp
       ++ recipientCompletedLog o e rcp :: system ++ renamed)%list /\
    Forall system_entry system /\
    (renamed = [] \/
     exists next s,
       dictatedSigner o e = Some s /\
       signingOrderOf e = Some SEQUENTIAL /\
       renamed = [recipientUpdatedLog o e rcp next s]).
Proof.
  intros Ha H.
  apply complete_admissible_inv with (e:=e) (rcp:=rcp) in H
    as [(? & _) | (w0 & [(Qd & Qo & _) _] & H)]; auto; [discriminate|].
  apply completeFor_ok_inv in H
    as (w1 & w2 & w3 & w4 & w5 & H1 & H2 & H3 & H4 & H5 & H6).
  apply checkAccessAuth_ok_inv in H1 as (_ & He1 & _ & _ & _ & Hl1).
  apply completionTransaction_ok_inv in H2 as (_ & He2 & system & Hl2 & Hs).
  apply triggerJob_ok_inv in H3 as (Hd3 & _).
  apply advance_ok_inv in H4 as [He4 H4].
  assert (Hin : In e (envelopes (db w4))).
  { rewrite He4, Hd3, He2, He1, Qd.
    destruct Ha as (Hf & _). now apply find_some in Hf. }
  apply sealIfAllSigned_ok in H5 as [Hd5 _]; auto.
  apply signedWebhook_ok_inv in H6 as [Hd6 _].
  assert (Hd : db w' = db w4) by congruence.
  assert (Hl3 : documentAuditLogs (db w3) =
                (documentAuditLogs (db w) ++ validatedLog e rcp
                 ++ recipientCompletedLog o e rcp :: system)%list).
  { rewrite Hd3, Hl2, Hl1, Qd, <- app_assoc. reflexivity. }
  exists system.
  destruct (pendingRecipients (db w3) (Envelope.id e)) as [|next rest].
  { exists []. destruct H4 as [Hd4 _].
    rewrite Hd, Hd4, Hl3, app_nil_r. auto. }
  destruct (is_sequential (signingOrderOf e)) eqn:Hseq.
  - destruct H4 as (_ & _ & Hl4).
    exists (match dictatedSigner o e with
            | Some s => [recipientUpdatedLog o e rcp next s]
            | None => []
            end).
    split; [|split; auto].
    + rewrite Hd, Hl4, Hl3, <- !app_assoc. reflexivity.
    + destruct (dictatedSigner o e) as [s|]; [right|now left].
      exists next, s. apply is_sequential_spec in Hseq. auto.
  - exists []. destruct H4 as [Hd4 _].
    rewrite Hd, Hd4, Hl3, app_nil_r. auto.
Qed.
End CompletionReturns.

#[export] Instance KeepsSendStatus_PreOrder : PreOrder KeepsSendStatus.
Proof.
  split.
  - intros r. split; reflexivity.
  - intros a b c [? ?] [? ?]. split; congruence.
Qed.

#[export] Instance KeepsNameEmail_PreOrder : PreOrder KeepsNameEmail.
Proof.
  split.
  - intros r. repeat split; reflexivity.
  - intros a b c (? & ? & ?) (? & ? & ?). repeat split; congruence.
Qed.

Section CompletionBounds.
Context `{Collab : Collaborators}.

Lemma complete_found_inv o w e r w' :
  find (envelopeByToken o (db w)) (envelopes (db w)) = Some e ->
  completeDocumentWithToken o w = (r, w') ->
  same_store w w' \/
  exists rcp w0, same_store w w0 /\ completeFor o e rcp w0 = (r, w').
Proof.
  intros Hf H. rewrite complete_as_guards_then_body in H.
  apply bind_inv in H as [([e' rcp] & w0 & H1 & H2) | (ex & H1 & ->)].
  - apply guards_inv in H1 as [[Q _] (Hf' & _)].
    rewrite Hf in Hf'. inversion Hf'; subst e'.
    right. exists rcp, w0. auto.
  - apply guards_inv in H1 as [[Q _] _]. now left.
Qed.

Lemma completeFor_parallel o e rcp :
  signingOrderOf e <> Some SEQUENTIAL ->
  respects (on_db eq eq (Forall2 KeepsSendStatus) any any any)
           (appends not_signing_request) (completeFor o e rcp).
Proof.
  intros Hp.
  assert (Hs : is_sequential (signingOrderOf e) = false).
  { destruct (is_sequential _) eqn:E; auto.
    apply is_sequential_spec in E. contradiction. }
  unfold completeFor, advance. rewrite Hs.
  cbv beta iota delta [when].
  frame_walk; db_obligation; try exact I;
    try (apply appends_one; exact I);
    try (apply Forall2_update_where;
         [typeclasses eauto | intros; split; reflexivity]).
Qed.

Lemma completeFor_undictated o e rcp :
  dictatedSigner o e = None ->
  respects (on_db eq eq (Forall2 KeepsNameEmail) any any
                  (appends not_recipient_updated))
           any (completeFor o e rcp).
Proof.
  intros Hn. unfold completeFor, advance, advanceTransaction.
  rewrite Hn.
  frame_walk; db_obligation; try exact I;
    try (apply appends_one; unfold not_recipient_updated; simpl;
         discriminate);
    try (apply Forall2_update_where;
         [typeclasses eauto | intros; repeat split; reflexivity]).
Qed.

(** X8. What the advancement of [completeDocumentWithToken] is bound
    by, on every run: unless the envelope is in SEQUENTIAL order no
    recipient is marked SENT and no signing-requested job is requested;
    and unless a next signer is passed and the envelope allows dictating
    it, no recipient changes name or e-mail and no RECIPIENT_UPDATED
    entry is logged. *)
Theorem completion_advancement_bounds (o : CO.t) (w : World)
    (e : Envelope.t) (r : Result unit) (w' : World) :
  find (envelopeByToken o (db w)) (envelopes (db w)) = Some e ->
  completeDocumentWithToken o w = (r, w') ->
  (signingOrderOf e <> Some SEQUENTIAL ->
   Forall2 KeepsSendStatus (recipients (db w)) (recipients (db w')) /\
   appends not_signing_request (outbox w) (outbox w')) /\
  (dictatedSigner o e = None ->
   Forall2 KeepsNameEmail (recipients (db w)) (recipients (db w')) /\
   appends not_recipient_updated
     (documentAuditLogs (db w)) (documentAuditLogs (db w'))).
Proof.
  intros Hf H.
  apply complete_found_inv with (e:=e) in H
    as [(Qd & Qo & _) | (rcp & w0 & (Qd & Qo & _) & H)]; auto.
  { rewrite Qd, Qo. split; intros _; split; reflexivity. }
  split; intros Hyp.
  - eapply completeFor_parallel in H; [|exact Hyp]. destruct H
      as [(_ & _ & Hr & _) Ho].
    rewrite Qd in Hr. rewrite Qo in Ho. auto.
  - eapply completeFor_undictated in H; [|exact Hyp]. destruct H
      as [(_ & _ & Hr & _ & _ & Hl) _].
    rewrite Qd in Hr, Hl. auto.
Qed.

Lemma completionTransaction_gated o e rcp w r w' :
  manualFieldsOpen (Envelope.id e) (db w) = true ->
  completionTransaction o e rcp w = (r, w') ->
  fields (db w') = fields (db w) /\ signatures (db w') = signatures (db w).
Proof.
  intros Hg H. unfold completionTransaction in H.
  assert (Hk : respects (on_db any any any eq eq any) any
                 (markSigned (Recipient.id rcp) ;;
                  documentAuditLog_create (recipientCompletedLog o e rcp))).
  { frame_walk; db_obligation. }
  rewrite <- bind_assoc in H.
  apply bind_inv in H as [([] & w1 & H1 & H) | (ex & H1 & ->)].
  - apply Hk in H1 as [(_ & _ & _ & Hfl & Hsg & _) _].
    apply resolveAutoSign_complete_settled in H as [[(Qd & _) _] _].
    + rewrite Qd. auto.
    + right. unfold manualFieldsOpen in Hg. now rewrite <- Hfl.
  - apply Hk in H1 as [(_ & _ & _ & Hfl & Hsg & _) _]. auto.
Qed.

Lemma after_transaction_keeps_fields o e rcp :
  respects (on_db eq any any eq eq any) any
    (triggerJob send_recipient_signed_email
       {| jp_userId := None;
          jp_documentId :=
            mapSecondaryIdToDocumentId (Envelope.secondaryId e);
          jp_recipientId := Some (Recipient.id rcp);
          jp_requestMetadata := None |} ;;
     advance o e (mapSecondaryIdToDocumentId (Envelope.secondaryId e)) rcp ;;
     sealIfAllSigned o e
       (mapSecondaryIdToDocumentId (Envelope.secondaryId e)) ;;
     signedWebhook e).
Proof. frame_walk; db_obligation; exact I. Qed.

Lemma find_none_step k l l' :
  Forall2 RecipientStep l l' ->
  find (fun r => Recipient.id r =? k) l = None ->
  find (fun r => Recipient.id r =? k) l' = None.
Proof.
  induction 1 as [|a b la lb Hab _ IH]; simpl; auto.
  destruct Hab as (Hid & _). rewrite Hid.
  destruct (Recipient.id a =? k); [intros; discriminate|auto].
Qed.

Lemma settled_kept envelopeId d d' :
  fields d' = fields d ->
  Forall2 RecipientStep (recipients d) (recipients d') ->
  settled envelopeId d -> settled envelopeId d'.
Proof.
  unfold settled, autoSignQuery. intros -> Hr.
  induction (filter (autoSignWhere envelopeId) (fields d)) as [|f l IH];
    simpl; auto.
  intros H. apply app_eq_nil in H as [H1 H2].
  rewrite (IH H2), app_nil_r.
  destruct (find _ (recipients d)) eqn:E; [discriminate|].
  now rewrite (@find_none_step _ _ _ Hr E).
Qed.

(** X9. Auto-signing inside a completion waits for the manual fields:
    while a required field of the envelope that is not auto-signed is
    not inserted, no run of [completeDocumentWithToken] changes a field
    or creates a signature; and after a completion that returns, either
    such a field is still open or no auto-sign field of the envelope is
    left to sign. *)
Theorem completion_autosign_gate (o : CO.t) (w : World) (e : Envelope.t)
    (rcp : Recipient.t) (r : Result unit) (w' : World) :
  admissible o (db w) e rcp ->
  completeDocumentWithToken o w = (r, w') ->
  (manualFieldsOpen (Envelope.id e) (db w) = true ->
   fields (db w') = fields (db w) /\
   signatures (db w') = signatures (db w)) /\
  (r = Ok tt ->
   manualFieldsOpen (Envelope.id e) (db w') = true \/
   settled (Envelope.id e) (db w')).
Proof.
  intros Ha H.
  apply complete_admissible_inv with (e:=e) (rcp:=rcp) in H
    as [(-> & _ & (Qd & _)) | (w0 & [(Qd & Qo & _) _] & H)]; auto.
  { rewrite Qd. split; [auto | discriminate]. }
  split.
  - intros Hg. unfold completeFor in H.
    apply bind_inv in H as [([] & w1 & H1 & H) | (ex & H1 & ->)].
    2:{ apply checkAccessAuth_untouched in H1 as [(_&_&_&Hfl&Hsg&_) _].
        split; congruence. }
    apply checkAccessAuth_untouched in H1 as [(_&_&_&Hfl&Hsg&_) _].
    assert (Ht : forall r2 w2,
               transaction (completionTransaction o e rcp) w1 = (r2, w2) ->
               fields (db w2) = fields (db w1) /\
               signatures (db w2) = signatures (db w1)).
    { intros r2 w2 Ht. unfold transaction in Ht.
      destruct (completionTransaction o e rcp w1) as [[[]|ex] w3] eqn:Hb.
      - apply completionTransaction_gated in Hb.
        2:{ unfold manualFieldsOpen in *. rewrite <- Hfl, Qd. exact Hg. }
        destruct (await w3) as [[u|ex] w4] eqn:Hw;
          apply await_inv in Hw as ((Hd4 & _) & _);
          inversion Ht; subst; simpl; auto.
        rewrite Hd4. exact Hb.
      - inversion Ht; subst. simpl. auto. }
    apply bind_inv in H as [([] & w2 & H2 & H) | (ex & H2 & ->)].
    + apply Ht in H2 as [Hf2 Hs2].
      apply after_transaction_keeps_fields in H
        as [(_&_&_&Hf3&Hs3&_) _].
      split; congruence.
    + apply Ht in H2 as [Hf2 Hs2]. split; congruence.
  - intros ->.
    apply completeFor_ok_inv in H
      as (w1 & w2 & w3 & w4 & w5 & H1 & H2 & H3 & H4 & H5 & H6).
    apply transaction_ok_inv in H2 as (w2' & H2 & (Qd2 & _)).
    unfold completionTransaction in H2.
    apply bind_inv in H2 as [([] & u1 & _ & H2) | (ex & _ & ?)];
      [|discriminate].
    apply bind_inv in H2 as [([] & u2 & _ & H2) | (ex & _ & ?)];
      [|discriminate].
    apply resolveAutoSign_complete_settles in H2.
    assert (Hrest : on_db eq any (Forall2 RecipientStep) eq eq any
                      (db w2) (db w')).
    { assert (Hk : respects (on_db eq any (Forall2 RecipientStep) eq eq any)
                     any
                     (triggerJob send_recipient_signed_email
                        {| jp_userId := None;
                           jp_documentId :=
                             mapSecondaryIdToDocumentId
                               (Envelope.secondaryId e);
                           jp_recipientId := Some (Recipient.id rcp);
                           jp_requestMetadata := None |} ;;
                      advance o e
                        (mapSecondaryIdToDocumentId (Envelope.secondaryId e))
                        rcp ;;
                      sealIfAllSigned o e
                        (mapSecondaryIdToDocumentId
                           (Envelope.secondaryId e)) ;;
                      signedWebhook e)).
      { frame_walk; monotone_obligation. }
      eapply Hk. unfold bind.
      rewrite H3, H4, H5. exact H6. }
    destruct Hrest as (_ & _ & Hr & Hf & _).
    rewrite Qd2 in Hr, Hf.
    destruct H2 as [Hs | Hopen].
    + right. eapply settled_kept; [symmetry; exact Hf | exact Hr | exact Hs].
    + left. unfold manualFieldsOpen. rewrite <- Hf. exact Hopen.
Qed.
End CompletionBounds.

Ltac admissible_by_computation :=
  unfold admissible; repeat split;
  first [ reflexivity
        | eexists; reflexivity
        | let H := fresh in intros H; vm_compute in H; discriminate
        | intros _; reflexivity ].

Lemma completion_stops_at_access_auth_witness :
  fst (@completeDocumentWithToken guarded_collaborators
         (complete_with_code "a" "000000") (sample_sequence None))
  = Throw (AppError TWO_FACTOR_AUTH_FAILED "Invalid 2FA authentication" None)
  /\
  outbox (snd (@completeDocumentWithToken guarded_collaborators
                 (complete_with_code "a" "000000") (sample_sequence None)))
  = [] /\
  map AuditLog.type
      (documentAuditLogs
         (db (snd (@completeDocumentWithToken guarded_collaborators
                     (complete_with_code "a" "000000")
                     (sample_sequence None)))))
  = [DOCUMENT_ACCESS_AUTH_2FA_FAILED].
Proof.
  destruct (@completion_stops_at_access_auth guarded_collaborators
              (complete_with_code "a" "000000") (sample_sequence None)
              (Sample.envelope PENDING SEQUENTIAL)
              (Sample.recipient 1 "a" SIGNER 1 NOT_SIGNED SENT)
              (fst (@completeDocumentWithToken guarded_collaborators
                      (complete_with_code "a" "000000")
                      (sample_sequence None)))
              (snd (@completeDocumentWithToken guarded_collaborators
                      (complete_with_code "a" "000000")
                      (sample_sequence None))))
    as (_ & Ho & _ & Hn).
  - admissible_by_computation.
  - split; reflexivity.
  - apply surjective_pairing.
  - destruct (Hn eq_refl) as [Hr Hl].
    split; [exact Hr|]. split; [exact Ho|]. rewrite Hl. reflexivity.
Defined.

Lemma completion_dispatch_witness :
  exists added,
    outbox (snd (@completeDocumentWithToken Sample.collaborators
                   (Sample.complete "a") (sample_sequence None)))
    = (outbox (sample_sequence None) ++ added)%list /\
    added =
      @completionDispatch Sample.collaborators (Sample.complete "a")
        (Sample.envelope PENDING SEQUENTIAL)
        (Sample.recipient 1 "a" SIGNER 1 NOT_SIGNED SENT)
        (db (snd (@completeDocumentWithToken Sample.collaborators
                    (Sample.complete "a") (sample_sequence None)))) /\
    (pendingEmails added + sealRequests added = 1)%nat.
Proof.
  apply (@completion_dispatch Sample.collaborators (Sample.complete "a")
           (sample_sequence None)).
  - admissible_by_computation.
  - vm_compute. reflexivity.
Defined.

Lemma completion_audit_trail_witness :
  exists system renamed,
    documentAuditLogs
      (db (snd (@completeDocumentWithToken guarded_collaborators
                  (complete_with_code "a" "123456")
                  (sample_sequence None))))
    = (documentAuditLogs (db (sample_sequence None))
       ++ @validatedLog guarded_collaborators
            (Sample.envelope PENDING SEQUENTIAL)
            (Sample.recipient 1 "a" SIGNER 1 NOT_SIGNED SENT)
       ++ @recipientCompletedLog guarded_collaborators
            (complete_with_code "a" "123456")
            (Sample.envelope PENDING SEQUENTIAL)
            (Sample.recipient 1 "a" SIGNER 1 NOT_SIGNED SENT)
          :: system ++ renamed)%list /\
    Forall system_entry system /\
    (renamed = [] \/
     exists next s,
       dictatedSigner (complete_with_code "a" "123456")
         (Sample.envelope PENDING SEQUENTIAL) = Some s /\
       signingOrderOf (Sample.envelope PENDING SEQUENTIAL)
       = Some SEQUENTIAL /\
       renamed =
         [recipientUpdatedLog
            (complete_with_code "a" "123456")
            (Sample.envelope PENDING SEQUENTIAL)
            (Sample.recipient 1 "a" SIGNER 1 NOT_SIGNED SENT) next s]).
Proof.
  apply (@completion_audit_trail guarded_collaborators
           (complete_with_code "a" "123456") (sample_sequence None)).
  - admissible_by_computation.
  - vm_compute. reflexivity.
Defined.

Lemma completion_advancement_bounds_witness :
  Forall2 KeepsSendStatus
    (recipients (db sample_presigned))
    (recipients
       (db (snd (@completeDocumentWithToken Sample.collaborators
                   (complete_dictating "a" "z" "z@example.com")
                   sample_presigned)))) /\
  Forall2 KeepsNameEmail
    (recipients (db sample_sequence_undictated))
    (recipients
       (db (snd (@completeDocumentWithToken Sample.collaborators
                   (complete_dictating "a" "z" "z@example.com")
                   sample_sequence_undictated)))).
Proof.
  split.
  - apply (@completion_advancement_bounds Sample.collaborators
             (complete_dictating "a" "z" "z@example.com") sample_presigned
             (Sample.envelope PENDING PARALLEL)
             (fst (@completeDocumentWithToken Sample.collaborators
                     (complete_dictating "a" "z" "z@example.com")
                     sample_presigned))).
    + reflexivity.
    + apply surjective_pairing.
    + intros H. vm_compute in H. discriminate.
  - apply (@completion_advancement_bounds Sample.collaborators
             (complete_dictating "a" "z" "z@example.com")
             sample_sequence_undictated
             (Sample.envelope PENDING SEQUENTIAL)
             (fst (@completeDocumentWithToken Sample.collaborators
                     (complete_dictating "a" "z" "z@example.com")
                     sample_sequence_undictated))).
    + reflexivity.
    + apply surjective_pairing.
    + reflexivity.
Defined.

Lemma completion_autosign_gate_witness :
  fields (db (snd (@completeDocumentWithToken Sample.collaborators
                     (Sample.complete "a") sample_manual_open)))
  = fields (db sample_manual_open) /\
  signatures (db (snd (@completeDocumentWithToken Sample.collaborators
                         (Sample.complete "a") sample_manual_open)))
  = signatures (db sample_manual_open).
Proof.
  apply (@completion_autosign_gate Sample.collaborators
           (Sample.complete "a") sample_manual_open
           (Sample.envelope PENDING PARALLEL)
           (Sample.recipient 1 "a" SIGNER 1 NOT_SIGNED SENT)
           (fst (@completeDocumentWithToken Sample.collaborators
                   (Sample.complete "a") sample_manual_open))).
  - admissible_by_computation.
  - apply surjective_pairing.
  - reflexivity.
Defined.

(* ================================================================= *)
(** ** Runs of the other programs                                      *)
(* ================================================================= *)

Lemma pbind_inv {E T A B} (p : Proc E T A) (f : A -> Proc E T B) m r m' :
  pbind p f m = (r, m') ->
  (exists a m1, p m = (Done a, m1) /\ f a m1 = (r, m')) \/
  (exists e, p m = (Failed e, m') /\ r = Failed e).
Proof.
  unfold pbind. destruct (p m) as [[a|e] m1]; intros H.
  - left. eauto.
  - right. inversion H; subst. eauto.
Qed.

Lemma pawait_inv {E T} (e : E) (m : Machine T) r m' :
  pawait e m = (r, m') ->
  mem m' = mem m /\ clock m' = S (clock m) /\ faulty m' = faulty m /\
  (r = Done tt /\ faulty m (clock m) = false \/
   r = Failed e /\ faulty m (clock m) = true).
Proof.
  unfold pawait. destruct (faulty m (clock m)); intros H;
    inversion H; subst; simpl; auto 10.
Qed.

Lemma calm_sound {T} (t : T) : calm (sound t).
Proof. intros k _. reflexivity. Qed.

Lemma calm_set_mem {T} (t : T) (m : Machine T) : calm m -> calm (set_mem t m).
Proof. intros H k Hk. apply H. exact Hk. Qed.

Lemma pawait_calm {E T} (e : E) (m : Machine T) :
  calm m ->
  exists m', pawait e m = (Done tt, m') /\ mem m' = mem m /\ calm m'.
Proof.
  intros H. unfold pawait. rewrite (H (clock m)) by lia.
  eexists. split; [reflexivity|]. split; [reflexivity|].
  intros k Hk. simpl in *. apply H. lia.
Qed.

(* ================================================================= *)
(** ** jobs-cli.ts: arguments                                          *)
(* ================================================================= *)

Lemma prefix_empty s : String.prefix "" s = true.
Proof. destruct s; reflexivity. Qed.

Lemma prefix_false_app p q x :
  String.prefix p x = false -> String.prefix (p ++ q) x = false.
Proof.
  revert x. induction p as [|a p IH]; intros x.
  - rewrite prefix_empty. discriminate.
  - destruct x as [|b x]; [reflexivity|].
    cbn -[Ascii.ascii_dec]. destruct (Ascii.ascii_dec a b); auto.
Qed.

Section ParseArgsFacts.
Variable parseInt : string -> option Z.

Lemma parseArgs_snoc first rest x :
  (String.eqb first "help" || String.eqb first "--help"
   || String.eqb first "-h") = false ->
  JobsCli.parseArgs parseInt (first :: rest ++ [x]) =
  JobsCli.parseArg parseInt (JobsCli.parseArgs parseInt (first :: rest)) x.
Proof.
  intros H. unfold JobsCli.parseArgs. rewrite H.
  now rewrite fold_left_app.
Qed.

(** X10. [parseArgs] reads its options from left to right, each
    argument after the command on its own: [--status=v], [--type=v] and
    [--limit=v] set their option to exactly [v] (to [parseInt v] for the
    limit), whatever [v] holds, and so override what came before; an
    argument that does not start with a dash becomes the job id; any
    other argument is ignored. With the command alone the limit is 50
    and nothing else is set. *)
Theorem parseArgs_reads_options (first : string) (rest : list string) :
  (String.eqb first "help" || String.eqb first "--help"
   || String.eqb first "-h") = false ->
  let parsed := JobsCli.parseArgs parseInt in
  parsed [first] =
    {| JobsCli.command := first; JobsCli.jobId := None;
       JobsCli.status := None; JobsCli.type := None;
       JobsCli.limit := Some (Some 50) |} /\
  (forall v, parsed (first :: rest ++ ["--status=" ++ v]) =
             JobsCli.with_status v (parsed (first :: rest))) /\
  (forall v, parsed (first :: rest ++ ["--type=" ++ v]) =
             JobsCli.with_type v (parsed (first :: rest))) /\
  (forall v, parsed (first :: rest ++ ["--limit=" ++ v]) =
             JobsCli.with_limit (parseInt v) (parsed (first :: rest))) /\
  (forall x, String.prefix "-" x = false ->
             parsed (first :: rest ++ [x]) =
             JobsCli.with_jobId x (parsed (first :: rest))) /\
  (forall x, String.prefix "-" x = true ->
             String.prefix "--status=" x = false ->
             String.prefix "--type=" x = false ->
             String.prefix "--limit=" x = false ->
             parsed (first :: rest ++ [x]) = parsed (first :: rest)).
Proof.
  intros H parsed. subst parsed.
  split; [unfold JobsCli.parseArgs; now rewrite H|].
  repeat split; intros; rewrite parseArgs_snoc by exact H;
    unfold JobsCli.parseArg;
    generalize (JobsCli.parseArgs parseInt (first :: rest)); intros base.
  - cbn. rewrite prefix_empty. reflexivity.
  - cbn. rewrite prefix_empty. reflexivity.
  - cbn. rewrite prefix_empty. reflexivity.
  - assert (Hs : String.prefix "--status=" x = false)
      by now apply (prefix_false_app "-" "-status=").
    assert (Ht : String.prefix "--type=" x = false)
      by now apply (prefix_false_app "-" "-type=").
    assert (Hl : String.prefix "--limit=" x = false)
      by now apply (prefix_false_app "-" "-limit=").
    rewrite Hs, Ht, Hl.
    match goal with H0 : String.prefix "-" x = false |- _ => rewrite H0 end.
    reflexivity.
  - repeat match goal with
           | H0 : String.prefix _ x = _ |- _ => rewrite H0; clear H0
           end.
    reflexivity.
Qed.
End ParseArgsFacts.

Lemma parseArgs_reads_options_witness :
  JobsCli.parseArgs (fun _ => Some 5)
    ["retry-all"; "--type=seal"; "--status=all"; "--type=--type=x"]
  = JobsCli.with_type "--type=x"
      (JobsCli.parseArgs (fun _ => Some 5)
         ["retry-all"; "--type=seal"; "--status=all"]).
Proof.
  apply (proj1 (proj2 (proj2
           (@parseArgs_reads_options (fun _ => Some 5) "retry-all"
              ["--type=seal"; "--status=all"] eq_refl))) "--type=x").
Defined.

(* ================================================================= *)
(** ** jobs-cli.ts: retrying jobs                                      *)
(* ================================================================= *)

Section JobsCliFacts.
Import JobsCli.

Lemma print_run {A} (l : Line) (k : unit -> Script A) m :
  pbind (print l) k m =
  k tt (set_mem {| backgroundJobs := backgroundJobs (mem m);
                   backgroundJobTasks := backgroundJobTasks (mem m);
                   console := (console (mem m) ++ [l])%list |} m).
Proof. reflexivity. Qed.

Lemma findUnique_inv jobId m r m' :
  backgroundJob_findUnique jobId m = (r, m') ->
  mem m' = mem m /\ clock m' = S (clock m) /\ faulty m' = faulty m /\
  (r = Done (jobOf jobId (mem m)) /\ faulty m (clock m) = false \/
   r = Failed Rejected /\ faulty m (clock m) = true).
Proof.
  unfold backgroundJob_findUnique. intros H.
  apply pbind_inv in H as [([] & m1 & H1 & H) | (e & H1 & ->)].
  - apply pawait_inv in H1 as (Hm & Hc & Hf & [[_ F]|[? _]]);
      [|discriminate].
    inversion H; subst. rewrite Hm. auto 10.
  - apply pawait_inv in H1 as (Hm & Hc & Hf & [[? _]|[E F]]);
      [discriminate|].
    inversion E; subst. auto 10.
Qed.

Lemma retryJob_not_found jobId m r m' :
  jobOf jobId (mem m) = None ->
  retryJob jobId m = (r, m') ->
  tables_kept (mem m) (mem m') /\
  (r = Failed (Exit 1) \/ r = Failed Rejected) /\
  (faulty m (clock m) = false ->
   r = Failed (Exit 1) /\
   console (mem m') = (console (mem m) ++ [Error_job_not_found jobId])%list).
Proof.
  intros Hj H. unfold retryJob in H.
  apply pbind_inv in H as [(job & m1 & H1 & H) | (e & H1 & ->)].
  - apply findUnique_inv in H1 as (Hm & _ & _ & [[E F]|[? _]]);
      [|discriminate].
    inversion E; subst job; clear E. rewrite Hj in H.
    rewrite print_run in H. inversion H; subst; simpl. rewrite Hm.
    split; [split; reflexivity|]. auto.
  - apply findUnique_inv in H1 as (Hm & _ & _ & [[? _]|[E F]]);
      [discriminate|].
    inversion E; subst. rewrite Hm.
    split; [split; reflexivity|]. split; [auto|].
    intros F'. congruence.
Qed.

Lemma retryJob_not_failed jobId j m r m' :
  jobOf jobId (mem m) = Some j ->
  BackgroundJob.status j <> "FAILED" ->
  retryJob jobId m = (r, m') ->
  tables_kept (mem m) (mem m') /\
  (r = Failed (Exit 1) \/ r = Failed Rejected) /\
  (faulty m (clock m) = false ->
   r = Failed (Exit 1) /\
   console (mem m') =
     (console (mem m)
      ++ [Error_not_failed (BackgroundJob.status j);
          Error_only_failed_can_be_retried])%list).
Proof.
  intros Hj Hs H. unfold retryJob in H.
  apply pbind_inv in H as [(job & m1 & H1 & H) | (e & H1 & ->)].
  - apply findUnique_inv in H1 as (Hm & _ & _ & [[E F]|[? _]]);
      [|discriminate].
    inversion E; subst job; clear E. rewrite Hj in H.
    assert (Hn : negb (String.eqb (BackgroundJob.status j) "FAILED") = true).
    { apply negb_true_iff. apply String.eqb_neq. exact Hs. }
    rewrite Hn in H. rewrite !print_run in H.
    inversion H; subst; simpl. rewrite Hm.
    split; [split; reflexivity|]. split; [auto|]. intros _.
    now rewrite <- app_assoc.
  - apply findUnique_inv in H1 as (Hm & _ & _ & [[? _]|[E F]]);
      [discriminate|].
    inversion E; subst. rewrite Hm.
    split; [split; reflexivity|]. split; [auto|].
    intros F'. congruence.
Qed.

(** X11. [retryJob] gives up on an id that no job has and on a job that
    is not FAILED: it prints why and exits with code 1 - or stops at the
    rejected query - and neither table has changed. *)
Theorem retryJob_refuses (jobId : string) (m : Machine Cli)
    (r : Outcome Stop unit) (m' : Machine Cli) :
  match jobOf jobId (mem m) with
  | None => True
  | Some j => BackgroundJob.status j <> "FAILED"
  end ->
  retryJob jobId m = (r, m') ->
  tables_kept (mem m) (mem m') /\
  (r = Failed (Exit 1) \/ r = Failed Rejected) /\
  (faulty m (clock m) = false ->
   r = Failed (Exit 1) /\
   console (mem m') = (console (mem m) ++ refusal jobId (mem m))%list).
Proof.
  intros Hj H. unfold refusal.
  destruct (jobOf jobId (mem m)) as [j|] eqn:Ej.
  - eapply retryJob_not_failed; eauto.
  - eapply retryJob_not_found; eauto.
Qed.

Lemma resetJob_inv jobId m r m' :
  resetJob jobId m = (r, m') ->
  clock m' = S (clock m) /\ faulty m' = faulty m /\
  console (mem m') = console (mem m) /\
  (r = Failed Rejected /\ faulty m (clock m) = true /\
   tables_kept (mem m) (mem m') \/
   r = Failed RecordNotFound /\ jobOf jobId (mem m) = None /\
   tables_kept (mem m) (mem m') \/
   r = Done tt /\ faulty m (clock m) = false /\
   jobOf jobId (mem m) <> None /\
   backgroundJobs (mem m') =
     update_where (fun j => String.eqb (BackgroundJob.id j) jobId)
                  BackgroundJob.reset (backgroundJobs (mem m)) /\
   backgroundJobTasks (mem m') =
     update_where (openTaskOf (String.eqb jobId))
                  BackgroundJobTask.reset (backgroundJobTasks (mem m))).
Proof.
  unfold resetJob. intros H.
  apply pbind_inv in H as [([] & m1 & H1 & H) | (e & H1 & ->)].
  - apply pawait_inv in H1 as (Hm & Hc & Hf & [[_ F]|[? _]]);
      [|discriminate].
    unfold pbind, pget in H. rewrite Hm in H.
    destruct (existsb _ _) eqn:Ex.
    + inversion H; subst; simpl. rewrite Hm.
      split; [auto|]. split; [auto|]. split; [auto|].
      right. right. repeat split; auto.
      unfold jobOf. apply existsb_exists in Ex as (j & Hin & Hj).
      intros Hn. eapply find_none in Hn; eauto. congruence.
    + inversion H; subst. rewrite Hm.
      split; [auto|]. split; [auto|]. split; [auto|].
      right. left. repeat split; auto.
      unfold jobOf. destruct (find _ _) as [j|] eqn:Ef; auto.
      apply find_some in Ef as [Hin Hj].
      assert (existsb (fun j => String.eqb (BackgroundJob.id j) jobId)
                      (backgroundJobs (mem m)) = true)
        by (apply existsb_exists; eauto).
      congruence.
  - apply pawait_inv in H1 as (Hm & Hc & Hf & [[? _]|[E F]]);
      [discriminate|].
    inversion E; subst. rewrite Hm. unfold tables_kept. auto 10.
Qed.

(** X12. [retryJob] on a FAILED job resets it in one piece: however the
    run ends, either neither table has changed and the run stopped at a
    rejected call, or it returned and every row with the id is PENDING
    with no retries, no retry date and no completion date, and every
    task of the job that is not COMPLETED is PENDING with no retries;
    other jobs, COMPLETED tasks and tasks of other jobs are as they
    were. When no call fails it returns. *)
Theorem retryJob_resets (jobId : string) (j : BackgroundJob.t)
    (m : Machine Cli) (r : Outcome Stop unit) (m' : Machine Cli) :
  jobOf jobId (mem m) = Some j ->
  BackgroundJob.status j = "FAILED" ->
  retryJob jobId m = (r, m') ->
  (r = Failed Rejected /\ tables_kept (mem m) (mem m') \/
   r = Done tt /\
   backgroundJobs (mem m') =
     update_where (fun j => String.eqb (BackgroundJob.id j) jobId)
                  BackgroundJob.reset (backgroundJobs (mem m)) /\
   backgroundJobTasks (mem m') =
     update_where (openTaskOf (String.eqb jobId))
                  BackgroundJobTask.reset (backgroundJobTasks (mem m))) /\
  (calm m -> r = Done tt).
Proof.
  intros Hj Hs H. unfold retryJob in H.
  apply pbind_inv in H as [(job & m1 & H1 & H) | (e & H1 & ->)].
  2:{ apply findUnique_inv in H1 as (Hm & _ & _ & [[? _]|[E F]]);
        [discriminate|].
      inversion E; subst. rewrite Hm. split.
      - left. split; [auto|split; reflexivity].
      - intros Hc. rewrite (Hc (clock m)) in F by lia. discriminate. }
  apply findUnique_inv in H1 as (Hm & Hc1 & Hf1 & [[E F]|[? _]]);
    [|discriminate].
  inversion E; subst job; clear E. rewrite Hj in H.
  rewrite Hs in H. simpl in H. rewrite !print_run in H.
  apply pbind_inv in H as [([] & m2 & H2 & H) | (e & H2 & ->)].
  - apply resetJob_inv in H2
      as (_ & _ & _ & [(? & _)|[(? & _)|(_ & F2 & _ & Hjs & Hts)]]);
      try discriminate.
    rewrite !print_run in H. inversion H; subst; simpl.
    simpl in Hjs, Hts. rewrite Hm in Hjs, Hts.
    split; [right; auto|auto].
  - apply resetJob_inv in H2
      as (Hc2 & _ & _ & [(E & F2 & Hk)|[(E & Hn & _)|(? & _)]]);
      try discriminate.
    + inversion E; subst. simpl in Hk, F2, Hc2.
      destruct Hk as [Hk1 Hk2]. simpl in Hk1, Hk2. rewrite Hm in Hk1, Hk2.
      split; [left; split; [auto|split; auto]|].
      intros Hc. rewrite Hf1, Hc1 in F2.
      rewrite (Hc (S (clock m))) in F2 by lia. discriminate.
    + simpl in Hn. unfold jobOf in *. simpl in Hn. rewrite Hm in Hn.
      congruence.
Qed.
End JobsCliFacts.

Section JobsCliAgain.
Import JobsCli.

Lemma find_update_where_same {A} (p : A -> bool) (f : A -> A) l :
  (forall a, p (f a) = p a) ->
  find p (update_where p f l) = option_map f (find p l).
Proof.
  intros Hp. unfold update_where. induction l as [|a l IH]; simpl; auto.
  destruct (p a) eqn:E.
  - now rewrite Hp, E.
  - now rewrite E.
Qed.

(** X13. A job that [retryJob] has reset cannot be retried again before
    it has failed again: the second call, whatever happens to its
    query, changes nothing and does not return - it reports that the
    job is PENDING and exits with code 1. *)
Theorem retryJob_twice (jobId : string) (m m1 m2 : Machine Cli)
    (r : Outcome Stop unit) (m' : Machine Cli) :
  retryJob jobId m = (Done tt, m1) ->
  mem m2 = mem m1 ->
  retryJob jobId m2 = (r, m') ->
  tables_kept (mem m2) (mem m') /\
  (r = Failed (Exit 1) \/ r = Failed Rejected) /\
  (faulty m2 (clock m2) = false ->
   r = Failed (Exit 1) /\
   console (mem m') =
     (console (mem m2)
      ++ [Error_not_failed "PENDING"; Error_only_failed_can_be_retried])%list).
Proof.
  intros H1 Hm H2.
  assert (Hj : exists j, jobOf jobId (mem m1) = Some (BackgroundJob.reset j)).
  { unfold retryJob in H1.
    apply pbind_inv in H1 as [(job & m0 & G1 & G) | (e & _ & ?)];
      [|discriminate].
    apply findUnique_inv in G1 as (Gm & _ & _ & [[E F]|[? _]]);
      [|discriminate].
    inversion E; subst job; clear E.
    destruct (jobOf jobId (mem m)) as [j|] eqn:Ej.
    2:{ rewrite print_run in G. discriminate. }
    destruct (negb _).
    { rewrite !print_run in G. discriminate. }
    rewrite !print_run in G.
    apply pbind_inv in G as [([] & m3 & G2 & G) | (e & _ & ?)];
      [|discriminate].
    apply resetJob_inv in G2
      as (_ & _ & _ & [(? & _)|[(? & _)|(_ & _ & _ & Hjs & _)]]);
      try discriminate.
    rewrite !print_run in G. inversion G; subst; simpl.
    exists j. unfold jobOf. simpl. rewrite Hjs. simpl. rewrite Gm.
    rewrite find_update_where_same by reflexivity.
    unfold jobOf in Ej. now rewrite Ej. }
  destruct Hj as [j Hj]. rewrite <- Hm in Hj.
  eapply (@retryJob_not_failed jobId (BackgroundJob.reset j)); eauto.
  simpl. discriminate.
Qed.

Lemma findMany_inv where_ m r m' :
  backgroundJob_findMany where_ m = (r, m') ->
  mem m' = mem m /\ clock m' = S (clock m) /\ faulty m' = faulty m /\
  (r = Done (filter where_ (backgroundJobs (mem m))) /\
   faulty m (clock m) = false \/
   r = Failed Rejected /\ faulty m (clock m) = true).
Proof.
  unfold backgroundJob_findMany. intros H.
  apply pbind_inv in H as [([] & m1 & H1 & H) | (e & H1 & ->)].
  - apply pawait_inv in H1 as (Hm & Hc & Hf & [[_ F]|[? _]]);
      [|discriminate].
    inversion H; subst. rewrite Hm. auto 10.
  - apply pawait_inv in H1 as (Hm & Hc & Hf & [[? _]|[E F]]);
      [discriminate|].
    inversion E; subst. auto 10.
Qed.

Lemma pforEach_print {A} (l : list A) (line : A -> Line) :
  forall m r m',
    pforEach l (fun x => print (line x)) m = (r, m') ->
    r = Done tt /\ clock m' = clock m /\ faulty m' = faulty m /\
    tables_kept (mem m) (mem m').
Proof.
  induction l as [|x l IH]; intros m r m' H; simpl in H.
  - inversion H; subst. repeat split; auto.
  - rewrite print_run in H. apply IH in H as (-> & Hc & Hf & Hk1 & Hk2).
    simpl in *. repeat split; auto.
Qed.

Lemma failedWhere_reset args j :
  failedWhere args (BackgroundJob.reset j) = false.
Proof. reflexivity. Qed.

Lemma id_in_failedIds args c j :
  In j (backgroundJobs c) -> failedWhere args j = true ->
  id_in (failedIds args c) (BackgroundJob.id j) = true.
Proof.
  intros Hin Hf. unfold id_in, failedIds. apply existsb_exists.
  exists (BackgroundJob.id j). split; [|apply String.eqb_refl].
  apply in_map. apply filter_In. auto.
Qed.

Lemma filter_failed_after args c :
  filter (failedWhere args)
    (update_where (fun j => id_in (failedIds args c) (BackgroundJob.id j))
                  BackgroundJob.reset (backgroundJobs c)) = [].
Proof.
  assert (G : forall l, incl l (backgroundJobs c) ->
              filter (failedWhere args)
                (update_where
                   (fun j => id_in (failedIds args c) (BackgroundJob.id j))
                   BackgroundJob.reset l) = []).
  { induction l as [|j l IH]; intros Hl; [reflexivity|].
    unfold update_where in *. simpl.
    assert (Hin : In j (backgroundJobs c)) by (apply Hl; now left).
    assert (Hl' : incl l (backgroundJobs c))
      by (intros x Hx; apply Hl; now right).
    destruct (id_in _ _) eqn:Ei.
    - rewrite failedWhere_reset. auto.
    - destruct (failedWhere args j) eqn:Ef; auto.
      rewrite (id_in_failedIds _ _ _ Hin Ef) in Ei. discriminate. }
  apply G. apply incl_refl.
Qed.

(** X14. [retryAllJobs] resets the FAILED jobs it selects in one piece:
    however the run ends, either neither table has changed, or it
    returned and the rows whose job id it selected are reset - a job to
    PENDING with its counters cleared, its tasks that were not COMPLETED
    to PENDING - while every other row is as it was. After a return no
    job of the table matches the selection any more. When no call fails
    it returns. *)
Theorem retryAllJobs_resets (args : ParsedArgs) (m : Machine Cli)
    (r : Outcome Stop unit) (m' : Machine Cli) :
  retryAllJobs args m = (r, m') ->
  (tables_kept (mem m) (mem m') \/
   r = Done tt /\
   backgroundJobs (mem m') =
     update_where
       (fun j => id_in (failedIds args (mem m)) (BackgroundJob.id j))
       BackgroundJob.reset (backgroundJobs (mem m)) /\
   backgroundJobTasks (mem m') =
     update_where (openTaskOf (id_in (failedIds args (mem m))))
       BackgroundJobTask.reset (backgroundJobTasks (mem m))) /\
  (r = Done tt -> filter (failedWhere args) (backgroundJobs (mem m')) = []) /\
  (calm m -> r = Done tt).
Proof.
  intros H. unfold retryAllJobs in H.
  apply pbind_inv in H as [(failedJobs & m1 & H1 & H) | (e & H1 & ->)].
  2:{ apply findMany_inv in H1 as (Hm & _ & _ & [[? _]|[E F]]);
        [discriminate|].
      inversion E; subst. rewrite Hm.
      split; [left; split; reflexivity|]. split; [discriminate|].
      intros Hc. rewrite (Hc (clock m)) in F by lia. discriminate. }
  apply findMany_inv in H1 as (Hm & Hc1 & Hf1 & [[E F]|[? _]]);
    [|discriminate].
  inversion E; subst failedJobs; clear E.
  destruct (filter (failedWhere args) (backgroundJobs (mem m)))
    as [|j0 js] eqn:Efail.
  { unfold print, pmodify in H. inversion H; subst; simpl. rewrite Hm.
    split; [left; split; reflexivity|]. split; [|auto].
    intros _. exact Efail. }
  assert (Hids : map BackgroundJob.id (j0 :: js) = failedIds args (mem m))
    by (unfold failedIds; now rewrite Efail).
  rewrite Hids in H. clear Hids.
  rewrite print_run in H.
  apply pbind_inv in H as [([] & m2 & H2 & H) | (e & H2 & ->)].
  2:{ apply pforEach_print in H2 as (? & _). discriminate. }
  apply pforEach_print in H2 as (_ & Hc2 & Hf2 & Hk2).
  rewrite print_run in H. unfold resetJobs in H.
  apply pbind_inv in H as [([] & m3 & H3 & H) | (e & H3 & ->)].
  2:{ apply pbind_inv in H3 as [([] & m4 & H4 & H5) | (e' & H4 & E')].
      - discriminate.
      - apply pawait_inv in H4 as (Hm4 & _ & _ & [[? _]|[E F4]]);
          [discriminate|].
        inversion E; subst. simpl in *. rewrite Hm4. simpl.
        destruct Hk2 as [K1 K2]. simpl in K1, K2. rewrite Hm in K1, K2.
        split; [left; split; auto|]. split; [discriminate|].
        intros Hc. rewrite Hf2 in F4. simpl in F4.
        rewrite Hf1, Hc2 in F4. simpl in F4.
        rewrite (Hc (clock m1)) in F4 by lia. discriminate. }
  apply pbind_inv in H3 as [([] & m4 & H4 & H5) | (e' & _ & ?)];
    [|discriminate].
  apply pawait_inv in H4 as (Hm4 & _ & _ & _).
  rewrite !print_run in H. inversion H; subst; clear H.
  inversion H5; subst; clear H5. simpl. rewrite Hm4. simpl.
  destruct Hk2 as [K1 K2]. simpl in K1, K2. rewrite Hm in K1, K2.
  rewrite K1, K2.
  split; [right; auto|]. split; [|auto].
  intros _. apply filter_failed_after.
Qed.
End JobsCliAgain.

Lemma retryJob_refuses_witness :
  JobsCli.tables_kept (mem (sound sample_cli))
    (mem (snd (JobsCli.retryJob "job_b" (sound sample_cli)))) /\
  fst (JobsCli.retryJob "job_b" (sound sample_cli))
  = Failed (JobsCli.Exit 1) /\
  JobsCli.console (mem (snd (JobsCli.retryJob "job_b" (sound sample_cli))))
  = [JobsCli.Error_not_failed "COMPLETED";
     JobsCli.Error_only_failed_can_be_retried].
Proof.
  destruct (@retryJob_refuses "job_b" (sound sample_cli)
              (fst (JobsCli.retryJob "job_b" (sound sample_cli)))
              (snd (JobsCli.retryJob "job_b" (sound sample_cli))))
    as (Hk & _ & Hn).
  - simpl. discriminate.
  - apply surjective_pairing.
  - destruct (Hn eq_refl) as [Hr Hc]. auto.
Defined.

Lemma retryJob_resets_witness :
  fst (JobsCli.retryJob "job_a" (sound sample_cli)) = Done tt /\
  map JobsCli.BackgroundJob.status
      (JobsCli.backgroundJobs
         (mem (snd (JobsCli.retryJob "job_a" (sound sample_cli)))))
  = ["PENDING"; "COMPLETED"; "FAILED"] /\
  map JobsCli.BackgroundJobTask.status
      (JobsCli.backgroundJobTasks
         (mem (snd (JobsCli.retryJob "job_a" (sound sample_cli)))))
  = ["COMPLETED"; "PENDING"; "FAILED"].
Proof.
  destruct (@retryJob_resets "job_a" sample_job_a (sound sample_cli)
              (fst (JobsCli.retryJob "job_a" (sound sample_cli)))
              (snd (JobsCli.retryJob "job_a" (sound sample_cli))))
    as ([[Hr _] | (Hr & Hj & Ht)] & Hc).
  - reflexivity.
  - reflexivity.
  - apply surjective_pairing.
  - vm_compute in Hr. discriminate.
  - split; [exact Hr|]. rewrite Hj, Ht. split; reflexivity.
Defined.

Lemma retryJob_twice_witness :
  fst (JobsCli.retryJob "job_a"
         (snd (JobsCli.retryJob "job_a" (sound sample_cli))))
  = Failed (JobsCli.Exit 1) /\
  JobsCli.tables_kept
    (mem (snd (JobsCli.retryJob "job_a" (sound sample_cli))))
    (mem (snd (JobsCli.retryJob "job_a"
                 (snd (JobsCli.retryJob "job_a" (sound sample_cli)))))).
Proof.
  destruct (@retryJob_twice "job_a" (sound sample_cli)
              (snd (JobsCli.retryJob "job_a" (sound sample_cli)))
              (snd (JobsCli.retryJob "job_a" (sound sample_cli)))
              (fst (JobsCli.retryJob "job_a"
                      (snd (JobsCli.retryJob "job_a" (sound sample_cli)))))
              (snd (JobsCli.retryJob "job_a"
                      (snd (JobsCli.retryJob "job_a" (sound sample_cli))))))
    as (Hk & _ & Hn).
  - vm_compute. reflexivity.
  - reflexivity.
  - apply surjective_pairing.
  - destruct (Hn eq_refl) as [Hr _]. auto.
Defined.

Lemma retryAllJobs_resets_witness :
  fst (JobsCli.retryAllJobs sample_retry_seal (sound sample_cli)) = Done tt /\
  map JobsCli.BackgroundJob.status
      (JobsCli.backgroundJobs
         (mem (snd (JobsCli.retryAllJobs sample_retry_seal
                      (sound sample_cli)))))
  = ["PENDING"; "COMPLETED"; "FAILED"] /\
  filter (JobsCli.failedWhere sample_retry_seal)
      (JobsCli.backgroundJobs
         (mem (snd (JobsCli.retryAllJobs sample_retry_seal
                      (sound sample_cli)))))
  = [].
Proof.
  destruct (@retryAllJobs_resets sample_retry_seal (sound sample_cli)
              (fst (JobsCli.retryAllJobs sample_retry_seal (sound sample_cli)))
              (snd (JobsCli.retryAllJobs sample_retry_seal (sound sample_cli))))
    as ([[Hj _] | (Hr & Hj & Ht)] & Hf & Hc).
  - apply surjective_pairing.
  - vm_compute in Hj. discriminate.
  - split; [exact Hr|]. split; [rewrite Hj; reflexivity|]. exact (Hf Hr).
Defined.

(* ================================================================= *)
(** ** compressPdf                                                     *)
(* ================================================================= *)

Ltac crunch :=
  cbv beta iota zeta delta
    [ptry pfinally pbind pawait pget pmodify pfail pret set_mem
     PdfCompression.writeFile PdfCompression.execGs PdfCompression.readFile
     PdfCompression.unlink PdfCompression.swallow];
  cbn [mem clock faulty].

Section CompressPdfFacts.

Import PdfCompression.

Lemma readAt_removeAt_same (p : string) (fs : Files) :
  readAt p (removeAt p fs) = None.
Proof.
  unfold readAt, removeAt. induction fs as [|[q d] fs IH]; simpl; auto.
  destruct (String.eqb q p) eqn:E; simpl; auto. now rewrite E.
Qed.

Lemma readAt_removeAt_other (p q : string) (fs : Files) :
  p <> q -> readAt p (removeAt q fs) = readAt p fs.
Proof.
  intros N. unfold readAt, removeAt.
  induction fs as [|[x d] fs IH]; simpl; auto.
  destruct (String.eqb x q) eqn:E; simpl.
  - apply String.eqb_eq in E. subst x.
    destruct (String.eqb q p) eqn:E'; auto.
    apply String.eqb_eq in E'. congruence.
  - destruct (String.eqb x p); auto.
Qed.

Lemma readAt_writeAt_same (p : string) (d : Buffer) (fs : Files) :
  readAt p (writeAt p d fs) = Some d.
Proof. unfold readAt, writeAt. simpl. now rewrite String.eqb_refl. Qed.

Lemma readAt_writeAt_other (p q : string) (d : Buffer) (fs : Files) :
  p <> q -> readAt p (writeAt q d fs) = readAt p fs.
Proof.
  intros N. unfold writeAt.
  change (readAt p ((q, d) :: removeAt q fs))
    with (option_map snd
            (if String.eqb q p then Some (q, d)
             else find (fun e => String.eqb (fst e) p) (removeAt q fs))).
  destruct (String.eqb q p) eqn:E.
  - apply String.eqb_eq in E. congruence.
  - now apply readAt_removeAt_other.
Qed.

Lemma removeAt_absent (p : string) (fs : Files) :
  readAt p fs = None -> removeAt p fs = fs.
Proof.
  unfold readAt, removeAt. induction fs as [|[q d] fs IH]; simpl; auto.
  destruct (String.eqb q p); simpl; [discriminate|].
  intros H. now rewrite IH.
Qed.

Variable parseInt : string -> option Z.
Variable shell : string -> Files -> bool * Files.
Variable env : Env.
Variable inputPath outputPath : string.

Local Notation "'compressPdf_'" :=
  (compressPdf parseInt shell env inputPath outputPath).

Local Notation "'kept'" := (elsewhere_kept inputPath outputPath).

Local Notation "'gsCommand_'" := (gsCommand inputPath outputPath).

Local Notation "'gsRun_'" := (gsRun shell env inputPath outputPath).

Local Notation "'gsOutput_'" := (gsOutput shell env inputPath outputPath).

Lemma kept_refl fs : kept fs fs.
Proof. intros p _ _. reflexivity. Qed.

Lemma kept_trans a b c : kept a b -> kept b c -> kept a c.
Proof. intros H1 H2 p N1 N2. now rewrite H2, H1. Qed.

Lemma kept_remove_input fs : kept fs (removeAt inputPath fs).
Proof. intros p N1 N2. now apply readAt_removeAt_other. Qed.

Lemma kept_remove_output fs : kept fs (removeAt outputPath fs).
Proof. intros p N1 N2. now apply readAt_removeAt_other. Qed.

Lemma kept_write_input d fs : kept fs (writeAt inputPath d fs).
Proof. intros p N1 N2. now apply readAt_writeAt_other. Qed.

Lemma kept_write_output d fs : kept fs (writeAt outputPath d fs).
Proof. intros p N1 N2. now apply readAt_writeAt_other. Qed.

(** [unlink(path).catch(() => {})] is one call; it removes the path
    unless the call is disturbed. *)
Lemma swallow_unlink_run (p : string) (m : Machine Files) :
  exists m', swallow (unlink p) m = (Done tt, m') /\
    faulty m' = faulty m /\ clock m' = S (clock m) /\
    (mem m' = mem m \/ mem m' = removeAt p (mem m)) /\
    (faulty m (clock m) = false -> mem m' = removeAt p (mem m)).
Proof.
  crunch.
  destruct (faulty m (clock m)) eqn:F; crunch.
  - eexists. split; [reflexivity|]. simpl. repeat split; auto. discriminate.
  - destruct (readAt p (mem m)) eqn:R; crunch.
    + eexists. split; [reflexivity|]. simpl. repeat split; auto.
    + eexists. split; [reflexivity|]. simpl. repeat split; auto.
      intros _. symmetry. now apply removeAt_absent.
Qed.

(** The [finally] block: two calls, never a failure. *)
Lemma cleanup_run (m : Machine Files) :
  exists m',
    ptry (fun _ => true)
      (pbind (swallow (unlink inputPath))
             (fun _ => swallow (unlink outputPath)))
      (fun _ => pret tt) m = (Done tt, m') /\
    faulty m' = faulty m /\ clock m' = S (S (clock m)) /\
    kept (mem m) (mem m') /\
    (faulty m (clock m) = false -> faulty m (S (clock m)) = false ->
     mem m' = removeAt outputPath (removeAt inputPath (mem m))).
Proof.
  destruct (swallow_unlink_run inputPath m) as (m1 & H1 & F1 & C1 & M1 & N1).
  destruct (swallow_unlink_run outputPath m1) as (m2 & H2 & F2 & C2 & M2 & N2).
  exists m2. unfold ptry, pbind. rewrite H1, H2.
  split; [reflexivity|]. split; [congruence|]. split; [congruence|]. split.
  - apply kept_trans with (mem m1).
    + destruct M1 as [-> | ->]; [apply kept_refl|apply kept_remove_input].
    + destruct M2 as [-> | ->]; [apply kept_refl|apply kept_remove_output].
  - intros A B. rewrite N2, N1; auto. now rewrite F1, C1.
Qed.

(** The [try ... catch] block: it always yields a buffer, the PDF or a
    strictly shorter output of the command; the files it leaves are
    those it found, with the input file written or not, or those the
    command left. *)
Lemma attempt_run (q : string) (pdf : Buffer) (m : Machine Files) :
  exists out m',
    ptry (fun _ => true)
      (pbind (writeFile inputPath pdf) (fun _ =>
       pbind (execGs shell inputPath outputPath q) (fun _ =>
       pbind (readFile outputPath) (fun compressedPdf =>
       if length compressedPdf <? length pdf
       then pret compressedPdf else pret pdf))))
      (fun _ => pret pdf) m = (Done out, m') /\
    faulty m' = faulty m /\ (clock m <= clock m')%nat /\
    (kept (mem m) (mem m') \/
     mem m' = snd (shell (gsCommand_ q) (writeAt inputPath pdf (mem m)))) /\
    (out = pdf \/
     (fst (shell (gsCommand_ q) (writeAt inputPath pdf (mem m))) = true /\
      readAt outputPath
        (snd (shell (gsCommand_ q) (writeAt inputPath pdf (mem m))))
      = Some out) /\
     length out < length pdf) /\
    (calm m ->
     out = match
             (if fst (shell (gsCommand_ q) (writeAt inputPath pdf (mem m)))
              then readAt outputPath
                     (snd (shell (gsCommand_ q)
                             (writeAt inputPath pdf (mem m))))
              else None)
           with
           | Some output => if length output <? length pdf
                            then output else pdf
           | None => pdf
           end).
Proof.
  crunch.
  destruct (faulty m (clock m)) eqn:F0; crunch.
  { do 2 eexists. split; [reflexivity|]. simpl.
    repeat split; auto using kept_refl.
    intros Hc. rewrite (Hc (clock m)) in F0 by lia. discriminate. }
  destruct (faulty m (S (clock m))) eqn:F1; crunch.
  { do 2 eexists. split; [reflexivity|]. simpl.
    repeat split; auto using kept_write_input.
    intros Hc. rewrite (Hc (S (clock m))) in F1 by lia. discriminate. }
  destruct (shell (gsCommand_ q) (writeAt inputPath pdf (mem m)))
    as [ok fs'] eqn:G.
  cbn [fst snd]. destruct ok; crunch.
  2:{ do 2 eexists. split; [reflexivity|]. simpl.
      repeat split; auto. }
  destruct (faulty m (S (S (clock m)))) eqn:F2; crunch.
  { do 2 eexists. split; [reflexivity|]. simpl.
    repeat split; auto.
    intros Hc. rewrite (Hc (S (S (clock m)))) in F2 by lia. discriminate. }
  destruct (readAt outputPath fs') as [output|] eqn:R; crunch.
  2:{ do 2 eexists. split; [reflexivity|]. simpl.
      repeat split; auto. }
  destruct (length output <? length pdf) eqn:L; crunch.
  - do 2 eexists. split; [reflexivity|]. simpl.
    repeat split; auto.
    right. split; auto. now apply Z.ltb_lt.
  - do 2 eexists. split; [reflexivity|]. simpl.
    repeat split; auto.
Qed.

(** How a call that goes on to the command runs: the [try] block, then
    the two calls of the [finally] block. *)
Lemma compressPdf_attempt_run (o : CompressPdfOptions) (m : Machine Files) :
  attempts parseInt env o = true ->
  exists out m1 m',
    compressPdf_ o m = (Done out, m') /\
    faulty m1 = faulty m /\ (clock m <= clock m1)%nat /\
    faulty m' = faulty m /\ clock m' = S (S (clock m1)) /\
    (kept (mem m) (mem m1) \/ mem m1 = snd (gsRun_ o (mem m))) /\
    kept (mem m1) (mem m') /\
    (out = pdf o \/
     gsOutput_ o (mem m) = Some out /\ length out < length (pdf o)) /\
    (calm m -> out = compressed shell env inputPath outputPath o (mem m)) /\
    (faulty m (clock m1) = false -> faulty m (S (clock m1)) = false ->
     mem m' = removeAt outputPath (removeAt inputPath (mem m1))).
Proof.
  intros A. unfold attempts in A.
  apply andb_true_iff in A as [En A].
  destruct (attempt_run (qualityOf env o) (pdf o) m)
    as (out & m1 & H1 & F1 & C1 & K1 & O1 & R1).
  destruct (cleanup_run m1) as (m2 & H2 & F2 & C2 & K2 & N2).
  exists out, m1, m2. split.
  - unfold compressPdf. rewrite En. cbn [negb].
    replace (negb match force o with Some f => f | None => false end
             && belowThreshold parseInt env (pdf o)) with false.
    2:{ destruct (match force o with Some f => f | None => false end);
          simpl in *; auto. now rewrite negb_true_iff in A. }
    unfold pfinally. fold (qualityOf env o).
    unfold qualityOf in H1 |- *. rewrite H1, H2. reflexivity.
  - split; [exact F1|]. split; [exact C1|]. split; [congruence|].
    split; [exact C2|]. split; [exact K1|]. split; [exact K2|].
    split; [|split].
    + destruct O1 as [O1 | [[Ok R] L]]; [now left|right].
      split; [|exact L]. unfold gsOutput, gsRun. now rewrite Ok.
    + exact R1.
    + rewrite <- F1. exact N2.
Qed.

(** A call that does not go on to the command does nothing. *)
Lemma compressPdf_skip_run (o : CompressPdfOptions) (m : Machine Files) :
  attempts parseInt env o = false ->
  compressPdf_ o m = (Done (pdf o), m).
Proof.
  intros A. unfold attempts in A. unfold compressPdf.
  destruct (PDF_COMPRESSION_ENABLED env); simpl in *; auto.
  destruct (match force o with Some f => f | None => false end);
    simpl in *; [discriminate|].
  apply negb_false_iff in A. now rewrite A.
Qed.

(** What every run leaves of the files: outside the two temp paths,
    what it found or what the command left. *)
Lemma compressPdf_files (o : CompressPdfOptions) (m : Machine Files) :
  kept (mem m) (mem (snd (compressPdf_ o m))) \/
  kept (snd (gsRun_ o (mem m))) (mem (snd (compressPdf_ o m))).
Proof.
  destruct (attempts parseInt env o) eqn:A.
  - destruct (compressPdf_attempt_run o m A)
      as (out & m1 & m' & H & _ & _ & _ & _ & [K1 | K1] & K2 & _).
    + left. rewrite H. simpl. eapply kept_trans; eauto.
    + right. rewrite H. simpl. now rewrite <- K1.
  - left. rewrite (compressPdf_skip_run o m A). apply kept_refl.
Qed.

(** X15. [compressPdf] never fails and never returns something larger:
    whatever the environment, the options, the files present, the
    command line does and the calls that are disturbed, it returns the
    PDF it was given or what a successful run of the Ghostscript
    command line, at the quality asked for and on that PDF, left at the
    output path, and the latter only when it is strictly shorter. *)
Theorem compressPdf_returns_pdf_or_shorter (o : CompressPdfOptions)
    (m : Machine Files) :
  exists out,
    fst (compressPdf_ o m) = Done out /\
    (out = pdf o \/
     gsOutput_ o (mem m) = Some out /\ length out < length (pdf o)).
Proof.
  destruct (attempts parseInt env o) eqn:A.
  - destruct (compressPdf_attempt_run o m A)
      as (out & m1 & m' & H & _ & _ & _ & _ & _ & _ & O & _).
    exists out. now rewrite H.
  - exists (pdf o). rewrite (compressPdf_skip_run o m A). auto.
Qed.

(** X16. The file operations of [compressPdf] itself touch nothing but
    its two temp files: after any run every other path holds what it
    held before the call or, once the command line was run, what the
    command left there - the quality and the paths are pasted into that
    command line as they are, so what it touches is the shell's affair.
    Hence, when the command line touches nothing but the two temp
    paths, neither does the call. When compression is disabled, or the
    PDF is below the threshold and the caller does not force it, the
    call returns the PDF without a single call of the file system or of
    the shell. *)
Theorem compressPdf_own_writes_are_temp_files (o : CompressPdfOptions)
    (m : Machine Files) :
  (kept (mem m) (mem (snd (compressPdf_ o m))) \/
   kept (snd (gsRun_ o (mem m))) (mem (snd (compressPdf_ o m)))) /\
  ((forall fs, kept fs (snd (shell (gsCommand_ (qualityOf env o)) fs))) ->
   kept (mem m) (mem (snd (compressPdf_ o m)))) /\
  (attempts parseInt env o = false ->
   compressPdf_ o m = (Done (pdf o), m)).
Proof.
  split; [apply compressPdf_files|]. split; [|apply compressPdf_skip_run].
  intros Hs. destruct (compressPdf_files o m) as [K | K]; [exact K|].
  eapply kept_trans; [|exact K]. unfold gsRun.
  eapply kept_trans; [apply kept_write_input|apply Hs].
Qed.

(** X17. [compressPdf] leaves no temp file behind: when it goes on to
    the command and the last two calls of the run - the two [unlink]s -
    are not disturbed, neither temp path exists afterwards, whether
    writing, the command or reading failed before or not. *)
Theorem compressPdf_cleans_up (o : CompressPdfOptions) (m : Machine Files) :
  attempts parseInt env o = true ->
  faulty m (clock (snd (compressPdf_ o m)) - 2) = false ->
  faulty m (clock (snd (compressPdf_ o m)) - 1) = false ->
  readAt inputPath (mem (snd (compressPdf_ o m))) = None /\
  readAt outputPath (mem (snd (compressPdf_ o m))) = None.
Proof.
  intros A.
  destruct (compressPdf_attempt_run o m A)
    as (out & m1 & m' & H & _ & _ & _ & C & _ & _ & _ & _ & N).
  rewrite H. cbn [snd]. rewrite C.
  replace (S (S (clock m1)) - 2)%nat with (clock m1) by lia.
  replace (S (S (clock m1)) - 1)%nat with (S (clock m1)) by lia.
  intros F1 F2. rewrite (N F1 F2). split.
  - destruct (String.string_dec inputPath outputPath) as [E|E].
    + rewrite <- E. apply readAt_removeAt_same.
    + rewrite readAt_removeAt_other by exact E. apply readAt_removeAt_same.
  - apply readAt_removeAt_same.
Qed.

(** X18. When no call is disturbed, [compressPdf] uses the compressed
    version exactly when the command succeeded and left an output file
    that is strictly shorter: a failing command, a missing output file,
    or an output as long as the PDF or longer, gives the PDF back. *)
Theorem compressPdf_undisturbed (o : CompressPdfOptions) (m : Machine Files) :
  attempts parseInt env o = true ->
  calm m ->
  fst (compressPdf_ o m)
  = Done (compressed shell env inputPath outputPath o (mem m)).
Proof.
  intros A Hc.
  destruct (compressPdf_attempt_run o m A)
    as (out & m1 & m' & H & _ & _ & _ & _ & _ & _ & _ & R & _).
  rewrite H. cbn [fst]. now rewrite (R Hc).
Qed.

End CompressPdfFacts.

Lemma sample_shell_keeps_elsewhere (command : string)
    (fs : PdfCompression.Files) :
  PdfCompression.elsewhere_kept "/tmp/input-1.pdf" "/tmp/output-2.pdf"
    fs (snd (sample_shell command fs)).
Proof.
  unfold sample_shell.
  destruct (PdfCompression.readAt "/tmp/input-1.pdf" fs); cbn [snd].
  - intros p _ N. now apply readAt_writeAt_other.
  - intros p _ _. reflexivity.
Qed.

Lemma compressPdf_own_writes_are_temp_files_witness :
  PdfCompression.elsewhere_kept "/tmp/input-1.pdf" "/tmp/output-2.pdf"
    sample_files
    (mem (snd (PdfCompression.compressPdf sample_parseInt sample_shell
                 sample_env "/tmp/input-1.pdf" "/tmp/output-2.pdf"
                 sample_forced_pdf (sound sample_files)))) /\
  PdfCompression.compressPdf sample_parseInt sample_shell sample_env
    "/tmp/input-1.pdf" "/tmp/output-2.pdf" sample_small_pdf
    (sound sample_files)
  = (Done "%PDF-1.4 sample", sound sample_files).
Proof.
  split.
  - apply (proj1 (proj2 (@compressPdf_own_writes_are_temp_files
                           sample_parseInt sample_shell sample_env
                           "/tmp/input-1.pdf" "/tmp/output-2.pdf"
                           sample_forced_pdf (sound sample_files)))).
    intros fs. apply sample_shell_keeps_elsewhere.
  - apply (proj2 (proj2 (@compressPdf_own_writes_are_temp_files
                           sample_parseInt sample_shell sample_env
                           "/tmp/input-1.pdf" "/tmp/output-2.pdf"
                           sample_small_pdf (sound sample_files)))).
    vm_compute. reflexivity.
Defined.

Lemma compressPdf_cleans_up_witness :
  PdfCompression.readAt "/tmp/input-1.pdf"
    (mem (snd (PdfCompression.compressPdf sample_parseInt sample_shell
                 sample_env "/tmp/input-1.pdf" "/tmp/output-2.pdf"
                 sample_forced_pdf sample_exec_fails))) = None /\
  PdfCompression.readAt "/tmp/output-2.pdf"
    (mem (snd (PdfCompression.compressPdf sample_parseInt sample_shell
                 sample_env "/tmp/input-1.pdf" "/tmp/output-2.pdf"
                 sample_forced_pdf sample_exec_fails))) = None.
Proof.
  apply (@compressPdf_cleans_up sample_parseInt sample_shell sample_env
           "/tmp/input-1.pdf" "/tmp/output-2.pdf" sample_forced_pdf
           sample_exec_fails); vm_compute; reflexivity.
Defined.

Lemma compressPdf_undisturbed_witness :
  fst (PdfCompression.compressPdf sample_parseInt sample_shell
         sample_env "/tmp/input-1.pdf" "/tmp/output-2.pdf"
         sample_forced_pdf (sound sample_files))
  = Done "%PDF-1.4".
Proof.
  apply (@compressPdf_undisturbed sample_parseInt sample_shell
           sample_env "/tmp/input-1.pdf" "/tmp/output-2.pdf"
           sample_forced_pdf (sound sample_files)).
  - vm_compute. reflexivity.
  - apply calm_sound.
Defined.

(* ================================================================= *)
(** ** replaceTemplatePdf                                              *)
(* ================================================================= *)

Lemma pall_inv {E T A B} (p : Proc E T A) (q : Proc E T B) m r m' :
  pall p q m = (r, m') ->
  exists rp m1 rq,
    p m = (rp, m1) /\ q m1 = (rq, m') /\
    r = match rp, rq with
        | Done a, Done b => Done (a, b)
        | Done _, Failed e => Failed e
        | Failed e, _ => Failed e
        end.
Proof.
  unfold pall. destruct (p m) as [[a|e] m1] eqn:P.
  - destruct (q m1) as [[b|e] m2] eqn:Q; intros H; inversion H; subst;
      do 3 eexists; repeat split; eauto.
  - destruct (q m1) as [rq m2] eqn:Q. simpl. intros H; inversion H; subst.
    do 3 eexists; repeat split; eauto.
Qed.

Ltac tidy := cbv beta iota zeta; cbn [mem clock faulty fst snd].

Section ReplaceTemplatePdfFacts.

Import TemplatePdf.

Variable getTemplateById :
  EnvelopeIdOptions -> Z -> Z -> Store -> option Template.
Variable getFileServerSide : string -> string -> option Buffer.
Variable getPageCount : Buffer -> option Z.
Variable newLoadRejectsFirst : bool.

Lemma reads_refl m : reads m m.
Proof. repeat split; auto. Qed.

Lemma reads_trans a b c : reads a b -> reads b c -> reads a c.
Proof.
  intros (A1 & A2 & A3) (B1 & B2 & B3). repeat split; try congruence. lia.
Qed.

Lemma reads_calm m m' : reads m m' -> calm m -> calm m'.
Proof.
  intros (_ & F & C) H k Hk. rewrite F. apply H. lia.
Qed.

Lemma pawait_reads (m : Machine Store) r m' :
  pawait Rejected m = (r, m') ->
  reads m m' /\
  (r = Done tt \/ r = Failed Rejected) /\ (calm m -> r = Done tt).
Proof.
  intros H. apply pawait_inv in H as (A & B & C & D).
  split; [repeat split; auto; lia|]. split.
  - destruct D as [[-> _]|[-> _]]; auto.
  - intros Hc. destruct D as [[-> _]|[_ F]]; auto.
    rewrite (Hc (clock m)) in F by lia. discriminate.
Qed.

Lemma template_get_inv o m r m' :
  template_get getTemplateById o m = (r, m') ->
  reads m m' /\
  (r = Failed Rejected \/
   r = match getTemplateById (o_id o) (userId o) (teamId o) (mem m) with
       | Some t => Done t
       | None => Failed TemplateError
       end) /\
  (calm m ->
   r = match getTemplateById (o_id o) (userId o) (teamId o) (mem m) with
       | Some t => Done t
       | None => Failed TemplateError
       end).
Proof.
  unfold template_get. intros H.
  apply pbind_inv in H as [(u & m1 & H1 & H) | (e & H1 & ->)].
  - apply pawait_reads in H1 as (R & _ & _).
    unfold pbind, pget in H. destruct R as (Rm & Rf & Rc).
    rewrite Rm in H.
    destruct (getTemplateById _ _ _ _); inversion H; subst;
      (split; [repeat split; auto|]); auto.
  - apply pawait_reads in H1 as (R & [D|D] & C); [discriminate|].
    inversion D; subst. split; [exact R|]. split; [auto|].
    intros Hc. specialize (C Hc). discriminate.
Qed.

Lemma documentData_findUnique_inv id m r m' :
  documentData_findUnique id m = (r, m') ->
  reads m m' /\
  (r = Failed Rejected \/
   r = Done (find (fun d => String.eqb (DocumentData.id d) id)
                  (documentData (mem m)))) /\
  (calm m ->
   r = Done (find (fun d => String.eqb (DocumentData.id d) id)
                  (documentData (mem m)))).
Proof.
  unfold documentData_findUnique. intros H.
  apply pbind_inv in H as [(u & m1 & H1 & H) | (e & H1 & ->)].
  - apply pawait_reads in H1 as (R & _ & _).
    unfold pbind, pget, pret in H. destruct R as (Rm & Rf & Rc).
    rewrite Rm in H. inversion H; subst.
    split; [repeat split; auto|]. auto.
  - apply pawait_reads in H1 as (R & [D|D] & C); [discriminate|].
    inversion D; subst. split; [exact R|]. split; [auto|].
    intros Hc. specialize (C Hc). discriminate.
Qed.

Lemma getDocumentDataBuffer_inv type data m r m' :
  getDocumentDataBuffer getFileServerSide type data m = (r, m') ->
  reads m m' /\
  (r = Failed Rejected \/
   exists b, getFileServerSide type data = Some b /\ r = Done b) /\
  (calm m -> forall b, getFileServerSide type data = Some b -> r = Done b).
Proof.
  unfold getDocumentDataBuffer. intros H.
  apply pbind_inv in H as [(u & m1 & H1 & H) | (e & H1 & ->)].
  - apply pawait_reads in H1 as (R & _ & _).
    destruct (getFileServerSide type data) as [b|];
      inversion H; subst; (split; [exact R|]); split; eauto;
      intros _ b' E; now inversion E.
  - apply pawait_reads in H1 as (R & [D|D] & C); [discriminate|].
    inversion D; subst. split; [exact R|]. split; [auto|].
    intros Hc. specialize (C Hc). discriminate.
Qed.

Local Notation "'loadPageCounts''" :=
  (loadPageCounts getTemplateById getFileServerSide getPageCount
     newLoadRejectsFirst).

Lemma loadBoth_run a b (m : Machine Store) :
  loadBoth getPageCount newLoadRejectsFirst a b m
  = (fst (loadBoth getPageCount newLoadRejectsFirst a b (sound (mem m))), m).
Proof.
  unfold loadBoth.
  destruct (getPageCount a), (getPageCount b); reflexivity.
Qed.

(** [loadPageCounts] only reads, and a disturbed call is all that can
    make it differ from its run on a sound machine. *)
Lemma loadPageCounts_inv o m r m' :
  loadPageCounts' o m = (r, m') ->
  reads m m' /\
  (r = Failed Rejected \/ r = fst (loadPageCounts' o (sound (mem m)))) /\
  (calm m -> r = fst (loadPageCounts' o (sound (mem m)))).
Proof.
  cbv beta iota zeta delta
    [TemplatePdf.loadPageCounts template_get documentData_findUnique
     getDocumentDataBuffer loadBoth pall pbind pawait pget pret pfail
     sound reads].
  tidy.
  destruct (faulty m (clock m)) eqn:F0; tidy.
  { intros H; inversion H; subst; cbn [mem clock faulty].
    split; [repeat split; auto|]. split; [auto|].
    intros Hc. rewrite (Hc (clock m)) in F0 by lia. discriminate. }
  destruct (getTemplateById (o_id o) (userId o) (teamId o) (mem m))
    as [t|] eqn:T; tidy.
  2:{ intros H; inversion H; subst; cbn [mem clock faulty].
      split; [repeat split; auto|]. split; auto. }
  destruct (faulty m (S (clock m))) eqn:F1; tidy.
  { intros H; inversion H; subst; cbn [mem clock faulty].
    split; [repeat split; auto|]. split; [auto|].
    intros Hc. rewrite (Hc (S (clock m))) in F1 by lia. discriminate. }
  destruct (find _ (documentData (mem m))) as [nd|] eqn:N; tidy.
  2:{ intros H; inversion H; subst; cbn [mem clock faulty].
      split; [repeat split; auto|]. split; auto. }
  destruct (faulty m (S (S (clock m)))) eqn:F2; tidy;
    destruct (getFileServerSide (type (templateDocumentData t))
                (data (templateDocumentData t))) as [a|] eqn:A; tidy;
    destruct (faulty m (S (S (S (clock m))))) eqn:F3; tidy;
    destruct (getFileServerSide (DocumentData.type nd)
                (DocumentData.data nd)) as [b|] eqn:B; tidy;
    try (destruct (getPageCount a) as [x|] eqn:X; tidy);
    try (destruct (getPageCount b) as [y|] eqn:Y; tidy);
    intros H; inversion H; subst; tidy;
    (split; [repeat split; auto; lia|]); (split; [auto|]);
    intros Hc; try reflexivity;
    try (rewrite (Hc (S (S (clock m)))) in F2 by lia; discriminate);
    try (rewrite (Hc (S (S (S (clock m))))) in F3 by lia; discriminate).
Qed.

Local Notation "'pageCountsOn''" :=
  (pageCountsOn getTemplateById getFileServerSide getPageCount).

Lemma loadPageCounts_sound_iff o s l :
  fst (loadPageCounts' o (sound s)) = Done l <-> pageCountsOn' o s = Some l.
Proof.
  cbv beta iota zeta delta
    [TemplatePdf.loadPageCounts TemplatePdf.pageCountsOn template_get
     documentData_findUnique getDocumentDataBuffer loadBoth pall pbind
     pawait pget pret pfail sound].
  tidy.
  destruct (getTemplateById (o_id o) (userId o) (teamId o) s)
    as [t|]; tidy; [|split; discriminate].
  destruct (find _ (documentData s)) as [nd|]; tidy; [|split; discriminate].
  destruct (getFileServerSide (type (templateDocumentData t))
              (data (templateDocumentData t))) as [a|]; tidy;
    destruct (getFileServerSide (DocumentData.type nd)
                (DocumentData.data nd)) as [b|]; tidy;
    try (split; discriminate).
  destruct (getPageCount a) as [x|]; tidy;
    destruct (getPageCount b) as [y|]; tidy;
    split; intros H; inversion H; subst; auto.
Qed.

Lemma loadPageCounts_sound_missing o s t :
  getTemplateById (o_id o) (userId o) (teamId o) s = Some t ->
  find (fun d => String.eqb (DocumentData.id d) (newDocumentDataId o))
       (documentData s) = None ->
  fst (loadPageCounts' o (sound s))
  = Failed (AppError NOT_FOUND New_document_data_not_found).
Proof.
  intros T N.
  cbv beta iota zeta delta
    [TemplatePdf.loadPageCounts template_get documentData_findUnique
     pbind pawait pget pret pfail sound].
  tidy. rewrite T. tidy. rewrite N. reflexivity.
Qed.

(** How [loadPageCounts] ends on a store on which it finds the page
    counts. *)
Lemma loadPageCounts_found o m r m' l :
  pageCountsOn' o (mem m) = Some l ->
  loadPageCounts' o m = (r, m') ->
  reads m m' /\ (r = Failed Rejected \/ r = Done l) /\ (calm m -> r = Done l).
Proof.
  intros P H. apply loadPageCounts_inv in H as (R & D & C).
  apply loadPageCounts_sound_iff in P. rewrite P in D, C. auto.
Qed.

(** What a return of [loadPageCounts] tells. *)
Lemma loadPageCounts_done o m l m' :
  loadPageCounts' o m = (Done l, m') ->
  reads m m' /\ pageCountsOn' o (mem m) = Some l.
Proof.
  intros H. apply loadPageCounts_inv in H as (R & [D|D] & _);
    [discriminate|].
  split; [exact R|]. apply loadPageCounts_sound_iff. now symmetry.
Qed.

Local Notation "'repoint''" := (repoint getTemplateById).

(** [repoint] writes the envelope items at most, and a return tells that
    it did and what [getTemplateById] gave on the result. *)
Lemma repoint_inv o t m r m' :
  repoint' o t m = (r, m') ->
  documentData (mem m') = documentData (mem m) /\
  fields (mem m') = fields (mem m) /\
  faulty m' = faulty m /\
  (envelopeItems (mem m') = envelopeItems (mem m) \/
   envelopeItems (mem m') = repointed o t (mem m)) /\
  (forall t', r = Done t' ->
     envelopeItems (mem m') = repointed o t (mem m) /\
     getTemplateById (o_id o) (userId o) (teamId o) (mem m') = Some t').
Proof.
  unfold TemplatePdf.repoint. intros H.
  apply pbind_inv in H as [(u & m1 & H1 & H) | (e & H1 & ->)].
  - assert (U : documentData (mem m1) = documentData (mem m) /\
                fields (mem m1) = fields (mem m) /\
                faulty m1 = faulty m /\
                envelopeItems (mem m1) = repointed o t (mem m)).
    { revert H1.
      cbv beta iota zeta delta
        [envelopeItem_update pbind pawait pget pmodify pret pfail set_mem].
      tidy. destruct (faulty m (clock m)); tidy; [discriminate|].
      destruct (existsb _ _); tidy; [|discriminate].
      intros E; inversion E; subst. cbn. auto. }
    destruct U as (U1 & U2 & U3 & U4).
    apply template_get_inv in H as ((Rm & Rf & _) & D & _).
    rewrite Rm, Rf. split; [auto|]. split; [auto|]. split; [auto|].
    split; [auto|]. intros t' ->. split; [auto|].
    destruct D as [D|D]; [discriminate|].
    destruct (getTemplateById _ _ _ (mem m1)); inversion D; auto.
  - assert (U : mem m' = mem m /\ faulty m' = faulty m).
    { revert H1.
      cbv beta iota zeta delta
        [envelopeItem_update pbind pawait pget pmodify pret pfail set_mem].
      tidy. destruct (faulty m (clock m)); tidy.
      - intros E; inversion E; subst. cbn. auto.
      - destruct (existsb _ _); tidy; [discriminate|].
        intros E; inversion E; subst. cbn. auto. }
    destruct U as (U1 & U2). rewrite U1.
    split; [auto|]. split; [auto|]. split; [auto|]. split; [auto|].
    intros t' E. discriminate.
Qed.

(** An undisturbed [repoint] returns once the item exists and
    [getTemplateById] gives the template on the result. *)
Lemma repoint_calm o t m t' :
  calm m ->
  itemExists t (mem m) = true ->
  getTemplateById (o_id o) (userId o) (teamId o)
    (set_envelopeItems (repointed o t (mem m)) (mem m)) = Some t' ->
  fst (repoint' o t m) = Done t' /\
  mem (snd (repoint' o t m))
  = set_envelopeItems (repointed o t (mem m)) (mem m).
Proof.
  intros Hc Ex G.
  cbv beta iota zeta delta
    [TemplatePdf.repoint envelopeItem_update template_get pbind pawait pget
     pmodify pret pfail set_mem].
  tidy. rewrite (Hc (clock m)) by lia. tidy.
  unfold itemExists in Ex. rewrite Ex. tidy.
  rewrite (Hc (S (clock m))) by lia. tidy.
  unfold repointed in G. rewrite G. auto.
Qed.

Lemma id_in_map_filter (P : Field.t -> bool) (l : list Field.t) f :
  In f l -> P f = true -> id_in (map Field.id (filter P l)) (Field.id f) = true.
Proof.
  intros I Pf. unfold id_in. apply existsb_exists.
  exists (Field.id f). split; [|apply Z.eqb_refl].
  apply in_map. apply filter_In. auto.
Qed.

Lemma id_in_map_filter_unique (P : Field.t -> bool) (l : list Field.t) f :
  NoDup (map Field.id l) -> In f l ->
  id_in (map Field.id (filter P l)) (Field.id f) = P f.
Proof.
  intros U I. destruct (P f) eqn:Pf; [now apply id_in_map_filter|].
  destruct (id_in _ _) eqn:E; auto.
  unfold id_in in E. apply existsb_exists in E as (x & Hx & Ex).
  apply Z.eqb_eq in Ex. subst x.
  apply in_map_iff in Hx as (g & Eg & Hg).
  apply filter_In in Hg as (Ig & Pg).
  assert (g = f); [|congruence].
  clear Pf Pg. induction l as [|a l IH]; [contradiction|].
  simpl in U. inversion U as [|? ? Na Ul]; subst.
  destruct I as [->|I], Ig as [->|Ig]; auto.
  - exfalso. apply Na. rewrite <- Eg. now apply in_map.
  - exfalso. apply Na. rewrite Eg. now apply in_map.
Qed.

(** Lines 89-122 of part_000: the block that deletes the fields of the
    removed pages. It touches the fields only, and a return tells which
    stayed and how many went. *)
Lemma prune_inv (env : string) (a b : Z) m r m' :
  (if b <? a
   then pbind (field_findMany (onRemovedPage env b))
          (fun fieldsToDelete =>
           if 0 <? Z.of_nat (List.length fieldsToDelete)
           then field_deleteMany
                  (fun f => id_in (map Field.id fieldsToDelete) (Field.id f))
           else pret 0)
   else pret 0) m = (r, m') ->
  let doomed f :=
    (b <? a) && id_in (map Field.id
                         (filter (onRemovedPage env b) (fields (mem m))))
                      (Field.id f) in
  documentData (mem m') = documentData (mem m) /\
  envelopeItems (mem m') = envelopeItems (mem m) /\
  faulty m' = faulty m /\ (clock m <= clock m')%nat /\
  (fields (mem m') = fields (mem m) \/
   fields (mem m') = filter (fun f => negb (doomed f)) (fields (mem m))) /\
  (forall c, r = Done c ->
     fields (mem m') = filter (fun f => negb (doomed f)) (fields (mem m)) /\
     c = Z.of_nat (List.length (fields (mem m)))
         - Z.of_nat (List.length (fields (mem m')))) /\
  (calm m -> calm m' /\ exists c, r = Done c).
Proof.
  assert (K : forall l : list Field.t, filter (fun _ => true) l = l).
  { induction l as [|x l IH]; [reflexivity|].
    cbn [filter]. f_equal. exact IH. }
  intros H doomed. subst doomed. revert H.
  destruct (b <? a) eqn:L; cbn [andb].
  2:{ intros H; inversion H; subst. cbn [negb]. rewrite K.
      do 3 (split; [reflexivity|]). split; [lia|].
      split; [now left|]. split.
      - intros c E. inversion E. split; [reflexivity|lia].
      - intros Hc. split; [exact Hc|eauto]. }
  cbv beta iota zeta delta
    [field_findMany field_deleteMany pbind pawait pget pmodify pret pfail
     set_mem].
  tidy.
  destruct (faulty m (clock m)) eqn:F0; tidy.
  { intros H; inversion H; subst; cbn [mem clock faulty].
    do 3 (split; [reflexivity|]). split; [lia|].
    split; [now left|]. split.
    - intros c E. discriminate.
    - intros Hc. rewrite (Hc (clock m)) in F0 by lia. discriminate. }
  destruct (filter (onRemovedPage env b) (fields (mem m))) as [|f0 fs] eqn:D.
  { cbn. intros H; inversion H; subst; cbn [mem clock faulty].
    rewrite K.
    do 3 (split; [reflexivity|]). split; [lia|].
    split; [now left|]. split.
    - intros c E. inversion E. split; [reflexivity|lia].
    - intros Hc. split; [|eauto].
      intros k Hk. cbn in *. apply Hc. lia. }
  replace (0 <? Z.of_nat (List.length (f0 :: fs))) with true
    by (symmetry; apply Z.ltb_lt; simpl; lia).
  tidy.
  destruct (faulty m (S (clock m))) eqn:F1; tidy.
  { intros H; inversion H; subst; cbn [mem clock faulty].
    do 3 (split; [reflexivity|]). split; [lia|].
    split; [now left|]. split.
    - intros c E. discriminate.
    - intros Hc. rewrite (Hc (S (clock m))) in F1 by lia. discriminate. }
  generalize (map Field.id (f0 :: fs)). intros ids.
  intros H; inversion H; subst;
    cbn [mem clock faulty set_fields documentData envelopeItems fields].
  do 3 (split; [reflexivity|]). split; [lia|].
  split; [now right|]. split.
  - intros c E. inversion E; subst. split; [reflexivity|].
    pose proof (filter_length (fun f => id_in ids (Field.id f))
                  (fields (mem m))) as FL.
    lia.
  - intros Hc. split; [|eauto].
    intros k Hk. cbn in *. apply Hc. lia.
Qed.

Local Notation "'replaceTemplatePdf''" :=
  (replaceTemplatePdf getTemplateById getFileServerSide getPageCount
     newLoadRejectsFirst).

Local Notation "'replaceTemplatePdf_part_000''" :=
  (replaceTemplatePdf_part_000 getTemplateById getFileServerSide getPageCount
     newLoadRejectsFirst).

Lemma repointed_same_items o t s s' :
  envelopeItems s' = envelopeItems s -> repointed o t s' = repointed o t s.
Proof. unfold repointed. now intros ->. Qed.

(** What a return of the version of part_000 tells. *)
Lemma part_000_done o m res m' :
  replaceTemplatePdf_part_000' o m = (Done res, m') ->
  exists t,
    pageCountsOn' o (mem m)
    = Some (t, (oldPageCount res, newPageCount res)) /\
    documentData (mem m') = documentData (mem m) /\
    envelopeItems (mem m') = repointed o t (mem m) /\
    fields (mem m')
    = filter
        (fun f =>
           negb ((newPageCount res <? oldPageCount res)
                 && id_in (map Field.id
                             (filter (onRemovedPage (envelopeId t)
                                                    (newPageCount res))
                                     (fields (mem m))))
                          (Field.id f)))
        (fields (mem m)) /\
    deletedFieldsCount res
    = Z.of_nat (List.length (fields (mem m)))
      - Z.of_nat (List.length (fields (mem m'))) /\
    getTemplateById (o_id o) (userId o) (teamId o) (mem m')
    = Some (template res).
Proof.
  unfold TemplatePdf.replaceTemplatePdf_part_000. intros H.
  apply pbind_inv in H as [([t [a b]] & m1 & H1 & H) | (e & _ & E)];
    [|discriminate].
  apply loadPageCounts_done in H1 as ((Rm & Rf & Rc) & P).
  cbn [fst snd] in H.
  apply pbind_inv in H as [(c & m2 & H2 & H) | (e & _ & E)];
    [|discriminate].
  apply prune_inv in H2 as (D2 & I2 & F2 & C2 & _ & N2 & _).
  destruct (N2 c eq_refl) as (Fl & Ec).
  apply pbind_inv in H as [(t' & m3 & H3 & H) | (e & _ & E)];
    [|discriminate].
  apply repoint_inv in H3 as (D3 & Fl3 & F3 & _ & N3).
  destruct (N3 t' eq_refl) as (I3 & G3).
  inversion H; subst; clear H. cbn [oldPageCount newPageCount
    deletedFieldsCount template].
  exists t. rewrite Rm in *. split; [exact P|].
  split; [congruence|]. split.
  - rewrite I3. now apply repointed_same_items.
  - split; [congruence|]. split; [|exact G3].
    rewrite Fl3. reflexivity.
Qed.

(** X19. [replaceTemplatePdf] of replace-template-pdf.ts changes nothing
    but the envelope item of the template, and that only after it has
    found the new document data and loaded both PDFs with the same
    number of pages. When it returns, the item points at the new
    document data and the result is what [getTemplateById] gives on the
    store so changed. *)
Theorem replaceTemplatePdf_repoints_after_validation
    (o : ReplaceTemplatePdfOptions) (m : Machine Store)
    (r : Outcome Failure Template) (m' : Machine Store) :
  replaceTemplatePdf' o m = (r, m') ->
  documentData (mem m') = documentData (mem m) /\
  fields (mem m') = fields (mem m) /\
  (envelopeItems (mem m') = envelopeItems (mem m) \/
   exists t n, pageCountsOn' o (mem m) = Some (t, (n, n)) /\
               envelopeItems (mem m') = repointed o t (mem m)) /\
  (forall t', r = Done t' ->
     (exists t n, pageCountsOn' o (mem m) = Some (t, (n, n)) /\
                  envelopeItems (mem m') = repointed o t (mem m)) /\
     getTemplateById (o_id o) (userId o) (teamId o) (mem m') = Some t').
Proof.
  unfold TemplatePdf.replaceTemplatePdf. intros H.
  apply pbind_inv in H as [([t [a b]] & m1 & H1 & H) | (e & H1 & ->)].
  2:{ apply loadPageCounts_inv in H1 as ((Rm & _) & _). rewrite Rm.
      do 2 (split; [reflexivity|]). split; [now left|].
      intros t' E. discriminate. }
  apply loadPageCounts_done in H1 as ((Rm & Rf & Rc) & P).
  cbn [fst snd] in H. destruct (a =? b) eqn:Eab; cbn [negb] in H.
  - apply Z.eqb_eq in Eab. subst b.
    apply repoint_inv in H as (D & Fl & F & I & N). rewrite Rm in *.
    split; [exact D|]. split; [exact Fl|]. split.
    + destruct I as [I|I]; [now left|right; eauto].
    + intros t' E. destruct (N t' E) as (I' & G). split; eauto.
  - inversion H; subst. rewrite Rm.
    do 2 (split; [reflexivity|]). split; [now left|].
    intros t' E. discriminate.
Qed.

(** X20. [replaceTemplatePdf] of replace-template-pdf.ts turns down a
    new PDF whose document data is missing (NOT_FOUND) or whose page
    count differs from the old one's (INVALID_REQUEST, with both
    counts): the store stays as it was, the call throws that error
    unless an awaited call failed before, and it throws exactly that
    error when none does. *)
Theorem replaceTemplatePdf_refuses (o : ReplaceTemplatePdfOptions)
    (e : Failure) (m : Machine Store) (r : Outcome Failure Template)
    (m' : Machine Store) :
  refusal getTemplateById getFileServerSide getPageCount o (mem m) e ->
  replaceTemplatePdf' o m = (r, m') ->
  mem m' = mem m /\
  (r = Failed e \/ r = Failed Rejected) /\
  (calm m -> r = Failed e).
Proof.
  intros Hr H. unfold TemplatePdf.replaceTemplatePdf in H.
  destruct Hr as [t T N | t a b P Nab].
  - pose proof (loadPageCounts_sound_missing o T N) as S.
    apply pbind_inv in H as [(l & m1 & H1 & H) | (e & H1 & ->)].
    + apply loadPageCounts_inv in H1 as (_ & [D|D] & _);
        [discriminate|]. rewrite S in D. discriminate.
    + apply loadPageCounts_inv in H1 as ((Rm & _) & D & C).
      rewrite S in D, C. split; [exact Rm|]. split.
      * destruct D as [D|D]; inversion D; auto.
      * intros Hc. specialize (C Hc). now inversion C.
  - apply pbind_inv in H as [(l & m1 & H1 & H) | (e & H1 & ->)].
    + destruct (@loadPageCounts_found o _ _ _ _ P H1) as ((Rm & _) & D & _).
      destruct D as [D|D]; [discriminate|]. inversion D; subst l.
      cbn [fst snd] in H.
      replace (a =? b) with false in H
        by (symmetry; now apply Z.eqb_neq).
      cbn [negb] in H. inversion H; subst. auto.
    + destruct (@loadPageCounts_found o _ _ _ _ P H1) as ((Rm & _) & D & C).
      split; [exact Rm|]. split.
      * destruct D as [D|D]; [inversion D; auto|discriminate].
      * intros Hc. specialize (C Hc). discriminate.
Qed.

Lemma filter_all (l : list Field.t) : filter (fun _ => true) l = l.
Proof.
  induction l as [|x l IH]; [reflexivity|]. cbn [filter]. f_equal. exact IH.
Qed.

(** With unique ids, deleting by the ids found deletes what was
    found. *)
Lemma pruned_by_ids (env : string) (a b : Z) (s : Store) :
  NoDup (map Field.id (fields s)) ->
  filter
    (fun f =>
       negb ((b <? a)
             && id_in (map Field.id (filter (onRemovedPage env b) (fields s)))
                      (Field.id f)))
    (fields s)
  = pruned env a b s.
Proof.
  intros U. unfold pruned. destruct (b <? a); cbn [andb negb].
  - apply filter_ext_in. intros f I.
    now rewrite id_in_map_filter_unique.
  - apply filter_all.
Qed.

(** X21. When the version of part_000 returns, it has deleted exactly
    the fields of the template's envelope that lie beyond the last page
    of a shorter new PDF, and no field when the new PDF is not shorter;
    [deletedFieldsCount] is the number of fields that went, the page
    counts returned are those of the two PDFs, the envelope item points
    at the new document data, and the template returned is the one
    [getTemplateById] gives on that store. Field ids are unique. *)
Theorem replaceTemplatePdf_part_000_deletes_removed_pages
    (o : ReplaceTemplatePdfOptions) (m : Machine Store)
    (res : ReplaceTemplatePdfResult) (m' : Machine Store) :
  NoDup (map Field.id (fields (mem m))) ->
  replaceTemplatePdf_part_000' o m = (Done res, m') ->
  exists t,
    pageCountsOn' o (mem m)
    = Some (t, (oldPageCount res, newPageCount res)) /\
    mem m' = replaced o t (oldPageCount res) (newPageCount res) (mem m) /\
    deletedFieldsCount res
    = Z.of_nat (List.length (fields (mem m)))
      - Z.of_nat (List.length (fields (mem m'))) /\
    getTemplateById (o_id o) (userId o) (teamId o) (mem m')
    = Some (template res).
Proof.
  intros U H. apply part_000_done in H as (t & P & D & I & F & C & G).
  exists t. split; [exact P|]. split; [|split; [exact C|exact G]].
  rewrite pruned_by_ids in F by exact U.
  unfold replaced. destruct (mem m') as [d i f]. cbn in D, I, F.
  now subst.
Qed.

(** X22. The version of part_000 keeps the fields on the pages of the
    PDF: if every field of the template's envelope lay within the old
    page count, then after a return every field of that envelope lies
    within the new page count. *)
Theorem replaceTemplatePdf_part_000_keeps_fields_on_pages
    (o : ReplaceTemplatePdfOptions) (m : Machine Store)
    (res : ReplaceTemplatePdfResult) (m' : Machine Store) :
  replaceTemplatePdf_part_000' o m = (Done res, m') ->
  exists t,
    pageCountsOn' o (mem m)
    = Some (t, (oldPageCount res, newPageCount res)) /\
    (fieldsWithin (envelopeId t) (oldPageCount res) (mem m) ->
     fieldsWithin (envelopeId t) (newPageCount res) (mem m')).
Proof.
  intros H. apply part_000_done in H as (t & P & _ & _ & F & _).
  exists t. split; [exact P|]. intros W f I E. rewrite F in I.
  apply filter_In in I as (I & K).
  destruct (newPageCount res <? oldPageCount res) eqn:L; cbn [andb] in K.
  - destruct (Field.page f >? newPageCount res) eqn:G;
      [|rewrite Z.gtb_ltb in G; apply Z.ltb_ge in G; exact G].
    rewrite id_in_map_filter in K; [discriminate|exact I|].
    unfold onRemovedPage. rewrite G, E, String.eqb_refl. reflexivity.
  - apply Z.ltb_ge in L. specialize (W f I E). lia.
Qed.

(** X23. The two versions agree where the first one accepts: the
    version of replace-template-pdf.ts returns a template exactly when
    the version of part_000 returns it with equal page counts, the two
    leave the same store, and then no field is deleted. *)
Theorem replaceTemplatePdf_versions_agree (o : ReplaceTemplatePdfOptions)
    (m : Machine Store) :
  (forall t' m',
     replaceTemplatePdf' o m = (Done t', m') ->
     exists n,
       replaceTemplatePdf_part_000' o m
       = (Done {| template := t'; oldPageCount := n; newPageCount := n;
                  deletedFieldsCount := 0 |}, m')) /\
  (forall res m',
     replaceTemplatePdf_part_000' o m = (Done res, m') ->
     oldPageCount res = newPageCount res ->
     replaceTemplatePdf' o m = (Done (template res), m') /\
     deletedFieldsCount res = 0).
Proof.
  unfold TemplatePdf.replaceTemplatePdf,
    TemplatePdf.replaceTemplatePdf_part_000, pbind.
  destruct (loadPageCounts' o m) as [[[t [a b]]|e] m1];
    [|split; intros; discriminate].
  cbn [fst snd]. split.
  - intros t' m' H. destruct (a =? b) eqn:E; cbn [negb] in H;
      [|discriminate].
    apply Z.eqb_eq in E. subst b. exists a.
    rewrite Z.ltb_irrefl. unfold pret at 1. now rewrite H.
  - intros res m' H E.
    destruct (b <? a) eqn:L.
    + exfalso.
      match type of H with
      | (let (_, _) := ?X in _) = _ => destruct X as [[c|e] m2]
      end; [|discriminate].
      destruct (repoint' o t m2) as [[t'|e] m3]; [|discriminate].
      inversion H; subst. cbn in E. subst b.
      rewrite Z.ltb_irrefl in L. discriminate.
    + unfold pret at 1 in H.
      destruct (repoint' o t m1) as [[t'|e] m3] eqn:R; [|discriminate].
      inversion H; subst. cbn in E |- *. subst b.
      rewrite Z.eqb_refl. cbn [negb]. auto.
Qed.

(** X24. The version of part_000 accepts a new PDF with any number of
    pages: when no call fails, the new document data exists, both PDFs
    load, the template's envelope item exists and [getTemplateById]
    gives a template on the store with the PDF replaced, it returns
    that template with the two page counts and the number of fields
    deleted, and leaves that store. Field ids are unique. *)
Theorem replaceTemplatePdf_part_000_returns (o : ReplaceTemplatePdfOptions)
    (m : Machine Store) (t : Template) (a b : Z) (t' : Template) :
  calm m ->
  NoDup (map Field.id (fields (mem m))) ->
  pageCountsOn' o (mem m) = Some (t, (a, b)) ->
  itemExists t (mem m) = true ->
  getTemplateById (o_id o) (userId o) (teamId o)
    (replaced o t a b (mem m)) = Some t' ->
  fst (replaceTemplatePdf_part_000' o m)
  = Done {| template := t'; oldPageCount := a; newPageCount := b;
            deletedFieldsCount :=
              Z.of_nat (List.length (fields (mem m)))
              - Z.of_nat (List.length (pruned (envelopeId t) a b (mem m))) |}
  /\
  mem (snd (replaceTemplatePdf_part_000' o m)) = replaced o t a b (mem m).
Proof.
  intros Hc U P Ex G.
  enough (E : exists m',
             replaceTemplatePdf_part_000' o m
             = (Done {| template := t'; oldPageCount := a;
                        newPageCount := b;
                        deletedFieldsCount :=
                          Z.of_nat (List.length (fields (mem m)))
                          - Z.of_nat (List.length
                                        (pruned (envelopeId t) a b (mem m)))
                     |}, m') /\
             mem m' = replaced o t a b (mem m))
    by (destruct E as (m' & -> & E); auto).
  unfold TemplatePdf.replaceTemplatePdf_part_000.
  unfold pbind at 1.
  destruct (loadPageCounts' o m) as [r1 m1] eqn:H1.
  destruct (@loadPageCounts_found o _ _ _ _ P H1) as (R & _ & C).
  rewrite (C Hc). cbn [fst snd]. unfold pbind at 1.
  match goal with
  | |- context [let (_, _) := ?X in _] => destruct X as [r2 m2] eqn:H2
  end.
  apply prune_inv in H2 as (D2 & I2 & F2 & C2 & _ & N2 & K2).
  destruct (K2 (reads_calm R Hc)) as (Hc2 & c & ->).
  destruct (N2 c eq_refl) as (Fl & Ec).
  destruct R as (Rm & _ & _). rewrite Rm in *.
  rewrite pruned_by_ids in Fl by exact U.
  assert (S : set_envelopeItems (repointed o t (mem m2)) (mem m2)
              = replaced o t a b (mem m)).
  { unfold set_envelopeItems, replaced.
    rewrite D2, Fl, (@repointed_same_items o t _ _ I2). reflexivity. }
  destruct (@repoint_calm o t m2 t' Hc2) as (Rf & Rs).
  { unfold itemExists in *. now rewrite I2. }
  { now rewrite S. }
  unfold pbind. destruct (repoint' o t m2) as [r3 m3].
  cbn [fst snd] in Rf, Rs. subst r3. unfold pret.
  exists m3. rewrite Rs, S, Ec, Fl. auto.
Qed.

End ReplaceTemplatePdfFacts.

Lemma replaceTemplatePdf_repoints_after_validation_witness :
  TemplatePdf.fields
    (mem (snd (sample_replaceTemplatePdf "data_three_pages"
                 (sound sample_template_store))))
  = TemplatePdf.fields sample_template_store /\
  sample_getTemplateById (ByEnvelopeId "envelope_1") 7 1
    (mem (snd (sample_replaceTemplatePdf "data_three_pages"
                 (sound sample_template_store))))
  = Some (sample_template "data_three_pages" "fgh").
Proof.
  destruct (@replaceTemplatePdf_repoints_after_validation
              sample_getTemplateById sample_getFileServerSide
              sample_getPageCount false (sample_replace "data_three_pages")
              (sound sample_template_store)
              (fst (sample_replaceTemplatePdf "data_three_pages"
                      (sound sample_template_store)))
              (snd (sample_replaceTemplatePdf "data_three_pages"
                      (sound sample_template_store))))
    as (_ & F & _ & N).
  - apply surjective_pairing.
  - split; [exact F|].
    exact (proj2 (N (sample_template "data_three_pages" "fgh") eq_refl)).
Defined.

Lemma replaceTemplatePdf_refuses_witness :
  fst (sample_replaceTemplatePdf "data_two_pages"
         (sound sample_template_store))
  = Failed (TemplatePdf.AppError TemplatePdf.INVALID_REQUEST
              (TemplatePdf.Page_count_mismatch 3 2)) /\
  mem (snd (sample_replaceTemplatePdf "data_two_pages"
              (sound sample_template_store)))
  = sample_template_store.
Proof.
  destruct (@replaceTemplatePdf_refuses
              sample_getTemplateById sample_getFileServerSide
              sample_getPageCount false (sample_replace "data_two_pages")
              (TemplatePdf.AppError TemplatePdf.INVALID_REQUEST
                 (TemplatePdf.Page_count_mismatch 3 2))
              (sound sample_template_store)
              (fst (sample_replaceTemplatePdf "data_two_pages"
                      (sound sample_template_store)))
              (snd (sample_replaceTemplatePdf "data_two_pages"
                      (sound sample_template_store))))
    as (M & _ & C).
  - apply (@TemplatePdf.refuses_page_count
             sample_getTemplateById sample_getFileServerSide
             sample_getPageCount (sample_replace "data_two_pages")
             sample_template_store (sample_template "data_old" "abc") 3 2).
    + reflexivity.
    + discriminate.
  - apply surjective_pairing.
  - split; [apply C; apply calm_sound|exact M].
Defined.

Lemma sample_template_ids_unique :
  NoDup (map TemplatePdf.Field.id (TemplatePdf.fields sample_template_store)).
Proof.
  cbn. repeat constructor; cbn; intuition discriminate.
Defined.

Lemma replaceTemplatePdf_part_000_deletes_removed_pages_witness :
  map TemplatePdf.Field.id
    (TemplatePdf.fields
       (mem (snd (sample_replaceTemplatePdf_part_000 "data_two_pages"
                    (sound sample_template_store)))))
  = [1; 3].
Proof.
  destruct (@replaceTemplatePdf_part_000_deletes_removed_pages
              sample_getTemplateById sample_getFileServerSide
              sample_getPageCount false (sample_replace "data_two_pages")
              (sound sample_template_store)
              {| TemplatePdf.template :=
                   sample_template "data_two_pages" "de";
                 TemplatePdf.oldPageCount := 3;
                 TemplatePdf.newPageCount := 2;
                 TemplatePdf.deletedFieldsCount := 1 |}
              (snd (sample_replaceTemplatePdf_part_000 "data_two_pages"
                      (sound sample_template_store))))
    as (t & P & M & _).
  - exact sample_template_ids_unique.
  - vm_compute. reflexivity.
  - rewrite M. vm_compute in P. inversion P; subst t. reflexivity.
Defined.

Lemma replaceTemplatePdf_part_000_keeps_fields_on_pages_witness :
  TemplatePdf.fieldsWithin "envelope_1" 2
    (mem (snd (sample_replaceTemplatePdf_part_000 "data_two_pages"
                 (sound sample_template_store)))).
Proof.
  destruct (@replaceTemplatePdf_part_000_keeps_fields_on_pages
              sample_getTemplateById sample_getFileServerSide
              sample_getPageCount false (sample_replace "data_two_pages")
              (sound sample_template_store)
              {| TemplatePdf.template :=
                   sample_template "data_two_pages" "de";
                 TemplatePdf.oldPageCount := 3;
                 TemplatePdf.newPageCount := 2;
                 TemplatePdf.deletedFieldsCount := 1 |}
              (snd (sample_replaceTemplatePdf_part_000 "data_two_pages"
                      (sound sample_template_store))))
    as (t & P & W).
  - vm_compute. reflexivity.
  - vm_compute in P. inversion P; subst t. apply W.
    intros f I E. cbn in I.
    destruct I as [<-|[<-|[<-|[]]]]; cbn; lia.
Defined.

Lemma replaceTemplatePdf_versions_agree_witness :
  exists n,
    sample_replaceTemplatePdf_part_000 "data_three_pages"
      (sound sample_template_store)
    = (Done {| TemplatePdf.template :=
                 sample_template "data_three_pages" "fgh";
               TemplatePdf.oldPageCount := n;
               TemplatePdf.newPageCount := n;
               TemplatePdf.deletedFieldsCount := 0 |},
       snd (sample_replaceTemplatePdf "data_three_pages"
              (sound sample_template_store))).
Proof.
  apply (proj1 (@replaceTemplatePdf_versions_agree
                  sample_getTemplateById sample_getFileServerSide
                  sample_getPageCount false
                  (sample_replace "data_three_pages")
                  (sound sample_template_store))).
  vm_compute. reflexivity.
Defined.

Lemma replaceTemplatePdf_part_000_returns_witness :
  fst (sample_replaceTemplatePdf_part_000 "data_two_pages"
         (sound sample_template_store))
  = Done {| TemplatePdf.template := sample_template "data_two_pages" "de";
            TemplatePdf.oldPageCount := 3;
            TemplatePdf.newPageCount := 2;
            TemplatePdf.deletedFieldsCount := 1 |}.
Proof.
  apply (proj1 (@replaceTemplatePdf_part_000_returns
                  sample_getTemplateById sample_getFileServerSide
                  sample_getPageCount false
                  (sample_replace "data_two_pages")
                  (sound sample_template_store)
                  (sample_template "data_old" "abc") 3 2
                  (sample_template "data_two_pages" "de")
                  (@calm_sound _ sample_template_store)
                  sample_template_ids_unique
                  eq_refl eq_refl eq_refl)).
Defined.
